(** * Gauche virtual machine: stack promotion, control operators, port locks

    A shallow embedding of the parts of [src/vm.c] and [src/gauche/port.h]
    that the specification of the execution core talks about, and the
    properties of the specification proved (or refuted) against them.

    Conventions of the embedding.

    - C pointers to frames and to value slots are block pointers ([ptr]):
      the value stack of the VM is one block, every [SCM_NEW2] allocation
      is a fresh block.  [IN_STACK_P] is the range test of the source on
      the stack block and false everywhere else.
    - Structures are records, read and written through typed stores
      ([conts], [envs], [eps]); raw value slots live in [words].
    - C functions that read or write [theVM] take the VM state and return
      the new one; a function that may raise, long-jump, abort or spin
      returns an [outcome].
    - The build modelled is the one without the unboxed flonum side stack
      ([GAUCHE_FFX] off), so [SCM_FLONUM_ENSURE_MEM] is the identity. *)

From Stdlib Require Import ZArith List Lia Bool String Arith.
Import ListNotations.
Open Scope Z_scope.

(* ================================================================= *)
(** ** Port locks ([gauche/port.h]) *)

Module Port.

(** A VM is named by its address. *)
Definition vmref := nat.

(** Operations performed on the internal fast lock [p->lock]. *)
Inductive lock_event : Type :=
| FASTLOCK_LOCK
| FASTLOCK_UNLOCK.

(** The three fields of [ScmPort] the lock macros use; [lock] is the
    history of operations on the system-level lock. *)
Record ScmPort : Type := mkPort {
  lockOwner : option vmref;
  lockCount : Z;
  lock : list lock_event
}.

Definition INT_MAX : Z := 2147483647.
Definition INT_MIN : Z := -2147483648.

(** [lockCount] is a C [int]; increments and decrements are taken in
    32-bit two's complement. *)
Definition wrap_int (x : Z) : Z := (x - INT_MIN) mod 2 ^ 32 + INT_MIN.

Definition owner_eqb (o : option vmref) (vm : vmref) : bool :=
  match o with
  | Some v => Nat.eqb v vm
  | None => false
  end.

Section Locking.

(** [terminated v] is [v->state == SCM_VM_TERMINATED]. *)
Variable terminated : vmref -> bool.
(** What the other threads do to the port while this one is in
    [Scm_YieldCPU]. *)
Variable Scm_YieldCPU : ScmPort -> ScmPort.

(** One turn of the [for (;;)] loop of [PORT_LOCK]; [inr] is [break]. *)
Definition PORT_LOCK_turn (p : ScmPort) (vm : vmref) : ScmPort + ScmPort :=
  let p1 := mkPort (lockOwner p) (lockCount p) (lock p ++ [FASTLOCK_LOCK]) in
  let owner__ := lockOwner p1 in
  let p2 :=
    match owner__ with
    | None => mkPort (Some vm) 1 (lock p1)
    | Some o => if terminated o then mkPort (Some vm) 1 (lock p1) else p1
    end in
  let p3 := mkPort (lockOwner p2) (lockCount p2) (lock p2 ++ [FASTLOCK_UNLOCK]) in
  if owner_eqb (lockOwner p3) vm then inr p3 else inl (Scm_YieldCPU p3).

Fixpoint PORT_LOCK_spin (fuel : nat) (p : ScmPort) (vm : vmref) : option ScmPort :=
  match fuel with
  | O => None
  | S fuel' =>
      match PORT_LOCK_turn p vm with
      | inr p' => Some p'
      | inl p' => PORT_LOCK_spin fuel' p' vm
      end
  end.

(** [PORT_LOCK(p, vm)]; [None] when the loop is still spinning after
    [fuel] turns. *)
Definition PORT_LOCK (fuel : nat) (p : ScmPort) (vm : vmref) : option ScmPort :=
  if negb (owner_eqb (lockOwner p) vm) then PORT_LOCK_spin fuel p vm
  else Some (mkPort (lockOwner p) (wrap_int (lockCount p + 1)) (lock p)).

End Locking.

(** [PORT_UNLOCK(p)]: [if (--p->lockCount <= 0) p->lockOwner = NULL;] *)
Definition PORT_UNLOCK (p : ScmPort) : ScmPort :=
  let c := wrap_int (lockCount p - 1) in
  if c <=? 0 then mkPort None c (lock p)
  else mkPort (lockOwner p) c (lock p).

(** [PORT_LOCKED(p, vm)] *)
Definition PORT_LOCKED (p : ScmPort) (vm : vmref) : bool :=
  owner_eqb (lockOwner p) vm.

Lemma wrap_int_id (x : Z) : INT_MIN <= x <= INT_MAX -> wrap_int x = x.
Proof.
  unfold wrap_int, INT_MIN, INT_MAX. intros H.
  rewrite Z.mod_small; lia.
Qed.

Lemma owner_eqb_refl (vm : vmref) : owner_eqb (Some vm) vm = true.
Proof. simpl. apply Nat.eqb_refl. Qed.

(** C9. When [vm] already owns the lock of [p], [PORT_LOCK] returns at
    once, whatever the other threads do and with no turn of the spin
    loop: the count goes up by one, the owner stays, and the internal
    fast lock is not operated.  [PORT_UNLOCK] takes one off the count,
    never operates the fast lock, and clears the owner exactly when the
    count has come down to zero. *)
Theorem recursive_port_lock
  (terminated : vmref -> bool) (yield : ScmPort -> ScmPort)
  (fuel : nat) (p : ScmPort) (vm : vmref)
  (Hown : lockOwner p = Some vm)
  (Hcnt : 1 <= lockCount p < INT_MAX) :
  (exists p', PORT_LOCK terminated yield fuel p vm = Some p'
     /\ lockCount p' = lockCount p + 1
     /\ lockOwner p' = Some vm
     /\ lock p' = lock p)
  /\ lockCount (PORT_UNLOCK p) = lockCount p - 1
  /\ lock (PORT_UNLOCK p) = lock p
  /\ (lockOwner (PORT_UNLOCK p) = None <-> lockCount (PORT_UNLOCK p) = 0)
  /\ (lockCount (PORT_UNLOCK p) <> 0 -> lockOwner (PORT_UNLOCK p) = Some vm).
Proof.
  assert (Hdec : wrap_int (lockCount p - 1) = lockCount p - 1)
    by (apply wrap_int_id; unfold INT_MIN, INT_MAX in *; lia).
  split.
  - exists (mkPort (lockOwner p) (wrap_int (lockCount p + 1)) (lock p)).
    unfold PORT_LOCK. rewrite Hown, owner_eqb_refl. simpl.
    repeat split.
    apply wrap_int_id. unfold INT_MIN, INT_MAX in *. lia.
  - unfold PORT_UNLOCK. rewrite Hdec.
    destruct (Z.leb_spec (lockCount p - 1) 0) as [Hle | Hgt]; simpl.
    + repeat split; try reflexivity; try lia; intros; try lia.
    + repeat split; try reflexivity; try lia; intros; try lia.
      * rewrite Hown in H. discriminate.
      * exact Hown.
Qed.

End Port.

(** The port of a thread that holds it twice takes a third hold and
    gives it back. *)
Lemma recursive_port_lock_witness :
  let p := Port.mkPort (Some 7%nat) 2 [] in
  (exists p', Port.PORT_LOCK (fun _ => false) (fun q => q) 0 p 7%nat = Some p'
     /\ Port.lockCount p' = 3
     /\ Port.lockOwner p' = Some 7%nat
     /\ Port.lock p' = [])
  /\ Port.lockCount (Port.PORT_UNLOCK p) = 1
  /\ Port.lock (Port.PORT_UNLOCK p) = []
  /\ (Port.lockOwner (Port.PORT_UNLOCK p) = None <-> Port.lockCount (Port.PORT_UNLOCK p) = 0)
  /\ (Port.lockCount (Port.PORT_UNLOCK p) <> 0 -> Port.lockOwner (Port.PORT_UNLOCK p) = Some 7%nat).
Proof.
  apply (Port.recursive_port_lock (fun _ => false) (fun q => q) 0
           (Port.mkPort (Some 7%nat) 2 []) 7%nat).
  - reflexivity.
  - unfold Port.INT_MAX; simpl; lia.
Defined.

(* ================================================================= *)
(** ** Scheme objects *)

(** C functions installed as the body of a [ScmSubr]. *)
Inductive ScmSubrProc : Type :=
| throw_continuation_body
| default_exception_handler_body
| foreign_subr (f : nat).

(** The distinctions among [ScmObj] the VM observes.  Heap objects carry
    their identity: a pair is named by its cell, a procedure or a
    condition by a number, a subr by its C function and its [data]
    (for a continuation, the address of its escape point). *)
Inductive ScmObj : Type :=
| SCM_NIL
| SCM_FALSE
| SCM_UNDEFINED
| SCM_UNBOUND
| SCM_MAKE_INT (n : Z)
| SCM_PROCEDURE (p : nat)
| SCM_SUBR (func : ScmSubrProc) (data : option nat) (info : string)
| SCM_CONDITION (serious : bool) (c : nat)
| SCM_PAIR (cell : nat) (car cdr : ScmObj).

Lemma ScmSubrProc_eq_dec (x y : ScmSubrProc) : {x = y} + {x <> y}.
Proof. decide equality. apply Nat.eq_dec. Defined.

Lemma ScmObj_eq_dec (x y : ScmObj) : {x = y} + {x <> y}.
Proof.
  decide equality;
    try apply Z.eq_dec; try apply Nat.eq_dec; try apply string_dec;
    try apply Bool.bool_dec; try apply ScmSubrProc_eq_dec.
  decide equality. apply Nat.eq_dec.
Defined.

(** [SCM_EQ(x, y)]: pointer identity. *)
Definition SCM_EQ (x y : ScmObj) : bool :=
  if ScmObj_eq_dec x y then true else false.

Definition SCM_PAIRP (x : ScmObj) : bool :=
  match x with SCM_PAIR _ _ _ => true | _ => false end.

Definition SCM_FALSEP (x : ScmObj) : bool :=
  match x with SCM_FALSE => true | _ => false end.

(** [SCM_CAR] and [SCM_CDR] are only used on pairs; elsewhere the model
    answers [SCM_UNBOUND]. *)
Definition SCM_CAR (x : ScmObj) : ScmObj :=
  match x with SCM_PAIR _ a _ => a | _ => SCM_UNBOUND end.
Definition SCM_CDR (x : ScmObj) : ScmObj :=
  match x with SCM_PAIR _ _ d => d | _ => SCM_UNBOUND end.
Definition SCM_CAAR (x : ScmObj) : ScmObj := SCM_CAR (SCM_CAR x).
Definition SCM_CDAR (x : ScmObj) : ScmObj := SCM_CDR (SCM_CAR x).


(** The list primitives of [list.c] the VM calls.  They are not part of
    the sources at hand; they are written after their Scheme meaning
    ([length], [memq], [reverse]). *)

(** [Scm_Length]: the length of a proper list, negative otherwise. *)
Fixpoint Scm_Length (l : ScmObj) : Z :=
  match l with
  | SCM_NIL => 0
  | SCM_PAIR _ _ d => let n := Scm_Length d in if n <? 0 then -1 else n + 1
  | _ => -1
  end.

(** [Scm_Memq(obj, list)]: the first tail of [list] whose car is [obj],
    or [SCM_FALSE]. *)
Fixpoint Scm_Memq (obj l : ScmObj) : ScmObj :=
  match l with
  | SCM_PAIR _ a d => if SCM_EQ obj a then l else Scm_Memq obj d
  | _ => SCM_FALSE
  end.

(** Allocation of pairs: the state is the next free cell. *)
Definition Scm_Cons (a d : ScmObj) (cell : nat) : ScmObj * nat :=
  (SCM_PAIR cell a d, S cell).

Fixpoint Scm_Reverse2 (l tail : ScmObj) (cell : nat) : ScmObj * nat :=
  match l with
  | SCM_PAIR _ a d => let (t, cell') := Scm_Cons a tail cell in Scm_Reverse2 d t cell'
  | _ => (tail, cell)
  end.

(** [Scm_Reverse(list)], in fresh cells. *)
Definition Scm_Reverse (l : ScmObj) (cell : nat) : ScmObj * nat :=
  Scm_Reverse2 l SCM_NIL cell.

(** The list being built by [SCM_APPEND1(h, t, obj)]: the cells of [h]
    stay, a fresh cell holding [obj] goes to the end. *)
Fixpoint append1 (h : ScmObj) (last : ScmObj) : ScmObj :=
  match h with
  | SCM_PAIR c a d => SCM_PAIR c a (append1 d last)
  | _ => last
  end.

Definition SCM_APPEND1 (h obj : ScmObj) (cell : nat) : ScmObj * nat :=
  let (c, cell') := Scm_Cons obj SCM_NIL cell in (append1 h c, cell').

Definition SCM_LIST1 (a : ScmObj) (cell : nat) : ScmObj * nat :=
  Scm_Cons a SCM_NIL cell.

(** The elements of a list and its successive tails, as the
    [SCM_FOR_EACH] macro visits them. *)
Fixpoint elements (l : ScmObj) : list ScmObj :=
  match l with
  | SCM_PAIR _ a d => a :: elements d
  | _ => []
  end.

Fixpoint cells (l : ScmObj) : list ScmObj :=
  match l with
  | SCM_PAIR _ _ d => l :: cells d
  | _ => []
  end.

(* ================================================================= *)
(** ** Memory *)

(** A pointer is null, a slot of the value stack ([vm->stackBase + off])
    or a slot of an allocated block. *)
Inductive ptr : Type :=
| NULL
| STACK (off : Z)
| HEAP (block : nat) (off : Z).

Lemma ptr_eq_dec (p q : ptr) : {p = q} + {p <> q}.
Proof. decide equality; try apply Z.eq_dec; apply Nat.eq_dec. Defined.

Definition ptr_eqb (p q : ptr) : bool := if ptr_eq_dec p q then true else false.

Definition is_null (p : ptr) : bool :=
  match p with NULL => true | _ => false end.

(** [p + n] in units of [ScmObj]. *)
Definition ptr_add (p : ptr) (n : Z) : ptr :=
  match p with
  | NULL => NULL
  | STACK o => STACK (o + n)
  | HEAP b o => HEAP b (o + n)
  end.

(** [p - q] for two pointers into one block. *)
Definition ptr_diff (p q : ptr) : Z :=
  match p, q with
  | STACK a, STACK b => a - b
  | HEAP x a, HEAP y b => if Nat.eqb x y then a - b else 0
  | _, _ => 0
  end.

(** C functions used as the resume action of a host continuation. *)
Inductive ScmCContinuationProc : Type :=
| CC_dynwind_before
| CC_dynwind_body
| CC_dynwind_after
| CC_throw_cont
| CC_process_queued_requests
| CC_foreign (f : nat).

(** What a [pc] slot can hold: the static code vectors of [vm.c], the
    two-word vector [apply_rec] builds on the host stack, an address in
    a compiled code vector, or (in a host continuation) a C callback. *)
Inductive ScmPC : Type :=
| PC_TO_RETURN
| boundaryFrameMark
| apply_calls (nargs : nat)
| apply_callN
| apply_rec_code (nargs : Z)
| PC_CODE (addr : Z)
| PC_CCONT (after : ScmCContinuationProc).

(** A machine word: a slot of the stack, of a heap block, or of the
    [void *data[]] array of a host continuation. *)
Inductive word : Type :=
| W_NULL
| W_OBJ (o : ScmObj)
| W_INT (n : Z)
| W_PTR (p : ptr)
| W_EP (ep : nat)
| W_UNINIT.

Record ScmCompiledCode : Type := mkCode {
  code : Z;
  maxstack : Z
}.

(** [ScmEnvFrame]: the header that follows the bindings. *)
Record ScmEnvFrame : Type := mkEnv {
  e_up : ptr;
  e_info : ScmObj;
  e_size : Z
}.

(** [ScmContFrame]. *)
Record ScmContFrame : Type := mkCont {
  c_prev : ptr;
  c_env : ptr;
  c_argp : ptr;
  c_size : Z;
  c_pc : ScmPC;
  c_base : option ScmCompiledCode
}.

(** Sizes of the two headers in words: [sizeof(ScmContFrame)/sizeof(ScmObj)]
    for the six fields above, three for the environment header. *)
Definition CONT_FRAME_SIZE : Z := 6.
Definition ENV_HDR_SIZE : Z := 3.
Definition ENV_SIZE (size : Z) : Z := size + ENV_HDR_SIZE.

(** [ScmCStack], a record on the host stack, named by its address; its
    [prev] is the rest of the list it sits in. *)
Record ScmCStack : Type := mkCStack {
  cs_addr : nat;
  cs_cont : ptr
}.

(** [ScmEscapePoint].  Escape points are heap objects named by their
    index in [eps]; [None] is the null pointer. *)
Record ScmEscapePoint : Type := mkEP {
  ep_prev : option nat;
  ep_floating : option nat;
  ep_ehandler : ScmObj;
  ep_xhandler : ScmObj;
  ep_handlers : ScmObj;
  ep_cont : ptr;
  ep_cstack : option nat;
  ep_errorReporting : bool;
  ep_rewindBefore : bool
}.

Inductive ScmVMEscapeReason : Type :=
| SCM_VM_ESCAPE_NONE
| SCM_VM_ESCAPE_ERROR
| SCM_VM_ESCAPE_CONT.

(** The registers of [ScmVM] and the memory they point into. *)
Record ScmVM : Type := mkVM {
  pc : ScmPC;
  sp : ptr;
  val0 : ScmObj;
  vals : nat -> ScmObj;
  numVals : Z;
  env : ptr;
  cont : ptr;
  argp : ptr;
  base : option ScmCompiledCode;
  handlers : ScmObj;
  exceptionHandler : ScmObj;
  escapePoint : option nat;
  escapePointFloating : option nat;
  escapeReason : ScmVMEscapeReason;
  escapeData0 : option nat;
  escapeData1 : ScmObj;
  cstack : list ScmCStack;
  runtimeFlags : Z;
  words : ptr -> word;
  envs : ptr -> ScmEnvFrame;
  conts : ptr -> ScmContFrame;
  eps : list ScmEscapePoint;
  next_block : nat;
  next_cell : nat;
  next_cstack : nat
}.

(** Assignment to one field. *)
Definition set_pc x (vm : ScmVM) : ScmVM :=
  mkVM x (sp vm) (val0 vm) (vals vm) (numVals vm) (env vm) (cont vm) (argp
    vm) (base vm) (handlers vm) (exceptionHandler vm) (escapePoint vm)
    (escapePointFloating vm) (escapeReason vm) (escapeData0 vm) (escapeData1
    vm) (cstack vm) (runtimeFlags vm) (words vm) (envs vm) (conts vm) (eps vm)
    (next_block vm) (next_cell vm) (next_cstack vm).
Definition set_sp x (vm : ScmVM) : ScmVM :=
  mkVM (pc vm) x (val0 vm) (vals vm) (numVals vm) (env vm) (cont vm) (argp
    vm) (base vm) (handlers vm) (exceptionHandler vm) (escapePoint vm)
    (escapePointFloating vm) (escapeReason vm) (escapeData0 vm) (escapeData1
    vm) (cstack vm) (runtimeFlags vm) (words vm) (envs vm) (conts vm) (eps vm)
    (next_block vm) (next_cell vm) (next_cstack vm).
Definition set_val0 x (vm : ScmVM) : ScmVM :=
  mkVM (pc vm) (sp vm) x (vals vm) (numVals vm) (env vm) (cont vm) (argp vm)
    (base vm) (handlers vm) (exceptionHandler vm) (escapePoint vm)
    (escapePointFloating vm) (escapeReason vm) (escapeData0 vm) (escapeData1
    vm) (cstack vm) (runtimeFlags vm) (words vm) (envs vm) (conts vm) (eps vm)
    (next_block vm) (next_cell vm) (next_cstack vm).
Definition set_vals x (vm : ScmVM) : ScmVM :=
  mkVM (pc vm) (sp vm) (val0 vm) x (numVals vm) (env vm) (cont vm) (argp vm)
    (base vm) (handlers vm) (exceptionHandler vm) (escapePoint vm)
    (escapePointFloating vm) (escapeReason vm) (escapeData0 vm) (escapeData1
    vm) (cstack vm) (runtimeFlags vm) (words vm) (envs vm) (conts vm) (eps vm)
    (next_block vm) (next_cell vm) (next_cstack vm).
Definition set_numVals x (vm : ScmVM) : ScmVM :=
  mkVM (pc vm) (sp vm) (val0 vm) (vals vm) x (env vm) (cont vm) (argp vm)
    (base vm) (handlers vm) (exceptionHandler vm) (escapePoint vm)
    (escapePointFloating vm) (escapeReason vm) (escapeData0 vm) (escapeData1
    vm) (cstack vm) (runtimeFlags vm) (words vm) (envs vm) (conts vm) (eps vm)
    (next_block vm) (next_cell vm) (next_cstack vm).
Definition set_env x (vm : ScmVM) : ScmVM :=
  mkVM (pc vm) (sp vm) (val0 vm) (vals vm) (numVals vm) x (cont vm) (argp
    vm) (base vm) (handlers vm) (exceptionHandler vm) (escapePoint vm)
    (escapePointFloating vm) (escapeReason vm) (escapeData0 vm) (escapeData1
    vm) (cstack vm) (runtimeFlags vm) (words vm) (envs vm) (conts vm) (eps vm)
    (next_block vm) (next_cell vm) (next_cstack vm).
Definition set_cont x (vm : ScmVM) : ScmVM :=
  mkVM (pc vm) (sp vm) (val0 vm) (vals vm) (numVals vm) (env vm) x (argp vm)
    (base vm) (handlers vm) (exceptionHandler vm) (escapePoint vm)
    (escapePointFloating vm) (escapeReason vm) (escapeData0 vm) (escapeData1
    vm) (cstack vm) (runtimeFlags vm) (words vm) (envs vm) (conts vm) (eps vm)
    (next_block vm) (next_cell vm) (next_cstack vm).
Definition set_argp x (vm : ScmVM) : ScmVM :=
  mkVM (pc vm) (sp vm) (val0 vm) (vals vm) (numVals vm) (env vm) (cont vm) x
    (base vm) (handlers vm) (exceptionHandler vm) (escapePoint vm)
    (escapePointFloating vm) (escapeReason vm) (escapeData0 vm) (escapeData1
    vm) (cstack vm) (runtimeFlags vm) (words vm) (envs vm) (conts vm) (eps vm)
    (next_block vm) (next_cell vm) (next_cstack vm).
Definition set_base x (vm : ScmVM) : ScmVM :=
  mkVM (pc vm) (sp vm) (val0 vm) (vals vm) (numVals vm) (env vm) (cont vm)
    (argp vm) x (handlers vm) (exceptionHandler vm) (escapePoint vm)
    (escapePointFloating vm) (escapeReason vm) (escapeData0 vm) (escapeData1
    vm) (cstack vm) (runtimeFlags vm) (words vm) (envs vm) (conts vm) (eps vm)
    (next_block vm) (next_cell vm) (next_cstack vm).
Definition set_handlers x (vm : ScmVM) : ScmVM :=
  mkVM (pc vm) (sp vm) (val0 vm) (vals vm) (numVals vm) (env vm) (cont vm)
    (argp vm) (base vm) x (exceptionHandler vm) (escapePoint vm)
    (escapePointFloating vm) (escapeReason vm) (escapeData0 vm) (escapeData1
    vm) (cstack vm) (runtimeFlags vm) (words vm) (envs vm) (conts vm) (eps vm)
    (next_block vm) (next_cell vm) (next_cstack vm).
Definition set_exceptionHandler x (vm : ScmVM) : ScmVM :=
  mkVM (pc vm) (sp vm) (val0 vm) (vals vm) (numVals vm) (env vm) (cont vm)
    (argp vm) (base vm) (handlers vm) x (escapePoint vm) (escapePointFloating
    vm) (escapeReason vm) (escapeData0 vm) (escapeData1 vm) (cstack vm)
    (runtimeFlags vm) (words vm) (envs vm) (conts vm) (eps vm) (next_block vm)
    (next_cell vm) (next_cstack vm).
Definition set_escapePoint x (vm : ScmVM) : ScmVM :=
  mkVM (pc vm) (sp vm) (val0 vm) (vals vm) (numVals vm) (env vm) (cont vm)
    (argp vm) (base vm) (handlers vm) (exceptionHandler vm) x
    (escapePointFloating vm) (escapeReason vm) (escapeData0 vm) (escapeData1
    vm) (cstack vm) (runtimeFlags vm) (words vm) (envs vm) (conts vm) (eps vm)
    (next_block vm) (next_cell vm) (next_cstack vm).
Definition set_escapePointFloating x (vm : ScmVM) : ScmVM :=
  mkVM (pc vm) (sp vm) (val0 vm) (vals vm) (numVals vm) (env vm) (cont vm)
    (argp vm) (base vm) (handlers vm) (exceptionHandler vm) (escapePoint vm) x
    (escapeReason vm) (escapeData0 vm) (escapeData1 vm) (cstack vm)
    (runtimeFlags vm) (words vm) (envs vm) (conts vm) (eps vm) (next_block vm)
    (next_cell vm) (next_cstack vm).
Definition set_escapeReason x (vm : ScmVM) : ScmVM :=
  mkVM (pc vm) (sp vm) (val0 vm) (vals vm) (numVals vm) (env vm) (cont vm)
    (argp vm) (base vm) (handlers vm) (exceptionHandler vm) (escapePoint vm)
    (escapePointFloating vm) x (escapeData0 vm) (escapeData1 vm) (cstack vm)
    (runtimeFlags vm) (words vm) (envs vm) (conts vm) (eps vm) (next_block vm)
    (next_cell vm) (next_cstack vm).
Definition set_escapeData0 x (vm : ScmVM) : ScmVM :=
  mkVM (pc vm) (sp vm) (val0 vm) (vals vm) (numVals vm) (env vm) (cont vm)
    (argp vm) (base vm) (handlers vm) (exceptionHandler vm) (escapePoint vm)
    (escapePointFloating vm) (escapeReason vm) x (escapeData1 vm) (cstack vm)
    (runtimeFlags vm) (words vm) (envs vm) (conts vm) (eps vm) (next_block vm)
    (next_cell vm) (next_cstack vm).
Definition set_escapeData1 x (vm : ScmVM) : ScmVM :=
  mkVM (pc vm) (sp vm) (val0 vm) (vals vm) (numVals vm) (env vm) (cont vm)
    (argp vm) (base vm) (handlers vm) (exceptionHandler vm) (escapePoint vm)
    (escapePointFloating vm) (escapeReason vm) (escapeData0 vm) x (cstack vm)
    (runtimeFlags vm) (words vm) (envs vm) (conts vm) (eps vm) (next_block vm)
    (next_cell vm) (next_cstack vm).
Definition set_cstack x (vm : ScmVM) : ScmVM :=
  mkVM (pc vm) (sp vm) (val0 vm) (vals vm) (numVals vm) (env vm) (cont vm)
    (argp vm) (base vm) (handlers vm) (exceptionHandler vm) (escapePoint vm)
    (escapePointFloating vm) (escapeReason vm) (escapeData0 vm) (escapeData1
    vm) x (runtimeFlags vm) (words vm) (envs vm) (conts vm) (eps vm)
    (next_block vm) (next_cell vm) (next_cstack vm).
Definition set_runtimeFlags x (vm : ScmVM) : ScmVM :=
  mkVM (pc vm) (sp vm) (val0 vm) (vals vm) (numVals vm) (env vm) (cont vm)
    (argp vm) (base vm) (handlers vm) (exceptionHandler vm) (escapePoint vm)
    (escapePointFloating vm) (escapeReason vm) (escapeData0 vm) (escapeData1
    vm) (cstack vm) x (words vm) (envs vm) (conts vm) (eps vm) (next_block vm)
    (next_cell vm) (next_cstack vm).
Definition set_words x (vm : ScmVM) : ScmVM :=
  mkVM (pc vm) (sp vm) (val0 vm) (vals vm) (numVals vm) (env vm) (cont vm)
    (argp vm) (base vm) (handlers vm) (exceptionHandler vm) (escapePoint vm)
    (escapePointFloating vm) (escapeReason vm) (escapeData0 vm) (escapeData1
    vm) (cstack vm) (runtimeFlags vm) x (envs vm) (conts vm) (eps vm)
    (next_block vm) (next_cell vm) (next_cstack vm).
Definition set_envs x (vm : ScmVM) : ScmVM :=
  mkVM (pc vm) (sp vm) (val0 vm) (vals vm) (numVals vm) (env vm) (cont vm)
    (argp vm) (base vm) (handlers vm) (exceptionHandler vm) (escapePoint vm)
    (escapePointFloating vm) (escapeReason vm) (escapeData0 vm) (escapeData1
    vm) (cstack vm) (runtimeFlags vm) (words vm) x (conts vm) (eps vm)
    (next_block vm) (next_cell vm) (next_cstack vm).
Definition set_conts x (vm : ScmVM) : ScmVM :=
  mkVM (pc vm) (sp vm) (val0 vm) (vals vm) (numVals vm) (env vm) (cont vm)
    (argp vm) (base vm) (handlers vm) (exceptionHandler vm) (escapePoint vm)
    (escapePointFloating vm) (escapeReason vm) (escapeData0 vm) (escapeData1
    vm) (cstack vm) (runtimeFlags vm) (words vm) (envs vm) x (eps vm)
    (next_block vm) (next_cell vm) (next_cstack vm).
Definition set_eps x (vm : ScmVM) : ScmVM :=
  mkVM (pc vm) (sp vm) (val0 vm) (vals vm) (numVals vm) (env vm) (cont vm)
    (argp vm) (base vm) (handlers vm) (exceptionHandler vm) (escapePoint vm)
    (escapePointFloating vm) (escapeReason vm) (escapeData0 vm) (escapeData1
    vm) (cstack vm) (runtimeFlags vm) (words vm) (envs vm) (conts vm) x
    (next_block vm) (next_cell vm) (next_cstack vm).
Definition set_next_block x (vm : ScmVM) : ScmVM :=
  mkVM (pc vm) (sp vm) (val0 vm) (vals vm) (numVals vm) (env vm) (cont vm)
    (argp vm) (base vm) (handlers vm) (exceptionHandler vm) (escapePoint vm)
    (escapePointFloating vm) (escapeReason vm) (escapeData0 vm) (escapeData1
    vm) (cstack vm) (runtimeFlags vm) (words vm) (envs vm) (conts vm) (eps vm)
    x (next_cell vm) (next_cstack vm).
Definition set_next_cell x (vm : ScmVM) : ScmVM :=
  mkVM (pc vm) (sp vm) (val0 vm) (vals vm) (numVals vm) (env vm) (cont vm)
    (argp vm) (base vm) (handlers vm) (exceptionHandler vm) (escapePoint vm)
    (escapePointFloating vm) (escapeReason vm) (escapeData0 vm) (escapeData1
    vm) (cstack vm) (runtimeFlags vm) (words vm) (envs vm) (conts vm) (eps vm)
    (next_block vm) x (next_cstack vm).
Definition set_next_cstack x (vm : ScmVM) : ScmVM :=
  mkVM (pc vm) (sp vm) (val0 vm) (vals vm) (numVals vm) (env vm) (cont vm)
    (argp vm) (base vm) (handlers vm) (exceptionHandler vm) (escapePoint vm)
    (escapePointFloating vm) (escapeReason vm) (escapeData0 vm) (escapeData1
    vm) (cstack vm) (runtimeFlags vm) (words vm) (envs vm) (conts vm) (eps vm)
    (next_block vm) (next_cell vm) x.

(** How a C function of the VM can end. *)
Inductive outcome (A : Type) : Type :=
| Returns (a : A) (vm : ScmVM)
| Raises (message : string) (irritants : list ScmObj) (vm : ScmVM)
| LongJmp (vm : ScmVM)
| Exits (status : Z)
| Panics (message : string)
| Spins.

Arguments Returns {A} a vm.
Arguments Raises {A} message irritants vm.
Arguments LongJmp {A} vm.
Arguments Exits {A} status.
Arguments Panics {A} message.
Arguments Spins {A}.

Definition bind {A B : Type} (m : outcome A) (k : A -> ScmVM -> outcome B) : outcome B :=
  match m with
  | Returns a vm => k a vm
  | Raises msg irr vm => Raises msg irr vm
  | LongJmp vm => LongJmp vm
  | Exits s => Exits s
  | Panics msg => Panics msg
  | Spins => Spins
  end.

(** A store with one entry replaced. *)
Definition upd {A : Type} (f : ptr -> A) (p : ptr) (v : A) : ptr -> A :=
  fun q => if ptr_eq_dec q p then v else f q.

Definition upd_nat {A : Type} (f : nat -> A) (i : nat) (v : A) : nat -> A :=
  fun j => if Nat.eqb j i then v else f j.

Fixpoint list_set {A : Type} (l : list A) (i : nat) (v : A) : list A :=
  match l, i with
  | [], _ => []
  | _ :: t, O => v :: t
  | h :: t, S i' => h :: list_set t i' v
  end.

(** [for (i = n; i > 0; i--) *d++ = *s++;] *)
Fixpoint copy_words (n : nat) (s d : ptr) (w : ptr -> word) : ptr -> word :=
  match n with
  | O => w
  | S n' => copy_words n' (ptr_add s 1) (ptr_add d 1) (upd w d (w s))
  end.

(** [for (; n > 0; n--) *p++ = NULL;] *)
Fixpoint clear_words (n : nat) (p : ptr) (w : ptr -> word) : ptr -> word :=
  match n with
  | O => w
  | S n' => clear_words n' (ptr_add p 1) (upd w p W_NULL)
  end.

(** [memmove(d, s, n)]: the [n] words at [s] as they were before the
    call end up at [d], whether the two areas overlap or not. *)
Definition memmove (d s : ptr) (n : Z) (w : ptr -> word) : ptr -> word :=
  fun q =>
    match q, d with
    | STACK o, STACK od =>
        if (od <=? o) && (o <? od + n) then w (ptr_add s (o - od)) else w q
    | HEAP b o, HEAP bd od =>
        if Nat.eqb b bd && (od <=? o) && (o <? od + n) then w (ptr_add s (o - od)) else w q
    | _, _ => w q
    end.

(** [SCM_NEW2]: a fresh block. *)
Definition SCM_NEW2 (vm : ScmVM) : ptr * ScmVM :=
  (HEAP (next_block vm) 0, set_next_block (S (next_block vm)) vm).

(** [SCM_NEW(ScmEscapePoint)]: the new escape point is the last of
    [eps]; its fields are filled in by the caller. *)
Definition new_ep (r : ScmEscapePoint) (vm : ScmVM) : nat * ScmVM :=
  (List.length (eps vm), set_eps (eps vm ++ [r]) vm).

Definition FORWARDED_ENV_P (vm : ScmVM) (e : ptr) : bool :=
  negb (is_null e) && (e_size (envs vm e) =? -1).
Definition FORWARDED_ENV (vm : ScmVM) (e : ptr) : ptr := e_up (envs vm e).

Definition FORWARDED_CONT_P (vm : ScmVM) (c : ptr) : bool :=
  negb (is_null c) && (c_size (conts vm c) =? -1).
Definition FORWARDED_CONT (vm : ScmVM) (c : ptr) : ptr := c_prev (conts vm c).

(** The first [n] words of a continuation header copied from [src] over
    [dst], in the order of the fields. *)
Definition copy_header (n : Z) (src dst : ScmContFrame) : ScmContFrame :=
  mkCont (if 1 <=? n then c_prev src else c_prev dst)
         (if 2 <=? n then c_env src else c_env dst)
         (if 3 <=? n then c_argp src else c_argp dst)
         (if 4 <=? n then c_size src else c_size dst)
         (if 5 <=? n then c_pc src else c_pc dst)
         (if 6 <=? n then c_base src else c_base dst).

Definition set_c_prev (p : ptr) (c : ScmContFrame) : ScmContFrame :=
  mkCont p (c_env c) (c_argp c) (c_size c) (c_pc c) (c_base c).
Definition set_c_env (e : ptr) (c : ScmContFrame) : ScmContFrame :=
  mkCont (c_prev c) e (c_argp c) (c_size c) (c_pc c) (c_base c).
Definition set_c_argp (a : ptr) (c : ScmContFrame) : ScmContFrame :=
  mkCont (c_prev c) (c_env c) a (c_size c) (c_pc c) (c_base c).
Definition set_c_size (n : Z) (c : ScmContFrame) : ScmContFrame :=
  mkCont (c_prev c) (c_env c) (c_argp c) n (c_pc c) (c_base c).
Definition set_e_up (p : ptr) (e : ScmEnvFrame) : ScmEnvFrame :=
  mkEnv p (e_info e) (e_size e).
Definition set_ep_cont (c : ptr) (r : ScmEscapePoint) : ScmEscapePoint :=
  mkEP (ep_prev r) (ep_floating r) (ep_ehandler r) (ep_xhandler r) (ep_handlers r)
       c (ep_cstack r) (ep_errorReporting r) (ep_rewindBefore r).
Definition set_ep_floating (f : option nat) (r : ScmEscapePoint) : ScmEscapePoint :=
  mkEP (ep_prev r) f (ep_ehandler r) (ep_xhandler r) (ep_handlers r)
       (ep_cont r) (ep_cstack r) (ep_errorReporting r) (ep_rewindBefore r).

(** [SCM_VM_FLOATING_EP(vm)].  The macro belongs to [gauche/vm.h]: the
    head of the floating chain is kept in the [floating] slot of the
    innermost escape point, and in the VM when there is none. *)
Definition SCM_VM_FLOATING_EP (vm : ScmVM) : option nat :=
  match escapePoint vm with
  | Some i =>
      match nth_error (eps vm) i with
      | Some r => ep_floating r
      | None => None
      end
  | None => escapePointFloating vm
  end.

(** [SCM_VM_FLOATING_EP_SET(vm, ep)] *)
Definition SCM_VM_FLOATING_EP_SET (ep : option nat) (vm : ScmVM) : ScmVM :=
  match escapePoint vm with
  | Some i =>
      match nth_error (eps vm) i with
      | Some r => set_eps (list_set (eps vm) i (set_ep_floating ep r)) vm
      | None => vm
      end
  | None => set_escapePointFloating ep vm
  end.

(* ================================================================= *)
(** ** The virtual machine *)

Section VM.

(** Two constants of [gauche/vm.h]: the size of the value stack in
    words and the size of [vm->vals]. *)
Variable SCM_VM_STACK_SIZE : Z.
Variable SCM_VM_MAX_VALUES : Z.

Definition stackBase : ptr := STACK 0.
Definition stackEnd : ptr := STACK SCM_VM_STACK_SIZE.

(** [IN_STACK_P(ptr)]: [(unsigned long)(ptr - vm->stackBase) < SCM_VM_STACK_SIZE]. *)
Definition IN_STACK_P (p : ptr) : bool :=
  match p with
  | STACK o => (0 <=? o) && (o <? SCM_VM_STACK_SIZE)
  | _ => false
  end.

(** An upper bound on the turns of a loop that forwards one in-stack
    frame per turn. *)
Definition stack_fuel : nat := S (Z.to_nat SCM_VM_STACK_SIZE).

(* ----------------------------------------------------------------- *)
(** *** Stack management *)

(** The body of the [do ... while] loop of [save_env]: [inl] is the
    [return head] taken at a forwarded frame, [inr] carries [e], [prev]
    and [head] to the loop test. *)
Definition save_env_body (vm : ScmVM) (e prev head : ptr)
  : (ScmVM * ptr) + (ScmVM * ptr * ptr * ptr) :=
  let esize := e_size (envs vm e) in
  if esize <? 0 then
    let vm1 :=
      if is_null prev then vm
      else set_envs (upd (envs vm) prev (set_e_up (FORWARDED_ENV vm e) (envs vm prev))) vm in
    inl (vm1, head)
  else
    let (d, vm1) := SCM_NEW2 vm in
    let vm2 := set_words (copy_words (Z.to_nat esize) (ptr_add e (- esize)) d (words vm1)) vm1 in
    let saved := ptr_add d esize in
    let vm3 := set_envs (upd (envs vm2) saved (envs vm2 e)) vm2 in
    let vm4 :=
      if is_null prev then vm3
      else set_envs (upd (envs vm3) prev (set_e_up saved (envs vm3 prev))) vm3 in
    let head' := if is_null head then saved else head in
    let next := e_up (envs vm4 e) in
    let vm5 := set_envs (upd (envs vm4) e (mkEnv saved SCM_FALSE (-1))) vm4 in
    inr (vm5, next, saved, head').

Fixpoint save_env_loop (fuel : nat) (vm : ScmVM) (e prev head : ptr) : option (ScmVM * ptr) :=
  match fuel with
  | O => None
  | S fuel' =>
      match save_env_body vm e prev head with
      | inl r => Some r
      | inr (vm', next, prev', head') =>
          if IN_STACK_P next then save_env_loop fuel' vm' next prev' head'
          else Some (vm', head')
      end
  end.

(** [save_env(vm, env_begin)] *)
Definition save_env (vm : ScmVM) (env_begin : ptr) : option (ScmVM * ptr) :=
  if negb (IN_STACK_P env_begin) then Some (vm, env_begin)
  else save_env_loop stack_fuel vm env_begin NULL NULL.

(** First pass of [save_cont], "update env ptr if necessary". *)
Definition save_cont_env (vm : ScmVM) (c : ptr) : option ScmVM :=
  let cenv := c_env (conts vm c) in
  if FORWARDED_ENV_P vm cenv then
    Some (set_conts (upd (conts vm) c (set_c_env (FORWARDED_ENV vm cenv) (conts vm c))) vm)
  else if IN_STACK_P cenv then
    match save_env vm cenv with
    | Some (vm', e') => Some (set_conts (upd (conts vm') c (set_c_env e' (conts vm' c))) vm')
    | None => None
    end
  else Some vm.

(** First pass of [save_cont], "copy cont frame". *)
Definition save_cont_copy (vm : ScmVM) (c csave : ptr) : ScmVM :=
  let f := conts vm c in
  if negb (is_null (c_argp f)) then
    let vma := set_conts (upd (conts vm) csave f) vm in
    let vmb :=
      if negb (c_size f =? 0) then
        (* copy the args *)
        set_words (copy_words (Z.to_nat (c_size f)) (c_argp f)
                     (ptr_add csave CONT_FRAME_SIZE) (words vma)) vma
      else vma in
    set_conts (upd (conts vmb) csave
                 (set_c_argp (ptr_add csave CONT_FRAME_SIZE) (conts vmb csave))) vmb
  else
    (* C continuation *)
    let n := CONT_FRAME_SIZE + c_size f in
    let vma := set_conts (upd (conts vm) csave (copy_header n f (conts vm csave))) vm in
    set_words (copy_words (Z.to_nat (c_size f)) (ptr_add c CONT_FRAME_SIZE)
                 (ptr_add csave CONT_FRAME_SIZE) (words vma)) vma.

(** The body of the first pass of [save_cont] at the in-stack frame [c];
    the result carries the next [c] and the new [prev]. *)
Definition save_cont_body (vm : ScmVM) (c prev : ptr) : option (ScmVM * ptr * ptr) :=
  let (csave, vm1) := SCM_NEW2 vm in
  match save_cont_env vm1 c with
  | None => None
  | Some vm2 =>
      let vm3 := save_cont_copy vm2 c csave in
      (* make the orig frame forwarded *)
      let vm4 :=
        if negb (is_null prev) then
          set_conts (upd (conts vm3) prev (set_c_prev csave (conts vm3 prev))) vm3
        else vm3 in
      let tmp := c_prev (conts vm4 c) in
      let vm5 :=
        set_conts (upd (conts vm4) c (set_c_size (-1) (set_c_prev csave (conts vm4 c)))) vm4 in
      Some (vm5, tmp, csave)
  end.

Fixpoint save_cont_loop (fuel : nat) (vm : ScmVM) (c prev : ptr) : option ScmVM :=
  match fuel with
  | O => None
  | S fuel' =>
      match save_cont_body vm c prev with
      | None => None
      | Some (vm', c', prev') =>
          if IN_STACK_P c' then save_cont_loop fuel' vm' c' prev' else Some vm'
      end
  end.

(** The second pass over one chain of escape points, linked by [link]
    ([prev] for the main chain, [floating] for the floating one). *)
Fixpoint forward_eps (fuel : nat) (link : ScmEscapePoint -> option nat)
  (ep : option nat) (vm : ScmVM) : option ScmVM :=
  match ep with
  | None => Some vm
  | Some i =>
      match fuel with
      | O => None
      | S fuel' =>
          match nth_error (eps vm) i with
          | None => None
          | Some r =>
              let vm' :=
                if FORWARDED_CONT_P vm (ep_cont r) then
                  set_eps (list_set (eps vm) i (set_ep_cont (FORWARDED_CONT vm (ep_cont r)) r)) vm
                else vm in
              forward_eps fuel' link (link r) vm'
          end
      end
  end.

Definition forward_cstack (vm : ScmVM) (cstk : ScmCStack) : ScmCStack :=
  if FORWARDED_CONT_P vm (cs_cont cstk)
  then mkCStack (cs_addr cstk) (FORWARDED_CONT vm (cs_cont cstk))
  else cstk.

(** The second pass of [save_cont]. *)
Definition save_cont_pass2 (vm : ScmVM) : option ScmVM :=
  let vm1 :=
    if FORWARDED_CONT_P vm (cont vm) then set_cont (FORWARDED_CONT vm (cont vm)) vm else vm in
  let vm2 := set_cstack (map (forward_cstack vm1) (cstack vm1)) vm1 in
  match forward_eps (S (List.length (eps vm2))) ep_prev (escapePoint vm2) vm2 with
  | None => None
  | Some vm3 =>
      forward_eps (S (List.length (eps vm3))) ep_floating (SCM_VM_FLOATING_EP vm3) vm3
  end.

(** [save_cont(vm)].  [None]: a chain of escape points never reaches
    the null pointer. *)
Definition save_cont (vm : ScmVM) : option ScmVM :=
  let c := cont vm in
  (* Save the environment chain first. *)
  match save_env vm (env vm) with
  | None => None
  | Some (vm0, e) =>
      let vm1 := set_env e vm0 in
      if negb (IN_STACK_P c) then Some vm1
      else
        match save_cont_loop stack_fuel vm1 c NULL with
        | None => None
        | Some vm2 => save_cont_pass2 vm2
        end
  end.

(** [save_stack(vm)] (the timing statistics left out). *)
Definition save_stack (vm : ScmVM) : option ScmVM :=
  match save_cont vm with
  | None => None
  | Some vm1 =>
      let vm2 := set_words (memmove stackBase (argp vm1) (ptr_diff (sp vm1) (argp vm1))
                              (words vm1)) vm1 in
      let vm3 := set_sp (ptr_add (sp vm2) (- ptr_diff (argp vm2) stackBase)) vm2 in
      let vm4 := set_argp stackBase vm3 in
      (* Clear the stack. *)
      Some (set_words (clear_words (Z.to_nat (ptr_diff stackEnd (sp vm4))) (sp vm4)
                         (words vm4)) vm4)
  end.

(** [CHECK_STACK(size)] *)
Definition CHECK_STACK (size : Z) (vm : ScmVM) : option ScmVM :=
  if ptr_diff (sp vm) stackEnd + size >=? 0 then save_stack vm else Some vm.

Definition lift {A : Type} (a : A) (o : option ScmVM) : outcome A :=
  match o with
  | Some vm => Returns a vm
  | None => Spins
  end.

(* ----------------------------------------------------------------- *)
(** *** Results and multiple values *)

(** The [for] loop of [Scm_VMGetResult], [n] turns from index [i]. *)
Fixpoint get_result_loop (n : nat) (i : nat) (vm : ScmVM) (head : ScmObj) (cell : nat)
  : ScmObj * nat :=
  match n with
  | O => (head, cell)
  | S n' =>
      let (h, cell') := SCM_APPEND1 head (vals vm (i - 1)%nat) cell in
      get_result_loop n' (S i) vm h cell'
  end.

(** [Scm_VMGetResult(vm)] *)
Definition Scm_VMGetResult (vm : ScmVM) : ScmObj * ScmVM :=
  if numVals vm =? 0 then (SCM_NIL, vm)
  else
    let (h, cell) := SCM_APPEND1 SCM_NIL (val0 vm) (next_cell vm) in
    let (h', cell') := get_result_loop (Z.to_nat (numVals vm - 1)) 1 vm h cell in
    (h', set_next_cell cell' vm).

(** [Scm_VMGetNumResults(vm)] *)
Definition Scm_VMGetNumResults (vm : ScmVM) : Z := numVals vm.

(** [Scm_VMSetResult(obj)] *)
Definition Scm_VMSetResult (obj : ScmObj) (vm : ScmVM) : ScmVM :=
  set_numVals 1 (set_val0 obj vm).

(** The [SCM_FOR_EACH] loop of [Scm_VMValues] from the cell [cp]. *)
Fixpoint values_loop (cp : ScmObj) (nvals : Z) (args : ScmObj) (vm : ScmVM) : outcome Z :=
  match cp with
  | SCM_PAIR _ a d =>
      let vm1 := set_vals (upd_nat (vals vm) (Z.to_nat (nvals - 1)) a) vm in
      if nvals >=? SCM_VM_MAX_VALUES
      then Raises "too many values: %S" [args] vm1
      else values_loop d (nvals + 1) args vm1
  | _ => Returns nvals vm
  end.

(** [Scm_VMValues(vm, args)] *)
Definition Scm_VMValues (vm : ScmVM) (args : ScmObj) : outcome ScmObj :=
  if negb (SCM_PAIRP args) then Returns SCM_UNDEFINED (set_numVals 0 vm)
  else
    bind (values_loop (SCM_CDR args) 1 args vm)
      (fun nvals vm' => Returns (SCM_CAR args) (set_numVals nvals vm')).

(* ----------------------------------------------------------------- *)
(** *** Function application from C *)

(** [*s++ = data[i]] for every word of [data]. *)
Fixpoint store_words (data : list word) (s : ptr) (w : ptr -> word) : ptr -> word :=
  match data with
  | [] => w
  | x :: data' => store_words data' (ptr_add s 1) (upd w s x)
  end.

(** [*d++ = *s++], [n] times, into a C array. *)
Fixpoint load_words (n : nat) (s : ptr) (w : ptr -> word) : list word :=
  match n with
  | O => []
  | S n' => w s :: load_words n' (ptr_add s 1) w
  end.

(** [PUSH_ARG(obj)] *)
Definition PUSH_ARG (obj : ScmObj) (vm : ScmVM) : ScmVM :=
  set_sp (ptr_add (sp vm) 1) (set_words (upd (words vm) (sp vm) (W_OBJ obj)) vm).

(** [PUSH_CONT(next_pc)] *)
Definition PUSH_CONT (next_pc : ScmPC) (vm : ScmVM) : ScmVM :=
  let newcont := sp vm in
  let f := mkCont (cont vm) (env vm) (argp vm) (ptr_diff (sp vm) (argp vm)) next_pc (base vm) in
  let vm1 := set_cont newcont (set_conts (upd (conts vm) newcont f) vm) in
  let vm2 := set_sp (ptr_add (sp vm1) CONT_FRAME_SIZE) vm1 in
  set_argp (sp vm2) vm2.

(** [Scm_VMPushCC(after, data, datasize)], [datasize] being the length
    of [data]. *)
Definition Scm_VMPushCC (after : ScmCContinuationProc) (data : list word) (vm : ScmVM)
  : outcome unit :=
  bind (lift tt (CHECK_STACK (CONT_FRAME_SIZE + Z.of_nat (List.length data)) vm))
    (fun _ vm1 =>
       let s := sp vm1 in
       let cc := s in
       let s := ptr_add s CONT_FRAME_SIZE in
       let f := mkCont (cont vm1) (env vm1) NULL (Z.of_nat (List.length data))
                  (PC_CCONT after) (base vm1) in
       let vm2 := set_conts (upd (conts vm1) cc f) vm1 in
       let vm3 := set_words (store_words data s (words vm2)) vm2 in
       let s := ptr_add s (Z.of_nat (List.length data)) in
       Returns tt (set_argp s (set_sp s (set_cont cc vm3)))).

(** [Scm_VMApply0(proc)] *)
Definition Scm_VMApply0 (proc : ScmObj) (vm : ScmVM) : outcome ScmObj :=
  Returns proc (set_pc (apply_calls 0) vm).

(** [Scm_VMApply1(proc, arg)] *)
Definition Scm_VMApply1 (proc arg : ScmObj) (vm : ScmVM) : outcome ScmObj :=
  bind (lift tt (CHECK_STACK 1 vm))
    (fun _ vm1 => Returns proc (set_pc (apply_calls 1) (PUSH_ARG arg vm1))).

Definition as_obj (w : word) : ScmObj :=
  match w with W_OBJ o => o | _ => SCM_UNBOUND end.
Definition as_int (w : word) : Z :=
  match w with W_INT n => n | _ => 0 end.
Definition as_ptr (w : word) : ptr :=
  match w with W_PTR p => p | _ => NULL end.
Definition as_ep (w : word) : option nat :=
  match w with W_EP e => Some e | _ => None end.
Definition of_ep (e : option nat) : word :=
  match e with Some i => W_EP i | None => W_NULL end.

(** The first [n] entries of [vm->vals]. *)
Definition vals_prefix (n : nat) (v : nat -> ScmObj) : list ScmObj := map v (seq 0 n).

(** [memcpy(vm->vals, src, n * sizeof(ScmObj))] *)
Fixpoint vals_restore (l : list word) (i : nat) (v : nat -> ScmObj) : nat -> ScmObj :=
  match l with
  | [] => v
  | x :: l' => vals_restore l' (S i) (upd_nat v i (as_obj x))
  end.

(* ----------------------------------------------------------------- *)
(** *** Dynamic handlers *)

(** [Scm_VMDynamicWind(before, body, after)] *)
Definition Scm_VMDynamicWind (before body after : ScmObj) (vm : ScmVM) : outcome ScmObj :=
  let data := [W_OBJ before; W_OBJ body; W_OBJ after] in
  bind (Scm_VMPushCC CC_dynwind_before data vm)
    (fun _ vm1 => Scm_VMApply0 before vm1).

Definition dynwind_before_cc (result : ScmObj) (data : list word) (vm : ScmVM)
  : outcome ScmObj :=
  let before := as_obj (nth 0 data W_UNINIT) in
  let body := as_obj (nth 1 data W_UNINIT) in
  let after := as_obj (nth 2 data W_UNINIT) in
  let prev := handlers vm in
  let d := [W_OBJ after; W_OBJ prev] in
  let (ba, cell1) := Scm_Cons before after (next_cell vm) in
  let (h, cell2) := Scm_Cons ba prev cell1 in
  let vm1 := set_handlers h (set_next_cell cell2 vm) in
  bind (Scm_VMPushCC CC_dynwind_body d vm1)
    (fun _ vm2 => Scm_VMApply0 body vm2).

Definition dynwind_body_cc (result : ScmObj) (data : list word) (vm : ScmVM)
  : outcome ScmObj :=
  let after := as_obj (nth 0 data W_UNINIT) in
  let prev := as_obj (nth 1 data W_UNINIT) in
  let vm1 := set_handlers prev vm in
  let '(d2, vm2) :=
    if numVals vm1 >? 1 then
      let (array, vma) := SCM_NEW2 vm1 in
      let n := Z.to_nat (numVals vma - 1) in
      (W_PTR array,
       set_words (store_words (map W_OBJ (vals_prefix n (vals vma))) array (words vma)) vma)
    else (W_UNINIT, vm1) in
  let d := [W_OBJ result; W_INT (numVals vm2); d2] in
  bind (Scm_VMPushCC CC_dynwind_after d vm2)
    (fun _ vm3 => Scm_VMApply0 after vm3).

Definition dynwind_after_cc (result : ScmObj) (data : list word) (vm : ScmVM)
  : outcome ScmObj :=
  let val0' := as_obj (nth 0 data W_UNINIT) in
  let nvals := as_int (nth 1 data W_UNINIT) in
  let vm1 := set_numVals nvals vm in
  if nvals >? 1 then
    if negb (nvals <=? SCM_VM_MAX_VALUES)
    then Panics "Assertion failed: nvals <= SCM_VM_MAX_VALUES"
    else
      let src := load_words (Z.to_nat (nvals - 1)) (as_ptr (nth 2 data W_UNINIT)) (words vm1) in
      Returns val0' (set_vals (vals_restore src 0 (vals vm1)) vm1)
  else Returns val0' vm1.

(* ----------------------------------------------------------------- *)
(** *** Call with current continuation *)

(** Dereference of an escape point; a dangling pointer ends the run. *)
Definition with_ep {A : Type} (ep : nat) (vm : ScmVM)
  (k : ScmEscapePoint -> outcome A) : outcome A :=
  match nth_error (eps vm) ep with
  | Some r => k r
  | None => Panics "invalid escape point"
  end.

(** [vm->cstack] as a pointer. *)
Definition cstack_ptr (vm : ScmVM) : option nat :=
  match cstack vm with
  | [] => None
  | c :: _ => Some (cs_addr c)
  end.

Definition opt_nat_eqb (a b : option nat) : bool :=
  match a, b with
  | Some x, Some y => Nat.eqb x y
  | None, None => true
  | _, _ => false
  end.

(** First loop of [throw_cont_calculate_handlers], from the cell [p] of
    the current handler list; [None] is a failed [SCM_ASSERT]. *)
Fixpoint calculate_after_handlers (p target h : ScmObj) (cell : nat)
  : option (ScmObj * nat) :=
  match p with
  | SCM_PAIR _ a d =>
      if negb (SCM_PAIRP a) then None
      else if negb (SCM_FALSEP (Scm_Memq a target)) then Some (h, cell)
      else
        (* push 'after' handlers to be called *)
        let (e, cell1) := Scm_Cons (SCM_CDR a) d cell in
        let (h', cell2) := SCM_APPEND1 h e cell1 in
        calculate_after_handlers d target h' cell2
  | _ => Some (h, cell)
  end.

(** Second loop, from the cell [p] of the reversed target list. *)
Fixpoint calculate_before_handlers (p current ep_hs h : ScmObj) (cell : nat)
  : option (ScmObj * nat) :=
  match p with
  | SCM_PAIR _ a d =>
      if negb (SCM_PAIRP a) then None
      else if negb (SCM_FALSEP (Scm_Memq a current))
      then calculate_before_handlers d current ep_hs h cell
      else
        let chain := Scm_Memq a ep_hs in
        if negb (SCM_PAIRP chain) then None
        else
          (* push 'before' handlers to be called *)
          let (e, cell1) := Scm_Cons (SCM_CAR a) (SCM_CDR chain) cell in
          let (h', cell2) := SCM_APPEND1 h e cell1 in
          calculate_before_handlers d current ep_hs h' cell2
  | _ => Some (h, cell)
  end.

(** [throw_cont_calculate_handlers(ep, vm)] *)
Definition throw_cont_calculate_handlers (ep : nat) (vm : ScmVM) : outcome ScmObj :=
  with_ep ep vm (fun r =>
    let (target, cell0) := Scm_Reverse (ep_handlers r) (next_cell vm) in
    let current := handlers vm in
    match calculate_after_handlers current target SCM_NIL cell0 with
    | None => Panics "Assertion failed: SCM_PAIRP(SCM_CAR(p))"
    | Some (h1, cell1) =>
        match calculate_before_handlers target current (ep_handlers r) h1 cell1 with
        | None => Panics "Assertion failed: SCM_PAIRP(SCM_CAR(p))"
        | Some (h2, cell2) => Returns h2 (set_next_cell cell2 vm)
        end
    end).

(** [for (i=0, ap=SCM_CDR(args); SCM_PAIRP(ap); i++, ap=SCM_CDR(ap)) vm->vals[i] = SCM_CAR(ap);] *)
Fixpoint store_vals (ap : ScmObj) (i : nat) (v : nat -> ScmObj) : nat -> ScmObj :=
  match ap with
  | SCM_PAIR _ a d => store_vals d (S i) (upd_nat v i a)
  | _ => v
  end.

(** [throw_cont_body(handlers, ep, args)] *)
Definition throw_cont_body (hs : ScmObj) (ep : nat) (args : ScmObj) (vm : ScmVM)
  : outcome ScmObj :=
  (* first, check to see if we need to evaluate dynamic handlers. *)
  if SCM_PAIRP hs then
    if negb (SCM_PAIRP (SCM_CAR hs))
    then Panics "Assertion failed: SCM_PAIRP(SCM_CAR(handlers))"
    else
      let handler := SCM_CAAR hs in
      let chain := SCM_CDAR hs in
      let data := [W_OBJ (SCM_CDR hs); W_EP ep; W_OBJ args] in
      bind (Scm_VMPushCC CC_throw_cont data vm)
        (fun _ vm1 => Scm_VMApply0 handler (set_handlers chain vm1))
  else
    with_ep ep vm (fun r =>
      bind (match ep_cstack r with
            | None => lift tt (save_cont vm)
            | Some _ => Returns tt vm
            end)
        (fun _ vm1 =>
           with_ep ep vm1 (fun r1 =>
             (* now, install the target continuation *)
             let vm2 :=
               set_handlers (ep_handlers r1)
                 (set_cont (ep_cont r1) (set_pc PC_TO_RETURN vm1)) in
             let nargs := Scm_Length args in
             if nargs =? 1 then Returns (SCM_CAR args) vm2
             else if nargs <? 1 then Returns SCM_UNDEFINED vm2
             else if nargs >=? SCM_VM_MAX_VALUES
             then Raises "too many values passed to the continuation" [] vm2
             else
               let vm3 := set_vals (store_vals (SCM_CDR args) 0 (vals vm2)) vm2 in
               Returns (SCM_CAR args) (set_numVals nargs vm3)))).

Definition throw_cont_cc (result : ScmObj) (data : list word) (vm : ScmVM)
  : outcome ScmObj :=
  let hs := as_obj (nth 0 data W_UNINIT) in
  let args := as_obj (nth 2 data W_UNINIT) in
  match as_ep (nth 1 data W_UNINIT) with
  | Some ep => throw_cont_body hs ep args vm
  | None => Panics "invalid escape point"
  end.

(** [throw_continuation(argframe, nargs, data)], the body of a
    continuation procedure: [args] is [argframe[0]], [ep] is [data]. *)
Definition throw_continuation (args : ScmObj) (ep : nat) (vm : ScmVM) : outcome ScmObj :=
  with_ep ep vm (fun r =>
    let found :=
      match ep_cstack r with
      | Some target =>
          if negb (opt_nat_eqb (cstack_ptr vm) (Some target))
          then existsb (fun cs => Nat.eqb (cs_addr cs) target) (cstack vm)
          else false
      | None => false
      end in
    if found then
      LongJmp (set_escapeData1 args
                 (set_escapeData0 (Some ep) (set_escapeReason SCM_VM_ESCAPE_CONT vm)))
    else
      bind (throw_cont_calculate_handlers ep vm)
        (fun handlers_to_call vm1 => throw_cont_body handlers_to_call ep args vm1)).

(** [Scm_VMCallCC(proc)].  The slots of the new escape point that the
    function does not assign are as the allocator leaves them. *)
Definition Scm_VMCallCC (proc : ScmObj) (vm : ScmVM) : outcome ScmObj :=
  bind (lift tt (save_cont vm))
    (fun _ vm1 =>
       let r := mkEP None None SCM_FALSE SCM_UNBOUND (handlers vm1) (cont vm1)
                  (cstack_ptr vm1) false false in
       let (ep, vm2) := new_ep r vm1 in
       let contproc := SCM_SUBR throw_continuation_body (Some ep) "continuation" in
       Scm_VMApply1 proc contproc vm2).

(* ----------------------------------------------------------------- *)
(** *** Queued requests *)

Fixpoint restore_vals (n : nat) (i : nat) (cp : ScmObj) (v : nat -> ScmObj) : nat -> ScmObj :=
  match n with
  | O => v
  | S n' => restore_vals n' (S i) (SCM_CDR cp) (upd_nat v i (SCM_CAR cp))
  end.

Definition process_queued_requests_cc (result : ScmObj) (data : list word) (vm : ScmVM)
  : outcome ScmObj :=
  let vm1 := set_numVals (as_int (nth 0 data W_UNINIT)) vm in
  let vm2 := set_val0 (as_obj (nth 1 data W_UNINIT)) vm1 in
  let vm3 :=
    if numVals vm2 >? 1 then
      set_vals (restore_vals (Z.to_nat (numVals vm2 - 1)) 0 (as_obj (nth 2 data W_UNINIT))
                  (vals vm2)) vm2
    else vm2 in
  Returns (val0 vm3) vm3.

(* ----------------------------------------------------------------- *)
(** *** Returning to a continuation *)

(** Host continuations installed by code outside [vm.c]. *)
Variable foreign_cc : nat -> ScmObj -> list word -> ScmVM -> outcome ScmObj.

(** [CALL_CCONT(p, v, d)] *)
Definition CALL_CCONT (after : ScmCContinuationProc) (v : ScmObj) (d : list word)
  (vm : ScmVM) : outcome ScmObj :=
  match after with
  | CC_dynwind_before => dynwind_before_cc v d vm
  | CC_dynwind_body => dynwind_body_cc v d vm
  | CC_dynwind_after => dynwind_after_cc v d vm
  | CC_throw_cont => throw_cont_cc v d vm
  | CC_process_queued_requests => process_queued_requests_cc v d vm
  | CC_foreign f => foreign_cc f v d vm
  end.

(** [BOUNDARY_FRAME_P(cont)] *)
Definition BOUNDARY_FRAME_P (vm : ScmVM) (c : ptr) : bool :=
  match c_pc (conts vm c) with
  | boundaryFrameMark => true
  | _ => false
  end.

(** [POP_CONT()] *)
Definition POP_CONT (vm : ScmVM) : outcome unit :=
  let CONT := cont vm in
  let f := conts vm CONT in
  if is_null (c_argp f) then
    let v__ := val0 vm in
    let data__ := load_words (Z.to_nat (c_size f)) (ptr_add CONT CONT_FRAME_SIZE) (words vm) in
    match c_pc f with
    | PC_CCONT after__ =>
        let vm1 := if IN_STACK_P CONT then set_sp CONT vm else vm in
        let vm2 := set_env (c_env f) vm1 in
        let vm3 := set_argp (sp vm2) vm2 in
        let vm4 := set_pc PC_TO_RETURN vm3 in
        let vm5 := set_base (c_base f) vm4 in
        let vm6 := set_cont (c_prev f) vm5 in
        bind (CALL_CCONT after__ v__ data__ vm6)
          (fun r vm7 => Returns tt (set_val0 r vm7))
    | _ => Panics "host continuation without a callback"
    end
  else if IN_STACK_P CONT then
    let vm1 := set_sp (ptr_add (c_argp f) (c_size f)) vm in
    let vm2 := set_env (c_env f) vm1 in
    let vm3 := set_argp (c_argp f) vm2 in
    let vm4 := set_pc (c_pc f) vm3 in
    let vm5 := set_base (c_base f) vm4 in
    Returns tt (set_cont (c_prev f) vm5)
  else
    let size__ := c_size f in
    let vm1 := set_argp stackBase (set_sp stackBase vm) in
    let vm2 := set_env (c_env f) vm1 in
    let vm3 := set_pc (c_pc f) vm2 in
    let vm4 := set_base (c_base f) vm3 in
    let vm5 :=
      if negb (is_null (c_argp f)) && negb (size__ =? 0) then
        set_words (copy_words (Z.to_nat size__) (c_argp f) (sp vm4) (words vm4))
          (set_sp (ptr_add (sp vm4) size__) vm4)
      else vm4 in
    Returns tt (set_cont (c_prev f) vm5).

(** [RETURN_OP()]: [true] when the VM loop returns to its caller. *)
Definition RETURN_OP (vm : ScmVM) : outcome bool :=
  if is_null (cont vm) || BOUNDARY_FRAME_P vm (cont vm) then Returns true vm
  else bind (POP_CONT vm) (fun _ vm' => Returns false vm').

(* ----------------------------------------------------------------- *)
(** *** The border between host code and the VM *)

(** The interpreter loop proper ([run_loop], whose instructions come
    from [vminsn.c]) as seen from its caller: it returns, or a
    [siglongjmp] leaves it. *)
Variable run_loop : ScmVM -> outcome unit.

Definition EX_SOFTWARE : Z := 70.

(** The record [cstack] of the activation of [user_eval_inner] whose
    local variable sits at [addr]. *)
Definition local_cstack (addr : nat) (vm : ScmVM) : option ScmCStack :=
  find (fun c => Nat.eqb (cs_addr c) addr) (cstack vm).

(** [vm->cstack = vm->cstack->prev] *)
Definition pop_cstack (vm : ScmVM) : ScmVM := set_cstack (tl (cstack vm)) vm.

(** The part of [user_eval_inner] before the label [restart]; the
    result is the address of [cstack] and [prev_pc]. *)
Definition user_eval_inner_enter (program : ScmCompiledCode) (codevec : option ScmPC)
  (vm : ScmVM) : outcome (nat * ScmPC) :=
  let prev_pc := pc vm in
  bind (lift tt (CHECK_STACK CONT_FRAME_SIZE vm))
    (fun _ vm1 =>
       let vm2 := PUSH_CONT boundaryFrameMark vm1 in
       let vm3 := set_base (Some program) vm2 in
       bind (match codevec with
             | Some c => Returns tt (set_pc c vm3)
             | None =>
                 lift tt (CHECK_STACK (maxstack program) (set_pc (PC_CODE (code program)) vm3))
             end)
         (fun _ vm4 =>
            let addr := next_cstack vm4 in
            let vm5 := set_next_cstack (S addr) vm4 in
            Returns (addr, prev_pc)
              (set_cstack (mkCStack addr (cont vm5) :: cstack vm5) vm5))).

(** The code of [user_eval_inner] run when an escape lands on the
    record that is not for this activation to keep: pop the boundary
    frame and jump on to the outer record. *)
Definition user_eval_inner_rethrow (addr : nat) (vm : ScmVM) : outcome ScmObj :=
  match local_cstack addr vm with
  | None => Panics "host stack record lost"
  | Some cs =>
      bind (POP_CONT (set_cont (cs_cont cs) vm))
        (fun _ vm' => LongJmp (pop_cstack vm'))
  end.

(** [user_eval_inner] from the label [restart] on; [fuel] bounds the
    number of times the loop is entered. *)
Fixpoint user_eval_inner_restart (fuel : nat) (addr : nat) (prev_pc : ScmPC) (vm : ScmVM)
  : outcome ScmObj :=
  match fuel with
  | O => Spins
  | S fuel' =>
      match run_loop (set_escapeReason SCM_VM_ESCAPE_NONE vm) with
      | Returns _ vm1 =>
          match local_cstack addr vm1 with
          | None => Panics "host stack record lost"
          | Some cs =>
              bind (if ptr_eqb (cont vm1) (cs_cont cs) then
                      bind (POP_CONT vm1) (fun _ vm2 => Returns tt (set_pc prev_pc vm2))
                    else if is_null (cont vm1) then
                      (* we're finished with executing partial continuation. *)
                      bind (POP_CONT (set_cont (cs_cont cs) vm1))
                        (fun _ vm2 => Returns tt (set_pc prev_pc vm2))
                    else
                      Raises "attempt to return from a ghost continuation." [] vm1)
                (fun _ vm3 => let vm4 := pop_cstack vm3 in Returns (val0 vm4) vm4)
          end
      | LongJmp vm1 =>
          if negb (opt_nat_eqb (cstack_ptr vm1) (Some addr)) then LongJmp vm1
          else
            (* An escape situation happened. *)
            match escapeReason vm1 with
            | SCM_VM_ESCAPE_CONT =>
                match escapeData0 vm1 with
                | None => Panics "invalid escape point"
                | Some ep =>
                    with_ep ep vm1 (fun r =>
                      if opt_nat_eqb (ep_cstack r) (cstack_ptr vm1) then
                        bind (throw_cont_calculate_handlers ep vm1)
                          (fun hs vm2 =>
                             (* force popping continuation when restarted *)
                             let vm3 := set_pc PC_TO_RETURN vm2 in
                             bind (throw_cont_body hs ep (escapeData1 vm3) vm3)
                               (fun v vm4 =>
                                  user_eval_inner_restart fuel' addr prev_pc (set_val0 v vm4)))
                      else
                        match cstack vm1 with
                        | _ :: _ :: _ => user_eval_inner_rethrow addr vm1
                        | _ => Panics "Assertion failed: vm->cstack && vm->cstack->prev"
                        end)
                end
            | SCM_VM_ESCAPE_ERROR =>
                let here :=
                  match escapeData0 vm1 with
                  | Some ep =>
                      match nth_error (eps vm1) ep with
                      | Some r =>
                          if opt_nat_eqb (ep_cstack r) (cstack_ptr vm1)
                          then Some (ep_cont r) else None
                      | None => None
                      end
                  | None => None
                  end in
                match here with
                | Some k =>
                    user_eval_inner_restart fuel' addr prev_pc
                      (set_pc PC_TO_RETURN (set_cont k vm1))
                | None =>
                    match cstack vm1 with
                    | _ :: _ :: _ => user_eval_inner_rethrow addr vm1
                    | _ => Exits EX_SOFTWARE
                    end
                end
            | SCM_VM_ESCAPE_NONE => Panics "invalid longjmp"
            end
      | Raises msg irr vm1 => Raises msg irr vm1
      | Exits s => Exits s
      | Panics msg => Panics msg
      | Spins => Spins
      end
  end.

(** [user_eval_inner(program, codevec)] *)
Definition user_eval_inner (fuel : nat) (program : ScmCompiledCode) (codevec : option ScmPC)
  (vm : ScmVM) : outcome ScmObj :=
  bind (user_eval_inner_enter program codevec vm)
    (fun '(addr, prev_pc) vm1 => user_eval_inner_restart fuel addr prev_pc vm1).

Definition internal_apply_compiled_code : ScmCompiledCode := mkCode 0 0.

(** [apply_rec(vm, proc, nargs)] *)
Definition apply_rec (fuel : nat) (proc : ScmObj) (nargs : Z) (vm : ScmVM) : outcome ScmObj :=
  let vm1 := set_val0 proc vm in
  let program :=
    match base vm1 with
    | Some b => b
    | None => internal_apply_compiled_code
    end in
  user_eval_inner fuel program (Some (apply_rec_code nargs)) vm1.

(** The loop of [Scm_ApplyRec] that places the arguments in [vm->vals]. *)
Fixpoint apply_rec_args (n : nat) (i : Z) (args : ScmObj) (v : nat -> ScmObj)
  : nat -> ScmObj :=
  match n with
  | O => v
  | S n' =>
      if i =? SCM_VM_MAX_VALUES - 1 then upd_nat v (Z.to_nat i) args
      else apply_rec_args n' (i + 1) (SCM_CDR args) (upd_nat v (Z.to_nat i) (SCM_CAR args))
  end.

(** [Scm_ApplyRec(proc, args)] *)
Definition Scm_ApplyRec (fuel : nat) (proc args : ScmObj) (vm : ScmVM) : outcome ScmObj :=
  let nargs := Scm_Length args in
  if nargs <? 0 then Raises "improper list not allowed: %S" [args] vm
  else
    apply_rec fuel proc nargs
      (set_vals (apply_rec_args (Z.to_nat nargs) 0 args (vals vm)) vm).

(* ----------------------------------------------------------------- *)
(** *** Unwind protect *)

(** [Scm_VMUnwindProtect(vm, cstack)], up to the [sigsetjmp]. *)
Definition Scm_VMUnwindProtect (vm : ScmVM) : ScmVM :=
  let addr := next_cstack vm in
  set_cstack (mkCStack addr NULL :: cstack vm) (set_next_cstack (S addr) vm).

(** [Scm_VMNextHandler(vm)] *)
Definition Scm_VMNextHandler {A : Type} (vm : ScmVM) : outcome A :=
  match cstack vm with
  | _ :: (_ :: _) as rest => LongJmp (set_cstack rest vm)
  | _ => Exits 1
  end.

(** [Scm_VMRewindProtect(vm)] *)
Definition Scm_VMRewindProtect (vm : ScmVM) : outcome unit :=
  match cstack vm with
  | [] => Panics "Assertion failed: vm->cstack"
  | _ :: rest => Returns tt (set_cstack rest vm)
  end.

(* ----------------------------------------------------------------- *)
(** *** Exception handling *)

(** [Scm_ReportError] (of [error.c]) and two bits of [vm->runtimeFlags]
    (of [gauche/vm.h]). *)
Variable Scm_ReportError : ScmObj -> ScmVM -> outcome unit.
Variable SCM_ERROR_BEING_HANDLED : Z.
Variable SCM_ERROR_BEING_REPORTED : Z.

Definition SCM_VM_RUNTIME_FLAG_SET (flag : Z) (vm : ScmVM) : ScmVM :=
  set_runtimeFlags (Z.lor (runtimeFlags vm) flag) vm.
Definition SCM_VM_RUNTIME_FLAG_CLEAR (flag : Z) (vm : ScmVM) : ScmVM :=
  set_runtimeFlags (Z.land (runtimeFlags vm) (Z.lnot flag)) vm.

(** [DEFAULT_EXCEPTION_HANDLER], the static subr [default_exception_handler_rec]. *)
Definition DEFAULT_EXCEPTION_HANDLER : ScmObj :=
  SCM_SUBR default_exception_handler_body None "default-exception-handler".

(** Memory as the allocator hands it out: zero-filled. *)
Definition zero_cont : ScmContFrame := mkCont NULL NULL NULL 0 (PC_CODE 0) None.
Definition zero_env : ScmEnvFrame := mkEnv NULL SCM_UNBOUND 0.

(** [Scm_NewVM(proto, name)]: the registers and the empty stack of a
    new VM (the fields the model does not follow left out). *)
Definition Scm_NewVM (proto : option ScmVM) : ScmVM :=
  mkVM PC_TO_RETURN stackBase SCM_UNDEFINED (fun _ => SCM_UNDEFINED) 1
       NULL NULL stackBase None
       SCM_NIL DEFAULT_EXCEPTION_HANDLER None None
       SCM_VM_ESCAPE_NONE None SCM_UNBOUND
       (match proto with Some p => cstack p | None => [] end)
       (match proto with Some p => runtimeFlags p | None => 0 end)
       (fun _ => W_NULL) (fun _ => zero_env) (fun _ => zero_cont) []
       O O O.

(** [for (hp=current; SCM_PAIRP(hp) && (hp!=target); hp=SCM_CDR(hp))]:
    the after thunks between the current and the target handler list. *)
Fixpoint rewind_handlers (fuel : nat) (hp target : ScmObj) (vm : ScmVM) : outcome unit :=
  match hp with
  | SCM_PAIR _ a d =>
      if SCM_EQ hp target then Returns tt vm
      else
        let proc := SCM_CDR a in
        bind (Scm_ApplyRec fuel proc SCM_NIL (set_handlers d vm))
          (fun _ vm' => rewind_handlers fuel d target vm')
  | _ => Returns tt vm
  end.

(** [SCM_FOR_EACH(hp, vm->handlers)]: all the after thunks. *)
Fixpoint unwind_handlers (fuel : nat) (hp : ScmObj) (vm : ScmVM) : outcome unit :=
  match hp with
  | SCM_PAIR _ a d =>
      let proc := SCM_CDR a in
      bind (Scm_ApplyRec fuel proc SCM_NIL (set_handlers d vm))
        (fun _ vm' => unwind_handlers fuel d vm')
  | _ => Returns tt vm
  end.

(** [for (i=0; i<numVals; i++) vm->vals[i] = rvals[i];] where the slots
    of [rvals] that were never written read as [SCM_UNBOUND]. *)
Fixpoint install_rvals (n : nat) (i : nat) (rvals : list ScmObj) (v : nat -> ScmObj)
  : nat -> ScmObj :=
  match n with
  | O => v
  | S n' => install_rvals n' (S i) rvals (upd_nat v i (nth i rvals SCM_UNBOUND))
  end.

(** The end of [Scm_VMDefaultExceptionHandler]: leave through the host
    stack, or leave the process. *)
Definition default_handler_escape (ep : option nat) (e : ScmObj) (vm : ScmVM)
  : outcome unit :=
  match cstack vm with
  | _ :: _ =>
      LongJmp (set_escapeData1 e
                 (set_escapeData0 ep (set_escapeReason SCM_VM_ESCAPE_ERROR vm)))
  | [] => Exits EX_SOFTWARE
  end.

(** [Scm_VMDefaultExceptionHandler(e)] *)
Definition Scm_VMDefaultExceptionHandler (fuel : nat) (e : ScmObj) (vm : ScmVM)
  : outcome unit :=
  match escapePoint vm with
  | Some ep =>
      (* There's an escape point defined by with-error-handler. *)
      with_ep ep vm (fun r =>
        bind (if ep_rewindBefore r
              then rewind_handlers fuel (handlers vm) (ep_handlers r) vm
              else Returns tt vm)
          (fun _ vm1 =>
             let vm2 := set_escapePoint (ep_prev r) vm1 in
             let vm3 := SCM_VM_FLOATING_EP_SET (Some ep) vm2 in
             (* SCM_UNWIND_PROTECT *)
             let vm4 := Scm_VMUnwindProtect vm3 in
             let (arg, cell) := SCM_LIST1 e (next_cell vm4) in
             match
               bind (Scm_ApplyRec fuel (ep_ehandler r) arg (set_next_cell cell vm4))
                 (fun result vm5 =>
                    let numVals' := numVals vm5 in
                    let rvals :=
                      if numVals' >? 1
                      then vals_prefix (Z.to_nat (numVals' - 1)) (vals vm5) else [] in
                    bind (if negb (ep_rewindBefore r)
                          then rewind_handlers fuel (handlers vm5) (ep_handlers r) vm5
                          else Returns tt vm5)
                      (fun _ vm6 => Returns (result, numVals', rvals) vm6))
             with
             | LongJmp vmj =>
                 (* SCM_WHEN_ERROR *)
                 with_ep ep vmj (fun rj =>
                   Scm_VMNextHandler (SCM_VM_FLOATING_EP_SET (ep_floating rj) vmj))
             | Returns (result, numVals', rvals) vm6 =>
                 (* SCM_END_PROTECT *)
                 bind (Scm_VMRewindProtect vm6)
                   (fun _ vm7 =>
                      (* Install the continuation *)
                      with_ep ep vm7 (fun r7 =>
                        let vm8 :=
                          set_vals (install_rvals (Z.to_nat numVals') 0 rvals (vals vm7)) vm7 in
                        let vm9 := set_val0 result (set_numVals numVals' vm8) in
                        let vm10 := set_cont (ep_cont r7) vm9 in
                        let vm11 := SCM_VM_FLOATING_EP_SET (ep_floating r7) vm10 in
                        let vm12 :=
                          if ep_errorReporting r7
                          then SCM_VM_RUNTIME_FLAG_SET SCM_ERROR_BEING_REPORTED vm11
                          else vm11 in
                        default_handler_escape (Some ep) e vm12))
             | Raises msg irr vm' => Raises msg irr vm'
             | Exits s => Exits s
             | Panics msg => Panics msg
             | Spins => Spins
             end))
  | None =>
      (* We don't have an active error handler, so this is the fallback
         behavior. *)
      bind (Scm_ReportError e vm)
        (fun _ vm1 =>
           bind (unwind_handlers fuel (handlers vm1) vm1)
             (fun _ vm2 => default_handler_escape None e vm2))
  end.



(* ----------------------------------------------------------------- *)
(** *** Running a thunk from a host continuation *)

(** The call instruction of the loop belongs to [vminsn.c].  [call0]
    stands for what [TAIL_CALL(0)] does with the procedure in [val0]:
    the whole run of the callee on no argument, up to the point where
    it is about to execute its [RET]. *)
Variable call0 : ScmObj -> ScmVM -> ScmVM.

(** One turn of the loop at the two code vectors a host continuation
    leaves in [pc]: [apply_calls[0]] is [TAIL_CALL(0); RET], and
    [PC_TO_RETURN] is [RET]. *)
Definition loop_step (vm : ScmVM) : outcome bool :=
  match pc vm with
  | apply_calls O => RETURN_OP (call0 (val0 vm) vm)
  | PC_TO_RETURN => RETURN_OP vm
  | _ => Panics "instruction outside the model"
  end.

(** The loop stores what a subr returns in [val0]. *)
Definition subr_return (r : outcome ScmObj) : outcome unit :=
  bind r (fun v vm => Returns tt (set_val0 v vm)).

(** [Scm_VMDynamicWind] called as a subr, and the three turns of the
    loop that follow. *)
Definition dynamic_wind_run (before body after : ScmObj) (vm : ScmVM) : outcome bool :=
  bind (subr_return (Scm_VMDynamicWind before body after vm))
    (fun _ vm0 =>
       bind (loop_step vm0)
         (fun _ vm1 => bind (loop_step vm1) (fun _ vm2 => loop_step vm2))).

(* ================================================================= *)
(** ** Properties *)

Ltac vm_simpl :=
  cbn [pc sp val0 vals numVals env cont argp base handlers exceptionHandler
       escapePoint escapePointFloating escapeReason escapeData0 escapeData1
       cstack runtimeFlags words envs conts eps next_block next_cell next_cstack
       set_pc set_sp set_val0 set_vals set_numVals set_env set_cont set_argp
       set_base set_handlers set_exceptionHandler set_escapePoint
       set_escapePointFloating set_escapeReason set_escapeData0 set_escapeData1
       set_cstack set_runtimeFlags set_words set_envs set_conts set_eps
       set_next_block set_next_cell set_next_cstack
       is_null negb ptr_add fst snd] in *.

(* ----------------------------------------------------------------- *)
(** *** Lists *)

Lemma SCM_EQ_refl (x : ScmObj) : SCM_EQ x x = true.
Proof. unfold SCM_EQ. destruct (ScmObj_eq_dec x x); congruence. Qed.

Lemma SCM_EQ_true (x y : ScmObj) : SCM_EQ x y = true <-> x = y.
Proof.
  unfold SCM_EQ. destruct (ScmObj_eq_dec x y); split; congruence.
Qed.

(** [present a l]: [a] is an element of the list [l], up to [eq?]. *)
Definition present (a l : ScmObj) : bool := existsb (SCM_EQ a) (elements l).

Lemma Scm_Memq_present (a l : ScmObj) :
  negb (SCM_FALSEP (Scm_Memq a l)) = present a l.
Proof.
  unfold present.
  induction l as [| | | | ? | ? | ? ? ? | ? ? | k x IHx d IHd]; simpl; try reflexivity.
  destruct (SCM_EQ a x); simpl; [reflexivity | exact IHd].
Qed.

Lemma Scm_Memq_pair (a l : ScmObj) :
  present a l = true -> SCM_PAIRP (Scm_Memq a l) = true.
Proof.
  unfold present.
  induction l as [| | | | ? | ? | ? ? ? | ? ? | k x IHx d IHd]; simpl; try discriminate.
  destruct (SCM_EQ a x); simpl; [reflexivity | exact IHd].
Qed.

Lemma elements_Reverse2 (l tail : ScmObj) (cell : nat) :
  elements (fst (Scm_Reverse2 l tail cell)) = rev (elements l) ++ elements tail.
Proof.
  revert tail cell.
  induction l as [| | | | ? | ? | ? ? ? | ? ? | k x IHx d IHd];
    intros tail n0; simpl; try reflexivity.
  rewrite IHd. simpl. rewrite <- app_assoc. reflexivity.
Qed.

Lemma elements_Reverse (l : ScmObj) (cell : nat) :
  elements (fst (Scm_Reverse l cell)) = rev (elements l).
Proof.
  unfold Scm_Reverse. rewrite elements_Reverse2. simpl. apply app_nil_r.
Qed.

Lemma existsb_rev {A : Type} (f : A -> bool) (l : list A) :
  existsb f (rev l) = existsb f l.
Proof.
  induction l as [| x xs IH]; simpl; [reflexivity |].
  rewrite existsb_app, IH. simpl.
  destruct (f x), (existsb f xs); reflexivity.
Qed.

Lemma present_Reverse (a l : ScmObj) (cell : nat) :
  present a (fst (Scm_Reverse l cell)) = present a l.
Proof.
  unfold present. rewrite elements_Reverse. apply existsb_rev.
Qed.

Lemma elements_append1 (h c : ScmObj) :
  elements (append1 h c) = elements h ++ elements c.
Proof.
  induction h as [| | | | ? | ? | ? ? ? | ? ? | k x IHx d IHd]; simpl; try reflexivity.
  rewrite IHd. reflexivity.
Qed.

(** The calls a list built by [throw_cont_calculate_handlers] stands
    for: each entry is a thunk paired with a handler chain. *)
Definition entries (h : ScmObj) : list (ScmObj * ScmObj) :=
  map (fun e => (SCM_CAR e, SCM_CDR e)) (elements h).

Lemma entries_APPEND1 (h x : ScmObj) (cell : nat) :
  entries (fst (SCM_APPEND1 h x cell)) = entries h ++ [(SCM_CAR x, SCM_CDR x)].
Proof.
  unfold entries, SCM_APPEND1. simpl.
  rewrite elements_append1, map_app. reflexivity.
Qed.

(** The cells of the current list from its front, up to the first one
    that the target list holds too. *)
Fixpoint leaving (p target : ScmObj) : list ScmObj :=
  match p with
  | SCM_PAIR _ a d => if present a target then [] else p :: leaving d target
  | _ => []
  end.

(** The calls of after thunks: the thunk of the cell, and the list
    below the cell. *)
Definition after_calls (current target : ScmObj) : list (ScmObj * ScmObj) :=
  map (fun p => (SCM_CDAR p, SCM_CDR p)) (leaving current target).

(** The calls of before thunks, outermost first: the thunk of each
    element of the target list that the current list lacks, and the
    part of the target list below that element. *)
Definition before_calls (current target : ScmObj) : list (ScmObj * ScmObj) :=
  map (fun a => (SCM_CAR a, SCM_CDR (Scm_Memq a target)))
      (filter (fun a => negb (present a current)) (rev (elements target))).

(** Every element of a handler list is a pair [(before . after)]. *)
Definition handler_list (l : ScmObj) : Prop :=
  Forall (fun a => SCM_PAIRP a = true) (elements l).

Lemma calculate_after_handlers_spec (p target target' h : ScmObj) (cell : nat) :
  handler_list p ->
  (forall a, present a target' = present a target) ->
  exists h' cell',
    calculate_after_handlers p target' h cell = Some (h', cell')
    /\ entries h' = entries h ++ after_calls p target.
Proof.
  unfold after_calls.
  revert h cell.
  induction p as [| | | | ? | ? | ? ? ? | ? ? | k a IHa d IHd]; intros h n0 Hp Ht; simpl;
    try (exists h, n0; split; [reflexivity | now rewrite app_nil_r]).
  inversion Hp as [| x xs Hx Hxs]; subst.
  rewrite Hx, Scm_Memq_present, Ht. simpl.
  destruct (present a target) eqn:E.
  - exists h, n0. split; [reflexivity | now rewrite app_nil_r].
  - destruct (IHd (append1 h (SCM_PAIR (S n0) (SCM_PAIR n0 (SCM_CDR a) d) SCM_NIL))
                (S (S n0)) Hxs Ht)
      as (h' & c' & Heq & Hent).
    exists h', c'. split; [exact Heq |].
    rewrite Hent.
    change (append1 h (SCM_PAIR (S n0) (SCM_PAIR n0 (SCM_CDR a) d) SCM_NIL))
      with (fst (SCM_APPEND1 h (SCM_PAIR n0 (SCM_CDR a) d) (S n0))).
    rewrite entries_APPEND1. simpl. rewrite <- app_assoc. reflexivity.
Qed.

Lemma calculate_before_handlers_spec (p current ep_hs h : ScmObj) (cell : nat) :
  handler_list p ->
  (forall a, In a (elements p) -> present a ep_hs = true) ->
  exists h' cell',
    calculate_before_handlers p current ep_hs h cell = Some (h', cell')
    /\ entries h' =
       entries h ++
       map (fun a => (SCM_CAR a, SCM_CDR (Scm_Memq a ep_hs)))
           (filter (fun a => negb (present a current)) (elements p)).
Proof.
  revert h cell.
  induction p as [| | | | ? | ? | ? ? ? | ? ? | k a IHa d IHd]; intros h n0 Hp Hin; simpl;
    try (exists h, n0; split; [reflexivity | now rewrite app_nil_r]).
  inversion Hp as [| x xs Hx Hxs]; subst.
  rewrite Hx, Scm_Memq_present. simpl.
  assert (Hin' : forall b, In b (elements d) -> present b ep_hs = true)
    by (intros b Hb; apply Hin; simpl; auto).
  destruct (present a current) eqn:E; simpl.
  - apply IHd; assumption.
  - rewrite (Scm_Memq_pair a ep_hs) by (apply Hin; simpl; auto). simpl.
    destruct (IHd (append1 h (SCM_PAIR (S n0)
                       (SCM_PAIR n0 (SCM_CAR a) (SCM_CDR (Scm_Memq a ep_hs))) SCM_NIL))
                (S (S n0)) Hxs Hin')
      as (h' & c' & Heq & Hent).
    exists h', c'. split; [exact Heq |].
    rewrite Hent.
    change (append1 h (SCM_PAIR (S n0)
              (SCM_PAIR n0 (SCM_CAR a) (SCM_CDR (Scm_Memq a ep_hs))) SCM_NIL))
      with (fst (SCM_APPEND1 h (SCM_PAIR n0 (SCM_CAR a) (SCM_CDR (Scm_Memq a ep_hs))) (S n0))).
    rewrite entries_APPEND1. simpl. rewrite <- app_assoc. reflexivity.
Qed.

Lemma present_In (a l : ScmObj) : present a l = true <-> In a (elements l).
Proof.
  unfold present. rewrite existsb_exists. split.
  - intros (x & Hx & He). apply SCM_EQ_true in He. now subst.
  - intros H. exists a. split; [exact H | apply SCM_EQ_refl].
Qed.

(* ----------------------------------------------------------------- *)
(** *** Stores *)

Lemma upd_same {A : Type} (f : ptr -> A) (p : ptr) (v : A) : upd f p v p = v.
Proof. unfold upd. destruct (ptr_eq_dec p p); congruence. Qed.

Lemma upd_other {A : Type} (f : ptr -> A) (p q : ptr) (v : A) :
  q <> p -> upd f p v q = f q.
Proof. unfold upd. destruct (ptr_eq_dec q p); congruence. Qed.

Lemma IN_STACK_P_stack (p : ptr) :
  IN_STACK_P p = true -> exists o, p = STACK o /\ 0 <= o < SCM_VM_STACK_SIZE.
Proof.
  destruct p as [| o | b o]; simpl; try discriminate.
  intros H. exists o. split; [reflexivity | lia].
Qed.

Lemma IN_STACK_P_heap (b : nat) (o : Z) : IN_STACK_P (HEAP b o) = false.
Proof. reflexivity. Qed.

(** A pointer outside the heap: null or into the stack block. *)
Definition not_heap (p : ptr) : Prop :=
  match p with HEAP _ _ => False | _ => True end.

Lemma IN_STACK_P_not_heap (p : ptr) : IN_STACK_P p = true -> not_heap p.
Proof. destruct p; simpl; auto; discriminate. Qed.

Lemma copy_words_outside (n : nat) (s : ptr) (b : nat) (o : Z) (w : ptr -> word) (q : ptr) :
  (forall o', q <> HEAP b o') -> copy_words n s (HEAP b o) w q = w q.
Proof.
  revert s o w.
  induction n as [| n IH]; intros s o w Hq; simpl; [reflexivity |].
  rewrite IH by exact Hq. apply upd_other. apply Hq.
Qed.

Lemma copy_words_not_heap (n : nat) (s : ptr) (b : nat) (o : Z) (w : ptr -> word) (q : ptr) :
  not_heap q -> copy_words n s (HEAP b o) w q = w q.
Proof.
  intros Hq. apply copy_words_outside. intros o' E. subst q. exact Hq.
Qed.

Lemma ptr_add_0 (p : ptr) : ptr_add p 0 = p.
Proof. destruct p; simpl; try rewrite Z.add_0_r; reflexivity. Qed.

Lemma ptr_add_add (p : ptr) (a b : Z) : ptr_add (ptr_add p a) b = ptr_add p (a + b).
Proof. destruct p; simpl; try rewrite Z.add_assoc; reflexivity. Qed.

Lemma ptr_add_inj (p : ptr) (a b : Z) :
  is_null p = false -> ptr_add p a = ptr_add p b -> a = b.
Proof.
  destruct p; simpl; try discriminate; intros _ H; injection H; lia.
Qed.

Lemma ptr_add_null (p : ptr) (a : Z) : is_null (ptr_add p a) = is_null p.
Proof. destruct p; reflexivity. Qed.

Lemma copy_words_below (n : nat) (s : ptr) (b : nat) (o o' : Z) (w : ptr -> word) :
  o' < o -> copy_words n s (HEAP b o) w (HEAP b o') = w (HEAP b o').
Proof.
  revert s o w.
  induction n as [| n IH]; intros s o w Hlt; simpl; [reflexivity |].
  rewrite IH by lia. apply upd_other. intros E. injection E. lia.
Qed.

(** What a forward copy does when the source lies outside the block
    of the destination. *)
Lemma copy_words_spec (n : nat) (s : ptr) (b : nat) (o : Z) (w : ptr -> word) :
  (forall i o', 0 <= i < Z.of_nat n -> ptr_add s i <> HEAP b o') ->
  forall i, 0 <= i < Z.of_nat n ->
    copy_words n s (HEAP b o) w (HEAP b (o + i)) = w (ptr_add s i).
Proof.
  revert s o w.
  induction n as [| n IH]; intros s o w Hs i Hi; [lia |].
  simpl copy_words.
  destruct (Z.eq_dec i 0) as [-> | Hne].
  - rewrite Z.add_0_r, copy_words_below by lia.
    rewrite upd_same, ptr_add_0. reflexivity.
  - replace (o + i) with ((o + 1) + (i - 1)) by lia.
    rewrite IH.
    + rewrite ptr_add_add. replace (1 + (i - 1)) with i by lia.
      apply upd_other. apply Hs. lia.
    + intros j o' Hj. rewrite ptr_add_add. apply Hs. lia.
    + lia.
Qed.

Lemma store_words_before (data : list word) (p : ptr) (w : ptr -> word) (k : Z) :
  is_null p = false -> k < 0 ->
  store_words data p w (ptr_add p k) = w (ptr_add p k).
Proof.
  revert p w k.
  induction data as [| x data IH]; intros p w k Hp Hk; simpl; [reflexivity |].
  replace (ptr_add p k) with (ptr_add (ptr_add p 1) (k - 1))
    by (rewrite ptr_add_add; f_equal; lia).
  rewrite IH by (rewrite ?ptr_add_null; auto; lia).
  apply upd_other.
  rewrite ptr_add_add. rewrite <- (ptr_add_0 p) at 2.
  intros E. apply ptr_add_inj in E; auto. lia.
Qed.

Lemma load_store_words (data : list word) (p : ptr) (w : ptr -> word) :
  is_null p = false ->
  load_words (List.length data) p (store_words data p w) = data.
Proof.
  revert p w.
  induction data as [| x data IH]; intros p w Hp; simpl; [reflexivity |].
  f_equal.
  - pose proof (store_words_before data (ptr_add p 1) (upd w p x) (-1)) as H.
    rewrite ptr_add_add, ptr_add_null in H. change (1 + -1) with 0 in H.
    rewrite ptr_add_0 in H. rewrite H by (auto; lia). apply upd_same.
  - apply IH. rewrite ptr_add_null. exact Hp.
Qed.

(** Two stores that agree on the [n] words from [p] load the same. *)
Lemma load_words_ext (n : nat) (p : ptr) (w w' : ptr -> word) :
  (forall i, 0 <= i < Z.of_nat n -> w' (ptr_add p i) = w (ptr_add p i)) ->
  load_words n p w' = load_words n p w.
Proof.
  revert p.
  induction n as [| n IH]; intros p H; simpl; [reflexivity |].
  f_equal.
  - rewrite <- (ptr_add_0 p). apply H. lia.
  - apply IH. intros i Hi. rewrite ptr_add_add. apply H. lia.
Qed.

(* ----------------------------------------------------------------- *)
(** *** What the stack manager leaves alone *)

(** The registers that no function of the stack manager assigns. *)
Definition regs (vm : ScmVM) :=
  (pc vm, sp vm, val0 vm, vals vm, numVals vm, argp vm, base vm, handlers vm,
   exceptionHandler vm, escapePoint vm, escapePointFloating vm, escapeReason vm,
   escapeData0 vm, escapeData1 vm, runtimeFlags vm, next_cell vm, next_cstack vm).

Lemma regs_set_words w vm : regs (set_words w vm) = regs vm.
Proof. reflexivity. Qed.
Lemma regs_set_envs e vm : regs (set_envs e vm) = regs vm.
Proof. reflexivity. Qed.
Lemma regs_set_conts c vm : regs (set_conts c vm) = regs vm.
Proof. reflexivity. Qed.
Lemma regs_set_next_block b vm : regs (set_next_block b vm) = regs vm.
Proof. reflexivity. Qed.
Lemma regs_set_env e vm : regs (set_env e vm) = regs vm.
Proof. reflexivity. Qed.
Lemma regs_set_cont c vm : regs (set_cont c vm) = regs vm.
Proof. reflexivity. Qed.
Lemma regs_set_cstack c vm : regs (set_cstack c vm) = regs vm.
Proof. reflexivity. Qed.
Lemma regs_set_eps e vm : regs (set_eps e vm) = regs vm.
Proof. reflexivity. Qed.

Create Rewrite HintDb vmregs.
#[local] Hint Rewrite regs_set_words regs_set_envs regs_set_conts regs_set_next_block
  regs_set_env regs_set_cont regs_set_cstack regs_set_eps : vmregs.

(** A pointer that is not into a block allocated after [vm]. *)
Definition old_ptr (vm : ScmVM) (q : ptr) : Prop :=
  match q with
  | HEAP b _ => (b < next_block vm)%nat
  | _ => True
  end.

(** [vm'] differs from [vm] by allocations, by writes to frames and by
    writes to the words of the new blocks. *)
Record promoted (vm vm' : ScmVM) : Prop := mkPromoted {
  pr_regs : regs vm' = regs vm;
  pr_cont : cont vm' = cont vm;
  pr_cstack : cstack vm' = cstack vm;
  pr_eps : eps vm' = eps vm;
  pr_words : forall q, old_ptr vm q -> words vm' q = words vm q;
  pr_block : (next_block vm <= next_block vm')%nat
}.

Lemma promoted_refl (vm : ScmVM) : promoted vm vm.
Proof. constructor; auto. Qed.

Lemma old_ptr_mono (vm vm' : ScmVM) (q : ptr) :
  (next_block vm <= next_block vm')%nat -> old_ptr vm q -> old_ptr vm' q.
Proof. destruct q; simpl; auto. lia. Qed.

Lemma promoted_trans (vm1 vm2 vm3 : ScmVM) :
  promoted vm1 vm2 -> promoted vm2 vm3 -> promoted vm1 vm3.
Proof.
  intros [] []. constructor; try congruence; try lia.
  intros q Hq. rewrite pr_words1 by (eapply old_ptr_mono; eauto).
  apply pr_words0. exact Hq.
Qed.

Lemma promoted_set_envs (vm : ScmVM) (e : ptr -> ScmEnvFrame) :
  promoted vm (set_envs e vm).
Proof. constructor; auto. Qed.

Lemma promoted_set_conts (vm : ScmVM) (c : ptr -> ScmContFrame) :
  promoted vm (set_conts c vm).
Proof. constructor; auto. Qed.

Lemma promoted_set_env (vm : ScmVM) (e : ptr) : promoted vm (set_env e vm).
Proof. constructor; auto. Qed.

(** The environment store of [vm'] at the stack frames is the one of
    [vm] except at [e], which is now forwarded. *)
Definition env_forwarded (vm vm' : ScmVM) (e : ptr) : Prop :=
  e_size (envs vm' e) = -1
  /\ forall q, not_heap q -> q <> e -> envs vm' q = envs vm q.

Lemma save_env_body_inr (vm : ScmVM) (e prev head : ptr) vm' next prev' head' :
  save_env_body vm e prev head = inr (vm', next, prev', head') ->
  not_heap e -> (prev = NULL \/ exists b o, prev = HEAP b o) ->
  promoted vm vm' /\ conts vm' = conts vm /\ env vm' = env vm
  /\ 0 <= e_size (envs vm e)
  /\ env_forwarded vm vm' e
  /\ exists b o, prev' = HEAP b o.
Proof.
  unfold save_env_body.
  destruct (Z.ltb_spec (e_size (envs vm e)) 0) as [Hlt | Hge]; [discriminate |].
  cbn [SCM_NEW2]. intros H He Hprev. injection H as <- <- <- <-.
  split; [| split; [| split; [| split; [| split]]]].
  - destruct (is_null prev); constructor; vm_simpl; auto;
      intros q Hq; apply copy_words_outside; intros o' E; subst q; simpl in Hq; lia.
  - destruct (is_null prev); reflexivity.
  - destruct (is_null prev); reflexivity.
  - exact Hge.
  - split.
    + destruct (is_null prev); vm_simpl; rewrite upd_same; reflexivity.
    + intros q Hq Hne.
      assert (Hsaved : q <> ptr_add (HEAP (next_block vm) 0) (e_size (envs vm e)))
        by (intros E; subst q; exact Hq).
      destruct Hprev as [-> | (b & o & ->)]; vm_simpl.
      * rewrite upd_other by exact Hne. rewrite upd_other by exact Hsaved. reflexivity.
      * rewrite upd_other by exact Hne.
        rewrite upd_other by (intros E; subst q; exact Hq).
        rewrite upd_other by exact Hsaved. reflexivity.
  - simpl. eauto.
Qed.

Lemma save_env_body_inl (vm : ScmVM) (e prev head : ptr) vm' head' :
  save_env_body vm e prev head = inl (vm', head') ->
  (prev = NULL \/ exists b o, prev = HEAP b o) ->
  promoted vm vm' /\ conts vm' = conts vm /\ env vm' = env vm
  /\ forall q, not_heap q -> envs vm' q = envs vm q.
Proof.
  unfold save_env_body.
  destruct (Z.ltb_spec (e_size (envs vm e)) 0) as [Hlt | Hge].
  - intros H Hprev. injection H as <- <-.
    destruct Hprev as [-> | (b & o & ->)]; simpl.
    + repeat split; auto.
    + split; [apply promoted_set_envs |]. split; [reflexivity |]. split; [reflexivity |].
      intros q Hq. apply upd_other. intros E. subst q. exact Hq.
  - cbn [SCM_NEW2]. discriminate.
Qed.


(* ----------------------------------------------------------------- *)
(** *** The loops over the stack end *)

(** The offsets of the slots of the value stack. *)
Definition stack_offsets : list Z := map Z.of_nat (seq 0 (Z.to_nat SCM_VM_STACK_SIZE)).

Lemma stack_offsets_In (o : Z) : 0 <= o < SCM_VM_STACK_SIZE -> In o stack_offsets.
Proof.
  intros H. unfold stack_offsets. apply in_map_iff.
  exists (Z.to_nat o). split; [lia |]. apply in_seq. lia.
Qed.

(** The number of stack slots that satisfy [P]. *)
Definition count_stack (P : Z -> bool) : nat := List.length (filter P stack_offsets).

Lemma count_stack_bound (P : Z -> bool) : (count_stack P < stack_fuel)%nat.
Proof.
  unfold count_stack, stack_fuel.
  pose proof (filter_length_le P stack_offsets) as H.
  unfold stack_offsets in *. rewrite length_map, length_seq in H. lia.
Qed.

Lemma filter_length_mono {A : Type} (P P' : A -> bool) (l : list A) :
  (forall y, P' y = true -> P y = true) ->
  (List.length (filter P' l) <= List.length (filter P l))%nat.
Proof.
  intros H. induction l as [| a l IH]; simpl; [lia |].
  destruct (P' a) eqn:E'.
  - rewrite (H a E'). simpl. lia.
  - destruct (P a); simpl; lia.
Qed.

Lemma filter_length_lt {A : Type} (P P' : A -> bool) (l : list A) (x : A) :
  In x l -> P x = true -> P' x = false ->
  (forall y, P' y = true -> P y = true) ->
  (List.length (filter P' l) < List.length (filter P l))%nat.
Proof.
  intros Hin Hx Hx' H.
  induction l as [| a l IH]; simpl; [contradiction |].
  destruct Hin as [-> | Hin].
  - rewrite Hx, Hx'. simpl.
    pose proof (filter_length_mono P P' l H). lia.
  - specialize (IH Hin).
    destruct (P' a) eqn:E'.
    + rewrite (H a E'). simpl. lia.
    + destruct (P a); simpl; lia.
Qed.

Lemma count_stack_lt (P P' : Z -> bool) (o : Z) :
  0 <= o < SCM_VM_STACK_SIZE -> P o = true -> P' o = false ->
  (forall y, y <> o -> P' y = P y) ->
  (count_stack P' < count_stack P)%nat.
Proof.
  intros Ho Hp Hp' H. unfold count_stack.
  apply (filter_length_lt P P' stack_offsets o); auto.
  - apply stack_offsets_In. exact Ho.
  - intros y Hy. destruct (Z.eq_dec y o) as [-> | Hne]; [exact Hp |].
    rewrite <- H; assumption.
Qed.

(** An in-stack environment frame not yet forwarded. *)
Definition live_env (vm : ScmVM) (o : Z) : bool := 0 <=? e_size (envs vm (STACK o)).

Lemma save_env_loop_total (n : nat) (vm : ScmVM) (e prev head : ptr) :
  IN_STACK_P e = true ->
  (prev = NULL \/ exists b o, prev = HEAP b o) ->
  (count_stack (live_env vm) < n)%nat ->
  exists vm' h,
    save_env_loop n vm e prev head = Some (vm', h)
    /\ promoted vm vm' /\ conts vm' = conts vm /\ env vm' = env vm.
Proof.
  revert vm e prev head.
  induction n as [| n IH]; intros vm e prev head He Hprev Hn; [lia |].
  simpl.
  destruct (save_env_body vm e prev head) as [[vm1 h1] | [[[vm1 next] prev1] head1]] eqn:Hb.
  - apply save_env_body_inl in Hb; [| exact Hprev].
    destruct Hb as (Hp & Hc & Hv & _). exists vm1, h1. auto.
  - apply save_env_body_inr in Hb;
      [| apply IN_STACK_P_not_heap; exact He | exact Hprev].
    destruct Hb as (Hp & Hc & Hv & Hsz & (Hfw & Hother) & Hprev1).
    destruct (IN_STACK_P next) eqn:Hnext.
    + destruct (IN_STACK_P_stack e He) as (o & -> & Ho).
      assert (Hlt : (count_stack (live_env vm1) < count_stack (live_env vm))%nat).
      { apply (count_stack_lt _ _ o Ho).
        - unfold live_env. lia.
        - unfold live_env. rewrite Hfw. reflexivity.
        - intros y Hy. unfold live_env. rewrite Hother; [reflexivity | exact I |].
          intros E. injection E. exact Hy. }
      destruct (IH vm1 next prev1 head1 Hnext (or_intror Hprev1)) as (vm2 & h2 & Hl & Hp2 & Hc2 & Hv2);
        [lia |].
      exists vm2, h2. split; [exact Hl |].
      split; [eapply promoted_trans; eauto |]. split; congruence.
    + exists vm1, head1. auto.
Qed.

Lemma save_env_total (vm : ScmVM) (e : ptr) :
  exists vm' e',
    save_env vm e = Some (vm', e')
    /\ promoted vm vm' /\ conts vm' = conts vm /\ env vm' = env vm.
Proof.
  unfold save_env.
  destruct (IN_STACK_P e) eqn:He; cbn [negb].
  - apply save_env_loop_total; auto. apply count_stack_bound.
  - exists vm, e. split; [reflexivity |]. split; [apply promoted_refl | auto].
Qed.

Lemma save_cont_env_spec (vm : ScmVM) (c : ptr) :
  exists vm' e',
    save_cont_env vm c = Some vm'
    /\ promoted vm vm' /\ env vm' = env vm
    /\ conts vm' c = set_c_env e' (conts vm c)
    /\ forall q, q <> c -> conts vm' q = conts vm q.
Proof.
  unfold save_cont_env.
  destruct (FORWARDED_ENV_P vm (c_env (conts vm c))).
  - eexists _, _. split; [reflexivity |].
    split; [apply promoted_set_conts |]. split; [reflexivity |]. vm_simpl.
    split; [apply upd_same | intros q Hq; apply upd_other; exact Hq].
  - destruct (IN_STACK_P (c_env (conts vm c))).
    + destruct (save_env_total vm (c_env (conts vm c))) as (vm1 & e1 & -> & Hp & Hc & He).
      eexists _, _. split; [reflexivity |].
      split; [eapply promoted_trans; [exact Hp | apply promoted_set_conts] |].
      split; [exact He |]. vm_simpl. rewrite Hc.
      split; [apply upd_same | intros q Hq; apply upd_other; exact Hq].
    + exists vm, (c_env (conts vm c)). split; [reflexivity |].
      split; [apply promoted_refl |]. split; [reflexivity |].
      split; [destruct (conts vm c); reflexivity | auto].
Qed.

(** The frame at [csave] in [vm'] is a copy of the frame at [c] in
    [vm], and its data words are the saved arguments (or the opaque
    words) of that frame. *)
Definition frame_copy (vm vm' : ScmVM) (c csave : ptr) : Prop :=
  let f := conts vm c in
  let g := conts vm' csave in
  c_size g = c_size f /\ c_pc g = c_pc f /\ c_base g = c_base f
  /\ c_argp g = (if is_null (c_argp f) then NULL else ptr_add csave CONT_FRAME_SIZE)
  /\ forall i, 0 <= i < c_size f ->
       words vm' (ptr_add csave (CONT_FRAME_SIZE + i)) =
       words vm (ptr_add (if is_null (c_argp f) then ptr_add c CONT_FRAME_SIZE
                          else c_argp f) i).

Lemma copy_header_full (n : Z) (f g : ScmContFrame) :
  CONT_FRAME_SIZE <= n -> copy_header n f g = f.
Proof.
  unfold copy_header, CONT_FRAME_SIZE. intros H.
  destruct (Z.leb_spec 1 n); [| lia]. destruct (Z.leb_spec 2 n); [| lia].
  destruct (Z.leb_spec 3 n); [| lia]. destruct (Z.leb_spec 4 n); [| lia].
  destruct (Z.leb_spec 5 n); [| lia]. destruct (Z.leb_spec 6 n); [| lia].
  destruct f; reflexivity.
Qed.

Lemma copy_header_prev (n : Z) (f g : ScmContFrame) :
  c_prev (copy_header n f g) = c_prev f \/ c_prev (copy_header n f g) = c_prev g.
Proof.
  unfold copy_header. cbn [c_prev]. destruct (1 <=? n); auto.
Qed.

Ltac frame_simpl :=
  cbn [c_prev c_env c_argp c_size c_pc c_base set_c_prev set_c_env set_c_argp
       set_c_size e_up e_info e_size set_e_up] in *.

Lemma save_cont_copy_spec (vm : ScmVM) (c : ptr) (b : nat) :
  let csave := HEAP b 0 in
  let vm' := save_cont_copy vm c csave in
  not_heap c ->
  regs vm' = regs vm /\ cont vm' = cont vm /\ cstack vm' = cstack vm /\ eps vm' = eps vm
  /\ env vm' = env vm /\ next_block vm' = next_block vm
  /\ (forall q, (forall o, q <> HEAP b o) -> words vm' q = words vm q)
  /\ (forall q, q <> csave -> conts vm' q = conts vm q)
  /\ (c_prev (conts vm' csave) = c_prev (conts vm c)
      \/ c_prev (conts vm' csave) = c_prev (conts vm csave))
  /\ (0 <= c_size (conts vm c) ->
      (forall o, c_argp (conts vm c) <> HEAP b o) ->
      c_prev (conts vm' csave) = c_prev (conts vm c) /\ frame_copy vm vm' c csave).
Proof.
  intros csave vm' Hc. subst vm'. unfold save_cont_copy.
  destruct (is_null (c_argp (conts vm c))) eqn:Hargp; cbn [negb].
  - (* C continuation *)
    vm_simpl.
    do 6 (split; [reflexivity |]).
    split; [intros q Hq; apply copy_words_outside; exact Hq |].
    split; [intros q Hq; apply upd_other; exact Hq |].
    rewrite upd_same.
    split; [apply copy_header_prev |].
    intros Hsz _. rewrite copy_header_full by lia.
    split; [reflexivity |].
    unfold frame_copy. vm_simpl. rewrite ?upd_same, Hargp.
    do 3 (split; [reflexivity |]).
    split; [destruct (c_argp (conts vm c)); try discriminate; reflexivity |].
    intros i Hi. subst csave. cbn [ptr_add].
    replace (0 + (CONT_FRAME_SIZE + i)) with ((0 + CONT_FRAME_SIZE) + i) by lia.
    rewrite copy_words_spec; [reflexivity | | lia].
    intros j o' Hj. destruct c; cbn [ptr_add]; try discriminate. contradiction.
  - (* Scheme continuation *)
    assert (Hwords : forall q, (forall o, q <> HEAP b o) ->
              words (if negb (c_size (conts vm c) =? 0)
                     then set_words (copy_words (Z.to_nat (c_size (conts vm c)))
                                       (c_argp (conts vm c)) (ptr_add csave CONT_FRAME_SIZE)
                                       (words (set_conts (upd (conts vm) csave (conts vm c)) vm)))
                            (set_conts (upd (conts vm) csave (conts vm c)) vm)
                     else set_conts (upd (conts vm) csave (conts vm c)) vm) q = words vm q).
    { intros q Hq. destruct (negb (c_size (conts vm c) =? 0)); vm_simpl; [| reflexivity].
      apply copy_words_outside. exact Hq. }
    destruct (negb (c_size (conts vm c) =? 0)) eqn:Hsz0; vm_simpl.
    + do 6 (split; [reflexivity |]).
      split; [exact Hwords |].
      split; [intros q Hq; rewrite !upd_other by exact Hq; reflexivity |].
      rewrite !upd_same. frame_simpl.
      split; [left; reflexivity |].
      intros Hsz Hold. split; [reflexivity |].
      unfold frame_copy. vm_simpl. rewrite !upd_same, Hargp. frame_simpl.
      do 4 (split; [reflexivity |]).
      intros i Hi. subst csave. cbn [ptr_add].
      replace (0 + (CONT_FRAME_SIZE + i)) with ((0 + CONT_FRAME_SIZE) + i) by lia.
      rewrite copy_words_spec; [reflexivity | | lia].
      intros j o' Hj E. destruct (c_argp (conts vm c)); cbn [ptr_add] in E; try discriminate.
      injection E as -> _. eapply Hold. reflexivity.
    + do 6 (split; [reflexivity |]).
      split; [exact Hwords |].
      split; [intros q Hq; rewrite !upd_other by exact Hq; reflexivity |].
      rewrite !upd_same. frame_simpl.
      split; [left; reflexivity |].
      intros Hsz Hold. split; [reflexivity |].
      unfold frame_copy. vm_simpl. rewrite !upd_same, Hargp. frame_simpl.
      do 4 (split; [reflexivity |]).
      intros i Hi. apply negb_false_iff, Z.eqb_eq in Hsz0. lia.
Qed.

Lemma old_ptr_add (vm : ScmVM) (p : ptr) (i : Z) : old_ptr vm p -> old_ptr vm (ptr_add p i).
Proof. destruct p; simpl; auto. Qed.

Lemma save_cont_body_spec (vm : ScmVM) (c prev : ptr) :
  let csave := HEAP (next_block vm) 0 in
  IN_STACK_P c = true ->
  (prev = NULL \/ exists b, prev = HEAP b 0 /\ (b < next_block vm)%nat) ->
  exists vm',
    save_cont_body vm c prev = Some (vm', c_prev (conts vm c), csave)
    /\ promoted vm vm' /\ env vm' = env vm /\ (next_block vm < next_block vm')%nat
    /\ c_prev (conts vm' c) = csave /\ c_size (conts vm' c) = -1
    /\ (forall q, q <> c -> q <> csave -> q <> prev -> conts vm' q = conts vm q)
    /\ (prev <> NULL -> conts vm' prev = set_c_prev csave (conts vm prev))
    /\ (c_prev (conts vm' csave) = c_prev (conts vm c)
        \/ c_prev (conts vm' csave) = c_prev (conts vm csave))
    /\ (0 <= c_size (conts vm c) -> old_ptr vm (c_argp (conts vm c)) ->
        c_prev (conts vm' csave) = c_prev (conts vm c) /\ frame_copy vm vm' c csave).
Proof.
  intros csave Hin Hprev.
  pose proof (IN_STACK_P_not_heap c Hin) as Hc.
  unfold save_cont_body. cbn [SCM_NEW2]. fold csave.
  assert (Hcsave : csave = HEAP (next_block vm) 0) by reflexivity.
  clearbody csave.
  destruct (save_cont_env_spec (set_next_block (S (next_block vm)) vm) c)
    as (vm2 & e' & Henv & Hp2 & He2 & Hc2c & Hc2o).
  rewrite Henv.
  pose proof (save_cont_copy_spec vm2 c (next_block vm) Hc) as Hcopy.
  cbv zeta in Hcopy. rewrite <- Hcsave in Hcopy.
  remember (save_cont_copy vm2 c csave) as vm3 eqn:Hvm3. clear Hvm3.
  destruct Hcopy as (Hr3 & Hk3 & Hcs3 & Hep3 & He3 & Hb3 & Hw3 & Hc3o & Hc3p & Hc3f).
  assert (Hcne : c <> csave) by (intros E; subst c csave; exact Hc).
  assert (Hpne : prev <> csave).
  { destruct Hprev as [-> | (b & -> & Hb)]; subst csave; [discriminate |].
    intros E. injection E. lia. }
  assert (Hpc : prev <> c).
  { destruct Hprev as [-> | (b & -> & Hb)]; intros E; subst c; [discriminate | exact Hc]. }
  vm_simpl.
  assert (Hp3 : promoted vm vm3).
  { destruct Hp2. autorewrite with vmregs in *.
    constructor; vm_simpl; try congruence.
    - intros q Hq. rewrite Hw3.
      + apply pr_words0. destruct q; simpl in *; auto; lia.
      + intros o E. subst q. simpl in Hq. lia.
    - lia. }
  remember (if negb (is_null prev)
            then set_conts (upd (conts vm3) prev (set_c_prev csave (conts vm3 prev))) vm3
            else vm3) as vm4 eqn:Hvm4.
  assert (Hp4 : promoted vm3 vm4 /\ env vm4 = env vm3 /\ next_block vm4 = next_block vm3
                /\ words vm4 = words vm3
                /\ (forall q, q <> prev -> conts vm4 q = conts vm3 q)
                /\ (prev <> NULL -> conts vm4 prev = set_c_prev csave (conts vm3 prev))).
  { subst vm4. destruct (is_null prev) eqn:Hn; cbn [negb].
    - split; [apply promoted_refl |]. repeat split; auto.
      intros Hne. destruct prev; try discriminate. congruence.
    - split; [apply promoted_set_conts |]. repeat split; auto; vm_simpl.
      + intros q Hq. apply upd_other. exact Hq.
      + intros _. apply upd_same. }
  clear Hvm4.
  destruct Hp4 as (Hp4 & He4 & Hb4 & Hw4 & Hc4o & Hc4p).
  assert (Htmp : c_prev (conts vm4 c) = c_prev (conts vm c)).
  { rewrite Hc4o by auto. rewrite Hc3o by auto. rewrite Hc2c. frame_simpl. reflexivity. }
  eexists. split; [rewrite Htmp; reflexivity |].
  split.
  { eapply promoted_trans; [exact Hp3 |].
    eapply promoted_trans; [exact Hp4 | apply promoted_set_conts]. }
  vm_simpl.
  split; [destruct Hp2; vm_simpl; congruence |].
  split; [destruct Hp2; vm_simpl; lia |].
  rewrite !upd_same. frame_simpl.
  do 2 (split; [reflexivity |]).
  split.
  { intros q Hq1 Hq2 Hq3. rewrite upd_other by exact Hq1.
    rewrite Hc4o by exact Hq3. rewrite Hc3o by exact Hq2. apply Hc2o. exact Hq1. }
  split.
  { intros Hne. rewrite upd_other by exact Hpc. rewrite Hc4p by exact Hne.
    rewrite Hc3o by exact Hpne. rewrite Hc2o by exact Hpc. reflexivity. }
  assert (Hcs5 : upd (conts vm4) c (set_c_size (-1) (set_c_prev csave (conts vm4 c))) csave
                 = conts vm3 csave).
  { rewrite upd_other by (intros E; apply Hcne; congruence).
    apply Hc4o. intros E; apply Hpne; congruence. }
  rewrite Hcs5.
  assert (H2c : c_prev (conts vm2 c) = c_prev (conts vm c)) by (rewrite Hc2c; reflexivity).
  split.
  { destruct Hc3p as [E | E]; rewrite E.
    - left. exact H2c.
    - right. rewrite Hc2o by (intros E'; apply Hcne; congruence). reflexivity. }
  intros Hsz Hold.
  destruct Hc3f as (Hprev3 & Hfc).
  { rewrite Hc2c. exact Hsz. }
  { rewrite Hc2c. frame_simpl. vm_simpl. intros o E. rewrite E in Hold. simpl in Hold. lia. }
  split; [congruence |].
  unfold frame_copy in *. vm_simpl. rewrite Hcs5.
  rewrite Hc2c in Hfc. frame_simpl.
  destruct Hfc as (F1 & F2 & F3 & F4 & F5).
  do 4 (split; [assumption |]).
  intros i Hi. rewrite Hw4, F5 by exact Hi.
  destruct Hp2 as [_ _ _ _ Hw2 _]. vm_simpl.
  apply Hw2. apply old_ptr_add.
  destruct (is_null (c_argp (conts vm c))).
  - apply old_ptr_add. destruct c; simpl in *; auto; contradiction.
  - destruct (c_argp (conts vm c)); simpl in *; auto; lia.
Qed.

(** An in-stack continuation frame whose [prev] is in the stack too. *)
Definition linked (vm : ScmVM) (o : Z) : bool := IN_STACK_P (c_prev (conts vm (STACK o))).

(** [prev] in the first pass of [save_cont]: null, or the copy made in
    the turn before. *)
Definition prev_copy (vm : ScmVM) (prev : ptr) : Prop :=
  prev = NULL \/ exists b, prev = HEAP b 0 /\ (b < next_block vm)%nat.

Lemma save_cont_loop_total (n : nat) (vm : ScmVM) (c prev : ptr) :
  IN_STACK_P c = true -> prev_copy vm prev ->
  (count_stack (linked vm) < n)%nat ->
  exists vm',
    save_cont_loop n vm c prev = Some vm' /\ promoted vm vm' /\ env vm' = env vm.
Proof.
  revert vm c prev.
  induction n as [| n IH]; intros vm c prev Hc Hprev Hn; [lia |].
  cbn [save_cont_loop].
  destruct (save_cont_body_spec vm c prev Hc Hprev)
    as (vm1 & -> & Hp & He & Hb & Hcp & Hcs & Hother & _).
  destruct (IN_STACK_P (c_prev (conts vm c))) eqn:Htmp.
  - destruct (IN_STACK_P_stack c Hc) as (o & -> & Ho).
    assert (Hlt : (count_stack (linked vm1) < count_stack (linked vm))%nat).
    { apply (count_stack_lt _ _ o Ho); unfold linked.
      - exact Htmp.
      - rewrite Hcp. reflexivity.
      - intros y Hy. rewrite Hother; [reflexivity | congruence | discriminate |].
        destruct Hprev as [-> | (b & -> & _)]; discriminate. }
    destruct (IH vm1 (c_prev (conts vm (STACK o))) (HEAP (next_block vm) 0) Htmp)
      as (vm2 & Hl & Hp2 & He2).
    + right. eauto.
    + lia.
    + exists vm2. split; [exact Hl |].
      split; [eapply promoted_trans; eauto | congruence].
  - exists vm1. auto.
Qed.

(** A pointer to a frame that is not in the stack. *)
Definition out_of_stack (q : ptr) : Prop := q <> NULL /\ IN_STACK_P q = false.

(** No frame outside the stack has its [prev] in the stack, except the
    copy made last, whose [prev] is still the frame the loop is at. *)
Definition heap_closed_but (vm : ScmVM) (c prev : ptr) : Prop :=
  forall q, out_of_stack q -> IN_STACK_P (c_prev (conts vm q)) = true ->
    q = prev /\ c_prev (conts vm prev) = c.

Lemma save_cont_loop_closed (n : nat) (vm : ScmVM) (c prev : ptr) (vm' : ScmVM) :
  save_cont_loop n vm c prev = Some vm' ->
  IN_STACK_P c = true -> prev_copy vm prev ->
  heap_closed_but vm c prev ->
  forall q, out_of_stack q -> IN_STACK_P (c_prev (conts vm' q)) = false.
Proof.
  revert vm c prev.
  induction n as [| n IH]; intros vm c prev Hl Hc Hprev Hinv; [discriminate |].
  cbn [save_cont_loop] in Hl.
  destruct (save_cont_body_spec vm c prev Hc Hprev)
    as (vm1 & Hbody & Hp & He & Hb & Hcp & Hcs & Hother & Hpatch & Hcopy & _).
  rewrite Hbody in Hl.
  assert (Hinv1 : heap_closed_but vm1 (c_prev (conts vm c)) (HEAP (next_block vm) 0)).
  { intros q (Hqn & Hq) Hin.
    destruct (ptr_eq_dec q (HEAP (next_block vm) 0)) as [E | Hne1].
    - split; [exact E |]. rewrite E in Hin.
      destruct Hcopy as [E' | E']; [exact E' |].
      rewrite E' in Hin. apply Hinv in Hin; [| split; [discriminate | reflexivity]].
      destruct Hin as (Hin & _).
      destruct Hprev as [-> | (b' & -> & Hb')]; [discriminate | injection Hin; lia].
    - destruct (ptr_eq_dec q prev) as [E | Hne2].
      + rewrite E, Hpatch in Hin by congruence. discriminate.
      + rewrite Hother in Hin; auto.
        * apply Hinv in Hin; [| split; assumption]. destruct Hin. contradiction.
        * intros E. rewrite E in Hq. congruence. }
  destruct (IN_STACK_P (c_prev (conts vm c))) eqn:Htmp.
  - eapply IH; eauto. right. eauto.
  - injection Hl as <-. intros q Hq.
    destruct (IN_STACK_P (c_prev (conts vm1 q))) eqn:E; [| reflexivity].
    pose proof (Hinv1 _ Hq E) as (E1 & E2).
    rewrite E1, E2 in E. congruence.
Qed.

(* ----------------------------------------------------------------- *)
(** *** The first pass of [save_cont], frame by frame *)

(** [stack_chain vm c l t]: from [c], following [prev], the frames [l]
    lie in the stack and [t] is the first pointer that does not. *)
Inductive stack_chain (vm : ScmVM) : ptr -> list ptr -> ptr -> Prop :=
| stack_chain_end (t : ptr) :
    IN_STACK_P t = false -> stack_chain vm t [] t
| stack_chain_cons (c : ptr) (l : list ptr) (t : ptr) :
    IN_STACK_P c = true ->
    stack_chain vm (c_prev (conts vm c)) l t ->
    stack_chain vm c (c :: l) t.

(** The frames of the chain have a size, and the argument pointer of a
    Scheme frame is not beyond the allocated blocks. *)
Definition chain_frame (vm : ScmVM) (p : ptr) : Prop :=
  0 <= c_size (conts vm p) /\ old_ptr vm (c_argp (conts vm p)).

(** What the first pass has done with the frame [p] of the chain: [p]
    carries the forwarding mark and points to a copy in a new block,
    and the copy is linked to the copy of the frame that followed [p],
    or to the frame that followed it when that one was not in the
    stack. *)
Definition forwarded_to (vm vm' : ScmVM) (p : ptr) : Prop :=
  c_size (conts vm' p) = -1
  /\ exists b,
       c_prev (conts vm' p) = HEAP b 0
       /\ (next_block vm <= b < next_block vm')%nat
       /\ frame_copy vm vm' p (HEAP b 0)
       /\ c_prev (conts vm' (HEAP b 0)) =
          (if IN_STACK_P (c_prev (conts vm p))
           then c_prev (conts vm' (c_prev (conts vm p)))
           else c_prev (conts vm p)).

Lemma stack_chain_In (vm : ScmVM) (c : ptr) (l : list ptr) (t : ptr) :
  stack_chain vm c l t -> forall p, In p l -> IN_STACK_P p = true.
Proof.
  induction 1 as [| c l t Hc Hch IH]; intros p Hp; [contradiction |].
  destruct Hp as [<- | Hp]; auto.
Qed.

Lemma stack_chain_ext (vm vm1 : ScmVM) (c : ptr) (l : list ptr) (t : ptr) :
  stack_chain vm c l t ->
  (forall p, In p l -> c_prev (conts vm1 p) = c_prev (conts vm p)) ->
  stack_chain vm1 c l t.
Proof.
  induction 1 as [| c l t Hc Hch IH]; intros Hext; constructor; auto.
  rewrite Hext by (left; reflexivity).
  apply IH. intros p Hp. apply Hext. right. exact Hp.
Qed.

Lemma stack_chain_t (vm : ScmVM) (c : ptr) (l : list ptr) (t : ptr) :
  stack_chain vm c l t -> IN_STACK_P t = false.
Proof. induction 1; auto. Qed.

Lemma frame_copy_later (vm vm1 vm' : ScmVM) (p csave : ptr) :
  frame_copy vm vm1 p csave ->
  c_size (conts vm' csave) = c_size (conts vm1 csave) ->
  c_pc (conts vm' csave) = c_pc (conts vm1 csave) ->
  c_base (conts vm' csave) = c_base (conts vm1 csave) ->
  c_argp (conts vm' csave) = c_argp (conts vm1 csave) ->
  (forall i, words vm' (ptr_add csave i) = words vm1 (ptr_add csave i)) ->
  frame_copy vm vm' p csave.
Proof.
  unfold frame_copy. intros (F1 & F2 & F3 & F4 & F5) E1 E2 E3 E4 Ew.
  repeat split; try congruence.
  intros i Hi. rewrite Ew. apply F5. exact Hi.
Qed.

Lemma frame_copy_earlier (vm vm1 vm' : ScmVM) (p csave : ptr) :
  frame_copy vm1 vm' p csave ->
  conts vm1 p = conts vm p ->
  not_heap p -> old_ptr vm (c_argp (conts vm p)) ->
  promoted vm vm1 ->
  frame_copy vm vm' p csave.
Proof.
  unfold frame_copy. intros (F1 & F2 & F3 & F4 & F5) E Hp Hold Hprom.
  rewrite E in *. repeat split; try assumption.
  intros i Hi. rewrite F5 by exact Hi.
  apply (pr_words _ _ Hprom). apply old_ptr_add.
  destruct (is_null (c_argp (conts vm p))); [| exact Hold].
  apply old_ptr_add. destruct p; simpl in *; auto; contradiction.
Qed.

Lemma pass1_forwarding (l : list ptr) :
  forall (n : nat) (vm : ScmVM) (c prev t : ptr) (vm' : ScmVM),
    save_cont_loop n vm c prev = Some vm' ->
    stack_chain vm c l t -> l <> [] -> NoDup l ->
    (forall p, In p l -> chain_frame vm p) ->
    prev_copy vm prev ->
    promoted vm vm'
    /\ (forall p, In p l -> forwarded_to vm vm' p)
    /\ (forall q, ~ In q l -> old_ptr vm q -> q <> prev -> conts vm' q = conts vm q)
    /\ (prev <> NULL -> conts vm' prev = set_c_prev (c_prev (conts vm' c)) (conts vm prev)).
Proof.
  induction l as [| c l IH]; intros n vm c' prev t vm' Hl Hch Hne Hnd Hok Hprev;
    [congruence |].
  inversion Hch as [| c1 l1 t1 Hc Htail]; subst.
  destruct n as [| n]; [discriminate |].
  cbn [save_cont_loop] in Hl.
  destruct (save_cont_body_spec vm c prev Hc Hprev)
    as (vm1 & Hbody & Hp & He & Hb & Hcp & Hcs & Hother & Hpatch & _ & Hcopy).
  rewrite Hbody in Hl.
  destruct (Hok c (or_introl eq_refl)) as (Hsz & Hold).
  destruct (Hcopy Hsz Hold) as (Hcprev & Hfc). clear Hcopy.
  set (csave := HEAP (next_block vm) 0) in *.
  assert (Hcne : c <> csave) by (intros E; rewrite E in Hc; discriminate).
  assert (Hpne : prev <> csave).
  { destruct Hprev as [-> | (b & -> & Hb')]; [discriminate |].
    unfold csave. intros E. injection E. lia. }
  assert (Hpc : prev <> c).
  { destruct Hprev as [-> | (b & -> & Hb')]; intros E; rewrite <- E in Hc; discriminate. }
  inversion Hnd as [| x xs Hnotin Hnd']; subst.
  destruct (IN_STACK_P (c_prev (conts vm c))) eqn:Htmp.
  - (* the loop goes on *)
    assert (Hl_ne : l <> []).
    { inversion Htail; subst; [congruence | discriminate]. }
    assert (Hsame : forall p, In p l -> conts vm1 p = conts vm p).
    { intros p Hp'. apply Hother.
      - intros E. subst p. contradiction.
      - intros E. pose proof (stack_chain_In _ _ _ _ Htail p Hp') as Hs.
        rewrite E in Hs. discriminate.
      - intros E. pose proof (stack_chain_In _ _ _ _ Htail p Hp') as Hs.
        destruct Hprev as [-> | (b & -> & _)]; rewrite E in Hs; discriminate. }
    assert (Hch1 : stack_chain vm1 (c_prev (conts vm c)) l t).
    { eapply stack_chain_ext; [exact Htail |]. intros p Hp'. rewrite Hsame; auto. }
    assert (Hok1 : forall p, In p l -> chain_frame vm1 p).
    { intros p Hp'. destruct (Hok p (or_intror Hp')) as (H1 & H2).
      unfold chain_frame. rewrite Hsame by exact Hp'. split; [exact H1 |].
      eapply old_ptr_mono; [| exact H2]. lia. }
    assert (Hprev1 : prev_copy vm1 csave) by (right; exists (next_block vm); auto).
    destruct (IH n vm1 (c_prev (conts vm c)) csave t vm' Hl Hch1 Hl_ne Hnd' Hok1 Hprev1)
      as (Hp' & HA & HB & HC).
    assert (Hcs' : conts vm' csave = set_c_prev (c_prev (conts vm' (c_prev (conts vm c))))
                                       (conts vm1 csave))
      by (apply HC; discriminate).
    assert (Hc' : conts vm' c = conts vm1 c).
    { apply HB; auto.
      destruct (IN_STACK_P_stack c Hc) as (o & -> & _). exact I. }
    split; [eapply promoted_trans; eauto |].
    split; [| split].
    + intros p [<- | Hin].
      * split; [rewrite Hc'; exact Hcs |].
        exists (next_block vm). fold csave.
        split; [rewrite Hc'; exact Hcp |].
        split; [destruct Hp'; lia |].
        split.
        { eapply frame_copy_later; [exact Hfc | | | | |]; try (rewrite Hcs'; reflexivity).
          intros i. apply (pr_words _ _ Hp'). unfold csave. simpl. lia. }
        rewrite Htmp, Hcs'. reflexivity.
      * destruct (HA p Hin) as (H1 & b & H2 & H3 & H4 & H5).
        split; [exact H1 |]. exists b.
        split; [exact H2 |]. split; [lia |].
        split.
        { eapply frame_copy_earlier; eauto.
          - apply IN_STACK_P_not_heap. eapply stack_chain_In; eauto.
          - apply (Hok p (or_intror Hin)). }
        rewrite H5, Hsame by exact Hin. reflexivity.
    + intros q Hq Holdq Hqp.
      assert (Hqc : q <> c) by (intros E; apply Hq; left; auto).
      assert (Hqs : q <> csave).
      { intros E. subst q. unfold csave in Holdq. simpl in Holdq. lia. }
      rewrite HB; auto.
      * intros Hin. apply Hq. right. exact Hin.
      * eapply old_ptr_mono; [| exact Holdq]. lia.
    + intros Hn. rewrite HB.
      * rewrite Hpatch by exact Hn. rewrite Hc', Hcp. reflexivity.
      * intros Hin. pose proof (stack_chain_In _ _ _ _ Htail prev Hin) as Hs.
        destruct Hprev as [-> | (b & -> & _)]; discriminate.
      * destruct Hprev as [-> | (b & -> & Hb')]; simpl; auto. lia.
      * exact Hpne.
  - (* the loop ends *)
    injection Hl as <-.
    assert (l = []) as ->.
    { inversion Htail; subst; [reflexivity | congruence]. }
    split; [exact Hp |].
    split; [| split].
    + intros p [<- | []].
      split; [exact Hcs |].
      exists (next_block vm). fold csave.
      split; [exact Hcp |]. split; [lia |]. split; [exact Hfc |].
      rewrite Htmp. exact Hcprev.
    + intros q Hq Holdq Hqp. apply Hother; auto.
      * intros E. apply Hq. left. auto.
      * intros E. subst q. unfold csave in Holdq. simpl in Holdq. lia.
    + intros Hn. rewrite Hpatch by exact Hn. rewrite Hcp. reflexivity.
Qed.


(* ----------------------------------------------------------------- *)
(** *** The second pass of [save_cont] *)

(** [ep_chain link l ep ks]: from [ep], following [link], the escape
    points [ks] of the store [l] are met and then the null pointer. *)
Inductive ep_chain (link : ScmEscapePoint -> option nat) (l : list ScmEscapePoint)
  : option nat -> list nat -> Prop :=
| ep_chain_nil : ep_chain link l None []
| ep_chain_cons (i : nat) (r : ScmEscapePoint) (ks : list nat) :
    nth_error l i = Some r ->
    ep_chain link l (link r) ks ->
    ep_chain link l (Some i) (i :: ks).

Lemma ep_chain_det link l ep ks1 :
  ep_chain link l ep ks1 -> forall ks2, ep_chain link l ep ks2 -> ks1 = ks2.
Proof.
  induction 1 as [| i r ks Hr Hch IH]; intros ks2 H2; inversion H2; subst; [reflexivity |].
  f_equal. apply IH. congruence.
Qed.

Lemma ep_chain_suffix link l ep ks :
  ep_chain link l ep ks -> forall i, In i ks ->
  exists ks', ep_chain link l (Some i) (i :: ks')
              /\ (List.length (i :: ks') <= List.length ks)%nat.
Proof.
  induction 1 as [| j r ks Hr Hch IH]; intros i Hin; [contradiction |].
  destruct Hin as [-> | Hin].
  - exists ks. split; [econstructor; eauto | simpl; lia].
  - destruct (IH i Hin) as (ks' & H1 & H2). exists ks'. split; [exact H1 | simpl in *; lia].
Qed.

(** A chain that reaches the null pointer meets no escape point twice. *)
Lemma ep_chain_NoDup link l ep ks : ep_chain link l ep ks -> NoDup ks.
Proof.
  induction 1 as [| i r ks Hr Hch IH]; constructor; [| exact IH].
  intros Hin.
  destruct (ep_chain_suffix _ _ _ _ Hch i Hin) as (ks' & H1 & H2).
  assert (H3 : ep_chain link l (Some i) (i :: ks)) by (econstructor; eauto).
  pose proof (ep_chain_det _ _ _ _ H1 _ H3) as E.
  injection E as ->. simpl in H2. lia.
Qed.

Lemma ep_chain_bound link l ep ks :
  ep_chain link l ep ks -> forall i, In i ks -> (i < List.length l)%nat.
Proof.
  induction 1 as [| j r ks Hr Hch IH]; intros i Hin; [contradiction |].
  destruct Hin as [<- | Hin]; [| auto].
  apply nth_error_Some. congruence.
Qed.

Lemma ep_chain_length link l ep ks :
  ep_chain link l ep ks -> (List.length ks <= List.length l)%nat.
Proof.
  intros H.
  assert (Hincl : incl ks (seq 0 (List.length l))).
  { intros i Hi. apply in_seq. pose proof (ep_chain_bound _ _ _ _ H i Hi). lia. }
  pose proof (NoDup_incl_length (ep_chain_NoDup _ _ _ _ H) Hincl) as Hlen.
  rewrite length_seq in Hlen. exact Hlen.
Qed.

Lemma nth_error_list_set {A : Type} (l : list A) (i j : nat) (v : A) :
  nth_error (list_set l i v) j =
  if Nat.eqb j i then (if Nat.ltb i (List.length l) then Some v else None)
  else nth_error l j.
Proof.
  revert i j.
  induction l as [| a l IH]; intros i j.
  - simpl. destruct (Nat.eqb j i); [| destruct j; reflexivity].
    destruct j; reflexivity.
  - destruct i as [| i]; destruct j as [| j]; simpl; try reflexivity.
    rewrite IH. destruct (Nat.eqb j i); [| reflexivity].
    change (S i <? S (List.length l))%nat with (i <? List.length l)%nat. reflexivity.
Qed.

Lemma length_list_set {A : Type} (l : list A) (i : nat) (v : A) :
  List.length (list_set l i v) = List.length l.
Proof.
  revert i. induction l as [| a l IH]; intros [| i]; simpl; auto.
Qed.

(** Where a pointer to a continuation frame is redirected. *)
Definition forward (vm : ScmVM) (p : ptr) : ptr :=
  if FORWARDED_CONT_P vm p then FORWARDED_CONT vm p else p.

(** [link] does not read the [cont] field. *)
Definition link_field (link : ScmEscapePoint -> option nat) : Prop :=
  forall c r, link (set_ep_cont c r) = link r.

Lemma ep_chain_set_cont link l ep ks i r c :
  link_field link -> nth_error l i = Some r ->
  ep_chain link l ep ks -> ep_chain link (list_set l i (set_ep_cont c r)) ep ks.
Proof.
  intros Hlink Hr. induction 1 as [| j r' ks Hr' Hch IH]; [constructor |].
  destruct (Nat.eqb j i) eqn:E.
  - apply Nat.eqb_eq in E. subst j.
    assert (r' = r) by congruence. subst r'.
    apply (ep_chain_cons link _ i (set_ep_cont c r)).
    + rewrite nth_error_list_set, Nat.eqb_refl.
      assert (Hlt : (i < List.length l)%nat) by (apply nth_error_Some; congruence).
      apply Nat.ltb_lt in Hlt. rewrite Hlt. reflexivity.
    + rewrite Hlink. exact IH.
  - apply (ep_chain_cons link _ j r').
    + rewrite nth_error_list_set, E. exact Hr'.
    + exact IH.
Qed.

Definition on_chain (i : nat) (ks : list nat) : bool := existsb (Nat.eqb i) ks.

Lemma set_eps_eta (vm : ScmVM) : set_eps (eps vm) vm = vm.
Proof. destruct vm; reflexivity. Qed.

Lemma set_ep_cont_eta (r : ScmEscapePoint) : set_ep_cont (ep_cont r) r = r.
Proof. destruct r; reflexivity. Qed.

Lemma forward_eps_spec link (ks : list nat) :
  link_field link ->
  forall (fuel : nat) (vm : ScmVM) (ep : option nat),
    ep_chain link (eps vm) ep ks -> NoDup ks ->
    (List.length ks <= fuel)%nat ->
    exists vm',
      forward_eps fuel link ep vm = Some vm'
      /\ vm' = set_eps (eps vm') vm
      /\ List.length (eps vm') = List.length (eps vm)
      /\ forall i r, nth_error (eps vm) i = Some r ->
           nth_error (eps vm') i =
           Some (if on_chain i ks then set_ep_cont (forward vm (ep_cont r)) r else r).
Proof.
  intros Hlink.
  induction ks as [| i ks IH]; intros fuel vm ep Hch Hnd Hfuel.
  - inversion Hch; subst. exists vm.
    destruct fuel; simpl; (split; [reflexivity |]);
      (split; [symmetry; apply set_eps_eta |]); (split; [reflexivity |]); auto.
  - inversion Hch as [| i' r ks' Hr Htail]; subst.
    destruct fuel as [| fuel]; [simpl in Hfuel; lia |].
    inversion Hnd as [| x xs Hnotin Hnd']; subst.
    cbn [forward_eps]. rewrite Hr.
    set (vm1 := if FORWARDED_CONT_P vm (ep_cont r)
                then set_eps (list_set (eps vm) i
                                (set_ep_cont (FORWARDED_CONT vm (ep_cont r)) r)) vm
                else vm).
    assert (Hvm1 : vm1 = set_eps (list_set (eps vm) i
                                    (set_ep_cont (forward vm (ep_cont r)) r)) vm).
    { subst vm1. unfold forward.
      destruct (FORWARDED_CONT_P vm (ep_cont r)); [reflexivity |].
      rewrite set_ep_cont_eta.
      replace (list_set (eps vm) i r) with (eps vm); [symmetry; apply set_eps_eta |].
      apply nth_error_ext. intros j. rewrite nth_error_list_set.
      destruct (Nat.eqb j i) eqn:E; [| reflexivity].
      apply Nat.eqb_eq in E. subst j.
      assert (Hlt : (i < List.length (eps vm))%nat) by (apply nth_error_Some; congruence).
      apply Nat.ltb_lt in Hlt. rewrite Hlt. exact Hr. }
    clearbody vm1.
    destruct (IH fuel vm1 (link r)) as (vm' & Hf & Hvm' & Hlen & Hnth); auto.
    + rewrite Hvm1. vm_simpl. apply ep_chain_set_cont; auto.
    + simpl in Hfuel. lia.
    + exists vm'. split; [exact Hf |].
      split; [rewrite Hvm' at 1; rewrite Hvm1; reflexivity |].
      split; [rewrite Hlen, Hvm1; vm_simpl; apply length_list_set |].
      intros j rj Hj.
      assert (Hfw : forall p, forward vm1 p = forward vm p)
        by (intros p; rewrite Hvm1; reflexivity).
      unfold on_chain. cbn [existsb].
      destruct (Nat.eqb j i) eqn:E.
      * apply Nat.eqb_eq in E. subst j.
        assert (rj = r) by congruence. subst rj.
        rewrite (Hnth i (set_ep_cont (forward vm (ep_cont r)) r)).
        -- assert (Hni : on_chain i ks = false).
           { unfold on_chain. apply not_true_is_false. intros H.
             apply existsb_exists in H. destruct H as (x & Hx & Hxe).
             apply Nat.eqb_eq in Hxe. subst x. contradiction. }
           rewrite Hni. reflexivity.
        -- rewrite Hvm1. vm_simpl. rewrite nth_error_list_set, Nat.eqb_refl.
           assert (Hlt : (i < List.length (eps vm))%nat) by (apply nth_error_Some; congruence).
           apply Nat.ltb_lt in Hlt. rewrite Hlt. reflexivity.
      * rewrite (Hnth j rj).
        -- cbn [orb]. fold (on_chain j ks). rewrite Hfw. reflexivity.
        -- rewrite Hvm1. vm_simpl. rewrite nth_error_list_set, E. exact Hj.
Qed.


(** Two stores of escape points that differ in [cont] fields only. *)
Definition eps_upto_cont (l l' : list ScmEscapePoint) : Prop :=
  List.length l' = List.length l
  /\ forall i r, nth_error l i = Some r -> exists c, nth_error l' i = Some (set_ep_cont c r).

Lemma eps_upto_cont_refl l : eps_upto_cont l l.
Proof.
  split; [reflexivity |]. intros i r H. exists (ep_cont r).
  rewrite set_ep_cont_eta. exact H.
Qed.

Lemma eps_upto_cont_trans l1 l2 l3 :
  eps_upto_cont l1 l2 -> eps_upto_cont l2 l3 -> eps_upto_cont l1 l3.
Proof.
  intros (L1 & H1) (L2 & H2). split; [congruence |].
  intros i r Hr. destruct (H1 i r Hr) as (c & Hc).
  destruct (H2 i _ Hc) as (c' & Hc'). exists c'. rewrite Hc'. reflexivity.
Qed.

Lemma ep_chain_upto link l l' ep ks :
  link_field link -> eps_upto_cont l l' ->
  ep_chain link l ep ks -> ep_chain link l' ep ks.
Proof.
  intros Hlink (_ & Hup). induction 1 as [| i r ks Hr Hch IH]; [constructor |].
  destruct (Hup i r Hr) as (c & Hc).
  apply (ep_chain_cons link _ i (set_ep_cont c r)); [exact Hc |].
  rewrite Hlink. exact IH.
Qed.

Lemma link_field_prev : link_field ep_prev.
Proof. intros c r. reflexivity. Qed.

Lemma link_field_floating : link_field ep_floating.
Proof. intros c r. reflexivity. Qed.

Lemma FLOATING_EP_upto (vm vm' : ScmVM) :
  escapePoint vm' = escapePoint vm ->
  escapePointFloating vm' = escapePointFloating vm ->
  eps_upto_cont (eps vm) (eps vm') ->
  SCM_VM_FLOATING_EP vm' = SCM_VM_FLOATING_EP vm.
Proof.
  intros E1 E2 (Hlen & Hup). unfold SCM_VM_FLOATING_EP. rewrite E1, E2.
  destruct (escapePoint vm) as [i |]; [| reflexivity].
  destruct (nth_error (eps vm) i) as [r |] eqn:Hr.
  - destruct (Hup i r Hr) as (c & ->). reflexivity.
  - apply nth_error_None in Hr. rewrite <- Hlen in Hr.
    apply nth_error_None in Hr. rewrite Hr. reflexivity.
Qed.

(** Both chains of escape points reach the null pointer. *)
Definition eps_wf (vm : ScmVM) : Prop :=
  (exists ks, ep_chain ep_prev (eps vm) (escapePoint vm) ks)
  /\ (exists ks, ep_chain ep_floating (eps vm) (SCM_VM_FLOATING_EP vm) ks).

Lemma eps_wf_upto (vm vm' : ScmVM) :
  escapePoint vm' = escapePoint vm ->
  escapePointFloating vm' = escapePointFloating vm ->
  eps_upto_cont (eps vm) (eps vm') ->
  eps_wf vm -> eps_wf vm'.
Proof.
  intros E1 E2 Hup ((k1 & H1) & (k2 & H2)). split.
  - exists k1. rewrite E1. eapply ep_chain_upto; eauto. apply link_field_prev.
  - exists k2. rewrite (FLOATING_EP_upto vm vm') by assumption.
    eapply ep_chain_upto; eauto. apply link_field_floating.
Qed.

Lemma set_cont_eta (vm : ScmVM) : set_cont (cont vm) vm = vm.
Proof. destruct vm; reflexivity. Qed.

(** Where the second pass leaves the [cont] field of escape point [i]. *)
Definition forward_ep (vm : ScmVM) (ks1 ks2 : list nat) (i : nat) (r : ScmEscapePoint)
  : ScmEscapePoint :=
  let r1 := if on_chain i ks1 then set_ep_cont (forward vm (ep_cont r)) r else r in
  if on_chain i ks2 then set_ep_cont (forward vm (ep_cont r1)) r1 else r1.

Lemma save_cont_pass2_spec (vm : ScmVM) (ks1 ks2 : list nat) :
  ep_chain ep_prev (eps vm) (escapePoint vm) ks1 ->
  ep_chain ep_floating (eps vm) (SCM_VM_FLOATING_EP vm) ks2 ->
  exists vm',
    save_cont_pass2 vm = Some vm'
    /\ vm' = set_eps (eps vm')
               (set_cstack (map (forward_cstack vm) (cstack vm))
                  (set_cont (forward vm (cont vm)) vm))
    /\ List.length (eps vm') = List.length (eps vm)
    /\ forall i r, nth_error (eps vm) i = Some r ->
         nth_error (eps vm') i = Some (forward_ep vm ks1 ks2 i r).
Proof.
  intros H1 H2. unfold save_cont_pass2.
  set (vm1 := if FORWARDED_CONT_P vm (cont vm)
              then set_cont (FORWARDED_CONT vm (cont vm)) vm else vm).
  assert (Hvm1 : vm1 = set_cont (forward vm (cont vm)) vm).
  { subst vm1. unfold forward. destruct (FORWARDED_CONT_P vm (cont vm)); [reflexivity |].
    symmetry. apply set_cont_eta. }
  clearbody vm1. subst vm1.
  set (vm2 := set_cstack _ _).
  assert (Hvm2 : vm2 = set_cstack (map (forward_cstack vm) (cstack vm))
                         (set_cont (forward vm (cont vm)) vm)) by reflexivity.
  clearbody vm2.
  destruct (forward_eps_spec ep_prev ks1 link_field_prev
              (S (List.length (eps vm2))) vm2 (escapePoint vm2))
    as (vm3 & Hf3 & Hvm3 & Hlen3 & Hnth3).
  { rewrite Hvm2. exact H1. }
  { eapply ep_chain_NoDup; eauto. }
  { rewrite Hvm2. vm_simpl. pose proof (ep_chain_length _ _ _ _ H1). lia. }
  rewrite Hf3.
  assert (Hup3 : eps_upto_cont (eps vm) (eps vm3)).
  { split; [rewrite Hlen3, Hvm2; reflexivity |].
    intros i r Hr. rewrite (Hnth3 i r) by (rewrite Hvm2; exact Hr).
    destruct (on_chain i ks1); eauto. exists (ep_cont r). now rewrite set_ep_cont_eta. }
  assert (Hfl : SCM_VM_FLOATING_EP vm3 = SCM_VM_FLOATING_EP vm).
  { apply FLOATING_EP_upto; auto; rewrite Hvm3, Hvm2; reflexivity. }
  destruct (forward_eps_spec ep_floating ks2 link_field_floating
              (S (List.length (eps vm3))) vm3 (SCM_VM_FLOATING_EP vm3))
    as (vm4 & Hf4 & Hvm4 & Hlen4 & Hnth4).
  { rewrite Hfl. eapply ep_chain_upto; eauto. apply link_field_floating. }
  { eapply ep_chain_NoDup; eauto. }
  { pose proof (ep_chain_length _ _ _ _ H2). destruct Hup3. lia. }
  exists vm4. split; [exact Hf4 |].
  split; [rewrite Hvm4 at 1; rewrite Hvm3, Hvm2; reflexivity |].
  split; [rewrite Hlen4, Hlen3, Hvm2; reflexivity |].
  intros i r Hr.
  assert (Hr3 := Hnth3 i r). rewrite Hvm2 in Hr3 at 1. specialize (Hr3 Hr).
  rewrite (Hnth4 i _ Hr3). unfold forward_ep.
  assert (Hfw3 : forall p, forward vm3 p = forward vm p)
    by (intros p; rewrite Hvm3, Hvm2; reflexivity).
  assert (Hfw2 : forall p, forward vm2 p = forward vm p)
    by (intros p; rewrite Hvm2; reflexivity).
  rewrite !Hfw3, !Hfw2. reflexivity.
Qed.


Lemma regs_inv (vm vm' : ScmVM) :
  regs vm' = regs vm ->
  pc vm' = pc vm /\ sp vm' = sp vm /\ val0 vm' = val0 vm /\ vals vm' = vals vm
  /\ numVals vm' = numVals vm /\ argp vm' = argp vm /\ base vm' = base vm
  /\ handlers vm' = handlers vm /\ exceptionHandler vm' = exceptionHandler vm
  /\ escapePoint vm' = escapePoint vm
  /\ escapePointFloating vm' = escapePointFloating vm
  /\ escapeReason vm' = escapeReason vm /\ escapeData0 vm' = escapeData0 vm
  /\ escapeData1 vm' = escapeData1 vm /\ runtimeFlags vm' = runtimeFlags vm
  /\ next_cell vm' = next_cell vm /\ next_cstack vm' = next_cstack vm.
Proof.
  unfold regs. intros H. injection H. intros. repeat split; assumption.
Qed.

Lemma cs_addr_forward (vm : ScmVM) (l : list ScmCStack) :
  map cs_addr (map (forward_cstack vm) l) = map cs_addr l.
Proof.
  rewrite map_map. apply map_ext. intros cs. unfold forward_cstack.
  destruct (FORWARDED_CONT_P vm (cs_cont cs)); reflexivity.
Qed.

Lemma forward_ep_upto vm ks1 ks2 i r : exists c, forward_ep vm ks1 ks2 i r = set_ep_cont c r.
Proof.
  unfold forward_ep.
  destruct (on_chain i ks1), (on_chain i ks2); try (eexists; reflexivity).
  exists (ep_cont r). now rewrite set_ep_cont_eta.
Qed.

(** What [save_cont] leaves as it was. *)
Record saved (vm vm' : ScmVM) : Prop := mkSaved {
  sv_regs : regs vm' = regs vm;
  sv_words : forall q, old_ptr vm q -> words vm' q = words vm q;
  sv_block : (next_block vm <= next_block vm')%nat;
  sv_cstack : map cs_addr (cstack vm') = map cs_addr (cstack vm);
  sv_eps : eps_upto_cont (eps vm) (eps vm');
  sv_wf : eps_wf vm'
}.

Lemma promoted_saved (vm vm' : ScmVM) : eps_wf vm -> promoted vm vm' -> saved vm vm'.
Proof.
  intros Hwf [Hr Hk Hcs He Hw Hb].
  destruct (regs_inv _ _ Hr) as (_ & _ & _ & _ & _ & _ & _ & _ & _ & E1 & E2 & _).
  constructor; auto.
  - congruence.
  - rewrite He. apply eps_upto_cont_refl.
  - eapply eps_wf_upto; eauto. rewrite He. apply eps_upto_cont_refl.
Qed.

(** [save_cont] returns whenever the chains of escape points end. *)
Lemma save_cont_total (vm : ScmVM) :
  eps_wf vm -> exists vm', save_cont vm = Some vm' /\ saved vm vm'.
Proof.
  intros Hwf. unfold save_cont.
  destruct (save_env_total vm (env vm)) as (vm0 & e & -> & Hp0 & _ & _).
  assert (Hp1 : promoted vm (set_env e vm0))
    by (eapply promoted_trans; [exact Hp0 | apply promoted_set_env]).
  destruct (IN_STACK_P (cont vm)) eqn:Hc; cbn [negb].
  - destruct (save_cont_loop_total stack_fuel (set_env e vm0) (cont vm) NULL Hc)
      as (vm2 & -> & Hp2 & _).
    { left. reflexivity. }
    { apply count_stack_bound. }
    assert (Hp : promoted vm vm2) by (eapply promoted_trans; eauto).
    pose proof (promoted_saved _ _ Hwf Hp) as [Hr Hw Hb Hcs He ((k1 & H1) & (k2 & H2))].
    destruct (save_cont_pass2_spec vm2 k1 k2 H1 H2) as (vm' & -> & Hvm' & Hlen & Hnth).
    exists vm'. split; [reflexivity |].
    assert (Hup : eps_upto_cont (eps vm2) (eps vm')).
    { split; [exact Hlen |]. intros i r Hi. rewrite (Hnth i r Hi).
      destruct (forward_ep_upto vm2 k1 k2 i r) as (c & ->). eauto. }
    assert (Hr' : regs vm' = regs vm2) by (rewrite Hvm'; reflexivity).
    destruct (regs_inv _ _ Hr') as (_ & _ & _ & _ & _ & _ & _ & _ & _ & E1 & E2 & _).
    constructor.
    + congruence.
    + intros q Hq. rewrite Hvm'. vm_simpl. apply Hw. exact Hq.
    + rewrite Hvm'. vm_simpl. exact Hb.
    + rewrite Hvm'. vm_simpl. rewrite cs_addr_forward. exact Hcs.
    + eapply eps_upto_cont_trans; eauto.
    + eapply (eps_wf_upto vm2 vm'); auto. split; eauto.
  - eexists. split; [reflexivity |]. apply promoted_saved; assumption.
Qed.

Lemma clear_words_spec (n : nat) (s : Z) (w : ptr -> word) (q : ptr) :
  clear_words n (STACK s) w q =
  match q with
  | STACK i => if (s <=? i) && (i <? s + Z.of_nat n) then W_NULL else w q
  | _ => w q
  end.
Proof.
  revert s w.
  induction n as [| n IH]; intros s w.
  - cbn [clear_words]. destruct q as [| i | b o]; try reflexivity.
    change (Z.of_nat 0) with 0.
    destruct (Z.leb_spec s i), (Z.ltb_spec i (s + 0)); cbn [andb]; try reflexivity. lia.
  - cbn [clear_words ptr_add]. rewrite IH.
    destruct q as [| i | b o]; try (apply upd_other; discriminate).
    destruct (Z.leb_spec (s + 1) i), (Z.ltb_spec i (s + 1 + Z.of_nat n)),
             (Z.leb_spec s i), (Z.ltb_spec i (s + Z.of_nat (S n)));
      cbn [andb]; try lia; try reflexivity;
      try (apply upd_other; intros E; injection E; lia).
    replace i with s by lia. apply upd_same.
Qed.

(** The value stack is in use from its base to [sp], and the argument
    block starts in between. *)
Definition stack_regs (vm : ScmVM) : Prop :=
  exists s a, sp vm = STACK s /\ argp vm = STACK a /\ 0 <= a <= s /\ s <= SCM_VM_STACK_SIZE.

(** [save_stack] returns; here is what it returns. *)
Lemma save_stack_spec (vm : ScmVM) (s a : Z) :
  eps_wf vm -> sp vm = STACK s -> argp vm = STACK a ->
  exists vm1 vm',
    save_cont vm = Some vm1 /\ saved vm vm1
    /\ save_stack vm = Some vm'
    /\ vm' = set_words (words vm') (set_argp stackBase (set_sp (STACK (s - a)) vm1))
    /\ forall q, words vm' q =
         match q with
         | STACK i =>
             if (s - a <=? i) && (i <? SCM_VM_STACK_SIZE) then W_NULL
             else if (0 <=? i) && (i <? s - a) then words vm (STACK (a + i))
             else words vm q
         | _ => words vm1 q
         end.
Proof.
  intros Hwf Hsp Hargp. unfold save_stack.
  destruct (save_cont_total vm Hwf) as (vm1 & Hs & Hsaved).
  exists vm1. rewrite Hs.
  destruct (regs_inv _ _ (sv_regs _ _ Hsaved))
    as (_ & Esp & _ & _ & _ & Eargp & _).
  rewrite Hsp in Esp. rewrite Hargp in Eargp.
  eexists. split; [reflexivity |]. split; [exact Hsaved |]. split; [reflexivity |].
  vm_simpl. rewrite Esp, Eargp. cbn [ptr_diff ptr_add stackBase stackEnd].
  replace (s + - (a - 0)) with (s - a) by lia.
  split; [reflexivity |].
  intros q. rewrite clear_words_spec.
  destruct q as [| i | b o]; try reflexivity.
  replace (s - a + Z.of_nat (Z.to_nat (SCM_VM_STACK_SIZE - (s - a))))
    with (Z.max (s - a) SCM_VM_STACK_SIZE) by lia.
  destruct (Z.leb_spec (s - a) i), (Z.ltb_spec i (Z.max (s - a) SCM_VM_STACK_SIZE)),
           (Z.ltb_spec i SCM_VM_STACK_SIZE); cbn [andb]; try lia; try reflexivity.
  all: unfold memmove, stackBase;
    destruct (Z.leb_spec 0 i), (Z.ltb_spec i (0 + (s - a))), (Z.ltb_spec i (s - a));
    cbn [andb ptr_add]; try lia; rewrite ?Z.sub_0_r;
    apply (sv_words _ _ Hsaved); exact I.
Qed.

(** C7. After [save_stack] - which returns as soon as the two chains of
    escape points end - the words that lay between [argp] and [sp]
    are at the base of the stack, unchanged and in order; [argp] is the
    stack base and [sp] the stack base plus the length of that block;
    every cell from [sp] to the end of the stack holds the null word;
    and [val0], [vals], [numVals], [pc] and [base] are what they
    were. *)
Theorem save_stack_compacts (vm : ScmVM) (s a : Z)
  (Hwf : eps_wf vm)
  (Hsp : sp vm = ptr_add stackBase s)
  (Hargp : argp vm = ptr_add stackBase a)
  (Hrange : 0 <= a <= s /\ s <= SCM_VM_STACK_SIZE) :
  exists vm',
    save_stack vm = Some vm'
    /\ (forall i, 0 <= i < s - a ->
          words vm' (ptr_add stackBase i) = words vm (ptr_add (argp vm) i))
    /\ argp vm' = stackBase
    /\ sp vm' = ptr_add stackBase (s - a)
    /\ (forall i, s - a <= i < SCM_VM_STACK_SIZE -> words vm' (ptr_add stackBase i) = W_NULL)
    /\ val0 vm' = val0 vm /\ vals vm' = vals vm /\ numVals vm' = numVals vm
    /\ pc vm' = pc vm /\ base vm' = base vm.
Proof.
  cbn [stackBase ptr_add] in *. rewrite Z.add_0_l in Hsp, Hargp.
  destruct (save_stack_spec vm s a Hwf Hsp Hargp)
    as (vm1 & vm' & _ & Hsaved & Hss & Hvm' & Hwords).
  destruct (regs_inv _ _ (sv_regs _ _ Hsaved))
    as (Epc & _ & Eval0 & Evals & Enum & _ & Ebase & _).
  exists vm'. split; [exact Hss |].
  split.
  { intros i Hi. rewrite Hwords, Hargp. cbn [ptr_add]. rewrite Z.add_0_l.
    destruct (Z.leb_spec (s - a) i), (Z.ltb_spec i SCM_VM_STACK_SIZE),
             (Z.leb_spec 0 i), (Z.ltb_spec i (s - a)); cbn [andb]; try lia.
    all: reflexivity. }
  split; [rewrite Hvm'; reflexivity |].
  split; [rewrite Hvm'; vm_simpl; rewrite Z.add_0_l; reflexivity |].
  split.
  { intros i Hi. rewrite Hwords. rewrite Z.add_0_l.
    destruct (Z.leb_spec (s - a) i), (Z.ltb_spec i SCM_VM_STACK_SIZE);
      cbn [andb]; try lia. reflexivity. }
  rewrite Hvm'. vm_simpl. auto.
Qed.


(* ----------------------------------------------------------------- *)
(** *** Promotion of the continuation chain *)

Lemma stack_chain_det vm c l1 t1 :
  stack_chain vm c l1 t1 -> forall l2 t2, stack_chain vm c l2 t2 -> l1 = l2.
Proof.
  induction 1 as [t Ht | c l t Hc Hch IH]; intros l2 t2 H2; inversion H2; subst;
    try congruence.
  f_equal. eapply IH. eassumption.
Qed.

Lemma stack_chain_suffix vm c l t :
  stack_chain vm c l t -> forall p, In p l ->
  exists l', stack_chain vm p (p :: l') t /\ (List.length (p :: l') <= List.length l)%nat.
Proof.
  induction 1 as [t Ht | c l t Hc Hch IH]; intros p Hin; [contradiction |].
  destruct Hin as [-> | Hin].
  - exists l. split; [constructor; auto | simpl; lia].
  - destruct (IH p Hin) as (l' & H1 & H2). exists l'. split; [exact H1 | simpl in *; lia].
Qed.

(** A chain that leaves the stack meets no frame twice. *)
Lemma stack_chain_NoDup vm c l t : stack_chain vm c l t -> NoDup l.
Proof.
  induction 1 as [t Ht | c l t Hc Hch IH]; constructor; [| exact IH].
  intros Hin.
  destruct (stack_chain_suffix _ _ _ _ Hch c Hin) as (l' & H1 & H2).
  assert (H3 : stack_chain vm c (c :: l) t) by (constructor; auto).
  pose proof (stack_chain_det _ _ _ _ H1 _ _ H3) as E.
  injection E as ->. simpl in H2. lia.
Qed.

Lemma stack_chain_head vm c l t : stack_chain vm c l t -> l <> [] -> In c l.
Proof. destruct 1; [congruence | left; reflexivity]. Qed.

(** [cont_reach vm p q]: the frame [q] is met from [p] along [prev]. *)
Inductive cont_reach (vm : ScmVM) : ptr -> ptr -> Prop :=
| cont_reach_here (p : ptr) : p <> NULL -> cont_reach vm p p
| cont_reach_prev (p q : ptr) :
    p <> NULL -> cont_reach vm (c_prev (conts vm p)) q -> cont_reach vm p q.

Lemma cont_reach_out_of_stack (vm : ScmVM) (p q : ptr) :
  (forall x, out_of_stack x -> IN_STACK_P (c_prev (conts vm x)) = false) ->
  cont_reach vm p q -> IN_STACK_P p = false -> IN_STACK_P q = false.
Proof.
  intros Hclosed. induction 1 as [p Hp | p q Hp Hr IH]; intros Hout; [exact Hout |].
  apply IH. apply Hclosed. split; assumption.
Qed.

(** The state [vm1] after the first pass and the state [vm'] that
    [save_cont] returns, when the continuation register is in the
    stack. *)
Lemma save_cont_forwarding (vm : ScmVM) (l : list ptr) (t : ptr) (ks1 ks2 : list nat) :
  stack_chain vm (cont vm) l t -> l <> [] ->
  (forall p, In p l -> chain_frame vm p) ->
  (forall q, out_of_stack q -> IN_STACK_P (c_prev (conts vm q)) = false) ->
  ep_chain ep_prev (eps vm) (escapePoint vm) ks1 ->
  ep_chain ep_floating (eps vm) (SCM_VM_FLOATING_EP vm) ks2 ->
  exists vm1 vm',
    save_cont vm = Some vm'
    /\ promoted vm vm1
    /\ (forall p, In p l -> forwarded_to vm vm1 p)
    /\ (forall q, out_of_stack q -> IN_STACK_P (c_prev (conts vm1 q)) = false)
    /\ vm' = set_eps (eps vm')
               (set_cstack (map (forward_cstack vm1) (cstack vm))
                  (set_cont (forward vm1 (cont vm)) vm1))
    /\ forall i r, nth_error (eps vm) i = Some r ->
         nth_error (eps vm') i = Some (forward_ep vm1 ks1 ks2 i r).
Proof.
  intros Hch Hne Hok Hheap H1 H2.
  pose proof (stack_chain_In _ _ _ _ Hch _ (stack_chain_head _ _ _ _ Hch Hne)) as Hc.
  unfold save_cont.
  destruct (save_env_total vm (env vm)) as (vm0 & e & -> & Hp0 & Hc0 & _).
  rewrite Hc. cbn [negb].
  set (vma := set_env e vm0).
  assert (Hpa : promoted vm vma)
    by (eapply promoted_trans; [exact Hp0 | apply promoted_set_env]).
  assert (Hca : conts vma = conts vm) by exact Hc0.
  assert (Hka : cont vma = cont vm) by (apply (pr_cont _ _ Hp0)).
  clearbody vma.
  destruct (save_cont_loop_total stack_fuel vma (cont vm) NULL Hc)
    as (vm1 & Hloop & Hp1 & _).
  { left. reflexivity. }
  { apply count_stack_bound. }
  rewrite Hloop.
  assert (Hcha : stack_chain vma (cont vm) l t).
  { eapply stack_chain_ext; [exact Hch |]. intros p _. rewrite Hca. reflexivity. }
  assert (Hoka : forall p, In p l -> chain_frame vma p).
  { intros p Hp. destruct (Hok p Hp) as (A & B). unfold chain_frame. rewrite Hca.
    split; [exact A |]. eapply old_ptr_mono; [| exact B]. apply (pr_block _ _ Hpa). }
  destruct (pass1_forwarding l stack_fuel vma (cont vm) NULL t vm1 Hloop Hcha Hne
              (stack_chain_NoDup _ _ _ _ Hch) Hoka (or_introl eq_refl))
    as (_ & HA & HB & _).
  assert (Hp : promoted vm vm1) by (eapply promoted_trans; eauto).
  assert (Heps1 : eps vm1 = eps vm) by (apply (pr_eps _ _ Hp)).
  assert (Hregs1 := regs_inv _ _ (pr_regs _ _ Hp)).
  destruct Hregs1 as (_ & _ & _ & _ & _ & _ & _ & _ & _ & Eep & Eepf & _).
  assert (Hfl1 : SCM_VM_FLOATING_EP vm1 = SCM_VM_FLOATING_EP vm).
  { apply FLOATING_EP_upto; auto. rewrite Heps1. apply eps_upto_cont_refl. }
  destruct (save_cont_pass2_spec vm1 ks1 ks2) as (vm' & Hp2 & Hvm' & Hlen & Hnth).
  { rewrite Heps1, Eep. exact H1. }
  { rewrite Heps1, Hfl1. exact H2. }
  exists vm1, vm'. split; [exact Hp2 |]. split; [exact Hp |].
  split.
  { intros p Hin. destruct (HA p Hin) as (A & b & B1 & B2 & B3 & B4).
    split; [exact A |]. exists b. split; [exact B1 |].
    split; [pose proof (pr_block _ _ Hpa); lia |].
    split.
    - eapply frame_copy_earlier; eauto.
      + rewrite Hca. reflexivity.
      + apply IN_STACK_P_not_heap. eapply stack_chain_In; eauto.
      + apply (Hok p Hin).
    - rewrite B4, Hca. reflexivity. }
  split.
  { eapply save_cont_loop_closed; eauto.
    - left. reflexivity.
    - intros q Hq Hin. rewrite Hca, Hheap in Hin by exact Hq. discriminate. }
  split.
  { rewrite Hvm' at 1. rewrite (pr_cstack _ _ Hp), (pr_cont _ _ Hp). reflexivity. }
  intros i r Hr. apply Hnth. rewrite Heps1. exact Hr.
Qed.


Lemma clear_words_heap (p : ptr) (w : ptr -> word) (b : nat) (o : Z) :
  clear_words (Z.to_nat (ptr_diff stackEnd p)) p w (HEAP b o) = w (HEAP b o).
Proof.
  destruct p as [| s | b' o']; try reflexivity.
  rewrite clear_words_spec. reflexivity.
Qed.

(** The compaction of [save_stack] touches neither the frames nor the
    words of the heap. *)
Lemma save_stack_after (vm vm1 : ScmVM) :
  save_cont vm = Some vm1 ->
  exists vm',
    save_stack vm = Some vm'
    /\ conts vm' = conts vm1 /\ cont vm' = cont vm1 /\ cstack vm' = cstack vm1
    /\ eps vm' = eps vm1
    /\ forall b o, words vm' (HEAP b o) = words vm1 (HEAP b o).
Proof.
  intros Hs. unfold save_stack. rewrite Hs.
  eexists. split; [reflexivity |]. vm_simpl.
  do 4 (split; [reflexivity |]).
  intros b o. rewrite clear_words_heap. reflexivity.
Qed.

Lemma nth_error_In_chain (i : nat) (ks : list nat) : In i ks -> on_chain i ks = true.
Proof.
  intros H. unfold on_chain. apply existsb_exists. exists i.
  split; [exact H | apply Nat.eqb_refl].
Qed.

(** C1. Let the continuation register lead through the in-stack frames
    [l] to a first frame [t] outside the stack, let those frames be
    well formed and let no frame outside the stack point into it.
    Then [save_stack] returns, and afterwards no frame met from the
    continuation register lies in the stack; every frame of [l] has a
    copy outside the stack, linked like the original; and the
    continuation register, the [cont] field of each host-stack record
    and the [cont] field of each escape point of the main and of the
    floating chain that pointed to a frame of [l] now point to its
    copy. *)
Theorem save_stack_forwards (vm : ScmVM) (l : list ptr) (t : ptr) (ks1 ks2 : list nat)
  (Hchain : stack_chain vm (cont vm) l t)
  (Hframes : forall p, In p l -> chain_frame vm p)
  (Hheap : forall q, out_of_stack q -> IN_STACK_P (c_prev (conts vm q)) = false)
  (Hmain : ep_chain ep_prev (eps vm) (escapePoint vm) ks1)
  (Hfloat : ep_chain ep_floating (eps vm) (SCM_VM_FLOATING_EP vm) ks2) :
  exists (vm' : ScmVM) (copy : ptr -> ptr),
    save_stack vm = Some vm'
    /\ (forall q, cont_reach vm' (cont vm') q -> IN_STACK_P q = false)
    /\ (forall p, In p l ->
          out_of_stack (copy p)
          /\ frame_copy vm vm' p (copy p)
          /\ c_prev (conts vm' (copy p)) =
             (if IN_STACK_P (c_prev (conts vm p)) then copy (c_prev (conts vm p))
              else c_prev (conts vm p)))
    /\ (In (cont vm) l -> cont vm' = copy (cont vm))
    /\ (forall k cs, nth_error (cstack vm) k = Some cs -> In (cs_cont cs) l ->
          nth_error (cstack vm') k = Some (mkCStack (cs_addr cs) (copy (cs_cont cs))))
    /\ (forall i r, In i ks1 \/ In i ks2 -> nth_error (eps vm) i = Some r ->
          In (ep_cont r) l ->
          nth_error (eps vm') i = Some (set_ep_cont (copy (ep_cont r)) r)).
Proof.
  destruct l as [| c0 l0].
  - (* the continuation register is not in the stack: nothing to forward *)
    inversion Hchain as [t' Ht |]; subst.
    destruct (save_cont_total vm) as (vm1 & Hs & _).
    { split; eauto. }
    destruct (save_stack_after vm vm1 Hs) as (vm' & Hss & Hc & Hk & _).
    assert (Hvm1 : conts vm1 = conts vm /\ cont vm1 = cont vm).
    { unfold save_cont in Hs.
      destruct (save_env_total vm (env vm)) as (vm0 & e & E & Hp0 & Hc0 & _).
      rewrite E, Ht in Hs. cbn [negb] in Hs. injection Hs as <-.
      split; [exact Hc0 | apply (pr_cont _ _ Hp0)]. }
    destruct Hvm1 as (Hc1 & Hk1).
    exists vm', (fun p => p). split; [exact Hss |].
    split.
    { intros q Hr. eapply cont_reach_out_of_stack; [| exact Hr |].
      - intros x Hx. rewrite Hc, Hc1. apply Hheap. exact Hx.
      - rewrite Hk, Hk1. exact Ht. }
    repeat split; intros; contradiction.
  - assert (Hne : c0 :: l0 <> []) by discriminate.
    set (l := c0 :: l0) in *.
    destruct (save_cont_forwarding vm l t ks1 ks2 Hchain Hne Hframes Hheap Hmain Hfloat)
      as (vm1 & vm2 & Hs & Hp & Hfw & Hclosed & Hvm2 & Hnth).
    destruct (save_stack_after vm vm2 Hs) as (vm' & Hss & Hc & Hk & Hcs & Heps & Hw).
    assert (Hc2 : conts vm2 = conts vm1) by (rewrite Hvm2; reflexivity).
    assert (Hw2 : words vm2 = words vm1) by (rewrite Hvm2; reflexivity).
    assert (Hforward : forall p, In p l -> forward vm1 p = c_prev (conts vm1 p)).
    { intros p Hin. destruct (Hfw p Hin) as (A & _).
      unfold forward, FORWARDED_CONT_P, FORWARDED_CONT. rewrite A.
      pose proof (stack_chain_In _ _ _ _ Hchain p Hin) as Hs'.
      destruct p; try discriminate. reflexivity. }
    exists vm', (fun p => c_prev (conts vm1 p)). split; [exact Hss |].
    split.
    { intros q Hr. eapply cont_reach_out_of_stack; [| exact Hr |].
      - intros x Hx. rewrite Hc, Hc2. apply Hclosed. exact Hx.
      - rewrite Hk, Hvm2. vm_simpl.
        rewrite Hforward by (apply (stack_chain_head _ _ _ _ Hchain Hne)).
        destruct (Hfw (cont vm) (stack_chain_head _ _ _ _ Hchain Hne))
          as (_ & b & -> & _). reflexivity. }
    split.
    { intros p Hin. destruct (Hfw p Hin) as (A & b & B1 & B2 & B3 & B4).
      rewrite B1. split; [split; [discriminate | reflexivity] |].
      split.
      - eapply frame_copy_later; [exact B3 | | | | |]; rewrite ?Hc, ?Hc2; try reflexivity.
        intros i. cbn [ptr_add]. rewrite Hw, Hw2. reflexivity.
      - rewrite Hc, Hc2. exact B4. }
    split.
    { intros Hin. rewrite Hk, Hvm2. vm_simpl. apply Hforward. exact Hin. }
    split.
    { intros k cs Hk' Hin. rewrite Hcs, Hvm2. vm_simpl.
      rewrite nth_error_map, Hk'. cbn [option_map]. f_equal.
      unfold forward_cstack.
      rewrite <- (Hforward _ Hin). unfold forward.
      destruct (FORWARDED_CONT_P vm1 (cs_cont cs)) eqn:E; [reflexivity |].
      destruct cs; reflexivity. }
    intros i r Hi Hr Hin. rewrite Heps, (Hnth i r Hr). f_equal.
    assert (Hidem : forward vm1 (forward vm1 (ep_cont r)) = forward vm1 (ep_cont r)).
    { rewrite (Hforward _ Hin).
      destruct (Hfw _ Hin) as (_ & b & B1 & _ & (B3 & _) & _).
      rewrite B1. unfold forward, FORWARDED_CONT_P. rewrite B3.
      destruct (Hframes _ Hin) as (Hsz & _).
      destruct (Z.eqb_spec (c_size (conts vm (ep_cont r))) (-1)); [lia | reflexivity]. }
    unfold forward_ep.
    destruct (on_chain i ks1) eqn:E1, (on_chain i ks2) eqn:E2.
    + cbn [ep_cont set_ep_cont]. rewrite Hidem, (Hforward _ Hin). reflexivity.
    + rewrite (Hforward _ Hin). reflexivity.
    + rewrite (Hforward _ Hin). reflexivity.
    + destruct Hi as [Hi | Hi]; apply nth_error_In_chain in Hi; congruence.
Qed.


(* ----------------------------------------------------------------- *)
(** *** Multiple values *)

(** C10. [Scm_VMValues] on the empty list returns the unspecified value
    and leaves [numVals] at 0; [Scm_VMGetResult] on any VM whose
    [numVals] is 0 returns the empty list and changes nothing.  So a
    VM can hold zero values, although a single-value result
    ([Scm_VMSetResult]) sets [numVals] to 1. *)
Theorem zero_values_representable (vm : ScmVM) (obj : ScmObj) :
  exists vm',
    Scm_VMValues vm SCM_NIL = Returns SCM_UNDEFINED vm'
    /\ numVals vm' = 0
    /\ Scm_VMGetNumResults vm' = 0
    /\ numVals vm' <> 1
    /\ (forall vm0, numVals vm0 = 0 -> Scm_VMGetResult vm0 = (SCM_NIL, vm0))
    /\ Scm_VMGetResult vm' = (SCM_NIL, vm')
    /\ numVals (Scm_VMSetResult obj vm') = 1.
Proof.
  exists (set_numVals 0 vm).
  assert (H : forall vm0, numVals vm0 = 0 -> Scm_VMGetResult vm0 = (SCM_NIL, vm0)).
  { intros vm0 H0. unfold Scm_VMGetResult. rewrite H0. reflexivity. }
  split; [reflexivity |]. split; [reflexivity |]. split; [reflexivity |].
  split; [vm_simpl; lia |]. split; [exact H |].
  split; [apply H; reflexivity | reflexivity].
Qed.

(* ----------------------------------------------------------------- *)
(** *** Handlers to call when a continuation is thrown *)

Lemma leaving_present (p target target' : ScmObj) :
  (forall a, present a target' = present a target) ->
  leaving p target' = leaving p target.
Proof.
  intros H. induction p as [| | | | ? | ? | ? ? ? | ? ? | k a IHa d IHd]; simpl; auto.
  rewrite H, IHd. reflexivity.
Qed.

(** The list computed by [throw_cont_calculate_handlers]: the after
    thunks of the cells of the current list up to the first cell that
    the target list has too, each with the list below its cell; then,
    outermost first, the before thunks of the cells of the target
    list that the current list lacks, each with the part of the target
    list below its cell. *)
Lemma throw_cont_calculate_handlers_spec (vm : ScmVM) (ep : nat) (r : ScmEscapePoint) :
  nth_error (eps vm) ep = Some r ->
  handler_list (handlers vm) -> handler_list (ep_handlers r) ->
  exists h cell,
    throw_cont_calculate_handlers ep vm = Returns h (set_next_cell cell vm)
    /\ entries h =
       after_calls (handlers vm) (ep_handlers r) ++ before_calls (handlers vm) (ep_handlers r).
Proof.
  intros Hep HC HT.
  unfold throw_cont_calculate_handlers, with_ep. rewrite Hep.
  destruct (Scm_Reverse (ep_handlers r) (next_cell vm)) as [target cell0] eqn:Hrev.
  assert (Htarget : target = fst (Scm_Reverse (ep_handlers r) (next_cell vm)))
    by (rewrite Hrev; reflexivity).
  assert (Hpres : forall a, present a target = present a (ep_handlers r))
    by (intros a; rewrite Htarget; apply present_Reverse).
  assert (Helems : elements target = rev (elements (ep_handlers r)))
    by (rewrite Htarget; apply elements_Reverse).
  destruct (calculate_after_handlers_spec (handlers vm) (ep_handlers r) target SCM_NIL cell0
              HC Hpres) as (h1 & cell1 & -> & Hent1).
  destruct (calculate_before_handlers_spec target (handlers vm) (ep_handlers r) h1 cell1)
    as (h2 & cell2 & -> & Hent2).
  - unfold handler_list. rewrite Helems. apply Forall_rev. exact HT.
  - intros a Ha. rewrite Helems in Ha. apply in_rev in Ha. apply present_In. exact Ha.
  - exists h2, cell2. split; [reflexivity |].
    rewrite Hent2, Hent1. unfold before_calls. rewrite Helems. reflexivity.
Qed.

(** Dynamic handler lists grow by [Scm_Cons] on the list in force, so a
    cell that two lists share is followed by the same cells in both. *)
Definition shared_below (current target : ScmObj) : Prop :=
  forall p, In p (cells current) -> present (SCM_CAR p) target = true ->
    forall q, In q (cells (SCM_CDR p)) -> present (SCM_CAR q) target = true.

(** For such lists the cells left are all the cells of the current
    list that the target list lacks. *)
Lemma filter_none {A : Type} (f : A -> bool) (l : list A) :
  (forall x, In x l -> f x = false) -> filter f l = [].
Proof.
  induction l as [| x l IH]; intros H; simpl; [reflexivity |].
  rewrite (H x) by (left; reflexivity). apply IH. intros y Hy. apply H. right. exact Hy.
Qed.

Lemma In_cells_CAR (q l : ScmObj) : In q (cells l) -> In (SCM_CAR q) (elements l).
Proof.
  induction l as [| | | | ? | ? | ? ? ? | ? ? | k a IHa d IHd]; simpl; auto.
  intros [<- | H]; [left; reflexivity | right; auto].
Qed.

(** For such lists the cells left are all the cells of the current
    list that the target list lacks. *)
Lemma leaving_filter (current target : ScmObj) :
  shared_below current target ->
  leaving current target =
  filter (fun p => negb (present (SCM_CAR p) target)) (cells current).
Proof.
  induction current as [| | | | ? | ? | ? ? ? | ? ? | k a IHa d IHd]; intros Hsh; simpl; auto.
  destruct (present a target) eqn:E; simpl.
  - symmetry. apply filter_none. intros q Hq.
    rewrite (Hsh (SCM_PAIR k a d)); simpl; auto.
  - f_equal. apply IHd. intros p Hp Hpres q Hq.
    apply (Hsh p); simpl; auto.
Qed.


(** The after calls over every cell of the current list whose entry
    the target list lacks. *)
Definition after_calls_all (current target : ScmObj) : list (ScmObj * ScmObj) :=
  map (fun p => (SCM_CDAR p, SCM_CDR p))
      (filter (fun p => negb (present (SCM_CAR p) target)) (cells current)).

Lemma after_calls_shared (current target : ScmObj) :
  shared_below current target -> after_calls current target = after_calls_all current target.
Proof.
  intros H. unfold after_calls, after_calls_all. rewrite (leaving_filter _ _ H). reflexivity.
Qed.

(** The before calls read off the cells of the target list, innermost
    cell last: the before thunk of the cell and the list below it. *)
Definition before_calls_cells (current target : ScmObj) : list (ScmObj * ScmObj) :=
  map (fun q => (SCM_CAAR q, SCM_CDR q))
      (filter (fun q => negb (present (SCM_CAR q) current)) (rev (cells target))).

Lemma elements_cells (l : ScmObj) : elements l = map SCM_CAR (cells l).
Proof.
  induction l as [| | | | ? | ? | ? ? ? | ? ? | k a IHa d IHd]; simpl; try reflexivity.
  rewrite IHd. reflexivity.
Qed.

(** Where no entry repeats, [Scm_Memq] on the entry of a cell finds
    that cell. *)
Lemma Scm_Memq_cell (q l : ScmObj) :
  NoDup (elements l) -> In q (cells l) -> Scm_Memq (SCM_CAR q) l = q.
Proof.
  induction l as [| | | | ? | ? | ? ? ? | ? ? | k a IHa d IHd]; simpl; try contradiction.
  intros Hnd [<- | Hq].
  - simpl. rewrite SCM_EQ_refl. reflexivity.
  - inversion Hnd as [| x xs Hx Hxs]; subst.
    destruct (SCM_EQ (SCM_CAR q) a) eqn:E.
    + apply SCM_EQ_true in E. exfalso. apply Hx. rewrite <- E. apply In_cells_CAR. exact Hq.
    + apply IHd; assumption.
Qed.

Lemma filter_map_comm {A B : Type} (f : A -> B) (g : B -> bool) (l : list A) :
  filter g (map f l) = map f (filter (fun x => g (f x)) l).
Proof.
  induction l as [| x l IH]; simpl; [reflexivity |].
  destruct (g (f x)); simpl; rewrite IH; reflexivity.
Qed.

Lemma before_calls_nodup (current target : ScmObj) :
  NoDup (elements target) -> before_calls current target = before_calls_cells current target.
Proof.
  intros Hnd. unfold before_calls, before_calls_cells.
  rewrite elements_cells, <- map_rev, filter_map_comm, map_map.
  apply map_ext_in. intros q Hq. apply filter_In in Hq. destruct Hq as (Hq & _).
  apply in_rev in Hq. rewrite (Scm_Memq_cell q target Hnd Hq). reflexivity.
Qed.


(* ----------------------------------------------------------------- *)
(** *** The values handed to a continuation *)

Lemma Scm_Length_elements (l : ScmObj) :
  0 <= Scm_Length l -> Scm_Length l = Z.of_nat (List.length (elements l)).
Proof.
  induction l as [| | | | ? | ? | ? ? ? | ? ? | k a IHa d IHd]; cbn [Scm_Length elements];
    try lia; try reflexivity.
  destruct (Z.ltb_spec (Scm_Length d) 0); [lia |].
  intros _. rewrite IHd by lia. cbn [List.length]. lia.
Qed.

Lemma Scm_Length_pair (l : ScmObj) : 1 <= Scm_Length l -> SCM_PAIRP l = true.
Proof. destruct l; cbn [Scm_Length]; try lia; reflexivity. Qed.

Lemma Scm_Length_CDR (l : ScmObj) :
  1 <= Scm_Length l -> Scm_Length (SCM_CDR l) = Scm_Length l - 1.
Proof.
  destruct l; cbn [Scm_Length SCM_CDR]; try lia.
  destruct (Z.ltb_spec (Scm_Length l2) 0); lia.
Qed.

(** The loop that fills [vm->vals] writes the elements of the list to
    the slots from [i] on and nothing else. *)
Lemma store_vals_spec (ap : ScmObj) (i : nat) (v : nat -> ScmObj) (j : nat) :
  store_vals ap i v j =
  if (i <=? j)%nat && (j <? i + List.length (elements ap))%nat
  then nth (j - i) (elements ap) SCM_UNBOUND else v j.
Proof.
  revert i v.
  induction ap as [| | | | ? | ? | ? ? ? | ? ? | k a IHa d IHd]; intros i v;
    cbn [store_vals elements List.length];
    try (rewrite Nat.add_0_r;
         destruct (Nat.leb_spec i j), (Nat.ltb_spec j i); cbn [andb]; try reflexivity; lia).
  rewrite IHd. unfold upd_nat.
  destruct (Nat.leb_spec (S i) j), (Nat.ltb_spec j (S i + List.length (elements d)));
    destruct (Nat.leb_spec i j), (Nat.ltb_spec j (i + S (List.length (elements d))));
    cbn [andb]; try lia.
  - replace (j - i)%nat with (S (j - S i)) by lia. reflexivity.
  - destruct (Nat.eqb_spec j i); [lia | reflexivity].
  - destruct (Nat.eqb_spec j i); [| lia]. subst j. rewrite Nat.sub_diag. reflexivity.
  - destruct (Nat.eqb_spec j i); [lia | reflexivity].
Qed.

(** The state in which [throw_cont_body] leaves the VM once the target
    continuation [c] and the handler list [hs] are installed. *)
Definition installed (r : ScmEscapePoint) (vm : ScmVM) : ScmVM :=
  set_handlers (ep_handlers r) (set_cont (ep_cont r) (set_pc PC_TO_RETURN vm)).

(** [throw_cont_body] when no handler is left to call and the escape
    point belongs to a host-stack record: the four cases on the number
    of arguments. *)
Lemma throw_cont_body_spec (vm : ScmVM) (ep : nat) (r : ScmEscapePoint) (k : nat)
  (hs args : ScmObj) :
  nth_error (eps vm) ep = Some r -> ep_cstack r = Some k -> SCM_PAIRP hs = false ->
  let N := Scm_Length args in
  (N = 1 -> throw_cont_body hs ep args vm = Returns (SCM_CAR args) (installed r vm))
  /\ (N < 1 -> throw_cont_body hs ep args vm = Returns SCM_UNDEFINED (installed r vm))
  /\ (2 <= N -> SCM_VM_MAX_VALUES <= N ->
      throw_cont_body hs ep args vm =
      Raises "too many values passed to the continuation" [] (installed r vm))
  /\ (2 <= N < SCM_VM_MAX_VALUES ->
      exists v,
        throw_cont_body hs ep args vm =
        Returns (SCM_CAR args) (set_numVals N (set_vals v (installed r vm)))
        /\ (forall i, Z.of_nat i < N - 1 -> v i = nth (S i) (elements args) SCM_UNBOUND)
        /\ (forall i, N - 1 <= Z.of_nat i -> v i = vals vm i)).
Proof.
  intros Hep Hcs Hhs N.
  assert (E : throw_cont_body hs ep args vm =
              if N =? 1 then Returns (SCM_CAR args) (installed r vm)
              else if N <? 1 then Returns SCM_UNDEFINED (installed r vm)
              else if N >=? SCM_VM_MAX_VALUES
              then Raises "too many values passed to the continuation" [] (installed r vm)
              else Returns (SCM_CAR args)
                     (set_numVals N
                        (set_vals (store_vals (SCM_CDR args) 0 (vals (installed r vm)))
                           (installed r vm)))).
  { unfold throw_cont_body, with_ep. rewrite Hhs, Hep, Hcs. cbn [bind].
    rewrite Hep. reflexivity. }
  rewrite E. clear E.
  repeat split.
  - intros H. rewrite H. reflexivity.
  - intros H. destruct (Z.eqb_spec N 1); [lia |]. destruct (Z.ltb_spec N 1); [reflexivity | lia].
  - intros H1 H2. destruct (Z.eqb_spec N 1); [lia |]. destruct (Z.ltb_spec N 1); [lia |].
    destruct (Z.geb_spec N SCM_VM_MAX_VALUES); [reflexivity | lia].
  - intros (H1 & H2). destruct (Z.eqb_spec N 1); [lia |]. destruct (Z.ltb_spec N 1); [lia |].
    destruct (Z.geb_spec N SCM_VM_MAX_VALUES); [lia |].
    eexists. split; [reflexivity |].
    assert (Hlen : Scm_Length (SCM_CDR args) = N - 1) by (apply Scm_Length_CDR; lia).
    assert (Hel : Z.of_nat (List.length (elements (SCM_CDR args))) = N - 1)
      by (rewrite <- Scm_Length_elements; lia).
    assert (Hargs : elements args = SCM_CAR args :: elements (SCM_CDR args)).
    { pose proof (Scm_Length_pair args ltac:(lia)) as Hp.
      destruct args; try discriminate. reflexivity. }
    split; intros i Hi; rewrite store_vals_spec; cbn [Nat.leb andb Nat.add].
    + destruct (Nat.ltb_spec i (List.length (elements (SCM_CDR args)))); [| lia].
      rewrite Nat.sub_0_r, Hargs. reflexivity.
    + destruct (Nat.ltb_spec i (List.length (elements (SCM_CDR args)))); [lia |].
      reflexivity.
Qed.


(* ----------------------------------------------------------------- *)
(** *** Outcomes that are not a return, or not a jump *)

Definition returns {A : Type} (o : outcome A) : Prop := exists a vm, o = Returns a vm.
Definition jumps {A : Type} (o : outcome A) : Prop := exists vm, o = LongJmp vm.

Lemma bind_no_return {A B : Type} (m : outcome A) (k : A -> ScmVM -> outcome B) :
  (forall a vm, ~ returns (k a vm)) -> ~ returns (bind m k).
Proof.
  intros Hk (b & vm' & E). destruct m; cbn [bind] in E; try discriminate.
  apply (Hk a vm). exists b, vm'. exact E.
Qed.

Lemma bind_no_jump {A B : Type} (m : outcome A) (k : A -> ScmVM -> outcome B) :
  ~ jumps m -> (forall a vm, ~ jumps (k a vm)) -> ~ jumps (bind m k).
Proof.
  intros Hm Hk (vm' & E). destruct m; cbn [bind] in E; try discriminate.
  - apply (Hk a vm). exists vm'. exact E.
  - apply Hm. eexists. reflexivity.
Qed.

Lemma lift_no_jump {A : Type} (a : A) (o : option ScmVM) : ~ jumps (lift a o).
Proof. intros (vm' & E). destruct o; discriminate. Qed.

Lemma with_ep_no_jump {A : Type} (ep : nat) (vm : ScmVM) (k : ScmEscapePoint -> outcome A) :
  (forall r, ~ jumps (k r)) -> ~ jumps (with_ep ep vm k).
Proof.
  intros Hk. unfold with_ep. destruct (nth_error (eps vm) ep); [apply Hk |].
  intros (vm' & E). discriminate.
Qed.

Lemma throw_cont_calculate_handlers_no_jump (ep : nat) (vm : ScmVM) :
  ~ jumps (throw_cont_calculate_handlers ep vm).
Proof.
  unfold throw_cont_calculate_handlers. apply with_ep_no_jump. intros r.
  destruct (Scm_Reverse _ _) as [target cell0].
  destruct (calculate_after_handlers _ _ _ _) as [[h1 cell1] |];
    [| intros (vm' & E); discriminate].
  destruct (calculate_before_handlers _ _ _ _ _) as [[h2 cell2] |];
    intros (vm' & E); discriminate.
Qed.

Lemma throw_cont_body_no_jump (hs : ScmObj) (ep : nat) (args : ScmObj) (vm : ScmVM) :
  ~ jumps (throw_cont_body hs ep args vm).
Proof.
  unfold throw_cont_body.
  destruct (SCM_PAIRP hs).
  - destruct (negb (SCM_PAIRP (SCM_CAR hs))); [intros (vm' & E); discriminate |].
    apply bind_no_jump.
    + unfold Scm_VMPushCC. apply bind_no_jump; [apply lift_no_jump |].
      intros _ vm1 (vm' & E). discriminate.
    + intros _ vm1 (vm' & E). discriminate.
  - apply with_ep_no_jump. intros r. apply bind_no_jump.
    + destruct (ep_cstack r); [intros (vm' & E); discriminate | apply lift_no_jump].
    + intros _ vm1. apply with_ep_no_jump. intros r1.
      destruct (_ =? 1); [intros (vm' & E); discriminate |].
      destruct (_ <? 1); [intros (vm' & E); discriminate |].
      destruct (_ >=? _); intros (vm' & E); discriminate.
Qed.



(* ----------------------------------------------------------------- *)
(** *** Raising a condition *)





Lemma default_handler_escape_no_return (ep : option nat) (e : ScmObj) (vm : ScmVM) :
  ~ returns (default_handler_escape ep e vm).
Proof.
  unfold default_handler_escape. intros (a & vm' & E). destruct (cstack vm); discriminate.
Qed.

Lemma with_ep_no_return {A : Type} (ep : nat) (vm : ScmVM) (k : ScmEscapePoint -> outcome A) :
  (forall r, ~ returns (k r)) -> ~ returns (with_ep ep vm k).
Proof.
  intros Hk. unfold with_ep. destruct (nth_error (eps vm) ep); [apply Hk |].
  intros (a & vm' & E). discriminate.
Qed.

(** [Scm_VMDefaultExceptionHandler] does not return to its caller. *)
Lemma Scm_VMDefaultExceptionHandler_no_return (fuel : nat) (e : ScmObj) (vm : ScmVM) :
  ~ returns (Scm_VMDefaultExceptionHandler fuel e vm).
Proof.
  unfold Scm_VMDefaultExceptionHandler.
  destruct (escapePoint vm) as [ep |].
  - apply with_ep_no_return. intros r. apply bind_no_return. intros _ vm1.
    destruct (SCM_LIST1 e _) as [arg cell].
    destruct (bind (Scm_ApplyRec fuel (ep_ehandler r) arg _) _) as [[[result n] rvals] vm6 | | vmj | | |];
      try (intros (a & vm' & E); discriminate).
    + apply bind_no_return. intros _ vm7. apply with_ep_no_return. intros r7.
      apply default_handler_escape_no_return.
    + apply with_ep_no_return. intros rj. unfold Scm_VMNextHandler.
      intros (a & vm' & E). destruct (cstack _) as [| ? [| ? ?]]; discriminate.
  - apply bind_no_return. intros _ vm1. apply bind_no_return. intros _ vm2.
    apply default_handler_escape_no_return.
Qed.

(* ----------------------------------------------------------------- *)
(** *** What the stack manager and a push leave alone *)

(** The registers a function of the host holds on to, the addresses of
    the host-stack records, the escape points up to their [cont], and
    the words of the heap blocks that exist. *)
Record steady (vm vm' : ScmVM) : Prop := mkSteady {
  st_val0 : val0 vm' = val0 vm;
  st_vals : vals vm' = vals vm;
  st_numVals : numVals vm' = numVals vm;
  st_handlers : handlers vm' = handlers vm;
  st_escapePoint : escapePoint vm' = escapePoint vm;
  st_floating : escapePointFloating vm' = escapePointFloating vm;
  st_cell : next_cell vm' = next_cell vm;
  st_cstack : map cs_addr (cstack vm') = map cs_addr (cstack vm);
  st_eps : eps_upto_cont (eps vm) (eps vm');
  st_heap : forall b o, (b < next_block vm)%nat -> words vm' (HEAP b o) = words vm (HEAP b o);
  st_block : (next_block vm <= next_block vm')%nat
}.

Lemma steady_refl (vm : ScmVM) : steady vm vm.
Proof. constructor; auto. apply eps_upto_cont_refl. Qed.

Lemma steady_trans (vm1 vm2 vm3 : ScmVM) : steady vm1 vm2 -> steady vm2 vm3 -> steady vm1 vm3.
Proof.
  intros [] []. constructor; try congruence; try lia.
  - eapply eps_upto_cont_trans; eauto.
  - intros b o Hb. rewrite st_heap1 by lia. apply st_heap0. exact Hb.
Qed.

Lemma steady_wf (vm vm' : ScmVM) : steady vm vm' -> eps_wf vm -> eps_wf vm'.
Proof. intros []. apply eps_wf_upto; assumption. Qed.

Lemma saved_steady (vm vm' : ScmVM) : saved vm vm' -> steady vm vm'.
Proof.
  intros [Hr Hw Hb Hcs He Hwf].
  destruct (regs_inv _ _ Hr)
    as (_ & _ & E1 & E2 & E3 & _ & _ & E4 & _ & E5 & E6 & _ & _ & _ & _ & E7 & _).
  constructor; auto.
Qed.

(** The stack pointer points into the stack block. *)
Definition sp_in_block (vm : ScmVM) : Prop := exists s, sp vm = STACK s.

Lemma save_stack_steady (vm : ScmVM) :
  eps_wf vm ->
  exists vm', save_stack vm = Some vm' /\ steady vm vm'
              /\ (sp_in_block vm -> sp_in_block vm').
Proof.
  intros Hwf. destruct (save_cont_total vm Hwf) as (vm1 & Hs & Hsaved).
  unfold save_stack. rewrite Hs. eexists. split; [reflexivity |].
  pose proof (saved_steady _ _ Hsaved) as [].
  destruct (regs_inv _ _ (sv_regs _ _ Hsaved)) as (_ & Esp & _).
  split.
  - constructor; vm_simpl; auto.
    intros b o Hb. rewrite clear_words_heap. unfold memmove, stackBase. auto.
  - intros (s & Hsp). vm_simpl. rewrite Esp, Hsp. eexists. reflexivity.
Qed.

Lemma CHECK_STACK_steady (size : Z) (vm : ScmVM) :
  eps_wf vm ->
  exists vm', CHECK_STACK size vm = Some vm' /\ steady vm vm'
              /\ (sp_in_block vm -> sp_in_block vm').
Proof.
  intros Hwf. unfold CHECK_STACK.
  destruct (_ >=? 0).
  - apply save_stack_steady. exact Hwf.
  - exists vm. split; [reflexivity |]. split; [apply steady_refl | auto].
Qed.

Lemma ep_chain_app link (l l' : list ScmEscapePoint) ep ks :
  ep_chain link l ep ks -> ep_chain link (l ++ l') ep ks.
Proof.
  induction 1 as [| i r ks Hr Hch IH]; [constructor |].
  apply (ep_chain_cons link _ i r); [| exact IH].
  rewrite nth_error_app1; [exact Hr | apply nth_error_Some; congruence].
Qed.

(** A new escape point at the end of the table leaves the chains as
    they are. *)
Lemma eps_wf_new_ep (r : ScmEscapePoint) (vm : ScmVM) :
  eps_wf vm -> eps_wf (snd (new_ep r vm)).
Proof.
  intros ((k1 & H1) & (k2 & H2)). unfold new_ep. cbn [snd].
  assert (Hf : SCM_VM_FLOATING_EP (set_eps (eps vm ++ [r]) vm) = SCM_VM_FLOATING_EP vm).
  { unfold SCM_VM_FLOATING_EP. vm_simpl.
    destruct (escapePoint vm) as [i |]; [| reflexivity].
    inversion H1; subst.
    rewrite nth_error_app1 by (apply nth_error_Some; congruence). reflexivity. }
  split.
  - exists k1. apply ep_chain_app. exact H1.
  - exists k2. rewrite Hf. apply ep_chain_app. exact H2.
Qed.

Lemma cstack_ptr_addr (vm vm' : ScmVM) :
  map cs_addr (cstack vm') = map cs_addr (cstack vm) -> cstack_ptr vm' = cstack_ptr vm.
Proof.
  unfold cstack_ptr. destruct (cstack vm'), (cstack vm); cbn [map]; try discriminate; auto.
  intros H. injection H as H _. rewrite H. reflexivity.
Qed.

Lemma leaving_same (l : ScmObj) : leaving l l = [].
Proof.
  destruct l; try reflexivity. cbn [leaving]. unfold present. cbn [elements existsb].
  rewrite SCM_EQ_refl. reflexivity.
Qed.

Lemma before_calls_same (l : ScmObj) : before_calls l l = [].
Proof.
  unfold before_calls. rewrite filter_none; [reflexivity |].
  intros a Ha. apply in_rev in Ha. apply present_In in Ha. rewrite Ha. reflexivity.
Qed.

Lemma entries_nil (h : ScmObj) : entries h = [] -> SCM_PAIRP h = false.
Proof. destruct h; try reflexivity. discriminate. Qed.


Lemma eps_wf_regs (vm vm' : ScmVM) :
  eps vm' = eps vm -> escapePoint vm' = escapePoint vm ->
  escapePointFloating vm' = escapePointFloating vm -> eps_wf vm -> eps_wf vm'.
Proof.
  intros E1 E2 E3. apply eps_wf_upto; auto. rewrite E1. apply eps_upto_cont_refl.
Qed.

(* ----------------------------------------------------------------- *)
(** *** A handler applied to a condition *)





(* ----------------------------------------------------------------- *)
(** *** Capture and immediate throw *)

(** [save_cont] when the continuation is not in the stack: only the
    environment is saved. *)
Lemma save_cont_out (vm : ScmVM) :
  IN_STACK_P (cont vm) = false ->
  exists vm', save_cont vm = Some vm' /\ promoted vm vm' /\ conts vm' = conts vm.
Proof.
  intros Hc. unfold save_cont.
  destruct (save_env_total vm (env vm)) as (vm0 & e & -> & Hp & Hconts & _).
  rewrite Hc. cbn [negb]. eexists. split; [reflexivity |].
  split; [eapply promoted_trans; [exact Hp | apply promoted_set_env] | exact Hconts].
Qed.

Lemma CHECK_STACK_out (size : Z) (vm : ScmVM) :
  IN_STACK_P (cont vm) = false ->
  exists vm',
    CHECK_STACK size vm = Some vm'
    /\ conts vm' = conts vm /\ eps vm' = eps vm /\ cont vm' = cont vm
    /\ handlers vm' = handlers vm.
Proof.
  intros Hc. unfold CHECK_STACK.
  destruct (_ >=? 0); [| exists vm; repeat split; reflexivity].
  destruct (save_cont_out vm Hc) as (vm1 & Hs & Hp & Hconts).
  unfold save_stack. rewrite Hs. eexists. split; [reflexivity |]. vm_simpl.
  destruct (regs_inv _ _ (pr_regs _ _ Hp)) as (_ & _ & _ & _ & _ & _ & _ & Eh & _).
  split; [exact Hconts |]. split; [apply (pr_eps _ _ Hp) |].
  split; [apply (pr_cont _ _ Hp) | exact Eh].
Qed.

(** [CHECK_STACK] when the continuation is not in the stack: the
    frames, the escape points and the registers of the values are as
    they were. *)
Lemma CHECK_STACK_out_steady (size : Z) (vm : ScmVM) :
  eps_wf vm -> IN_STACK_P (cont vm) = false ->
  exists vm',
    CHECK_STACK size vm = Some vm'
    /\ conts vm' = conts vm /\ eps vm' = eps vm /\ cont vm' = cont vm
    /\ steady vm vm'.
Proof.
  intros Hwf Hc.
  destruct (CHECK_STACK_out size vm Hc) as (vm' & E & H1 & H2 & H3 & _).
  destruct (CHECK_STACK_steady size vm Hwf) as (vm'' & E' & S & _).
  rewrite E in E'. injection E' as <-.
  exists vm'. auto.
Qed.

(** [save_cont] on a chain of well-formed frames: the continuation
    register leaves the stack.  If it was outside already, it and the
    frames are as they were; otherwise it points to the copy of the
    frame it pointed to. *)
Lemma save_cont_captures (vm : ScmVM) (l : list ptr) (t : ptr) :
  eps_wf vm ->
  stack_chain vm (cont vm) l t ->
  (forall p, In p l -> chain_frame vm p) ->
  (forall q, out_of_stack q -> IN_STACK_P (c_prev (conts vm q)) = false) ->
  exists vmS,
    save_cont vm = Some vmS /\ saved vm vmS
    /\ IN_STACK_P (cont vmS) = false
    /\ (l = [] -> cont vmS = cont vm /\ conts vmS = conts vm)
    /\ (l <> [] -> frame_copy vm vmS (cont vm) (cont vmS)).
Proof.
  intros Hwf Hchain Hframes Hheap.
  destruct (save_cont_total vm Hwf) as (vmS & Hs & Hsaved).
  exists vmS. split; [exact Hs |]. split; [exact Hsaved |].
  destruct l as [| c0 l0].
  - inversion Hchain as [t' Ht |]; subst.
    destruct (save_cont_out vm Ht) as (vm' & Hs' & Hp & Hconts).
    rewrite Hs in Hs'. injection Hs' as <-.
    pose proof (pr_cont _ _ Hp) as Hk.
    split; [rewrite Hk; exact Ht |].
    split; [intros _; split; assumption | intros H; congruence].
  - assert (Hne : c0 :: l0 <> []) by discriminate.
    destruct Hwf as ((ks1 & Hmain) & (ks2 & Hfloat)).
    destruct (save_cont_forwarding vm (c0 :: l0) t ks1 ks2 Hchain Hne Hframes Hheap
                Hmain Hfloat)
      as (vm1 & vm' & Hs' & Hp & Hfw & _ & Hvm' & _).
    rewrite Hs in Hs'. injection Hs' as <-.
    pose proof (stack_chain_head _ _ _ _ Hchain Hne) as Hin.
    destruct (Hfw (cont vm) Hin) as (A & b & B1 & _ & B3 & _).
    assert (Hk : cont vmS = HEAP b 0).
    { rewrite Hvm'. vm_simpl. unfold forward, FORWARDED_CONT_P, FORWARDED_CONT. rewrite A.
      pose proof (stack_chain_In _ _ _ _ Hchain _ Hin) as Hst.
      destruct (cont vm); try discriminate. cbn [is_null negb andb]. rewrite Z.eqb_refl.
      exact B1. }
    assert (Hc2 : conts vmS = conts vm1) by (rewrite Hvm'; reflexivity).
    assert (Hw2 : words vmS = words vm1) by (rewrite Hvm'; reflexivity).
    split; [rewrite Hk; reflexivity |].
    split; [intros H; congruence |]. intros _. rewrite Hk.
    eapply frame_copy_later; [exact B3 | | | | |]; rewrite ?Hc2, ?Hw2; reflexivity.
Qed.

(** C5. Let the chain of [vm->cont] be made of well-formed frames, the
    chains of escape points be finite and the entries of the handler
    list be pairs.  [Scm_VMCallCC] saves the continuation and returns
    with [proc] about to be applied to the continuation procedure of
    a new escape point.  The escape point holds the continuation
    register as [save_cont] left it - not in the stack, the register
    of the capture itself if that was outside the stack and the copy
    of its frame otherwise - together with the handler list and the
    host-stack record of the capture.  Invoking that continuation
    there on the single argument [V] computes no handler to call and
    returns [V], which the loop puts in [val0].  It leaves in
    [vm->cont] the continuation of the capture, the frames being as
    the capture left them, in [vm->handlers] the handler list of the
    capture, and in [pc] the code that returns to the continuation;
    [numVals] and [vals], which a throw of one argument does not
    write, and the host-stack records are those of the capture. *)
Theorem callcc_immediate_throw (vm : ScmVM) (proc V : ScmObj) (cell : nat)
  (l : list ptr) (t : ptr)
  (Hwf : eps_wf vm) (Hhl : handler_list (handlers vm))
  (Hchain : stack_chain vm (cont vm) l t)
  (Hframes : forall p, In p l -> chain_frame vm p)
  (Hheap : forall q, out_of_stack q -> IN_STACK_P (c_prev (conts vm q)) = false) :
  exists vmS vm1 ep r,
    save_cont vm = Some vmS
    /\ IN_STACK_P (cont vmS) = false
    /\ (l = [] -> cont vmS = cont vm /\ conts vmS = conts vm)
    /\ (l <> [] -> frame_copy vm vmS (cont vm) (cont vmS))
    /\ Scm_VMCallCC proc vm = Returns proc vm1
    /\ pc vm1 = apply_calls 1
    /\ words vm1 (ptr_add (sp vm1) (-1)) =
       W_OBJ (SCM_SUBR throw_continuation_body (Some ep) "continuation")
    /\ nth_error (eps vm1) ep = Some r
    /\ ep_cont r = cont vmS /\ ep_handlers r = handlers vm
    /\ ep_cstack r = cstack_ptr vm
    /\ ep_prev r = None /\ ep_ehandler r = SCM_FALSE
    /\ handlers vm1 = handlers vm
    /\ (exists h c,
          throw_cont_calculate_handlers ep vm1 = Returns h (set_next_cell c vm1)
          /\ entries h = [])
    /\ exists vm2,
         throw_continuation (SCM_PAIR cell V SCM_NIL) ep vm1 = Returns V vm2
         /\ subr_return (throw_continuation (SCM_PAIR cell V SCM_NIL) ep vm1)
            = Returns tt (set_val0 V vm2)
         /\ cont vm2 = cont vmS /\ conts vm2 = conts vmS
         /\ handlers vm2 = handlers vm
         /\ pc vm2 = PC_TO_RETURN
         /\ numVals vm2 = numVals vm /\ vals vm2 = vals vm
         /\ map cs_addr (cstack vm2) = map cs_addr (cstack vm)
         /\ nth_error (eps vm2) ep = Some r.
Proof.
  destruct (save_cont_captures vm l t Hwf Hchain Hframes Hheap)
    as (vmS & Hs & Hsaved & Hout & Hnil & Hcopy).
  pose proof (saved_steady _ _ Hsaved) as Sa.
  pose proof (sv_wf _ _ Hsaved) as Hwfa.
  set (r0 := mkEP None None SCM_FALSE SCM_UNBOUND (handlers vmS) (cont vmS)
               (cstack_ptr vmS) false false).
  pose proof (eps_wf_new_ep r0 vmS Hwfa) as Hwfb.
  unfold new_ep in Hwfb. cbn [snd] in Hwfb.
  set (vmb := set_eps (eps vmS ++ [r0]) vmS) in *.
  destruct (CHECK_STACK_out_steady 1 vmb Hwfb Hout) as (vmc & Hc & Hcc & Hce & Hck & Sc).
  pose proof (steady_wf _ _ Sc Hwfb) as Hwfc.
  set (ep := List.length (eps vmS)).
  set (contproc := SCM_SUBR throw_continuation_body (Some ep) "continuation").
  set (vm1 := set_pc (apply_calls 1) (PUSH_ARG contproc vmc)).
  assert (Hcall : Scm_VMCallCC proc vm = Returns proc vm1).
  { unfold Scm_VMCallCC. rewrite Hs. cbn [lift bind]. fold r0.
    unfold new_ep. fold vmb. unfold Scm_VMApply1. rewrite Hc. reflexivity. }
  assert (Hh1 : handlers vm1 = handlers vm).
  { subst vm1. unfold PUSH_ARG. vm_simpl. rewrite (st_handlers _ _ Sc).
    apply (st_handlers _ _ Sa). }
  assert (Hep1 : nth_error (eps vm1) ep = Some r0).
  { subst vm1. unfold PUSH_ARG. vm_simpl. rewrite Hce. subst vmb ep. vm_simpl.
    rewrite nth_error_app2 by lia. rewrite Nat.sub_diag. reflexivity. }
  assert (Hhr : ep_handlers r0 = handlers vm) by (apply (st_handlers _ _ Sa)).
  assert (Hcsa : cstack_ptr vmS = cstack_ptr vm)
    by (apply cstack_ptr_addr; exact (st_cstack _ _ Sa)).
  assert (Hcs1 : ep_cstack r0 = cstack_ptr vm1).
  { symmetry. apply cstack_ptr_addr. exact (st_cstack _ _ Sc). }
  assert (Hwf1 : eps_wf vm1) by (apply (eps_wf_regs vmc); auto).
  assert (Hk1 : cont vm1 = cont vmS) by (subst vm1; unfold PUSH_ARG; vm_simpl; exact Hck).
  assert (Hconts1 : conts vm1 = conts vmS)
    by (subst vm1; unfold PUSH_ARG; vm_simpl; exact Hcc).
  assert (Hn1 : numVals vm1 = numVals vm).
  { subst vm1. unfold PUSH_ARG. vm_simpl. rewrite (st_numVals _ _ Sc).
    apply (st_numVals _ _ Sa). }
  assert (Hv1 : vals vm1 = vals vm).
  { subst vm1. unfold PUSH_ARG. vm_simpl. rewrite (st_vals _ _ Sc).
    apply (st_vals _ _ Sa). }
  assert (Hcst1 : map cs_addr (cstack vm1) = map cs_addr (cstack vm)).
  { subst vm1. unfold PUSH_ARG. vm_simpl. rewrite (st_cstack _ _ Sc).
    apply (st_cstack _ _ Sa). }
  destruct (throw_cont_calculate_handlers_spec vm1 ep r0 Hep1) as (h & c1 & Hcalc & Hent).
  { rewrite Hh1. exact Hhl. }
  { rewrite Hhr. exact Hhl. }
  rewrite Hh1, Hhr, before_calls_same in Hent. unfold after_calls in Hent.
  rewrite leaving_same in Hent. cbn [map app] in Hent.
  pose proof (entries_nil h Hent) as Hhp.
  (* the body of the throw, no handler being left to call *)
  set (vmn := set_next_cell c1 vm1).
  assert (Hbody : exists vmx,
             throw_cont_body h ep (SCM_PAIR cell V SCM_NIL) vmn
             = Returns V (installed r0 vmx)
             /\ conts vmx = conts vm1 /\ regs vmx = regs vmn
             /\ cstack vmx = cstack vm1 /\ eps vmx = eps vm1).
  { unfold throw_cont_body, with_ep. rewrite Hhp.
    change (eps vmn) with (eps vm1). rewrite Hep1.
    destruct (ep_cstack r0) as [k |] eqn:Hk.
    - cbn [bind]. change (eps vmn) with (eps vm1). rewrite Hep1.
      exists vmn. split; [reflexivity |]. repeat split; reflexivity.
    - destruct (save_cont_out vmn) as (vmx & Hsx & Hpx & Hcx).
      { change (cont vmn) with (cont vm1). rewrite Hk1. exact Hout. }
      rewrite Hsx. cbn [lift bind]. rewrite (pr_eps _ _ Hpx).
      change (eps vmn) with (eps vm1). rewrite Hep1.
      exists vmx. split; [reflexivity |].
      split; [exact Hcx |]. split; [apply (pr_regs _ _ Hpx) |].
      split; [apply (pr_cstack _ _ Hpx) | apply (pr_eps _ _ Hpx)]. }
  destruct Hbody as (vmx & Hbody & Hcx & Hrx & Hcsx & Hex).
  destruct (regs_inv _ _ Hrx) as (_ & _ & _ & Hvx & Hnx & _).
  assert (Hthrow : throw_continuation (SCM_PAIR cell V SCM_NIL) ep vm1
                   = Returns V (installed r0 vmx)).
  { unfold throw_continuation, with_ep at 1. rewrite Hep1, Hcs1.
    assert (Hfound : match cstack_ptr vm1 with
                     | Some target =>
                         if negb (opt_nat_eqb (cstack_ptr vm1) (Some target))
                         then existsb (fun cs => Nat.eqb (cs_addr cs) target) (cstack vm1)
                         else false
                     | None => false
                     end = false).
    { destruct (cstack_ptr vm1) as [t0 |]; [| reflexivity].
      cbn [opt_nat_eqb]. rewrite Nat.eqb_refl. reflexivity. }
    rewrite Hfound, Hcalc. cbn [bind]. exact Hbody. }
  exists vmS, vm1, ep, r0.
  split; [exact Hs |]. split; [exact Hout |]. split; [exact Hnil |]. split; [exact Hcopy |].
  split; [exact Hcall |]. split; [reflexivity |].
  split.
  { subst vm1. unfold PUSH_ARG. vm_simpl. rewrite ptr_add_add. change (1 + -1) with 0.
    rewrite ptr_add_0. apply upd_same. }
  split; [exact Hep1 |]. split; [reflexivity |]. split; [exact Hhr |].
  split; [exact Hcsa |]. split; [reflexivity |]. split; [reflexivity |].
  split; [exact Hh1 |].
  split; [exists h, c1; split; assumption |].
  exists (installed r0 vmx).
  split; [exact Hthrow |].
  split; [unfold subr_return; rewrite Hthrow; reflexivity |].
  unfold installed. vm_simpl.
  split; [reflexivity |]. split; [rewrite Hcx; exact Hconts1 |].
  split; [exact Hhr |]. split; [reflexivity |].
  split; [rewrite Hnx; exact Hn1 |]. split; [rewrite Hvx; exact Hv1 |].
  split; [rewrite Hcsx; exact Hcst1 |].
  rewrite Hex. exact Hep1.
Qed.


(* ----------------------------------------------------------------- *)
(** *** Host continuation frames *)

(** The frame on top of the continuation chain is a host continuation
    with the callback [after] and the data [data]. *)
Definition pushed (after : ScmCContinuationProc) (data : list word) (vm : ScmVM) : Prop :=
  is_null (cont vm) = false
  /\ c_argp (conts vm (cont vm)) = NULL
  /\ c_pc (conts vm (cont vm)) = PC_CCONT after
  /\ c_size (conts vm (cont vm)) = Z.of_nat (List.length data)
  /\ load_words (List.length data) (ptr_add (cont vm) CONT_FRAME_SIZE) (words vm) = data.

Lemma store_words_heap (data : list word) (s : Z) (w : ptr -> word) (b : nat) (o : Z) :
  store_words data (STACK s) w (HEAP b o) = w (HEAP b o).
Proof.
  revert s w. induction data as [| x data IH]; intros s w; cbn [store_words ptr_add];
    [reflexivity |].
  rewrite IH. apply upd_other. discriminate.
Qed.

(** [Scm_VMPushCC] returns, with the frame on top. *)
Lemma Scm_VMPushCC_spec (after : ScmCContinuationProc) (data : list word) (vm : ScmVM) :
  eps_wf vm -> sp_in_block vm ->
  exists vm',
    Scm_VMPushCC after data vm = Returns tt vm'
    /\ steady vm vm' /\ pushed after data vm' /\ sp_in_block vm'.
Proof.
  intros Hwf Hsp.
  destruct (CHECK_STACK_steady (CONT_FRAME_SIZE + Z.of_nat (List.length data)) vm Hwf)
    as (vm1 & Hc & S1 & Hsp1).
  destruct (Hsp1 Hsp) as (s & Hs).
  unfold Scm_VMPushCC. rewrite Hc. cbn [lift bind].
  eexists. split; [reflexivity |]. rewrite Hs. cbn [ptr_add].
  split; [| split].
  - apply (steady_trans _ vm1); [exact S1 |].
    constructor; vm_simpl; auto.
    + apply eps_upto_cont_refl.
    + intros b o _. apply store_words_heap.
  - unfold pushed. vm_simpl. rewrite upd_same. cbn [c_argp c_pc c_size ptr_add].
    repeat split; try reflexivity.
    apply load_store_words. reflexivity.
  - eexists. vm_simpl. reflexivity.
Qed.

(** The registers [POP_CONT] restores from a host continuation frame. *)
Definition popped (vm : ScmVM) : ScmVM :=
  let f := conts vm (cont vm) in
  let vm1 := if IN_STACK_P (cont vm) then set_sp (cont vm) vm else vm in
  set_cont (c_prev f)
    (set_base (c_base f)
       (set_pc PC_TO_RETURN (set_argp (sp vm1) (set_env (c_env f) vm1)))).

Lemma popped_steady (vm : ScmVM) : steady vm (popped vm).
Proof.
  unfold popped. destruct (IN_STACK_P (cont vm)); constructor; vm_simpl; auto;
    apply eps_upto_cont_refl.
Qed.

Lemma popped_sp (vm : ScmVM) : sp_in_block vm -> sp_in_block (popped vm).
Proof.
  intros (s & Hs). unfold popped, sp_in_block.
  destruct (IN_STACK_P (cont vm)) eqn:E; vm_simpl; [| eauto].
  destruct (IN_STACK_P_stack _ E) as (o & -> & _). eauto.
Qed.

Lemma popped_words (vm : ScmVM) : words (popped vm) = words vm.
Proof. unfold popped. destruct (IN_STACK_P (cont vm)); reflexivity. Qed.

Lemma popped_next_block (vm : ScmVM) : next_block (popped vm) = next_block vm.
Proof. unfold popped. destruct (IN_STACK_P (cont vm)); reflexivity. Qed.

(** [RETURN_OP] with a host continuation frame on top: the frame is
    popped and its callback called on [val0] and the data. *)
Lemma RETURN_OP_ccont (after : ScmCContinuationProc) (data : list word) (vm : ScmVM) :
  pushed after data vm ->
  RETURN_OP vm =
  bind (CALL_CCONT after (val0 vm) data (popped vm))
    (fun r vm' => Returns false (set_val0 r vm')).
Proof.
  intros (Hn & Hargp & Hpc & Hsize & Hdata).
  unfold RETURN_OP, BOUNDARY_FRAME_P, POP_CONT. rewrite Hn, Hpc, Hargp, Hsize.
  cbn [orb is_null]. rewrite Nat2Z.id, Hdata.
  change (set_cont _ _) with (popped vm).
  destruct (CALL_CCONT after (val0 vm) data (popped vm)); reflexivity.
Qed.

(** What a call leaves when it returns to the host continuation frame
    it was made on.  The frame on top - moved to the heap or not -
    carries the same callback and data; the blocks that the data of
    the frame point to hold the same words; the escape point that the
    data of the frame name is there, up to its [cont]; and the VM is
    in order: the chains of escape points end, [sp] points into the
    stack, and the number of values fits [vm->vals].  Nothing is asked
    of the registers, of the other words of the heap or of the other
    escape points. *)
Record thunk_returns (vm vm' : ScmVM) : Prop := mkThunkReturns {
  tr_frame : forall after data, pushed after data vm -> pushed after data vm';
  tr_kept : forall after data b,
              pushed after data vm -> In (W_PTR (HEAP b 0)) data ->
              forall o, words vm' (HEAP b o) = words vm (HEAP b o);
  tr_ep : forall after data ep r,
            pushed after data vm -> In (W_EP ep) data ->
            nth_error (eps vm) ep = Some r ->
            exists c, nth_error (eps vm') ep = Some (set_ep_cont c r);
  tr_wf : eps_wf vm';
  tr_sp : sp_in_block vm';
  tr_numVals : numVals vm' <= SCM_VM_MAX_VALUES
}.

(** The call of [proc] that the VM is about to make in [vm] returns to
    its frame. *)
Definition returns_to_frame (proc : ScmObj) (vm : ScmVM) : Prop :=
  thunk_returns vm (call0 proc vm).

(** [vm] is about to call [proc] on a host continuation frame. *)
Definition calling (proc : ScmObj) (after : ScmCContinuationProc) (data : list word)
  (vm : ScmVM) : Prop :=
  pc vm = apply_calls 0 /\ val0 vm = proc /\ pushed after data vm
  /\ eps_wf vm /\ sp_in_block vm.

(** Pushing a host continuation and applying a thunk, as every
    callback of [Scm_VMDynamicWind] does. *)
Lemma push_apply0 (after : ScmCContinuationProc) (data : list word) (proc : ScmObj)
  (vm : ScmVM) :
  eps_wf vm -> sp_in_block vm ->
  exists vm',
    bind (Scm_VMPushCC after data vm) (fun _ vm1 => Scm_VMApply0 proc vm1) = Returns proc vm'
    /\ steady vm vm' /\ calling proc after data (set_val0 proc vm').
Proof.
  intros Hwf Hsp.
  destruct (Scm_VMPushCC_spec after data vm Hwf Hsp) as (vm1 & -> & S1 & Hp & Hsp1).
  cbn [bind]. unfold Scm_VMApply0. eexists. split; [reflexivity |].
  pose proof (steady_wf _ _ S1 Hwf) as Hwf1.
  split.
  - destruct S1. constructor; vm_simpl; auto.
  - unfold calling. split; [reflexivity |]. split; [reflexivity |].
    split; [exact Hp |]. split; [| exact Hsp1].
    apply (eps_wf_regs vm1); auto.
Qed.

(** One turn of the loop from a state about to make a call that
    returns: the callback of the frame runs on what the call left. *)
Lemma loop_step_calling (proc : ScmObj) (after : ScmCContinuationProc) (data : list word)
  (vm : ScmVM) :
  calling proc after data vm -> returns_to_frame proc vm ->
  let vc := call0 proc vm in
  loop_step vm =
    bind (CALL_CCONT after (val0 vc) data (popped vc))
      (fun r vm' => Returns false (set_val0 r vm'))
  /\ eps_wf (popped vc) /\ sp_in_block (popped vc).
Proof.
  intros (Hpc & Hv & Hp & Hwf & Hsp) Htr vc. unfold returns_to_frame in Htr. fold vc in Htr.
  split; [| split].
  - unfold loop_step. rewrite Hpc, Hv. fold vc.
    apply RETURN_OP_ccont. apply (tr_frame _ _ Htr). exact Hp.
  - apply (steady_wf vc); [apply popped_steady | apply (tr_wf _ _ Htr)].
  - apply popped_sp. apply (tr_sp _ _ Htr).
Qed.


(* ----------------------------------------------------------------- *)
(** *** The callbacks of [Scm_VMDynamicWind] *)

Lemma dynwind_before_cc_spec (result before body after : ScmObj) (vm : ScmVM) :
  eps_wf vm -> sp_in_block vm ->
  exists vm',
    dynwind_before_cc result [W_OBJ before; W_OBJ body; W_OBJ after] vm = Returns body vm'
    /\ calling body CC_dynwind_body [W_OBJ after; W_OBJ (handlers vm)] (set_val0 body vm')
    /\ handlers vm' =
       SCM_PAIR (S (next_cell vm)) (SCM_PAIR (next_cell vm) before after) (handlers vm).
Proof.
  intros Hwf Hsp.
  unfold dynwind_before_cc. cbn [nth as_obj Scm_Cons].
  match goal with
  | |- context [Scm_VMPushCC _ _ ?v] =>
      destruct (push_apply0 CC_dynwind_body [W_OBJ after; W_OBJ (handlers vm)] body v)
        as (vm' & E & S' & Hcal)
  end.
  { apply (eps_wf_regs vm); auto. }
  { exact Hsp. }
  exists vm'. split; [exact E |]. split; [exact Hcal |].
  rewrite (st_handlers _ _ S'). reflexivity.
Qed.

Lemma length_vals_prefix (n : nat) (v : nat -> ScmObj) : List.length (vals_prefix n v) = n.
Proof. unfold vals_prefix. rewrite length_map, length_seq. reflexivity. Qed.

Lemma load_words_heap (n : nat) (b : nat) (o : Z) (w w' : ptr -> word) :
  (forall o', w' (HEAP b o') = w (HEAP b o')) ->
  load_words n (HEAP b o) w' = load_words n (HEAP b o) w.
Proof. intros H. apply load_words_ext. intros i _. apply H. Qed.

(** The values of the body that [dynwind_body_cc] keeps in the data of
    the frame: the words at [d2] are the first [numVals - 1] entries of
    [v]. *)
Definition vals_kept (n : Z) (v : nat -> ScmObj) (d2 : word) (vm : ScmVM) : Prop :=
  1 < n ->
  exists b, d2 = W_PTR (HEAP b 0) /\ (b < next_block vm)%nat
    /\ load_words (Z.to_nat (n - 1)) (HEAP b 0) (words vm) =
       map W_OBJ (vals_prefix (Z.to_nat (n - 1)) v).

Lemma dynwind_body_cc_spec (result after prev : ScmObj) (vm : ScmVM) :
  eps_wf vm -> sp_in_block vm ->
  exists vm' d2,
    dynwind_body_cc result [W_OBJ after; W_OBJ prev] vm = Returns after vm'
    /\ calling after CC_dynwind_after [W_OBJ result; W_INT (numVals vm); d2]
         (set_val0 after vm')
    /\ handlers vm' = prev
    /\ vals_kept (numVals vm) (vals vm) d2 vm'.
Proof.
  intros Hwf Hsp.
  unfold dynwind_body_cc. cbn [nth as_obj].
  change (numVals (set_handlers prev vm)) with (numVals vm).
  destruct (Z.gtb_spec (numVals vm) 1) as [Hn | Hn].
  - unfold SCM_NEW2.
    match goal with
    | |- context [Scm_VMPushCC _ ?d ?v] =>
        destruct (push_apply0 CC_dynwind_after d after v) as (vm' & E & S' & Hcal)
    end.
    { apply (eps_wf_regs vm); auto. }
    { exact Hsp. }
    exists vm', (W_PTR (HEAP (next_block vm) 0)).
    split; [exact E |]. split; [exact Hcal |].
    split; [rewrite (st_handlers _ _ S'); reflexivity |].
    intros _. exists (next_block vm). split; [reflexivity |].
    split; [pose proof (st_block _ _ S') as Hb; vm_simpl; lia |].
    rewrite (load_words_heap _ _ _ _ _ (fun o' => st_heap _ _ S' (next_block vm) o'
                                          ltac:(vm_simpl; lia))).
    vm_simpl.
    rewrite <- (length_vals_prefix (Z.to_nat (numVals vm - 1)) (vals vm)) at 1.
    rewrite <- (length_map W_OBJ).
    apply load_store_words. reflexivity.
  - match goal with
    | |- context [Scm_VMPushCC _ ?d ?v] =>
        destruct (push_apply0 CC_dynwind_after d after v) as (vm' & E & S' & Hcal)
    end.
    { apply (eps_wf_regs vm); auto. }
    { exact Hsp. }
    exists vm', W_UNINIT.
    split; [exact E |]. split; [exact Hcal |].
    split; [rewrite (st_handlers _ _ S'); reflexivity |].
    intros H. lia.
Qed.

Lemma vals_restore_spec (l : list ScmObj) (i : nat) (v : nat -> ScmObj) (j : nat) :
  vals_restore (map W_OBJ l) i v j =
  if (i <=? j)%nat && (j <? i + List.length l)%nat then nth (j - i) l SCM_UNBOUND else v j.
Proof.
  revert i v.
  induction l as [| x l IH]; intros i v; cbn [map vals_restore List.length].
  - rewrite Nat.add_0_r.
    destruct (Nat.leb_spec i j), (Nat.ltb_spec j i); cbn [andb]; try reflexivity; lia.
  - rewrite IH. unfold upd_nat. cbn [as_obj].
    destruct (Nat.leb_spec (S i) j), (Nat.ltb_spec j (S i + List.length l));
      destruct (Nat.leb_spec i j), (Nat.ltb_spec j (i + S (List.length l)));
      cbn [andb]; try lia.
    + replace (j - i)%nat with (S (j - S i)) by lia. reflexivity.
    + destruct (Nat.eqb_spec j i); [lia | reflexivity].
    + destruct (Nat.eqb_spec j i); [| lia]. subst j. rewrite Nat.sub_diag. reflexivity.
    + destruct (Nat.eqb_spec j i); [lia | reflexivity].
Qed.

Lemma nth_vals_prefix (n i : nat) (v : nat -> ScmObj) :
  (i < n)%nat -> nth i (vals_prefix n v) SCM_UNBOUND = v i.
Proof.
  intros H. unfold vals_prefix.
  rewrite (nth_indep _ SCM_UNBOUND (v 0%nat)) by (rewrite length_map, length_seq; exact H).
  rewrite map_nth, seq_nth by exact H. reflexivity.
Qed.

Lemma dynwind_after_cc_spec (result val0' : ScmObj) (n : Z) (v : nat -> ScmObj) (d2 : word)
  (vm : ScmVM) :
  n <= SCM_VM_MAX_VALUES ->
  (1 < n -> load_words (Z.to_nat (n - 1)) (as_ptr d2) (words vm) =
            map W_OBJ (vals_prefix (Z.to_nat (n - 1)) v)) ->
  exists vm',
    dynwind_after_cc result [W_OBJ val0'; W_INT n; d2] vm = Returns val0' vm'
    /\ numVals vm' = n
    /\ (forall i, Z.of_nat i < n - 1 -> vals vm' i = v i)
    /\ handlers vm' = handlers vm /\ pc vm' = pc vm.
Proof.
  intros Hmax Hkept.
  unfold dynwind_after_cc. cbn [nth as_obj as_int].
  destruct (Z.gtb_spec n 1) as [Hn | Hn].
  - destruct (Z.leb_spec n SCM_VM_MAX_VALUES); [| lia]. cbn [negb].
    eexists. split; [reflexivity |]. vm_simpl.
    split; [reflexivity |]. split; [| split; reflexivity].
    intros i Hi. rewrite (Hkept Hn), vals_restore_spec, length_vals_prefix.
    cbn [Nat.leb andb Nat.add].
    destruct (Nat.ltb_spec i (Z.to_nat (n - 1))); [| lia].
    rewrite Nat.sub_0_r. apply nth_vals_prefix. assumption.
  - eexists. split; [reflexivity |]. vm_simpl.
    split; [reflexivity |]. split; [| split; reflexivity].
    intros i Hi. lia.
Qed.


(** C2. [Scm_VMDynamicWind] leaves the VM about to call [before] on
    the handler list as it was.  When that call returns to its frame,
    the next turn of the loop conses the pair [(before . after)] on the
    handler list and leaves the VM about to call [body].  When that
    call returns, the next turn puts the handler list back as [before]
    left it and leaves the VM about to call [after].  When that call
    returns, the next turn reinstates what [body] left in [val0],
    [numVals] and the first [numVals - 1] entries of [vals], whatever
    [after] left there.  Nothing is assumed of a thunk but that the
    call in question returns to the frame it was made on. *)
Theorem dynamic_wind_order (before body after : ScmObj) (vm : ScmVM)
  (Hwf : eps_wf vm) (Hsp : sp_in_block vm) :
  exists vmA,
    subr_return (Scm_VMDynamicWind before body after vm) = Returns tt vmA
    /\ pc vmA = apply_calls 0 /\ val0 vmA = before /\ handlers vmA = handlers vm
    /\ eps_wf vmA /\ sp_in_block vmA
    /\ (returns_to_frame before vmA ->
        exists vmB c1 c2,
          loop_step vmA = Returns false vmB
          /\ pc vmB = apply_calls 0 /\ val0 vmB = body
          /\ handlers vmB =
             SCM_PAIR c2 (SCM_PAIR c1 before after) (handlers (call0 before vmA))
          /\ eps_wf vmB /\ sp_in_block vmB
          /\ (returns_to_frame body vmB ->
              exists vmC,
                loop_step vmB = Returns false vmC
                /\ pc vmC = apply_calls 0 /\ val0 vmC = after
                /\ handlers vmC = handlers (call0 before vmA)
                /\ eps_wf vmC /\ sp_in_block vmC
                /\ (returns_to_frame after vmC ->
                    exists vmF,
                      loop_step vmC = Returns false vmF
                      /\ val0 vmF = val0 (call0 body vmB)
                      /\ numVals vmF = numVals (call0 body vmB)
                      /\ (forall i, Z.of_nat i < numVals (call0 body vmB) - 1 ->
                            vals vmF i = vals (call0 body vmB) i)
                      /\ handlers vmF = handlers (call0 after vmC)
                      /\ dynamic_wind_run before body after vm = Returns false vmF))).
Proof.
  (* the call of [before] *)
  destruct (push_apply0 CC_dynwind_before [W_OBJ before; W_OBJ body; W_OBJ after] before vm
              Hwf Hsp) as (vm1 & E1 & S1 & HcalA).
  set (vmA := set_val0 before vm1) in *.
  assert (HA : subr_return (Scm_VMDynamicWind before body after vm) = Returns tt vmA).
  { unfold subr_return, Scm_VMDynamicWind. rewrite E1. reflexivity. }
  exists vmA. split; [exact HA |].
  split; [apply HcalA |]. split; [apply HcalA |]. split; [exact (st_handlers _ _ S1) |].
  split; [apply HcalA |]. split; [apply HcalA |].
  (* [before] returns *)
  intros Htr1.
  destruct (loop_step_calling _ _ _ _ HcalA Htr1) as (Hstep1 & Hwf1 & Hsp1).
  set (vb := call0 before vmA) in *.
  destruct (dynwind_before_cc_spec (val0 vb) before body after (popped vb) Hwf1 Hsp1)
    as (vm2 & E2 & HcalB & Hh2).
  set (vmB := set_val0 body vm2) in *.
  assert (HB : loop_step vmA = Returns false vmB).
  { rewrite Hstep1. cbn [CALL_CCONT]. rewrite E2. reflexivity. }
  rewrite (st_handlers _ _ (popped_steady vb)) in Hh2, HcalB.
  exists vmB, (next_cell (popped vb)), (S (next_cell (popped vb))).
  split; [exact HB |]. split; [apply HcalB |]. split; [apply HcalB |].
  split; [exact Hh2 |]. split; [apply HcalB |]. split; [apply HcalB |].
  (* [body] returns *)
  intros Htr2.
  destruct (loop_step_calling _ _ _ _ HcalB Htr2) as (Hstep2 & Hwf2 & Hsp2).
  set (vy := call0 body vmB) in *.
  destruct (dynwind_body_cc_spec (val0 vy) after (handlers vb) (popped vy) Hwf2 Hsp2)
    as (vm3 & d2 & E3 & HcalC & Hh3 & Hkept).
  set (vmC := set_val0 after vm3) in *.
  assert (HC : loop_step vmB = Returns false vmC).
  { rewrite Hstep2. cbn [CALL_CCONT]. rewrite E3. reflexivity. }
  rewrite (st_numVals _ _ (popped_steady vy)) in HcalC, Hkept.
  rewrite (st_vals _ _ (popped_steady vy)) in Hkept.
  exists vmC. split; [exact HC |]. split; [apply HcalC |]. split; [apply HcalC |].
  split; [exact Hh3 |]. split; [apply HcalC |]. split; [apply HcalC |].
  (* [after] returns *)
  intros Htr3.
  destruct (loop_step_calling _ _ _ _ HcalC Htr3) as (Hstep3 & Hwf3 & Hsp3).
  set (va := call0 after vmC) in *.
  destruct (dynwind_after_cc_spec (val0 va) (val0 vy) (numVals vy) (vals vy) d2 (popped va))
    as (vm4 & E4 & Hn4 & Hv4 & Hh4 & _).
  { apply (tr_numVals _ _ Htr2). }
  { intros Hn. destruct (Hkept Hn) as (b & -> & Hb & Hload). cbn [as_ptr].
    rewrite popped_words.
    assert (Hp3 : pushed CC_dynwind_after
                    [W_OBJ (val0 vy); W_INT (numVals vy); W_PTR (HEAP b 0)] vmC)
      by apply HcalC.
    rewrite (load_words_heap _ _ _ _ _
               (fun o' => tr_kept _ _ Htr3 _ _ b Hp3
                            ltac:(right; right; left; reflexivity) o')).
    exact Hload. }
  set (vmF := set_val0 (val0 vy) vm4).
  assert (HF : loop_step vmC = Returns false vmF).
  { rewrite Hstep3. cbn [CALL_CCONT]. rewrite E4. reflexivity. }
  exists vmF.
  split; [exact HF |]. split; [reflexivity |]. split; [exact Hn4 |].
  split; [exact Hv4 |].
  split; [subst vmF; vm_simpl; rewrite Hh4; apply (st_handlers _ _ (popped_steady va)) |].
  unfold dynamic_wind_run. rewrite HA. cbn [bind]. rewrite HB. cbn [bind].
  rewrite HC. cbn [bind]. exact HF.
Qed.


(* ----------------------------------------------------------------- *)
(** *** Running the handlers of a throw *)

Lemma handler_list_append1 (h e : ScmObj) (c : nat) :
  handler_list h -> SCM_PAIRP e = true -> handler_list (append1 h (SCM_PAIR c e SCM_NIL)).
Proof.
  unfold handler_list. intros Hh He. rewrite elements_append1. apply Forall_app.
  split; [exact Hh |]. cbn [elements]. constructor; [exact He | constructor].
Qed.

Lemma calculate_after_handlers_list (p target h : ScmObj) (cell : nat) (h' : ScmObj)
  (cell' : nat) :
  calculate_after_handlers p target h cell = Some (h', cell') ->
  handler_list h -> handler_list h'.
Proof.
  revert h cell.
  induction p as [| | | | ? | ? | ? ? ? | ? ? | k a IHa d IHd]; intros h n0 Hc Hh;
    cbn [calculate_after_handlers] in Hc; try (injection Hc as <- _; exact Hh).
  destruct (negb (SCM_PAIRP a)); [discriminate |].
  destruct (negb (SCM_FALSEP (Scm_Memq a target))); [injection Hc as <- _; exact Hh |].
  cbn [Scm_Cons SCM_APPEND1] in Hc. apply IHd in Hc; [exact Hc |].
  apply handler_list_append1; [exact Hh | reflexivity].
Qed.

Lemma calculate_before_handlers_list (p current ep_hs h : ScmObj) (cell : nat) (h' : ScmObj)
  (cell' : nat) :
  calculate_before_handlers p current ep_hs h cell = Some (h', cell') ->
  handler_list h -> handler_list h'.
Proof.
  revert h cell.
  induction p as [| | | | ? | ? | ? ? ? | ? ? | k a IHa d IHd]; intros h n0 Hc Hh;
    cbn [calculate_before_handlers] in Hc; try (injection Hc as <- _; exact Hh).
  destruct (negb (SCM_PAIRP a)); [discriminate |].
  destruct (negb (SCM_FALSEP (Scm_Memq a current))); [eapply IHd; eauto |].
  destruct (negb (SCM_PAIRP (Scm_Memq a ep_hs))); [discriminate |].
  cbn [Scm_Cons SCM_APPEND1] in Hc. apply IHd in Hc; [exact Hc |].
  apply handler_list_append1; [exact Hh | reflexivity].
Qed.

(** Every entry of the list [throw_cont_calculate_handlers] returns is
    a pair. *)
Lemma throw_cont_calculate_handlers_list (ep : nat) (vm : ScmVM) (h : ScmObj) (vm' : ScmVM) :
  throw_cont_calculate_handlers ep vm = Returns h vm' -> handler_list h.
Proof.
  unfold throw_cont_calculate_handlers, with_ep.
  destruct (nth_error (eps vm) ep) as [r |]; [| discriminate].
  destruct (Scm_Reverse _ _) as [target cell0].
  destruct (calculate_after_handlers _ _ _ _) as [[h1 cell1] |] eqn:E1; [| discriminate].
  destruct (calculate_before_handlers _ _ _ _ _) as [[h2 cell2] |] eqn:E2; [| discriminate].
  intros H. injection H as <- _.
  eapply calculate_before_handlers_list; [exact E2 |].
  eapply calculate_after_handlers_list; [exact E1 |].
  constructor.
Qed.

(** What the loop does with the value a subr or a callback returns:
    it goes to [val0], and the loop goes on. *)
Definition resume (o : outcome ScmObj) : outcome bool :=
  bind o (fun v vm => Returns false (set_val0 v vm)).

(** The calls of handlers a run of the loop makes from the outcome
    [o]: the VM, in order, is about to call the first thunk of the
    list on its chain, and when that call returns to its frame the
    next turn of the loop leads to the calls of the rest; after the
    last, [Q] holds of the outcome reached. *)
Fixpoint handler_run (l : list (ScmObj * ScmObj)) (o : outcome bool)
  (Q : outcome bool -> Prop) : Prop :=
  match l with
  | [] => Q o
  | (h, chain) :: rest =>
      exists vm,
        o = Returns false vm
        /\ pc vm = apply_calls 0 /\ val0 vm = h /\ handlers vm = chain
        /\ eps_wf vm /\ sp_in_block vm
        /\ (returns_to_frame h vm -> handler_run rest (loop_step vm) Q)
  end.

(** The end of the run: [throw_cont_body] on a list with no call left,
    the escape point [ep] holding [r] up to its [cont]. *)
Definition reaches_target (ep : nat) (r : ScmEscapePoint) (args : ScmObj)
  (o : outcome bool) : Prop :=
  exists tl vmL,
    o = resume (throw_cont_body tl ep args vmL)
    /\ SCM_PAIRP tl = false
    /\ eps_wf vmL
    /\ exists c, nth_error (eps vmL) ep = Some (set_ep_cont c r).

Lemma set_ep_cont_twice (c c' : ptr) (r : ScmEscapePoint) :
  set_ep_cont c' (set_ep_cont c r) = set_ep_cont c' r.
Proof. destruct r; reflexivity. Qed.

Lemma pushed_regs (after : ScmCContinuationProc) (data : list word) (vm vm' : ScmVM) :
  cont vm' = cont vm -> conts vm' = conts vm -> words vm' = words vm ->
  pushed after data vm -> pushed after data vm'.
Proof. unfold pushed. intros -> -> ->. auto. Qed.

(** [throw_cont_body] calls the thunks of its list in order, each on
    its chain and each when the one before has returned, and then
    comes to the end of the list, where the target continuation is
    installed. *)
Lemma throw_cont_body_runs (ep : nat) (r : ScmEscapePoint) (args hs : ScmObj) :
  handler_list hs ->
  forall vm,
    eps_wf vm -> sp_in_block vm ->
    (exists c, nth_error (eps vm) ep = Some (set_ep_cont c r)) ->
    handler_run (entries hs) (resume (throw_cont_body hs ep args vm))
      (reaches_target ep r args).
Proof.
  induction hs as [| | | | ? | ? | ? ? ? | ? ? | k e IHe d IHd]; intros Hl vm Hwf Hsp Hep;
    try (cbn [entries elements map handler_run]; eexists _, vm;
         split; [reflexivity |]; split; [reflexivity |]; split; assumption).
  inversion Hl as [| x xs He Hd]; subst.
  destruct e as [| | | | ? | ? | ? ? ? | ? ? | k' h chain]; try discriminate.
  destruct (Scm_VMPushCC_spec CC_throw_cont [W_OBJ d; W_EP ep; W_OBJ args] vm Hwf Hsp)
    as (vm1 & E1 & S1 & Hp1 & Hsp1).
  set (vm0 := set_val0 h (set_pc (apply_calls 0) (set_handlers chain vm1))).
  assert (Hbody : resume (throw_cont_body (SCM_PAIR k (SCM_PAIR k' h chain) d) ep args vm) =
                  Returns false vm0).
  { unfold resume, throw_cont_body. cbn [SCM_PAIRP SCM_CAR negb SCM_CAAR SCM_CDAR SCM_CDR].
    rewrite E1. reflexivity. }
  assert (Hcal : calling h CC_throw_cont [W_OBJ d; W_EP ep; W_OBJ args] vm0).
  { unfold calling. split; [reflexivity |]. split; [reflexivity |].
    split; [apply (pushed_regs _ _ vm1); auto |].
    split; [| exact Hsp1].
    apply (eps_wf_regs vm1); auto. apply (steady_wf _ _ S1 Hwf). }
  cbn [entries elements map SCM_CAR SCM_CDR handler_run].
  exists vm0. split; [exact Hbody |].
  split; [reflexivity |]. split; [reflexivity |]. split; [reflexivity |].
  split; [apply Hcal |]. split; [apply Hcal |].
  intros Htr.
  destruct (loop_step_calling _ _ _ _ Hcal Htr) as (Hstep & Hwfp & Hspp).
  set (vc := call0 h vm0) in *.
  assert (Hepp : exists c, nth_error (eps (popped vc)) ep = Some (set_ep_cont c r)).
  { destruct Hep as (c & Hc).
    destruct (st_eps _ _ S1) as (_ & Hup). destruct (Hup _ _ Hc) as (c1 & Hc1).
    assert (Hp0 : pushed CC_throw_cont [W_OBJ d; W_EP ep; W_OBJ args] vm0) by apply Hcal.
    destruct (tr_ep _ _ Htr _ _ ep (set_ep_cont c1 (set_ep_cont c r)) Hp0
                ltac:(right; left; reflexivity) Hc1) as (c2 & Hc2).
    exists c2. change (call0 h vm0) with vc in Hc2.
    unfold popped in *. destruct (IN_STACK_P (cont vc)); vm_simpl;
      rewrite Hc2, !set_ep_cont_twice; reflexivity. }
  rewrite Hstep. cbn [CALL_CCONT]. unfold throw_cont_cc. cbn [nth as_obj as_ep].
  exact (IHd Hd (popped vc) Hwfp Hspp Hepp).
Qed.


(** C4.  For every current handler list and every handler list of an
    escape point, their entries being pairs,
    [throw_cont_calculate_handlers] returns: the after thunks of the
    cells of the current list from the front up to the first cell
    whose entry is in the target list, each paired with the list below
    its cell; followed by the before thunks of the entries of the
    reversed target list that are not in the current list, each paired
    with the part of the target list below the first cell that holds
    the entry.  Where the cells below a cell of the current list whose
    entry both lists hold are in both lists, the first group is every
    cell of the current list whose entry the target list lacks; where
    no entry of the target list repeats, the list paired with a before
    thunk is the one below its own cell.  [throw_cont_body] then makes
    the calls of that list in order: it leaves the VM about to call
    the first thunk with its paired list in [vm->handlers], and each
    time the call returns to its frame the next turn of the loop
    leaves the VM about to call the next one, until the end of the
    list is reached, where the target continuation is installed. *)
Theorem throw_cont_handlers (vm : ScmVM) (ep : nat) (r : ScmEscapePoint) (args : ScmObj)
  (Hwf : eps_wf vm) (Hsp : sp_in_block vm)
  (Hep : nth_error (eps vm) ep = Some r)
  (HC : handler_list (handlers vm)) (HT : handler_list (ep_handlers r)) :
  exists h cell,
    throw_cont_calculate_handlers ep vm = Returns h (set_next_cell cell vm)
    /\ entries h =
       after_calls (handlers vm) (ep_handlers r) ++ before_calls (handlers vm) (ep_handlers r)
    /\ (shared_below (handlers vm) (ep_handlers r) ->
        after_calls (handlers vm) (ep_handlers r)
        = after_calls_all (handlers vm) (ep_handlers r))
    /\ (NoDup (elements (ep_handlers r)) ->
        before_calls (handlers vm) (ep_handlers r)
        = before_calls_cells (handlers vm) (ep_handlers r))
    /\ handler_run (entries h)
         (resume (throw_cont_body h ep args (set_next_cell cell vm)))
         (reaches_target ep r args).
Proof.
  destruct (throw_cont_calculate_handlers_spec vm ep r Hep HC HT) as (h & cell & Hh & Hent).
  exists h, cell. split; [exact Hh |]. split; [exact Hent |].
  split; [apply after_calls_shared |]. split; [apply before_calls_nodup |].
  apply throw_cont_body_runs.
  - exact (throw_cont_calculate_handlers_list _ _ _ _ Hh).
  - apply (eps_wf_regs vm); auto.
  - exact Hsp.
  - exists (ep_cont r). rewrite set_ep_cont_eta. exact Hep.
Qed.


(* ----------------------------------------------------------------- *)
(** *** Ghost continuations *)






(* ================================================================= *)
(** ** Further properties of the code *)

(* ----------------------------------------------------------------- *)
(** *** Multiple values: [Scm_VMValues] and [Scm_VMGetResult] *)

(** The loop of [Scm_VMValues] when the values fit: the elements go to
    [vm->vals] from the slot [nvals - 1] on. *)
Lemma values_loop_fits (cp args : ScmObj) :
  forall (nvals : Z) (vm : ScmVM),
    1 <= nvals ->
    nvals + Z.of_nat (List.length (elements cp)) <= SCM_VM_MAX_VALUES ->
    values_loop cp nvals args vm =
    Returns (nvals + Z.of_nat (List.length (elements cp)))
      (set_vals (store_vals cp (Z.to_nat (nvals - 1)) (vals vm)) vm).
Proof.
  induction cp as [| | | | ? | ? | ? ? ? | ? ? | k a IHa d IHd]; intros nvals vm H1 Hfit;
    cbn [values_loop elements List.length store_vals];
    try (rewrite Z.add_0_r; destruct vm; reflexivity).
  cbn [elements List.length] in Hfit.
  destruct (Z.geb_spec nvals SCM_VM_MAX_VALUES); [lia |].
  rewrite IHd by lia. cbn [vals set_vals].
  replace (Z.to_nat (nvals + 1 - 1)) with (S (Z.to_nat (nvals - 1))) by lia.
  f_equal. lia.
Qed.

(** The loop when they do not fit: it stops with the error at the
    element that finds [nvals] at the cap. *)
Lemma values_loop_overflows (cp args : ScmObj) :
  forall (nvals : Z) (vm : ScmVM),
    nvals <= SCM_VM_MAX_VALUES ->
    SCM_VM_MAX_VALUES < nvals + Z.of_nat (List.length (elements cp)) ->
    exists vm',
      values_loop cp nvals args vm = Raises "too many values: %S" [args] vm'
      /\ numVals vm' = numVals vm /\ val0 vm' = val0 vm.
Proof.
  induction cp as [| | | | ? | ? | ? ? ? | ? ? | k a IHa d IHd]; intros nvals vm H1 Hover;
    cbn [values_loop elements List.length] in *; try lia.
  destruct (Z.geb_spec nvals SCM_VM_MAX_VALUES).
  - eexists. split; [reflexivity |]. split; reflexivity.
  - destruct (IHd (nvals + 1)
                (set_vals (upd_nat (vals vm) (Z.to_nat (nvals - 1)) a) vm))
      as (vm' & E & Hn & Hv); try lia.
    exists vm'. split; [exact E |]. split; assumption.
Qed.

Lemma elements_pair (args : ScmObj) :
  SCM_PAIRP args = true -> elements args = SCM_CAR args :: elements (SCM_CDR args).
Proof. destruct args; try discriminate. reflexivity. Qed.

(** The number of elements [SCM_FOR_EACH] visits. *)
Definition elements_count (l : ScmObj) : Z := Z.of_nat (List.length (elements l)).

(** [Scm_VMValues] on a non-empty list takes as many values as the cap
    allows, the cap included, and refuses one more: up to
    [SCM_VM_MAX_VALUES] elements it returns the first, stores the
    others in order in [vm->vals] and sets [numVals] to their number;
    beyond that it raises "too many values" and leaves [numVals] as it
    was. *)
Theorem Scm_VMValues_bound (vm : ScmVM) (args : ScmObj)
  (Hpair : SCM_PAIRP args = true) (Hcap : 1 <= SCM_VM_MAX_VALUES) :
  (elements_count args <= SCM_VM_MAX_VALUES ->
   exists vm',
     Scm_VMValues vm args = Returns (SCM_CAR args) vm'
     /\ numVals vm' = elements_count args
     /\ (forall i, Z.of_nat i < elements_count args - 1 ->
           vals vm' i = nth (S i) (elements args) SCM_UNBOUND)
     /\ (forall i, elements_count args - 1 <= Z.of_nat i -> vals vm' i = vals vm i)
     /\ val0 vm' = val0 vm /\ handlers vm' = handlers vm /\ cont vm' = cont vm)
  /\ (SCM_VM_MAX_VALUES < elements_count args ->
      exists vm',
        Scm_VMValues vm args = Raises "too many values: %S" [args] vm'
        /\ numVals vm' = numVals vm).
Proof.
  unfold elements_count. rewrite (elements_pair args Hpair). cbn [List.length].
  unfold Scm_VMValues. rewrite Hpair. cbn [negb].
  split.
  - intros Hfit. rewrite values_loop_fits by lia. cbn [bind].
    eexists. split; [reflexivity |]. vm_simpl.
    split; [lia |].
    split; [| split; [| repeat split]].
    + intros i Hi. rewrite store_vals_spec. cbn [Nat.leb andb Nat.add Z.to_nat].
      change (Z.to_nat (1 - 1)) with 0%nat. cbn [Nat.leb andb Nat.add].
      destruct (Nat.ltb_spec i (List.length (elements (SCM_CDR args)))); [| lia].
      rewrite Nat.sub_0_r. reflexivity.
    + intros i Hi. rewrite store_vals_spec.
      change (Z.to_nat (1 - 1)) with 0%nat. cbn [Nat.leb andb Nat.add].
      destruct (Nat.ltb_spec i (List.length (elements (SCM_CDR args)))); [lia |].
      reflexivity.
  - intros Hover.
    destruct (values_loop_overflows (SCM_CDR args) args 1 vm Hcap) as (vm' & E & Hn & _);
      [lia |].
    exists vm'. rewrite E. split; [reflexivity | exact Hn].
Qed.

(** The loop of [Scm_VMGetResult]: [vals[i-1]], [vals[i]], ... go to
    the end of the list. *)
Lemma get_result_loop_spec (n : nat) :
  forall (i : nat) (vm : ScmVM) (head : ScmObj) (cell : nat),
    (1 <= i)%nat ->
    elements (fst (get_result_loop n i vm head cell)) =
    elements head ++ map (fun k => vals vm (i - 1 + k)%nat) (seq 0 n).
Proof.
  induction n as [| n IH]; intros i vm head cell Hi; cbn [get_result_loop seq map].
  - rewrite app_nil_r. reflexivity.
  - unfold SCM_APPEND1, Scm_Cons. rewrite IH, elements_append1 by lia. cbn [elements].
    rewrite <- app_assoc. cbn [app]. rewrite Nat.add_0_r. do 2 f_equal.
    rewrite <- seq_shift, map_map. apply map_ext. intros k. f_equal. lia.
Qed.

Lemma map_nth_seq (l : list ScmObj) :
  map (fun k => nth k l SCM_UNBOUND) (seq 0 (List.length l)) = l.
Proof.
  induction l as [| x l IH]; [reflexivity |].
  cbn [List.length seq map nth]. f_equal.
  rewrite <- seq_shift, map_map. exact IH.
Qed.

(** What [Scm_VMValues] stores, [Scm_VMGetResult] gives back: for a
    list of at most [SCM_VM_MAX_VALUES] elements, once the value
    [Scm_VMValues] returns is in [val0], [Scm_VMGetResult] returns a
    list of the same elements in the same order. *)
Theorem Scm_VMGetResult_Scm_VMValues (vm : ScmVM) (args : ScmObj)
  (Hpair : SCM_PAIRP args = true) (Hfit : elements_count args <= SCM_VM_MAX_VALUES) :
  exists v vm',
    Scm_VMValues vm args = Returns v vm'
    /\ elements (fst (Scm_VMGetResult (set_val0 v vm'))) = elements args
    /\ Scm_VMGetNumResults (set_val0 v vm') = elements_count args.
Proof.
  unfold elements_count in *. rewrite (elements_pair args Hpair) in *. cbn [List.length] in *.
  unfold Scm_VMValues. rewrite Hpair. cbn [negb].
  rewrite values_loop_fits by lia. cbn [bind].
  eexists _, _. split; [reflexivity |]. split; [| unfold Scm_VMGetNumResults; vm_simpl; lia].
  unfold Scm_VMGetResult. vm_simpl.
  destruct (Z.eqb_spec (1 + Z.of_nat (List.length (elements (SCM_CDR args)))) 0); [lia |].
  unfold SCM_APPEND1 at 1, Scm_Cons. cbn [append1].
  match goal with
  | |- context [get_result_loop ?n ?i ?v ?h ?c] =>
      pose proof (get_result_loop_spec n i v h c (Nat.le_refl 1)) as Hloop;
      destruct (get_result_loop n i v h c) as [h' cell']
  end.
  cbn [fst] in *. rewrite Hloop. cbn [elements app]. f_equal.
  vm_simpl.
  replace (Z.to_nat (1 + Z.of_nat (List.length (elements (SCM_CDR args))) - 1))
    with (List.length (elements (SCM_CDR args))) by lia.
  rewrite <- (map_nth_seq (elements (SCM_CDR args))) at 2.
  apply map_ext_in. intros k Hk. apply in_seq in Hk.
  rewrite store_vals_spec. change (Z.to_nat (1 - 1)) with 0%nat.
  cbn [Nat.leb andb Nat.add Nat.sub].
  destruct (Nat.ltb_spec k (List.length (elements (SCM_CDR args)))); [| lia].
  rewrite Nat.sub_0_r. reflexivity.
Qed.


(** [Scm_VMValues2(vm, val0, val1)] *)
Definition Scm_VMValues2 (vm : ScmVM) (v0 v1 : ScmObj) : ScmObj * ScmVM :=
  let vm1 := set_numVals 2 vm in
  (v0, set_vals (upd_nat (vals vm1) 0 v1) vm1).

(** [Scm_VMValues3(vm, val0, val1, val2)] *)
Definition Scm_VMValues3 (vm : ScmVM) (v0 v1 v2 : ScmObj) : ScmObj * ScmVM :=
  let vm1 := set_numVals 3 vm in
  let vm2 := set_vals (upd_nat (vals vm1) 0 v1) vm1 in
  (v0, set_vals (upd_nat (vals vm2) 1 v2) vm2).

(** [Scm_VMValues4(vm, val0, val1, val2, val3)] *)
Definition Scm_VMValues4 (vm : ScmVM) (v0 v1 v2 v3 : ScmObj) : ScmObj * ScmVM :=
  let vm1 := set_numVals 4 vm in
  let vm2 := set_vals (upd_nat (vals vm1) 0 v1) vm1 in
  let vm3 := set_vals (upd_nat (vals vm2) 1 v2) vm2 in
  (v0, set_vals (upd_nat (vals vm3) 2 v3) vm3).

(** [Scm_VMValues5(vm, val0, val1, val2, val3, val4)] *)
Definition Scm_VMValues5 (vm : ScmVM) (v0 v1 v2 v3 v4 : ScmObj) : ScmObj * ScmVM :=
  let vm1 := set_numVals 5 vm in
  let vm2 := set_vals (upd_nat (vals vm1) 0 v1) vm1 in
  let vm3 := set_vals (upd_nat (vals vm2) 1 v2) vm2 in
  let vm4 := set_vals (upd_nat (vals vm3) 2 v3) vm3 in
  (v0, set_vals (upd_nat (vals vm4) 3 v4) vm4).

(** A list of the given objects in the cells [c], [c+1], ... *)
Fixpoint list_in_cells (l : list ScmObj) (c : nat) : ScmObj :=
  match l with
  | [] => SCM_NIL
  | x :: l' => SCM_PAIR c x (list_in_cells l' (S c))
  end.

Definition returned (r : ScmObj * ScmVM) : outcome ScmObj := Returns (fst r) (snd r).

(** The fixed-arity entries do what [Scm_VMValues] does on the list of
    their arguments, wherever the cap leaves room for five values:
    the same value returned, the same [vals] and [numVals]. *)
Theorem Scm_VMValuesN_agree (vm : ScmVM) (v0 v1 v2 v3 v4 : ScmObj) (c : nat)
  (Hcap : 5 <= SCM_VM_MAX_VALUES) :
  Scm_VMValues vm (list_in_cells [v0; v1] c) = returned (Scm_VMValues2 vm v0 v1)
  /\ Scm_VMValues vm (list_in_cells [v0; v1; v2] c) = returned (Scm_VMValues3 vm v0 v1 v2)
  /\ Scm_VMValues vm (list_in_cells [v0; v1; v2; v3] c)
     = returned (Scm_VMValues4 vm v0 v1 v2 v3)
  /\ Scm_VMValues vm (list_in_cells [v0; v1; v2; v3; v4] c)
     = returned (Scm_VMValues5 vm v0 v1 v2 v3 v4).
Proof.
  unfold Scm_VMValues. cbn [list_in_cells SCM_PAIRP negb SCM_CDR SCM_CAR].
  repeat split; rewrite values_loop_fits by (cbn [elements List.length]; lia);
    reflexivity.
Qed.


(* ----------------------------------------------------------------- *)
(** *** Room on the stack *)

Lemma CHECK_STACK_keeps (size : Z) (vm : ScmVM) (s : Z) :
  sp vm = STACK s -> s + size < SCM_VM_STACK_SIZE -> CHECK_STACK size vm = Some vm.
Proof.
  intros Hsp Hroom. unfold CHECK_STACK. rewrite Hsp. cbn [ptr_diff stackEnd].
  destruct (Z.geb_spec (s - SCM_VM_STACK_SIZE + size) 0); [lia | reflexivity].
Qed.

Lemma CHECK_STACK_saves (size : Z) (vm : ScmVM) (s a : Z) :
  eps_wf vm -> sp vm = STACK s -> argp vm = STACK a ->
  SCM_VM_STACK_SIZE <= s + size ->
  exists vm',
    CHECK_STACK size vm = Some vm'
    /\ sp vm' = STACK (s - a) /\ argp vm' = STACK 0
    /\ (forall i, 0 <= i < s - a -> words vm' (STACK i) = words vm (STACK (a + i)))
    /\ val0 vm' = val0 vm /\ vals vm' = vals vm /\ numVals vm' = numVals vm
    /\ pc vm' = pc vm /\ handlers vm' = handlers vm.
Proof.
  intros Hwf Hsp Hargp Hfull. unfold CHECK_STACK. rewrite Hsp. cbn [ptr_diff stackEnd].
  destruct (Z.geb_spec (s - SCM_VM_STACK_SIZE + size) 0); [| lia].
  destruct (save_stack_spec vm s a Hwf Hsp Hargp)
    as (vm1 & vm' & _ & Hsaved & Hs & Hvm' & Hwords).
  destruct (regs_inv _ _ (sv_regs _ _ Hsaved))
    as (Epc & _ & Ev0 & Evs & En & _ & _ & Eh & _).
  exists vm'. split; [exact Hs |].
  split; [rewrite Hvm'; reflexivity |]. split; [rewrite Hvm'; reflexivity |].
  split.
  - intros i Hi. rewrite Hwords.
    destruct (Z.leb_spec (s - a) i); [lia |]. cbn [andb].
    destruct (Z.leb_spec 0 i); [| lia]. destruct (Z.ltb_spec i (s - a)); [| lia].
    reflexivity.
  - rewrite Hvm'. vm_simpl. repeat split; assumption.
Qed.

(** [CHECK_STACK(size)] makes room whenever room can be made: if the
    argument block under construction and [size] more words fit in the
    stack, then after [CHECK_STACK] the [size] words above [sp] are
    inside the stack, and the argument block is still between [argp]
    and [sp], word for word; the values are untouched. *)
Theorem CHECK_STACK_room (size : Z) (vm : ScmVM) (s a : Z)
  (Hwf : eps_wf vm) (Hsp : sp vm = STACK s) (Hargp : argp vm = STACK a)
  (Hblock : 0 <= a <= s) (Hfits : (s - a) + size < SCM_VM_STACK_SIZE) :
  exists vm' s' a',
    CHECK_STACK size vm = Some vm'
    /\ sp vm' = STACK s' /\ argp vm' = STACK a'
    /\ 0 <= a' /\ s' - a' = s - a
    /\ s' + size < SCM_VM_STACK_SIZE
    /\ (forall i, 0 <= i < s - a -> words vm' (STACK (a' + i)) = words vm (STACK (a + i)))
    /\ val0 vm' = val0 vm /\ vals vm' = vals vm /\ numVals vm' = numVals vm
    /\ pc vm' = pc vm /\ handlers vm' = handlers vm.
Proof.
  destruct (Z.lt_ge_cases (s + size) SCM_VM_STACK_SIZE) as [Hroom | Hfull].
  - (* there is room already: nothing moves *)
    exists vm, s, a. rewrite (CHECK_STACK_keeps size vm s Hsp Hroom).
    split; [reflexivity |]. split; [exact Hsp |]. split; [exact Hargp |].
    split; [lia |]. split; [lia |]. split; [lia |].
    split; [reflexivity | repeat split].
  - (* the stack is promoted and the block slides to the base *)
    destruct (CHECK_STACK_saves size vm s a Hwf Hsp Hargp Hfull)
      as (vm' & Hc & Hsp' & Hargp' & Hw & Hregs).
    exists vm', (s - a), 0. split; [exact Hc |]. split; [exact Hsp' |].
    split; [exact Hargp' |]. split; [lia |]. split; [lia |]. split; [lia |].
    split; [| exact Hregs].
    intros i Hi. rewrite Z.add_0_l. apply Hw. exact Hi.
Qed.



(* ----------------------------------------------------------------- *)
(** *** Pushing and popping continuation frames *)

(** A host continuation pushed by [Scm_VMPushCC] comes back: when a
    callee returns with that frame on top and its data words intact,
    [RETURN_OP] calls [after] on the value in [val0] and on the data
    that was pushed, with [cont], [env] and [base] as they were at the
    push and - the frame being in the stack - [sp] and [argp] back
    where the frame began. *)
Theorem Scm_VMPushCC_RETURN_OP (after : ScmCContinuationProc) (data : list word) (vm : ScmVM)
  (Hwf : eps_wf vm) (Hsp : sp_in_block vm) :
  exists vm1 vm',
    CHECK_STACK (CONT_FRAME_SIZE + Z.of_nat (List.length data)) vm = Some vm1
    /\ Scm_VMPushCC after data vm = Returns tt vm'
    /\ cont vm' = sp vm1
    /\ sp vm' = ptr_add (sp vm1) (CONT_FRAME_SIZE + Z.of_nat (List.length data))
    /\ argp vm' = sp vm'
    /\ forall vm2,
         cont vm2 = cont vm' ->
         conts vm2 (cont vm') = conts vm' (cont vm') ->
         (forall i, 0 <= i < Z.of_nat (List.length data) ->
            words vm2 (ptr_add (cont vm') (CONT_FRAME_SIZE + i))
            = words vm' (ptr_add (cont vm') (CONT_FRAME_SIZE + i))) ->
         exists vmP,
           RETURN_OP vm2 =
             bind (CALL_CCONT after (val0 vm2) data vmP)
               (fun r vm3 => Returns false (set_val0 r vm3))
           /\ cont vmP = cont vm1 /\ env vmP = env vm1 /\ base vmP = base vm1
           /\ pc vmP = PC_TO_RETURN
           /\ (IN_STACK_P (sp vm1) = true -> sp vmP = sp vm1 /\ argp vmP = sp vm1)
           /\ words vmP = words vm2 /\ val0 vmP = val0 vm2.
Proof.
  destruct (CHECK_STACK_steady (CONT_FRAME_SIZE + Z.of_nat (List.length data)) vm Hwf)
    as (vm1 & Hc & _ & Hsp1).
  destruct (Hsp1 Hsp) as (s & Hs).
  exists vm1. unfold Scm_VMPushCC. rewrite Hc. cbn [lift bind].
  eexists. split; [reflexivity |]. split; [reflexivity |]. vm_simpl.
  split; [reflexivity |].
  split; [rewrite ptr_add_add; reflexivity |].
  split; [reflexivity |].
  intros vm2 Hcont Hframe Hwords.
  assert (Hp : pushed after data vm2).
  { unfold pushed. rewrite Hcont, Hframe. vm_simpl. rewrite upd_same, Hs.
    cbn [c_argp c_pc c_size is_null ptr_add].
    repeat split; try reflexivity.
    rewrite (load_words_ext _ _
               (store_words data (STACK (s + CONT_FRAME_SIZE)) (words vm1))).
    - apply load_store_words. reflexivity.
    - intros i Hi. specialize (Hwords i Hi). rewrite Hs in Hwords.
      cbn [ptr_add] in *. rewrite <- Z.add_assoc. exact Hwords. }
  exists (popped vm2). split; [apply RETURN_OP_ccont; exact Hp |].
  unfold popped. rewrite Hcont, Hframe. vm_simpl. rewrite upd_same.
  cbn [c_prev c_env c_base].
  destruct (IN_STACK_P (sp vm1)); vm_simpl; repeat split; try reflexivity; discriminate.
Qed.

(** A Scheme continuation frame pushed by [PUSH_CONT] in the stack and
    popped by [POP_CONT]: whatever the callee did to the registers,
    if it returns with that frame on top, [sp], [argp], [env], [base]
    and [cont] are as they were at the push and [pc] is the return
    address that was pushed; [val0] and the stack words are the
    callee's. *)
Theorem PUSH_CONT_POP_CONT (next_pc : ScmPC) (vm vm2 : ScmVM) (s a : Z)
  (Hsp : sp vm = STACK s) (Hargp : argp vm = STACK a)
  (Hin : 0 <= s < SCM_VM_STACK_SIZE)
  (Hcont : cont vm2 = cont (PUSH_CONT next_pc vm))
  (Hframe : conts vm2 (cont vm2) = conts (PUSH_CONT next_pc vm) (cont vm2)) :
  cont (PUSH_CONT next_pc vm) = sp vm
  /\ sp (PUSH_CONT next_pc vm) = ptr_add (sp vm) CONT_FRAME_SIZE
  /\ argp (PUSH_CONT next_pc vm) = sp (PUSH_CONT next_pc vm)
  /\ exists vm3,
       POP_CONT vm2 = Returns tt vm3
       /\ sp vm3 = sp vm /\ argp vm3 = argp vm /\ env vm3 = env vm
       /\ base vm3 = base vm /\ cont vm3 = cont vm /\ pc vm3 = next_pc
       /\ val0 vm3 = val0 vm2 /\ words vm3 = words vm2.
Proof.
  split; [reflexivity |]. split; [reflexivity |]. split; [reflexivity |].
  unfold POP_CONT. rewrite Hframe, Hcont. unfold PUSH_CONT. vm_simpl.
  rewrite upd_same, Hsp, Hargp. cbn [c_argp c_size c_env c_pc c_base c_prev is_null ptr_diff].
  cbn [IN_STACK_P].
  destruct (Z.leb_spec 0 s); [| lia]. destruct (Z.ltb_spec s SCM_VM_STACK_SIZE); [| lia].
  cbn [andb ptr_add]. eexists. split; [reflexivity |]. vm_simpl.
  repeat split; try reflexivity; try assumption.
  f_equal. lia.
Qed.


Lemma copy_words_stack_below (n : nat) (s : ptr) (o o' : Z) (w : ptr -> word) :
  o' < o -> copy_words n s (STACK o) w (STACK o') = w (STACK o').
Proof.
  revert s o w.
  induction n as [| n IH]; intros s o w Hlt; cbn [copy_words ptr_add]; [reflexivity |].
  rewrite IH by lia. apply upd_other. intros E. injection E. lia.
Qed.

(** A forward copy from a heap block into the stack. *)
Lemma copy_words_to_stack (n : nat) (b : nat) (o d : Z) (w : ptr -> word) :
  forall i, 0 <= i < Z.of_nat n ->
    copy_words n (HEAP b o) (STACK d) w (STACK (d + i)) = w (HEAP b (o + i)).
Proof.
  revert o d w.
  induction n as [| n IH]; intros o d w i Hi; [lia |].
  cbn [copy_words ptr_add].
  destruct (Z.eq_dec i 0) as [-> | Hne].
  - rewrite !Z.add_0_r, copy_words_stack_below by lia. apply upd_same.
  - replace (d + i) with ((d + 1) + (i - 1)) by lia.
    rewrite IH by lia. replace (o + 1 + (i - 1)) with (o + i) by lia.
    apply upd_other. discriminate.
Qed.

(** Promotion keeps a frame good for its return.  Let the frame in
    [cont] be a Scheme frame in the stack, under the conditions in
    which [save_stack] forwards the chain.  After [save_stack],
    [POP_CONT] returns to the same [pc] and [base], with the saved
    argument block - the same words - at the base of the stack, and
    with a continuation that is not in the stack. *)
Theorem save_stack_POP_CONT (vm : ScmVM) (l : list ptr) (t : ptr) (ks1 ks2 : list nat)
  (Hchain : stack_chain vm (cont vm) l t)
  (Hin : In (cont vm) l)
  (Hframes : forall p, In p l -> chain_frame vm p)
  (Hheap : forall q, out_of_stack q -> IN_STACK_P (c_prev (conts vm q)) = false)
  (Hmain : ep_chain ep_prev (eps vm) (escapePoint vm) ks1)
  (Hfloat : ep_chain ep_floating (eps vm) (SCM_VM_FLOATING_EP vm) ks2)
  (Hscheme : is_null (c_argp (conts vm (cont vm))) = false) :
  exists vm' vmP,
    save_stack vm = Some vm'
    /\ POP_CONT vm' = Returns tt vmP
    /\ pc vmP = c_pc (conts vm (cont vm))
    /\ base vmP = c_base (conts vm (cont vm))
    /\ argp vmP = stackBase
    /\ sp vmP = ptr_add stackBase (c_size (conts vm (cont vm)))
    /\ (forall i, 0 <= i < c_size (conts vm (cont vm)) ->
          words vmP (ptr_add stackBase i)
          = words vm (ptr_add (c_argp (conts vm (cont vm))) i))
    /\ IN_STACK_P (cont vmP) = false
    /\ val0 vmP = val0 vm.
Proof.
  assert (Hne : l <> []) by (intros ->; contradiction).
  destruct (save_cont_forwarding vm l t ks1 ks2 Hchain Hne Hframes Hheap Hmain Hfloat)
    as (vm1 & vm2 & Hs & Hp & Hfw & Hclosed & Hvm2 & _).
  destruct (save_stack_after vm vm2 Hs) as (vm' & Hss & Hc & Hk & _ & _ & Hw).
  destruct (save_stack_steady vm) as (vm'' & Hss' & Hst & _); [split; eauto |].
  assert (vm'' = vm') by congruence. subst vm''.
  assert (Hc2 : conts vm2 = conts vm1) by (rewrite Hvm2; reflexivity).
  assert (Hw2 : words vm2 = words vm1) by (rewrite Hvm2; reflexivity).
  destruct (Hfw _ Hin) as (A & b & B1 & _ & (F1 & F2 & F3 & F4 & F5) & _).
  destruct (Hframes _ Hin) as (Hsz & _).
  assert (Hcont : cont vm' = HEAP b 0).
  { rewrite Hk, Hvm2. vm_simpl. unfold forward, FORWARDED_CONT_P, FORWARDED_CONT.
    rewrite A, B1.
    pose proof (stack_chain_In _ _ _ _ Hchain _ Hin) as Hstk.
    destruct (cont vm); try discriminate. reflexivity. }
  rewrite Hscheme in F4, F5. cbn [ptr_add] in F4.
  exists vm'. unfold POP_CONT. rewrite Hcont, Hc, Hc2, F4. cbn [is_null IN_STACK_P].
  eexists. split; [exact Hss |]. split; [reflexivity |].
  rewrite F1, F2, F3. cbn [negb andb].
  destruct (Z.eqb_spec (c_size (conts vm (cont vm))) 0) as [E0 | E0]; cbn [negb]; vm_simpl.
  - split; [reflexivity |]. split; [reflexivity |]. split; [reflexivity |].
    split; [rewrite E0; reflexivity |].
    split; [intros i Hi; lia |].
    split; [| apply (st_val0 _ _ Hst)].
    apply Hclosed. split; [discriminate | reflexivity].
  - split; [reflexivity |]. split; [reflexivity |]. split; [reflexivity |].
    split; [reflexivity |].
    split; [| split; [| apply (st_val0 _ _ Hst)]].
    + intros i Hi. unfold stackBase. cbn [ptr_add].
      rewrite copy_words_to_stack by lia.
      rewrite Hw, Hw2. rewrite <- F5 by lia. cbn [ptr_add]. reflexivity.
    + apply Hclosed. split; [discriminate | reflexivity].
Qed.


(* ----------------------------------------------------------------- *)
(** *** The default exception handler *)

(** [Scm_VMDefaultExceptionHandler] never returns to its caller.  When
    no escape point is installed and the report comes back with no
    dynamic handler to unwind, it leaves by [siglongjmp] to the
    innermost host-stack record, with the reason
    [SCM_VM_ESCAPE_ERROR], no escape point and the condition as data;
    and when there is no host-stack record, by [exit(EX_SOFTWARE)]. *)
Theorem Scm_VMDefaultExceptionHandler_leaves (fuel : nat) (e : ScmObj) (vm : ScmVM) :
  ~ returns (Scm_VMDefaultExceptionHandler fuel e vm)
  /\ forall vm1,
       escapePoint vm = None ->
       Scm_ReportError e vm = Returns tt vm1 ->
       SCM_PAIRP (handlers vm1) = false ->
       Scm_VMDefaultExceptionHandler fuel e vm =
       match cstack vm1 with
       | [] => Exits EX_SOFTWARE
       | _ :: _ =>
           LongJmp (set_escapeData1 e
                      (set_escapeData0 None (set_escapeReason SCM_VM_ESCAPE_ERROR vm1)))
       end.
Proof.
  split; [apply Scm_VMDefaultExceptionHandler_no_return |].
  intros vm1 Hep Hrep Hh.
  unfold Scm_VMDefaultExceptionHandler. rewrite Hep, Hrep. cbn [bind].
  destruct (handlers vm1); try discriminate; reflexivity.
Qed.

(* ----------------------------------------------------------------- *)
(** *** Arguments of a recursive application *)

(** [args] without its first [n] cells. *)
Fixpoint list_tail (n : nat) (args : ScmObj) : ScmObj :=
  match n with
  | O => args
  | S n' => list_tail n' (SCM_CDR args)
  end.

Lemma apply_rec_args_spec (n : nat) :
  forall (i : Z) (args : ScmObj) (v : nat -> ScmObj) (j : nat),
    0 <= i <= SCM_VM_MAX_VALUES - 1 ->
    apply_rec_args n i args v j =
    if (Z.to_nat i <=? j)%nat && (j <? Z.to_nat i + n)%nat
    then if Z.of_nat j <? SCM_VM_MAX_VALUES - 1
         then SCM_CAR (list_tail (j - Z.to_nat i) args)
         else if Z.of_nat j =? SCM_VM_MAX_VALUES - 1
              then list_tail (j - Z.to_nat i) args
              else v j
    else v j.
Proof.
  induction n as [| n IH]; intros i args v j Hi; cbn [apply_rec_args].
  - rewrite Nat.add_0_r.
    destruct (Nat.leb_spec (Z.to_nat i) j), (Nat.ltb_spec j (Z.to_nat i)); cbn [andb];
      try reflexivity; lia.
  - destruct (Z.eqb_spec i (SCM_VM_MAX_VALUES - 1)) as [Ecap | Ecap].
    + unfold upd_nat.
      destruct (Nat.eqb_spec j (Z.to_nat i)) as [-> | Hne].
      * rewrite Nat.leb_refl. destruct (Nat.ltb_spec (Z.to_nat i) (Z.to_nat i + S n)); [| lia].
        cbn [andb]. rewrite Z2Nat.id by lia.
        destruct (Z.ltb_spec i (SCM_VM_MAX_VALUES - 1)); [lia |].
        destruct (Z.eqb_spec i (SCM_VM_MAX_VALUES - 1)); [| lia].
        rewrite Nat.sub_diag. reflexivity.
      * destruct (Nat.leb_spec (Z.to_nat i) j), (Nat.ltb_spec j (Z.to_nat i + S n));
          cbn [andb]; try reflexivity.
        destruct (Z.ltb_spec (Z.of_nat j) (SCM_VM_MAX_VALUES - 1)); [lia |].
        destruct (Z.eqb_spec (Z.of_nat j) (SCM_VM_MAX_VALUES - 1)); [lia | reflexivity].
    + rewrite IH by lia. unfold upd_nat.
      replace (Z.to_nat (i + 1)) with (S (Z.to_nat i)) by lia.
      destruct (Nat.eqb_spec j (Z.to_nat i)) as [-> | Hne].
      * rewrite Nat.leb_refl. destruct (Nat.leb_spec (S (Z.to_nat i)) (Z.to_nat i)); [lia |].
        destruct (Nat.ltb_spec (Z.to_nat i) (Z.to_nat i + S n)); [| lia].
        cbn [andb]. rewrite Z2Nat.id by lia. rewrite Nat.sub_diag. cbn [list_tail].
        destruct (Z.ltb_spec i (SCM_VM_MAX_VALUES - 1)); [reflexivity | lia].
      * destruct (Nat.leb_spec (S (Z.to_nat i)) j), (Nat.ltb_spec j (S (Z.to_nat i) + n));
          destruct (Nat.leb_spec (Z.to_nat i) j), (Nat.ltb_spec j (Z.to_nat i + S n));
          cbn [andb]; try lia; try reflexivity.
        replace (j - Z.to_nat i)%nat with (S (j - S (Z.to_nat i))) by lia.
        cbn [list_tail]. reflexivity.
Qed.

Lemma elements_list_tail (j : nat) :
  forall args, (j < List.length (elements args))%nat ->
    SCM_CAR (list_tail j args) = nth j (elements args) SCM_UNBOUND.
Proof.
  induction j as [| j IH]; intros args Hj.
  - destruct args; cbn [elements List.length] in Hj; try lia. reflexivity.
  - destruct args; cbn [elements List.length] in Hj; try lia.
    cbn [list_tail SCM_CDR elements nth]. apply IH. lia.
Qed.

(** [Scm_ApplyRec] refuses an improper list.  Otherwise it places the
    arguments in [vm->vals] before it enters the VM: the first
    [SCM_VM_MAX_VALUES - 1] of them one per slot, and - when there are
    more - the list of all the others in the slot
    [SCM_VM_MAX_VALUES - 1]; no other slot is written. *)
Theorem Scm_ApplyRec_arguments (fuel : nat) (proc args : ScmObj) (vm : ScmVM)
  (Hcap : 1 <= SCM_VM_MAX_VALUES) :
  (Scm_Length args < 0 ->
   Scm_ApplyRec fuel proc args vm = Raises "improper list not allowed: %S" [args] vm)
  /\ (0 <= Scm_Length args ->
      exists v,
        Scm_ApplyRec fuel proc args vm
        = apply_rec fuel proc (Scm_Length args) (set_vals v vm)
        /\ (forall j, Z.of_nat j < Scm_Length args -> Z.of_nat j < SCM_VM_MAX_VALUES - 1 ->
              v j = nth j (elements args) SCM_UNBOUND)
        /\ (SCM_VM_MAX_VALUES - 1 < Scm_Length args ->
              v (Z.to_nat (SCM_VM_MAX_VALUES - 1))
              = list_tail (Z.to_nat (SCM_VM_MAX_VALUES - 1)) args)
        /\ (forall j, Scm_Length args <= Z.of_nat j \/ SCM_VM_MAX_VALUES - 1 < Z.of_nat j ->
              v j = vals vm j)).
Proof.
  unfold Scm_ApplyRec. split.
  - intros Hneg. destruct (Z.ltb_spec (Scm_Length args) 0); [reflexivity | lia].
  - intros Hpos. destruct (Z.ltb_spec (Scm_Length args) 0); [lia |].
    pose proof (Scm_Length_elements args Hpos) as Hlen.
    eexists. split; [reflexivity |].
    split; [| split].
    + intros j Hj Hc. rewrite apply_rec_args_spec by lia.
      change (Z.to_nat 0) with 0%nat. cbn [Nat.leb andb Nat.add].
      destruct (Nat.ltb_spec j (Z.to_nat (Scm_Length args))); [| lia].
      destruct (Z.ltb_spec (Z.of_nat j) (SCM_VM_MAX_VALUES - 1)); [| lia].
      rewrite Nat.sub_0_r. apply elements_list_tail. lia.
    + intros Hmore. rewrite apply_rec_args_spec by lia.
      change (Z.to_nat 0) with 0%nat. cbn [Nat.leb andb Nat.add].
      destruct (Nat.ltb_spec (Z.to_nat (SCM_VM_MAX_VALUES - 1))
                  (Z.to_nat (Scm_Length args))); [| lia].
      rewrite Z2Nat.id by lia.
      destruct (Z.ltb_spec (SCM_VM_MAX_VALUES - 1) (SCM_VM_MAX_VALUES - 1)); [lia |].
      rewrite Z.eqb_refl, Nat.sub_0_r. reflexivity.
    + intros j Hj. rewrite apply_rec_args_spec by lia.
      change (Z.to_nat 0) with 0%nat. cbn [Nat.leb andb Nat.add].
      destruct (Nat.ltb_spec j (Z.to_nat (Scm_Length args))); [| reflexivity].
      destruct Hj as [Hj | Hj]; [lia |].
      destruct (Z.ltb_spec (Z.of_nat j) (SCM_VM_MAX_VALUES - 1)); [lia |].
      destruct (Z.eqb_spec (Z.of_nat j) (SCM_VM_MAX_VALUES - 1)); [lia | reflexivity].
Qed.


(* ----------------------------------------------------------------- *)
(** *** The border between host code and the VM, crossed and recrossed *)

Lemma ptr_eqb_refl (p : ptr) : ptr_eqb p p = true.
Proof. unfold ptr_eqb. destruct (ptr_eq_dec p p); [reflexivity | contradiction]. Qed.

(** The code the loop is entered at: the code vector the caller
    supplies, or the code of the program. *)
Definition entry_pc (program : ScmCompiledCode) (codevec : option ScmPC) : ScmPC :=
  match codevec with
  | Some c => c
  | None => PC_CODE (code program)
  end.

(** With room in the stack, [user_eval_inner] reaches the label
    [restart] without moving the stack: the boundary frame is at the
    old [sp] and holds the registers of the caller, and the new
    host-stack record holds the boundary frame. *)
Lemma user_eval_inner_enter_room (program : ScmCompiledCode) (codevec : option ScmPC)
  (vm : ScmVM) (s a : Z) :
  sp vm = STACK s -> argp vm = STACK a ->
  0 <= s /\ s + CONT_FRAME_SIZE < SCM_VM_STACK_SIZE ->
  (codevec = None -> s + CONT_FRAME_SIZE + maxstack program < SCM_VM_STACK_SIZE) ->
  exists vin,
    user_eval_inner_enter program codevec vm = Returns (next_cstack vm, pc vm) vin
    /\ cstack vin = mkCStack (next_cstack vm) (sp vm) :: cstack vm
    /\ cont vin = sp vm
    /\ conts vin (cont vin)
       = mkCont (cont vm) (env vm) (argp vm) (s - a) boundaryFrameMark (base vm)
    /\ pc vin = entry_pc program codevec.
Proof.
  intros Hsp Hargp (Hs0 & Hs1) Hmax. unfold CONT_FRAME_SIZE in Hs1, Hmax.
  unfold user_eval_inner_enter, CHECK_STACK at 1. rewrite Hsp. cbn [ptr_diff stackEnd].
  destruct (Z.geb_spec (s - SCM_VM_STACK_SIZE + CONT_FRAME_SIZE) 0) as [Hge | Hlt];
    [unfold CONT_FRAME_SIZE in Hge; lia |].
  cbn [lift bind].
  destruct codevec as [c |].
  - cbn [bind]. eexists. split; [reflexivity |].
    unfold PUSH_CONT. vm_simpl. rewrite Hsp, Hargp.
    split; [reflexivity |]. split; [reflexivity |].
    split; [apply upd_same | reflexivity].
  - specialize (Hmax eq_refl).
    unfold CHECK_STACK, PUSH_CONT. vm_simpl. rewrite Hsp. cbn [ptr_add ptr_diff stackEnd].
    destruct (Z.geb_spec (s + CONT_FRAME_SIZE - SCM_VM_STACK_SIZE + maxstack program) 0)
      as [Hge | Hlt2]; [unfold CONT_FRAME_SIZE in Hge; lia |].
    cbn [lift bind]. eexists. split; [reflexivity |]. vm_simpl. rewrite Hargp.
    split; [reflexivity |]. split; [reflexivity |].
    split; [apply upd_same | reflexivity].
Qed.

(** A call from host code into the VM that comes back the ordinary
    way leaves no trace but the value, the stack having room.  Let
    [sp] be in the stack with more than [CONT_FRAME_SIZE] words free
    above it and, when the code of the program itself is to be run
    ([codevec] null), more than [CONT_FRAME_SIZE] plus its [maxstack].
    Then [user_eval_inner] pushes the boundary frame and a host-stack
    record and runs the loop at the code vector; when the loop
    returns with the boundary frame on top and the record chain as
    entered, the call returns [val0] with [sp], [argp], [env], [base],
    [cont], [pc] and the chain of host-stack records as they were
    before the call. *)
Theorem user_eval_inner_restores (fuel : nat) (program : ScmCompiledCode)
  (codevec : option ScmPC) (vm : ScmVM) (s a : Z)
  (Hsp : sp vm = STACK s) (Hargp : argp vm = STACK a)
  (Hroom : 0 <= s /\ s + CONT_FRAME_SIZE < SCM_VM_STACK_SIZE)
  (Hmax : codevec = None -> s + CONT_FRAME_SIZE + maxstack program < SCM_VM_STACK_SIZE) :
  exists addr vin,
    user_eval_inner_enter program codevec vm = Returns (addr, pc vm) vin
    /\ cstack vin = mkCStack addr (sp vm) :: cstack vm
    /\ cont vin = sp vm
    /\ c_pc (conts vin (cont vin)) = boundaryFrameMark
    /\ pc vin = entry_pc program codevec
    /\ forall vout,
         run_loop (set_escapeReason SCM_VM_ESCAPE_NONE vin) = Returns tt vout ->
         cont vout = cont vin ->
         conts vout (cont vin) = conts vin (cont vin) ->
         cstack vout = cstack vin ->
         exists vF,
           user_eval_inner (S fuel) program codevec vm = Returns (val0 vout) vF
           /\ sp vF = sp vm /\ argp vF = argp vm /\ env vF = env vm /\ base vF = base vm
           /\ cont vF = cont vm /\ pc vF = pc vm /\ cstack vF = cstack vm
           /\ val0 vF = val0 vout /\ words vF = words vout.
Proof.
  destruct (user_eval_inner_enter_room program codevec vm s a Hsp Hargp Hroom Hmax)
    as (vin & Hent & Hcs & Hcont & Hframe & Hpc).
  destruct Hroom as (Hs0 & Hs1). unfold CONT_FRAME_SIZE in Hs1.
  exists (next_cstack vm), vin. split; [exact Hent |]. split; [exact Hcs |].
  split; [exact Hcont |]. split; [rewrite Hframe; reflexivity |]. split; [exact Hpc |].
  intros vout Hrun Hco Hfo Hcso.
  unfold user_eval_inner. rewrite Hent. cbn [bind user_eval_inner_restart].
  rewrite Hrun. unfold local_cstack. rewrite Hcso, Hcs. cbn [find cs_addr].
  rewrite Nat.eqb_refl. cbn [cs_cont].
  rewrite Hco, Hcont, ptr_eqb_refl.
  unfold POP_CONT. rewrite Hco, Hfo, Hframe, Hargp, Hcont, Hsp.
  cbn [c_argp is_null IN_STACK_P].
  destruct (Z.leb_spec 0 s); [| lia]. destruct (Z.ltb_spec s SCM_VM_STACK_SIZE); [| lia].
  cbn [andb bind]. eexists. split; [reflexivity |].
  unfold pop_cstack. vm_simpl. rewrite Hcso, Hcs. cbn [tl c_size c_env c_base c_prev ptr_add].
  repeat split; try reflexivity.
  f_equal. lia.
Qed.


(* ----------------------------------------------------------------- *)
(** *** Installing and discarding an error handler *)

(** [SCM_VM_RUNTIME_FLAG_IS_SET(vm, flag)] of [gauche/vm.h]:
    [((vm)->runtimeFlags & (flag))] taken as a truth value. *)
Definition SCM_VM_RUNTIME_FLAG_IS_SET (flag : Z) (vm : ScmVM) : bool :=
  negb (Z.land (runtimeFlags vm) flag =? 0).

(** [install_ehandler], the body of the before thunk; [data] is [ep]. *)
Definition install_ehandler (ep : nat) (vm : ScmVM) : ScmObj * ScmVM :=
  let vm1 := set_exceptionHandler DEFAULT_EXCEPTION_HANDLER vm in
  let vm2 := set_escapePoint (Some ep) vm1 in
  (SCM_UNDEFINED, SCM_VM_RUNTIME_FLAG_CLEAR SCM_ERROR_BEING_REPORTED vm2).

(** [discard_ehandler], the body of the after thunk. *)
Definition discard_ehandler (ep : nat) (vm : ScmVM) : outcome ScmObj :=
  with_ep ep vm (fun r =>
    let vm1 := set_escapePoint (ep_prev r) vm in
    let vm2 := set_exceptionHandler (ep_xhandler r) vm1 in
    Returns SCM_UNDEFINED
      (if ep_errorReporting r
       then SCM_VM_RUNTIME_FLAG_SET SCM_ERROR_BEING_REPORTED vm2
       else vm2)).

(** [with_error_handler(vm, handler, thunk, rewindBefore)] up to the
    two calls of [Scm_MakeSubr]: the escape point is allocated, filled
    in and made visible in [vm->escapePoint]. *)
Definition with_error_handler_enter (handler : ScmObj) (rewindBefore : bool) (vm : ScmVM)
  : nat * ScmVM :=
  let r := mkEP (escapePoint vm) (SCM_VM_FLOATING_EP vm) handler (exceptionHandler vm)
             (handlers vm) (cont vm) (cstack_ptr vm)
             (SCM_VM_RUNTIME_FLAG_IS_SET SCM_ERROR_BEING_REPORTED vm) rewindBefore in
  let (ep, vm1) := new_ep r vm in
  (ep, set_escapePoint (Some ep) vm1).

Lemma land_pow2 (f k : Z) : 0 <= k -> (Z.land f (2 ^ k) =? 0) = negb (Z.testbit f k).
Proof.
  intros Hk. destruct (Z.testbit f k) eqn:E; cbn [negb].
  - apply Z.eqb_neq. intros H.
    assert (Hb : Z.testbit (Z.land f (2 ^ k)) k = false) by (rewrite H; apply Z.bits_0).
    rewrite Z.land_spec, E, Z.pow2_bits_true in Hb by exact Hk. discriminate.
  - apply Z.eqb_eq. apply Z.bits_inj'. intros i Hi.
    rewrite Z.land_spec, Z.bits_0, Z.pow2_bits_eqb by exact Hk.
    destruct (Z.eqb_spec k i) as [<- | _]; [rewrite E; reflexivity | apply andb_false_r].
Qed.

Lemma flag_clear_set (f k : Z) :
  0 <= k ->
  (if negb (Z.land f (2 ^ k) =? 0)
   then Z.lor (Z.land f (Z.lnot (2 ^ k))) (2 ^ k)
   else Z.land f (Z.lnot (2 ^ k))) = f.
Proof.
  intros Hk. rewrite land_pow2 by exact Hk. rewrite negb_involutive.
  destruct (Z.testbit f k) eqn:E; apply Z.bits_inj'; intros i Hi.
  - rewrite Z.lor_spec, Z.land_spec, Z.lnot_spec, Z.pow2_bits_eqb by assumption.
    destruct (Z.eqb_spec k i) as [<- | _]; cbn [negb].
    + rewrite E. reflexivity.
    + rewrite andb_true_r, orb_false_r. reflexivity.
  - rewrite Z.land_spec, Z.lnot_spec, Z.pow2_bits_eqb by assumption.
    destruct (Z.eqb_spec k i) as [<- | _]; cbn [negb].
    + rewrite E. reflexivity.
    + apply andb_true_r.
Qed.

Lemma flag_cleared (f k : Z) :
  0 <= k -> (Z.land (Z.land f (Z.lnot (2 ^ k))) (2 ^ k) =? 0) = true.
Proof.
  intros Hk. rewrite land_pow2 by exact Hk.
  rewrite Z.land_spec, Z.lnot_spec, Z.pow2_bits_true by assumption.
  rewrite andb_false_r. reflexivity.
Qed.

(** [with-error-handler] brackets its thunk.  The escape point it
    builds records the handler and the dynamic state of the moment.
    Once [install_ehandler] has run, that escape point is the current
    one, the exception handler is the default one and the
    error-being-reported flag is clear.  Whatever the thunk then does
    to those registers, as long as the escape point keeps its [prev],
    [xhandler] and [errorReporting] and the thunk leaves the flags as
    it found them, [discard_ehandler] puts back the escape point, the
    exception handler and the flags of before the form.  The flag is
    one bit. *)
Theorem with_error_handler_brackets (handler : ScmObj) (rewindBefore : bool) (vm : ScmVM)
  (k : Z) (Hk : 0 <= k) (Hbit : SCM_ERROR_BEING_REPORTED = 2 ^ k) :
  let ep := fst (with_error_handler_enter handler rewindBefore vm) in
  let vm1 := snd (with_error_handler_enter handler rewindBefore vm) in
  let vm2 := snd (install_ehandler ep vm1) in
  (exists r,
     nth_error (eps vm1) ep = Some r
     /\ ep_ehandler r = handler /\ ep_prev r = escapePoint vm
     /\ ep_handlers r = handlers vm /\ ep_cont r = cont vm
     /\ ep_cstack r = cstack_ptr vm /\ ep_xhandler r = exceptionHandler vm
     /\ ep_rewindBefore r = rewindBefore)
  /\ escapePoint vm1 = Some ep
  /\ escapePoint vm2 = Some ep
  /\ exceptionHandler vm2 = DEFAULT_EXCEPTION_HANDLER
  /\ SCM_VM_RUNTIME_FLAG_IS_SET SCM_ERROR_BEING_REPORTED vm2 = false
  /\ forall vmt r,
       nth_error (eps vmt) ep = Some r ->
       ep_prev r = escapePoint vm -> ep_xhandler r = exceptionHandler vm ->
       ep_errorReporting r = SCM_VM_RUNTIME_FLAG_IS_SET SCM_ERROR_BEING_REPORTED vm ->
       exists vm3,
         discard_ehandler ep vmt = Returns SCM_UNDEFINED vm3
         /\ escapePoint vm3 = escapePoint vm
         /\ exceptionHandler vm3 = exceptionHandler vm
         /\ (runtimeFlags vmt = runtimeFlags vm2 -> runtimeFlags vm3 = runtimeFlags vm).
Proof.
  cbv zeta. unfold with_error_handler_enter, new_ep. cbn [fst snd].
  split.
  { eexists. split.
    - vm_simpl. rewrite nth_error_app2 by lia. rewrite Nat.sub_diag. reflexivity.
    - cbn. repeat split. }
  split; [reflexivity |]. split; [reflexivity |]. split; [reflexivity |].
  split.
  { unfold SCM_VM_RUNTIME_FLAG_IS_SET, install_ehandler, SCM_VM_RUNTIME_FLAG_CLEAR.
    vm_simpl. rewrite Hbit, flag_cleared by exact Hk. reflexivity. }
  intros vmt r Hr Hprev Hx Hrep.
  unfold discard_ehandler, with_ep. rewrite Hr, Hprev, Hx, Hrep.
  eexists. split; [reflexivity |].
  unfold SCM_VM_RUNTIME_FLAG_IS_SET, SCM_VM_RUNTIME_FLAG_SET.
  destruct (negb (Z.land (runtimeFlags vm) SCM_ERROR_BEING_REPORTED =? 0)) eqn:E; vm_simpl;
    (split; [reflexivity |]; split; [reflexivity |]); intros ->;
    unfold install_ehandler, SCM_VM_RUNTIME_FLAG_CLEAR; vm_simpl;
    pose proof (flag_clear_set (runtimeFlags vm) k Hk) as Hf;
    rewrite <- Hbit, E in Hf; exact Hf.
Qed.


(* ----------------------------------------------------------------- *)
(** *** Values kept across queued requests *)

(** [for (i=0; i<vm->numVals-1; i++) SCM_APPEND1(h, t, vm->vals[i]);] *)
Fixpoint vals_list (n : nat) (i : nat) (vm : ScmVM) (h : ScmObj) (cell : nat)
  : ScmObj * nat :=
  match n with
  | O => (h, cell)
  | S n' =>
      let (h', cell') := SCM_APPEND1 h (vals vm i) cell in
      vals_list n' (S i) vm h' cell'
  end.

(** [process_queued_requests(vm)] up to and including its
    [Scm_VMPushCC]: the current values are put away in a host
    continuation.  (What follows in the function runs signal handlers
    and finalizers and waits on other threads.) *)
Definition process_queued_requests_push (vm : ScmVM) : outcome unit :=
  let d0 := W_INT (numVals vm) in
  let d1 := W_OBJ (val0 vm) in
  let '(d2, vm1) :=
    if numVals vm >? 1 then
      let (h, cell) := vals_list (Z.to_nat (numVals vm - 1)) 0 vm SCM_NIL (next_cell vm) in
      (W_OBJ h, set_next_cell cell vm)
    else (W_NULL, vm) in
  Scm_VMPushCC CC_process_queued_requests [d0; d1; d2] vm1.

Lemma vals_list_spec (n : nat) :
  forall (i : nat) (vm : ScmVM) (h : ScmObj) (cell : nat),
    elements (fst (vals_list n i vm h cell)) = elements h ++ map (vals vm) (seq i n).
Proof.
  induction n as [| n IH]; intros i vm h cell; cbn [vals_list seq map].
  - rewrite app_nil_r. reflexivity.
  - unfold SCM_APPEND1, Scm_Cons. rewrite IH, elements_append1. cbn [elements].
    rewrite <- app_assoc. reflexivity.
Qed.

Lemma restore_vals_spec (n : nat) :
  forall (i : nat) (cp : ScmObj) (v : nat -> ScmObj) (j : nat),
    restore_vals n i cp v j =
    if (i <=? j)%nat && (j <? i + n)%nat then SCM_CAR (list_tail (j - i) cp) else v j.
Proof.
  induction n as [| n IH]; intros i cp v j; cbn [restore_vals].
  - rewrite Nat.add_0_r.
    destruct (Nat.leb_spec i j), (Nat.ltb_spec j i); cbn [andb]; try reflexivity; lia.
  - rewrite IH. unfold upd_nat.
    destruct (Nat.leb_spec (S i) j), (Nat.ltb_spec j (S i + n));
      destruct (Nat.leb_spec i j), (Nat.ltb_spec j (i + S n)); cbn [andb]; try lia.
    + replace (j - i)%nat with (S (j - S i)) by lia. reflexivity.
    + destruct (Nat.eqb_spec j i); [lia | reflexivity].
    + destruct (Nat.eqb_spec j i); [| lia]. subst j. rewrite Nat.sub_diag. reflexivity.
    + destruct (Nat.eqb_spec j i); [lia | reflexivity].
Qed.

(** The values in force when queued requests are processed are the
    values when processing is over: [process_queued_requests] puts
    [val0], [numVals] and the first [numVals - 1] entries of [vals]
    in a host continuation, and when the handlers have returned to
    that frame, whatever values they left, [RETURN_OP] reinstates
    those. *)
Theorem process_queued_requests_keeps_values (vm : ScmVM)
  (Hwf : eps_wf vm) (Hsp : sp_in_block vm) :
  exists data vm1,
    process_queued_requests_push vm = Returns tt vm1
    /\ pushed CC_process_queued_requests data vm1
    /\ val0 vm1 = val0 vm /\ numVals vm1 = numVals vm /\ vals vm1 = vals vm
    /\ forall vm',
         pushed CC_process_queued_requests data vm' ->
         exists vmF,
           RETURN_OP vm' = Returns false vmF
           /\ val0 vmF = val0 vm /\ numVals vmF = numVals vm
           /\ forall i, Z.of_nat i < numVals vm - 1 -> vals vmF i = vals vm i.
Proof.
  unfold process_queued_requests_push.
  destruct (Z.gtb_spec (numVals vm) 1) as [Hn | Hn].
  - pose proof (vals_list_spec (Z.to_nat (numVals vm - 1)) 0 vm SCM_NIL (next_cell vm))
      as Hl.
    destruct (vals_list (Z.to_nat (numVals vm - 1)) 0 vm SCM_NIL (next_cell vm))
      as [h cell].
    cbn [fst elements app] in Hl.
    destruct (Scm_VMPushCC_spec CC_process_queued_requests
                [W_INT (numVals vm); W_OBJ (val0 vm); W_OBJ h] (set_next_cell cell vm))
      as (vm1 & E & S1 & Hp & _).
    { apply (eps_wf_regs vm); auto. }
    { exact Hsp. }
    eexists _, vm1. split; [exact E |]. split; [exact Hp |].
    split; [apply (st_val0 _ _ S1) |]. split; [apply (st_numVals _ _ S1) |].
    split; [apply (st_vals _ _ S1) |].
    intros vm' Hp'. rewrite (RETURN_OP_ccont _ _ _ Hp'). cbn [CALL_CCONT].
    unfold process_queued_requests_cc. cbn [nth as_int as_obj]. vm_simpl.
    destruct (Z.gtb_spec (numVals vm) 1); [| lia]. cbn [bind].
    eexists. split; [reflexivity |]. vm_simpl.
    split; [reflexivity |]. split; [reflexivity |].
    intros i Hi. rewrite restore_vals_spec. cbn [Nat.leb andb Nat.add].
    destruct (Nat.ltb_spec i (Z.to_nat (numVals vm - 1))); [| lia].
    rewrite Nat.sub_0_r, elements_list_tail by (rewrite Hl, length_map, length_seq; lia).
    rewrite Hl. apply (nth_vals_prefix (Z.to_nat (numVals vm - 1)) i (vals vm)). lia.
  - destruct (Scm_VMPushCC_spec CC_process_queued_requests
                [W_INT (numVals vm); W_OBJ (val0 vm); W_NULL] vm Hwf Hsp)
      as (vm1 & E & S1 & Hp & _).
    eexists _, vm1. split; [exact E |]. split; [exact Hp |].
    split; [apply (st_val0 _ _ S1) |]. split; [apply (st_numVals _ _ S1) |].
    split; [apply (st_vals _ _ S1) |].
    intros vm' Hp'. rewrite (RETURN_OP_ccont _ _ _ Hp'). cbn [CALL_CCONT].
    unfold process_queued_requests_cc. cbn [nth as_int as_obj]. vm_simpl.
    destruct (Z.gtb_spec (numVals vm) 1); [lia |]. cbn [bind].
    eexists. split; [reflexivity |]. vm_simpl.
    split; [reflexivity |]. split; [reflexivity |].
    intros i Hi. lia.
Qed.


(* ----------------------------------------------------------------- *)
(** *** Throwing to a continuation *)

(** What [throw_cont_body] delivers once no handler is left to call,
    for an escape point that belongs to a host-stack record.  The
    target continuation and handler list are installed; then two or
    more arguments below the cap are handed over exactly as
    [Scm_VMValues] hands over the same list in that state (same value
    returned, same [vals], same [numVals]); one argument is returned
    and [numVals] not written; no argument gives the unspecified value,
    [numVals] not written either; and from the cap on the error "too
    many values passed to the continuation" is raised. *)
Theorem throw_cont_body_delivers (vm : ScmVM) (ep : nat) (r : ScmEscapePoint) (k : nat)
  (hs args : ScmObj)
  (Hep : nth_error (eps vm) ep = Some r) (Hcs : ep_cstack r = Some k)
  (Hhs : SCM_PAIRP hs = false) :
  (2 <= Scm_Length args < SCM_VM_MAX_VALUES ->
     throw_cont_body hs ep args vm = Scm_VMValues (installed r vm) args)
  /\ (Scm_Length args = 1 ->
        throw_cont_body hs ep args vm = Returns (SCM_CAR args) (installed r vm))
  /\ (Scm_Length args < 1 ->
        throw_cont_body hs ep args vm = Returns SCM_UNDEFINED (installed r vm))
  /\ (2 <= Scm_Length args -> SCM_VM_MAX_VALUES <= Scm_Length args ->
        throw_cont_body hs ep args vm =
        Raises "too many values passed to the continuation" [] (installed r vm)).
Proof.
  destruct (throw_cont_body_spec vm ep r k hs args Hep Hcs Hhs) as (H1 & H0 & Hcap & _).
  split; [| split; [exact H1 | split; [exact H0 | exact Hcap]]].
  intros (Hlo & Hhi).
  (* the side of [throw_cont_body] *)
  unfold throw_cont_body, with_ep. rewrite Hhs, Hep, Hcs. cbn [bind]. rewrite Hep.
  fold (installed r vm).
  destruct (Z.eqb_spec (Scm_Length args) 1); [lia |].
  destruct (Z.ltb_spec (Scm_Length args) 1); [lia |].
  destruct (Z.geb_spec (Scm_Length args) SCM_VM_MAX_VALUES); [lia |].
  (* the side of [Scm_VMValues] *)
  assert (Hlen : Scm_Length (SCM_CDR args) = Scm_Length args - 1)
    by (apply Scm_Length_CDR; lia).
  assert (Hel : Z.of_nat (List.length (elements (SCM_CDR args))) = Scm_Length args - 1)
    by (rewrite <- Scm_Length_elements; lia).
  unfold Scm_VMValues. rewrite (Scm_Length_pair args) by lia. cbn [negb].
  rewrite values_loop_fits by lia. cbn [bind].
  change (Z.to_nat (1 - 1)) with 0%nat.
  replace (1 + Z.of_nat (List.length (elements (SCM_CDR args)))) with (Scm_Length args) by lia.
  reflexivity.
Qed.

Lemma existsb_addr (k : nat) (l : list ScmCStack) :
  existsb (fun cs => Nat.eqb (cs_addr cs) k) l = true <-> In k (map cs_addr l).
Proof.
  rewrite existsb_exists, in_map_iff. split.
  - intros (cs & Hin & E). apply Nat.eqb_eq in E. exists cs. auto.
  - intros (cs & E & Hin). exists cs. split; [exact Hin | apply Nat.eqb_eq; exact E].
Qed.

(** [throw_continuation] leaves by [siglongjmp] exactly when the
    host-stack record of the continuation is in the chain of
    [vm->cstack] below its head; the jump then carries the reason
    [SCM_VM_ESCAPE_CONT], the escape point and the arguments, and
    nothing else of the VM is changed.  In every other case no jump is
    made. *)
Theorem throw_continuation_jumps (vm : ScmVM) (ep : nat) (r : ScmEscapePoint) (args : ScmObj)
  (Hep : nth_error (eps vm) ep = Some r) :
  let deeper :=
    exists k, ep_cstack r = Some k /\ cstack_ptr vm <> Some k
              /\ In k (map cs_addr (cstack vm)) in
  (deeper ->
     throw_continuation args ep vm =
     LongJmp (set_escapeData1 args
                (set_escapeData0 (Some ep) (set_escapeReason SCM_VM_ESCAPE_CONT vm))))
  /\ (jumps (throw_continuation args ep vm) -> deeper).
Proof.
  cbv zeta. unfold throw_continuation, with_ep. rewrite Hep.
  split.
  - intros (k & Hk & Hne & Hin). rewrite Hk.
    assert (E : opt_nat_eqb (cstack_ptr vm) (Some k) = false).
    { destruct (cstack_ptr vm) as [x |]; [| reflexivity]. cbn [opt_nat_eqb].
      apply Nat.eqb_neq. intros ->. apply Hne. reflexivity. }
    rewrite E. cbn [negb]. apply existsb_addr in Hin. rewrite Hin. reflexivity.
  - destruct (ep_cstack r) as [k |].
    + destruct (negb (opt_nat_eqb (cstack_ptr vm) (Some k))) eqn:E.
      * destruct (existsb _ (cstack vm)) eqn:Hex.
        -- intros _. exists k. split; [reflexivity |]. split.
           ++ intros Heq. rewrite Heq in E. cbn [opt_nat_eqb] in E.
              rewrite Nat.eqb_refl in E. discriminate.
           ++ apply existsb_addr. exact Hex.
        -- intros Hj. exfalso. revert Hj. apply bind_no_jump.
           ++ apply throw_cont_calculate_handlers_no_jump.
           ++ intros hs vm1. apply throw_cont_body_no_jump.
      * intros Hj. exfalso. revert Hj. apply bind_no_jump.
        -- apply throw_cont_calculate_handlers_no_jump.
        -- intros hs vm1. apply throw_cont_body_no_jump.
    + intros Hj. exfalso. revert Hj. apply bind_no_jump.
      * apply throw_cont_calculate_handlers_no_jump.
      * intros hs vm1. apply throw_cont_body_no_jump.
Qed.


(* ----------------------------------------------------------------- *)
(** *** Escaping outward and re-entering *)

Lemma elements_list_tail_incl (n : nat) :
  forall l a, In a (elements (list_tail n l)) -> In a (elements l).
Proof.
  induction n as [| n IH]; intros l a H; [exact H |].
  cbn [list_tail] in H. apply IH in H.
  destruct l; cbn [SCM_CDR elements] in *; try contradiction. right. exact H.
Qed.

Lemma present_false_iff (a l : ScmObj) : present a l = false <-> ~ In a (elements l).
Proof.
  rewrite <- present_In. destruct (present a l); split; intros H; try reflexivity;
    try discriminate; try (intros E; discriminate). exfalso. apply H. reflexivity.
Qed.

Lemma leaving_outward (n : nat) :
  forall current target,
    target = list_tail n current ->
    (n <= List.length (elements current))%nat ->
    (forall a, In a (firstn n (elements current)) -> present a target = false) ->
    leaving current target = firstn n (cells current).
Proof.
  induction n as [| n IH]; intros current target Ht Hlen Hnew.
  - cbn [list_tail] in Ht. subst target. cbn [firstn]. apply leaving_same.
  - destruct current as [| | | | ? | ? | ? ? ? | ? ? | k a d];
      cbn [elements List.length] in Hlen; try lia.
    cbn [leaving cells firstn list_tail SCM_CDR elements] in *.
    rewrite (Hnew a) by (left; reflexivity).
    f_equal. apply IH; [exact Ht | lia |].
    intros b Hb. apply Hnew. right. exact Hb.
Qed.

(** Throwing to a continuation captured further out - its handler list
    is the current one without its first [n] cells, and none of those
    [n] entries is in it - calls the after thunks of those [n] cells,
    innermost first, each on the list below its cell, and no before
    thunk. *)
Theorem throw_outward (vm : ScmVM) (ep : nat) (r : ScmEscapePoint) (n : nat)
  (Hep : nth_error (eps vm) ep = Some r)
  (HC : handler_list (handlers vm))
  (Htail : ep_handlers r = list_tail n (handlers vm))
  (Hlen : (n <= List.length (elements (handlers vm)))%nat)
  (Hnew : forall a, In a (firstn n (elements (handlers vm))) ->
            ~ In a (elements (ep_handlers r))) :
  exists h cell,
    throw_cont_calculate_handlers ep vm = Returns h (set_next_cell cell vm)
    /\ entries h =
       map (fun p => (SCM_CDAR p, SCM_CDR p)) (firstn n (cells (handlers vm))).
Proof.
  assert (HT : handler_list (ep_handlers r)).
  { unfold handler_list in *. rewrite Forall_forall in *. intros a Ha.
    apply HC. rewrite Htail in Ha. eapply elements_list_tail_incl; eauto. }
  destruct (throw_cont_calculate_handlers_spec vm ep r Hep HC HT) as (h & cell & Hh & Hent).
  exists h, cell. split; [exact Hh |]. rewrite Hent.
  assert (Hb : before_calls (handlers vm) (ep_handlers r) = []).
  { unfold before_calls. rewrite filter_none; [reflexivity |].
    intros a Ha. apply in_rev in Ha. rewrite Htail in Ha.
    apply elements_list_tail_incl in Ha. apply present_In in Ha. rewrite Ha. reflexivity. }
  rewrite Hb, app_nil_r. unfold after_calls. f_equal.
  apply leaving_outward; [exact Htail | exact Hlen |].
  intros a Ha. apply present_false_iff. apply Hnew. exact Ha.
Qed.

Lemma elements_list_tail_atom (n : nat) :
  forall l, SCM_PAIRP l = false -> elements (list_tail n l) = [].
Proof.
  induction n as [| n IH]; intros l Hl.
  - destruct l; try discriminate; reflexivity.
  - cbn [list_tail]. apply IH. destruct l; try discriminate; reflexivity.
Qed.

Lemma elements_firstn_tail (n : nat) :
  forall l, elements l = firstn n (elements l) ++ elements (list_tail n l).
Proof.
  induction n as [| n IH]; intros l; [reflexivity |].
  destruct (SCM_PAIRP l) eqn:Hl.
  - destruct l; try discriminate.
    cbn [elements firstn list_tail SCM_CDR app]. f_equal. apply IH.
  - rewrite elements_list_tail_atom by exact Hl.
    destruct l; try discriminate; reflexivity.
Qed.

Lemma filter_all {A : Type} (f : A -> bool) (l : list A) :
  (forall x, In x l -> f x = true) -> filter f l = l.
Proof.
  induction l as [| x l IH]; intros H; cbn [filter]; [reflexivity |].
  rewrite (H x) by (left; reflexivity). f_equal. apply IH.
  intros y Hy. apply H. right. exact Hy.
Qed.

(** Throwing to a continuation captured further in - the current
    handler list is the target one without its first [n] cells, and
    none of those [n] entries is in it - calls the before thunks of
    those [n] cells, outermost first, each on the part of the target
    list below its cell, and no after thunk. *)
Theorem throw_inward (vm : ScmVM) (ep : nat) (r : ScmEscapePoint) (n : nat)
  (Hep : nth_error (eps vm) ep = Some r)
  (HT : handler_list (ep_handlers r))
  (Htail : handlers vm = list_tail n (ep_handlers r))
  (Hnew : forall a, In a (firstn n (elements (ep_handlers r))) ->
            ~ In a (elements (handlers vm))) :
  exists h cell,
    throw_cont_calculate_handlers ep vm = Returns h (set_next_cell cell vm)
    /\ entries h =
       map (fun a => (SCM_CAR a, SCM_CDR (Scm_Memq a (ep_handlers r))))
           (rev (firstn n (elements (ep_handlers r)))).
Proof.
  assert (HC : handler_list (handlers vm)).
  { unfold handler_list in *. rewrite Forall_forall in *. intros a Ha.
    apply HT. rewrite Htail in Ha. eapply elements_list_tail_incl; eauto. }
  destruct (throw_cont_calculate_handlers_spec vm ep r Hep HC HT) as (h & cell & Hh & Hent).
  exists h, cell. split; [exact Hh |]. rewrite Hent.
  assert (Ha : after_calls (handlers vm) (ep_handlers r) = []).
  { unfold after_calls.
    destruct (handlers vm) as [| | | | ? | ? | ? ? ? | ? ? | k a d] eqn:E; try reflexivity.
    cbn [leaving].
    assert (Hin : In a (elements (ep_handlers r))).
    { apply (elements_list_tail_incl n). rewrite <- Htail. left. reflexivity. }
    apply present_In in Hin. rewrite Hin. reflexivity. }
  rewrite Ha. cbn [app]. unfold before_calls. f_equal.
  rewrite (elements_firstn_tail n (ep_handlers r)) at 1.
  rewrite rev_app_distr, filter_app, <- Htail.
  rewrite filter_none, filter_all; [reflexivity | |].
  - intros a Hin. apply in_rev in Hin. apply Hnew in Hin.
    apply present_false_iff in Hin. rewrite Hin. reflexivity.
  - intros a Hin. apply in_rev in Hin. apply present_In in Hin. rewrite Hin. reflexivity.
Qed.


(* ----------------------------------------------------------------- *)
(** *** Applying a procedure to arguments on the stack *)

(** [Scm_VMApply2(proc, arg1, arg2)] *)
Definition Scm_VMApply2 (proc arg1 arg2 : ScmObj) (vm : ScmVM) : outcome ScmObj :=
  bind (lift tt (CHECK_STACK 2 vm))
    (fun _ vm1 =>
       Returns proc (set_pc (apply_calls 2) (PUSH_ARG arg2 (PUSH_ARG arg1 vm1)))).

(** [Scm_VMApply3(proc, arg1, arg2, arg3)] *)
Definition Scm_VMApply3 (proc arg1 arg2 arg3 : ScmObj) (vm : ScmVM) : outcome ScmObj :=
  bind (lift tt (CHECK_STACK 3 vm))
    (fun _ vm1 =>
       Returns proc
         (set_pc (apply_calls 3) (PUSH_ARG arg3 (PUSH_ARG arg2 (PUSH_ARG arg1 vm1))))).

(** [Scm_VMApply4(proc, arg1, arg2, arg3, arg4)] *)
Definition Scm_VMApply4 (proc arg1 arg2 arg3 arg4 : ScmObj) (vm : ScmVM) : outcome ScmObj :=
  bind (lift tt (CHECK_STACK 4 vm))
    (fun _ vm1 =>
       Returns proc
         (set_pc (apply_calls 4)
            (PUSH_ARG arg4 (PUSH_ARG arg3 (PUSH_ARG arg2 (PUSH_ARG arg1 vm1)))))).

(** The argument block under construction: the words from [argp] up
    to [sp]. *)
Definition arg_block (vm : ScmVM) : list word :=
  load_words (Z.to_nat (ptr_diff (sp vm) (argp vm))) (argp vm) (words vm).

Lemma load_words_snoc (n : nat) :
  forall (p : ptr) (w : ptr -> word),
    load_words (S n) p w = load_words n p w ++ [w (ptr_add p (Z.of_nat n))].
Proof.
  induction n as [| n IH]; intros p w.
  - cbn [load_words app]. rewrite ptr_add_0. reflexivity.
  - change (load_words (S (S n)) p w) with (w p :: load_words (S n) (ptr_add p 1) w).
    rewrite IH. cbn [load_words app]. rewrite ptr_add_add.
    replace (1 + Z.of_nat n) with (Z.of_nat (S n)) by lia. reflexivity.
Qed.

Lemma load_words_moved (n : nat) :
  forall (a a' : Z) (w w' : ptr -> word),
    (forall i, 0 <= i < Z.of_nat n -> w' (STACK (a' + i)) = w (STACK (a + i))) ->
    load_words n (STACK a') w' = load_words n (STACK a) w.
Proof.
  induction n as [| n IH]; intros a a' w w' H; cbn [load_words ptr_add]; [reflexivity |].
  f_equal.
  - specialize (H 0 ltac:(lia)). rewrite !Z.add_0_r in H. exact H.
  - apply IH. intros i Hi. specialize (H (1 + i) ltac:(lia)).
    rewrite !Z.add_assoc in H. exact H.
Qed.

Lemma arg_block_PUSH_ARG (x : ScmObj) (vm : ScmVM) (s a : Z) :
  sp vm = STACK s -> argp vm = STACK a -> a <= s ->
  arg_block (PUSH_ARG x vm) = arg_block vm ++ [W_OBJ x]
  /\ sp (PUSH_ARG x vm) = STACK (s + 1) /\ argp (PUSH_ARG x vm) = STACK a.
Proof.
  intros Hsp Hargp Hle. unfold arg_block, PUSH_ARG. vm_simpl.
  rewrite Hsp, Hargp. cbn [ptr_diff ptr_add].
  split; [| split; reflexivity].
  replace (Z.to_nat (s + 1 - a)) with (S (Z.to_nat (s - a))) by lia.
  rewrite load_words_snoc. cbn [ptr_add]. rewrite Z2Nat.id by lia.
  replace (a + (s - a)) with s by lia. rewrite upd_same. f_equal.
  apply load_words_ext. intros i Hi. cbn [ptr_add]. apply upd_other.
  intros E. injection E. lia.
Qed.

Lemma arg_block_CHECK_STACK (size : Z) (vm : ScmVM) (s a : Z) :
  eps_wf vm -> sp vm = STACK s -> argp vm = STACK a -> 0 <= a <= s ->
  (s - a) + size < SCM_VM_STACK_SIZE ->
  exists vm' s' a',
    CHECK_STACK size vm = Some vm'
    /\ sp vm' = STACK s' /\ argp vm' = STACK a' /\ 0 <= a' <= s'
    /\ s' + size < SCM_VM_STACK_SIZE
    /\ arg_block vm' = arg_block vm.
Proof.
  intros Hwf Hsp Hargp Hblock Hfits.
  destruct (Z.lt_ge_cases (s + size) SCM_VM_STACK_SIZE) as [Hroom | Hfull].
  - exists vm, s, a. rewrite (CHECK_STACK_keeps size vm s Hsp Hroom).
    split; [reflexivity |]. split; [exact Hsp |]. split; [exact Hargp |].
    split; [lia |]. split; [exact Hroom | reflexivity].
  - destruct (CHECK_STACK_saves size vm s a Hwf Hsp Hargp Hfull)
      as (vm' & Hc & Hsp' & Hargp' & Hw & _).
    exists vm', (s - a), 0. split; [exact Hc |]. split; [exact Hsp' |].
    split; [exact Hargp' |]. split; [lia |]. split; [lia |].
    unfold arg_block. rewrite Hsp, Hargp, Hsp', Hargp'. cbn [ptr_diff].
    replace (s - a - 0) with (s - a) by lia.
    apply load_words_moved. intros i Hi. rewrite Z.add_0_l. apply Hw. lia.
Qed.

(** [Scm_VMApply1] to [Scm_VMApply4] add their arguments, in order, to
    the end of the argument block under construction and leave the
    matching call in [pc]; the block as it was comes first, and the
    stack pointer stays within the stack, as long as the block and
    four more words fit in the stack. *)
Theorem Scm_VMApplyN_pushes (proc x1 x2 x3 x4 : ScmObj) (vm : ScmVM) (s a : Z)
  (Hwf : eps_wf vm) (Hsp : sp vm = STACK s) (Hargp : argp vm = STACK a)
  (Hblock : 0 <= a <= s) (Hfits : (s - a) + 4 < SCM_VM_STACK_SIZE) :
  (exists vm', Scm_VMApply1 proc x1 vm = Returns proc vm'
     /\ pc vm' = apply_calls 1
     /\ arg_block vm' = arg_block vm ++ [W_OBJ x1]
     /\ IN_STACK_P (sp vm') = true)
  /\ (exists vm', Scm_VMApply2 proc x1 x2 vm = Returns proc vm'
        /\ pc vm' = apply_calls 2
        /\ arg_block vm' = arg_block vm ++ [W_OBJ x1; W_OBJ x2]
        /\ IN_STACK_P (sp vm') = true)
  /\ (exists vm', Scm_VMApply3 proc x1 x2 x3 vm = Returns proc vm'
        /\ pc vm' = apply_calls 3
        /\ arg_block vm' = arg_block vm ++ [W_OBJ x1; W_OBJ x2; W_OBJ x3]
        /\ IN_STACK_P (sp vm') = true)
  /\ (exists vm', Scm_VMApply4 proc x1 x2 x3 x4 vm = Returns proc vm'
        /\ pc vm' = apply_calls 4
        /\ arg_block vm' = arg_block vm ++ [W_OBJ x1; W_OBJ x2; W_OBJ x3; W_OBJ x4]
        /\ IN_STACK_P (sp vm') = true).
Proof.
  assert (Hin : forall z, 0 <= z < SCM_VM_STACK_SIZE -> IN_STACK_P (STACK z) = true).
  { intros z Hz. cbn [IN_STACK_P].
    destruct (Z.leb_spec 0 z); [| lia]. destruct (Z.ltb_spec z SCM_VM_STACK_SIZE); [| lia].
    reflexivity. }
  split; [| split; [| split]].
  - destruct (arg_block_CHECK_STACK 1 vm s a Hwf Hsp Hargp Hblock ltac:(lia))
      as (vm1 & s1 & a1 & Hc & Hs1 & Ha1 & Hr1 & Hroom & Hb).
    unfold Scm_VMApply1. rewrite Hc. cbn [lift bind]. eexists. split; [reflexivity |].
    split; [reflexivity |].
    destruct (arg_block_PUSH_ARG x1 vm1 s1 a1 Hs1 Ha1 ltac:(lia)) as (B1 & S1 & A1).
    change (arg_block (set_pc (apply_calls 1) (PUSH_ARG x1 vm1)))
      with (arg_block (PUSH_ARG x1 vm1)).
    rewrite B1, Hb. split; [reflexivity |].
    change (sp (set_pc (apply_calls 1) (PUSH_ARG x1 vm1))) with (sp (PUSH_ARG x1 vm1)).
    rewrite S1. apply Hin. lia.
  - destruct (arg_block_CHECK_STACK 2 vm s a Hwf Hsp Hargp Hblock ltac:(lia))
      as (vm1 & s1 & a1 & Hc & Hs1 & Ha1 & Hr1 & Hroom & Hb).
    unfold Scm_VMApply2. rewrite Hc. cbn [lift bind]. eexists. split; [reflexivity |].
    split; [reflexivity |].
    destruct (arg_block_PUSH_ARG x1 vm1 s1 a1 Hs1 Ha1 ltac:(lia)) as (B1 & S1 & A1).
    destruct (arg_block_PUSH_ARG x2 _ _ _ S1 A1 ltac:(lia)) as (B2 & S2 & A2).
    change (arg_block (set_pc (apply_calls 2) ?v)) with (arg_block v).
    change (sp (set_pc (apply_calls 2) ?v)) with (sp v).
    rewrite B2, B1, Hb, <- app_assoc. split; [reflexivity |].
    rewrite S2. apply Hin. lia.
  - destruct (arg_block_CHECK_STACK 3 vm s a Hwf Hsp Hargp Hblock ltac:(lia))
      as (vm1 & s1 & a1 & Hc & Hs1 & Ha1 & Hr1 & Hroom & Hb).
    unfold Scm_VMApply3. rewrite Hc. cbn [lift bind]. eexists. split; [reflexivity |].
    split; [reflexivity |].
    destruct (arg_block_PUSH_ARG x1 vm1 s1 a1 Hs1 Ha1 ltac:(lia)) as (B1 & S1 & A1).
    destruct (arg_block_PUSH_ARG x2 _ _ _ S1 A1 ltac:(lia)) as (B2 & S2 & A2).
    destruct (arg_block_PUSH_ARG x3 _ _ _ S2 A2 ltac:(lia)) as (B3 & S3 & A3).
    change (arg_block (set_pc (apply_calls 3) ?v)) with (arg_block v).
    change (sp (set_pc (apply_calls 3) ?v)) with (sp v).
    rewrite B3, B2, B1, Hb, <- !app_assoc. split; [reflexivity |].
    rewrite S3. apply Hin. lia.
  - destruct (arg_block_CHECK_STACK 4 vm s a Hwf Hsp Hargp Hblock ltac:(lia))
      as (vm1 & s1 & a1 & Hc & Hs1 & Ha1 & Hr1 & Hroom & Hb).
    unfold Scm_VMApply4. rewrite Hc. cbn [lift bind]. eexists. split; [reflexivity |].
    split; [reflexivity |].
    destruct (arg_block_PUSH_ARG x1 vm1 s1 a1 Hs1 Ha1 ltac:(lia)) as (B1 & S1 & A1).
    destruct (arg_block_PUSH_ARG x2 _ _ _ S1 A1 ltac:(lia)) as (B2 & S2 & A2).
    destruct (arg_block_PUSH_ARG x3 _ _ _ S2 A2 ltac:(lia)) as (B3 & S3 & A3).
    destruct (arg_block_PUSH_ARG x4 _ _ _ S3 A3 ltac:(lia)) as (B4 & S4 & A4).
    change (arg_block (set_pc (apply_calls 4) ?v)) with (arg_block v).
    change (sp (set_pc (apply_calls 4) ?v)) with (sp v).
    rewrite B4, B3, B2, B1, Hb, <- !app_assoc. split; [reflexivity |].
    rewrite S4. apply Hin. lia.
Qed.


(* ----------------------------------------------------------------- *)
(** *** The default exception handler under an escape point *)

(** The state in which the error handler of the escape point [ep] is
    called: [ep] is popped and kept floating, and a host-stack record
    protects the call. *)
Definition error_handler_entry (ep : nat) (r : ScmEscapePoint) (vm : ScmVM) : ScmVM :=
  Scm_VMUnwindProtect (SCM_VM_FLOATING_EP_SET (Some ep) (set_escapePoint (ep_prev r) vm)).

Lemma install_rvals_spec (n : nat) :
  forall (i : nat) (rvals : list ScmObj) (v : nat -> ScmObj) (j : nat),
    install_rvals n i rvals v j =
    if (i <=? j)%nat && (j <? i + n)%nat then nth j rvals SCM_UNBOUND else v j.
Proof.
  induction n as [| n IH]; intros i rvals v j; cbn [install_rvals].
  - rewrite Nat.add_0_r.
    destruct (Nat.leb_spec i j), (Nat.ltb_spec j i); cbn [andb]; try reflexivity; lia.
  - rewrite IH. unfold upd_nat.
    destruct (Nat.leb_spec (S i) j), (Nat.ltb_spec j (S i + n));
      destruct (Nat.leb_spec i j), (Nat.ltb_spec j (i + S n)); cbn [andb]; try lia;
      try reflexivity.
    + destruct (Nat.eqb_spec j i); [lia | reflexivity].
    + destruct (Nat.eqb_spec j i); [subst j; reflexivity | lia].
    + destruct (Nat.eqb_spec j i); [lia | reflexivity].
Qed.

Lemma rewind_handlers_same (fuel : nat) (h : ScmObj) (vm : ScmVM) :
  rewind_handlers fuel h h vm = Returns tt vm.
Proof.
  destruct h; try reflexivity. unfold rewind_handlers. rewrite SCM_EQ_refl. reflexivity.
Qed.

Lemma FLOATING_EP_SET_regs (f : option nat) (vm : ScmVM) :
  let vm' := SCM_VM_FLOATING_EP_SET f vm in
  val0 vm' = val0 vm /\ vals vm' = vals vm /\ numVals vm' = numVals vm
  /\ cont vm' = cont vm /\ handlers vm' = handlers vm /\ cstack vm' = cstack vm
  /\ escapePoint vm' = escapePoint vm /\ runtimeFlags vm' = runtimeFlags vm
  /\ sp vm' = sp vm /\ argp vm' = argp vm /\ env vm' = env vm /\ pc vm' = pc vm.
Proof.
  unfold SCM_VM_FLOATING_EP_SET.
  destruct (escapePoint vm) as [i |] eqn:E; [destruct (nth_error (eps vm) i) |];
    cbn zeta; vm_simpl; rewrite ?E; repeat split; reflexivity.
Qed.

(** With an escape point installed by [with-error-handler], and no
    dynamic handler to rewind, [Scm_VMDefaultExceptionHandler] calls
    the error handler of that point on the condition, in a state where
    the point is popped; when the handler returns, its value and its
    multiple values become those of the VM, the continuation of the
    escape point is installed, the protecting host-stack record is
    dropped, and control leaves by [siglongjmp] to the record below
    with the reason [SCM_VM_ESCAPE_ERROR], the escape point and the
    condition as data - or by [exit(EX_SOFTWARE)] if there is none. *)
Theorem Scm_VMDefaultExceptionHandler_escape_point (fuel : nat) (e : ScmObj) (vm : ScmVM)
  (ep : nat) (r r' : ScmEscapePoint) (result : ScmObj) (vm5 : ScmVM)
  (cs : ScmCStack) (rest : list ScmCStack)
  (Hcur : escapePoint vm = Some ep)
  (Hep : nth_error (eps vm) ep = Some r)
  (Hrewind : (if ep_rewindBefore r then handlers vm else handlers vm5) = ep_handlers r)
  (Hcall : let vm4 := error_handler_entry ep r vm in
           Scm_ApplyRec fuel (ep_ehandler r) (SCM_PAIR (next_cell vm4) e SCM_NIL)
             (set_next_cell (S (next_cell vm4)) vm4) = Returns result vm5)
  (Hcs : cstack vm5 = cs :: rest)
  (Hep' : nth_error (eps vm5) ep = Some r') :
  escapePoint (error_handler_entry ep r vm) = ep_prev r
  /\ exists vmF,
      Scm_VMDefaultExceptionHandler fuel e vm =
      match rest with
      | [] => Exits EX_SOFTWARE
      | _ :: _ => LongJmp vmF
      end
      /\ val0 vmF = result
      /\ numVals vmF = numVals vm5
      /\ (forall i, Z.of_nat i < numVals vm5 - 1 -> vals vmF i = vals vm5 i)
      /\ cont vmF = ep_cont r'
      /\ cstack vmF = rest
      /\ escapePoint vmF = escapePoint vm5
      /\ handlers vmF = handlers vm5
      /\ escapeReason vmF = SCM_VM_ESCAPE_ERROR
      /\ escapeData0 vmF = Some ep
      /\ escapeData1 vmF = e.
Proof.
  cbn zeta in Hcall.
  split.
  { unfold error_handler_entry, Scm_VMUnwindProtect. vm_simpl.
    destruct (FLOATING_EP_SET_regs (Some ep) (set_escapePoint (ep_prev r) vm))
      as (_ & _ & _ & _ & _ & _ & E & _).
    rewrite E. reflexivity. }
  set (vm7 := set_cstack rest vm5).
  set (n := numVals vm5).
  set (rvals := if n >? 1 then vals_prefix (Z.to_nat (n - 1)) (vals vm5) else []).
  set (vm10 := set_cont (ep_cont r')
                 (set_val0 result
                    (set_numVals n
                       (set_vals (install_rvals (Z.to_nat n) 0 rvals (vals vm7)) vm7)))).
  set (vm11 := SCM_VM_FLOATING_EP_SET (ep_floating r') vm10).
  set (vm12 := if ep_errorReporting r'
               then SCM_VM_RUNTIME_FLAG_SET SCM_ERROR_BEING_REPORTED vm11 else vm11).
  exists (set_escapeData1 e
            (set_escapeData0 (Some ep) (set_escapeReason SCM_VM_ESCAPE_ERROR vm12))).
  destruct (FLOATING_EP_SET_regs (ep_floating r') vm10)
    as (F0 & Fv & Fn & Fc & Fh & Fcs & Fe & _).
  fold vm11 in F0, Fv, Fn, Fc, Fh, Fcs, Fe.
  assert (R12 : val0 vm12 = val0 vm11 /\ vals vm12 = vals vm11 /\ numVals vm12 = numVals vm11
                /\ cont vm12 = cont vm11 /\ handlers vm12 = handlers vm11
                /\ cstack vm12 = cstack vm11 /\ escapePoint vm12 = escapePoint vm11).
  { unfold vm12. destruct (ep_errorReporting r'); repeat split; reflexivity. }
  destruct R12 as (G0 & Gv & Gn & Gc & Gh & Gcs & Ge).
  split.
  - unfold Scm_VMDefaultExceptionHandler. rewrite Hcur. unfold with_ep at 1. rewrite Hep.
    assert (Hpre : (if ep_rewindBefore r
                    then rewind_handlers fuel (handlers vm) (ep_handlers r) vm
                    else Returns tt vm) = Returns tt vm).
    { destruct (ep_rewindBefore r); [| reflexivity].
      rewrite Hrewind. apply rewind_handlers_same. }
    rewrite Hpre. cbn [bind].
    fold (error_handler_entry ep r vm).
    unfold SCM_LIST1, Scm_Cons. rewrite Hcall. cbn [bind].
    assert (Hpost : (if negb (ep_rewindBefore r)
                     then rewind_handlers fuel (handlers vm5) (ep_handlers r) vm5
                     else Returns tt vm5) = Returns tt vm5).
    { destruct (ep_rewindBefore r); [reflexivity |]. cbn [negb].
      rewrite Hrewind. apply rewind_handlers_same. }
    rewrite Hpost. cbn [bind].
    unfold Scm_VMRewindProtect. rewrite Hcs. cbn [bind].
    fold vm7. unfold with_ep. change (eps vm7) with (eps vm5). rewrite Hep'.
    fold n. fold rvals. fold vm10. fold vm11. fold vm12.
    unfold default_handler_escape. rewrite Gcs, Fcs. change (cstack vm10) with rest.
    destruct rest; reflexivity.
  - vm_simpl. rewrite G0, F0, Gn, Fn, Gv, Fv, Gc, Fc, Gcs, Fcs, Ge, Fe, Gh, Fh.
    unfold vm10, vm7. vm_simpl.
    repeat split.
    intros i Hi. rewrite install_rvals_spec. cbn [Nat.leb andb Nat.add].
    destruct (Nat.ltb_spec i (Z.to_nat n)); [| lia].
    unfold rvals. destruct (Z.gtb_spec n 1); [| lia].
    apply nth_vals_prefix. lia.
Qed.

(* ----------------------------------------------------------------- *)
(** *** Environment frames moved to the heap *)

(** [env_chain vm e l t]: from [e], following [up], the frames [l] lie
    in the stack and are not forwarded, and [t] is the first pointer
    that is not in the stack. *)
Inductive env_chain (vm : ScmVM) : ptr -> list ptr -> ptr -> Prop :=
| env_chain_end (t : ptr) :
    IN_STACK_P t = false -> env_chain vm t [] t
| env_chain_cons (e : ptr) (l : list ptr) (t : ptr) :
    IN_STACK_P e = true -> 0 <= e_size (envs vm e) ->
    env_chain vm (e_up (envs vm e)) l t ->
    env_chain vm e (e :: l) t.

(** What [save_env] has done with the frame [p] of the chain: [p] is
    a forwarding frame that points to a frame in a new block, which
    has the size and the info of [p], below it the words that were
    below [p], and above it the copy of the frame that followed [p],
    or that frame itself when it was not in the stack. *)
Definition env_moved (vm vm' : ScmVM) (p : ptr) : Prop :=
  let size := e_size (envs vm p) in
  exists b,
    envs vm' p = mkEnv (HEAP b size) SCM_FALSE (-1)
    /\ (next_block vm <= b < next_block vm')%nat
    /\ e_size (envs vm' (HEAP b size)) = size
    /\ e_info (envs vm' (HEAP b size)) = e_info (envs vm p)
    /\ e_up (envs vm' (HEAP b size)) =
       (if IN_STACK_P (e_up (envs vm p)) then e_up (envs vm' (e_up (envs vm p)))
        else e_up (envs vm p))
    /\ forall j, 0 <= j < size ->
         words vm' (ptr_add (HEAP b size) (j - size)) = words vm (ptr_add p (j - size)).

Definition env_prev (vm : ScmVM) (prev : ptr) : Prop :=
  prev = NULL \/ exists b o, prev = HEAP b o /\ (b < next_block vm)%nat.

Lemma env_chain_In (vm : ScmVM) (e : ptr) (l : list ptr) (t : ptr) :
  env_chain vm e l t -> forall p, In p l -> IN_STACK_P p = true.
Proof.
  induction 1 as [| e l t He Hs Hch IH]; intros p Hp; [contradiction |].
  destruct Hp as [<- | Hp]; auto.
Qed.

Lemma env_chain_ext (vm vm1 : ScmVM) (e : ptr) (l : list ptr) (t : ptr) :
  env_chain vm e l t ->
  (forall p, In p l -> envs vm1 p = envs vm p) ->
  env_chain vm1 e l t.
Proof.
  induction 1 as [| e l t He Hs Hch IH]; intros Hext; constructor; auto.
  - rewrite Hext by (left; reflexivity). exact Hs.
  - rewrite Hext by (left; reflexivity).
    apply IH. intros p Hp. apply Hext. right. exact Hp.
Qed.

Lemma env_chain_det (vm : ScmVM) (e : ptr) (l1 : list ptr) (t1 : ptr) :
  env_chain vm e l1 t1 -> forall l2 t2, env_chain vm e l2 t2 -> l1 = l2.
Proof.
  induction 1 as [t Ht | e l t He Hs Hch IH]; intros l2 t2 H2; inversion H2; subst;
    try congruence.
  f_equal. eapply IH. eassumption.
Qed.

Lemma env_chain_suffix (vm : ScmVM) (e : ptr) (l : list ptr) (t : ptr) :
  env_chain vm e l t -> forall p, In p l ->
  exists l', env_chain vm p (p :: l') t /\ (List.length (p :: l') <= List.length l)%nat.
Proof.
  induction 1 as [t Ht | e l t He Hs Hch IH]; intros p Hin; [contradiction |].
  destruct Hin as [-> | Hin].
  - exists l. split; [constructor; auto | simpl; lia].
  - destruct (IH p Hin) as (l' & H1 & H2). exists l'. split; [exact H1 | simpl in *; lia].
Qed.

(** A chain that leaves the stack meets no frame twice. *)
Lemma env_chain_NoDup (vm : ScmVM) (e : ptr) (l : list ptr) (t : ptr) :
  env_chain vm e l t -> NoDup l.
Proof.
  induction 1 as [t Ht | e l t He Hs Hch IH]; constructor; [| exact IH].
  intros Hin.
  destruct (env_chain_suffix _ _ _ _ Hch e Hin) as (l' & H1 & H2).
  assert (H3 : env_chain vm e (e :: l) t) by (constructor; auto).
  pose proof (env_chain_det _ _ _ _ H1 _ _ H3) as E.
  injection E as ->. simpl in H2. lia.
Qed.

Ltac env_upd :=
  repeat first
    [ rewrite upd_same
    | rewrite upd_other
        by first [ assumption | apply not_eq_sym; assumption | discriminate ] ].

(** One turn of the loop of [save_env] at a frame that is not
    forwarded. *)
Lemma save_env_body_live (vm : ScmVM) (e prev head : ptr) :
  IN_STACK_P e = true -> 0 <= e_size (envs vm e) -> env_prev vm prev ->
  let size := e_size (envs vm e) in
  let saved := HEAP (next_block vm) size in
  exists vm1,
    save_env_body vm e prev head =
      inr (vm1, e_up (envs vm e), saved, if is_null head then saved else head)
    /\ promoted vm vm1
    /\ next_block vm1 = S (next_block vm)
    /\ envs vm1 e = mkEnv saved SCM_FALSE (-1)
    /\ envs vm1 saved = envs vm e
    /\ (prev <> NULL -> envs vm1 prev = set_e_up saved (envs vm prev))
    /\ (forall q, q <> e -> q <> saved -> (prev <> NULL -> q <> prev) ->
          envs vm1 q = envs vm q)
    /\ (forall j, 0 <= j < size ->
          words vm1 (ptr_add saved (j - size)) = words vm (ptr_add e (j - size))).
Proof.
  intros He Hsz Hprev size saved.
  destruct (IN_STACK_P_stack e He) as (o & -> & Ho).
  assert (Hes : STACK o <> saved) by discriminate.
  assert (Hps : prev <> saved).
  { destruct Hprev as [-> | (b & o' & -> & Hb)]; [discriminate |].
    unfold saved. intros E. injection E. lia. }
  assert (Hpe : prev <> STACK o).
  { destruct Hprev as [-> | (b & o' & -> & Hb)]; discriminate. }
  unfold save_env_body. fold size.
  destruct (Z.ltb_spec size 0) as [Hlt | _]; [lia |].
  cbn [SCM_NEW2]. cbn [ptr_add]. rewrite Z.add_0_l. fold saved.
  assert (Hw : forall j, 0 <= j < size ->
                 copy_words (Z.to_nat size) (STACK (o + - size)) (HEAP (next_block vm) 0)
                   (words vm) (ptr_add saved (j - size))
                 = words vm (STACK (o + (j - size)))).
  { intros j Hj. unfold saved. cbn [ptr_add].
    replace (size + (j - size)) with (0 + j) by lia.
    replace (o + (j - size)) with (o + - size + j) by lia.
    apply (copy_words_spec (Z.to_nat size) (STACK (o + - size))); [| lia].
    intros i o' _. discriminate. }
  destruct prev as [| po | pb po]; cbn [is_null].
  - eexists. split; [vm_simpl; env_upd; reflexivity |].
    split.
    { constructor; vm_simpl; auto.
      intros q Hq. apply copy_words_outside. intros o' E. subst q. simpl in Hq. lia. }
    split; [reflexivity |].
    split; [vm_simpl; env_upd; reflexivity |].
    split; [vm_simpl; env_upd; reflexivity |].
    split; [congruence |].
    split; [intros q H1 H2 H3; vm_simpl; env_upd; reflexivity |].
    intros j Hj. vm_simpl. apply Hw. exact Hj.
  - destruct Hprev as [E | (b & o' & E & _)]; discriminate.
  - eexists. split; [vm_simpl; env_upd; reflexivity |].
    split.
    { constructor; vm_simpl; auto.
      intros q Hq. apply copy_words_outside. intros o' E. subst q. simpl in Hq. lia. }
    split; [reflexivity |].
    split; [vm_simpl; env_upd; reflexivity |].
    split; [vm_simpl; env_upd; reflexivity |].
    split; [intros _; vm_simpl; env_upd; reflexivity |].
    split.
    { intros q H1 H2 H3. specialize (H3 ltac:(discriminate)).
      vm_simpl. env_upd. reflexivity. }
    intros j Hj. vm_simpl. apply Hw. exact Hj.
Qed.

(** The loop of [save_env] along a chain of frames that leaves the
    stack. *)
Lemma save_env_loop_moves (l : list ptr) :
  forall (n : nat) (vm : ScmVM) (e prev head t : ptr) (vm' : ScmVM) (h : ptr),
    save_env_loop n vm e prev head = Some (vm', h) ->
    env_chain vm e l t -> l <> [] -> NoDup l -> env_prev vm prev ->
    promoted vm vm'
    /\ (forall p, In p l -> env_moved vm vm' p)
    /\ (forall q, ~ In q l -> old_ptr vm q -> (prev <> NULL -> q <> prev) ->
          envs vm' q = envs vm q)
    /\ (prev <> NULL -> envs vm' prev = set_e_up (e_up (envs vm' e)) (envs vm prev))
    /\ h = (if is_null head then e_up (envs vm' e) else head).
Proof.
  induction l as [| c l IH]; intros n vm e prev head t vm' h Hl Hch Hne Hnd Hprev;
    [congruence |].
  inversion Hch as [| c1 l1 t1 Hc Hsz Htail]; subst.
  destruct n as [| n]; [discriminate |].
  cbn [save_env_loop] in Hl.
  destruct (save_env_body_live vm c prev head Hc Hsz Hprev)
    as (vm1 & Hbody & Hp & Hb & Hfw & Hsaved & Hpatch & Hother & Hwords).
  rewrite Hbody in Hl.
  set (size := e_size (envs vm c)) in *.
  set (saved := HEAP (next_block vm) size) in *.
  assert (Hcs : c <> saved) by (intros E; rewrite E in Hc; discriminate).
  assert (Hps : prev <> saved).
  { destruct Hprev as [-> | (b & o' & -> & Hb')]; [discriminate |].
    unfold saved. intros E. injection E. lia. }
  assert (Hpc : prev <> c).
  { destruct Hprev as [-> | (b & o' & -> & Hb')]; intros E; rewrite <- E in Hc; discriminate. }
  assert (Hcold : old_ptr vm1 c).
  { destruct (IN_STACK_P_stack c Hc) as (o & -> & _). exact I. }
  inversion Hnd as [| x xs Hnotin Hnd']; subst.
  destruct (IN_STACK_P (e_up (envs vm c))) eqn:Hnext.
  - (* the loop goes on *)
    assert (Hl_ne : l <> []).
    { inversion Htail; subst; [congruence | discriminate]. }
    assert (Hsame : forall p, In p l -> envs vm1 p = envs vm p).
    { intros p Hp'. pose proof (env_chain_In _ _ _ _ Htail p Hp') as Hs. apply Hother.
      - intros E. subst p. contradiction.
      - intros E. rewrite E in Hs. discriminate.
      - intros _ E.
        destruct Hprev as [-> | (b & o' & -> & _)]; rewrite E in Hs; discriminate. }
    assert (Hch1 : env_chain vm1 (e_up (envs vm c)) l t)
      by (eapply env_chain_ext; [exact Htail | exact Hsame]).
    assert (Hprev1 : env_prev vm1 saved).
    { right. exists (next_block vm), size. split; [reflexivity | lia]. }
    destruct (IH n vm1 (e_up (envs vm c)) saved
                (if is_null head then saved else head) t vm' h Hl Hch1 Hl_ne Hnd' Hprev1)
      as (Hp' & HA & HB & HC & HD).
    assert (Hsv' : envs vm' saved =
                   set_e_up (e_up (envs vm' (e_up (envs vm c)))) (envs vm1 saved))
      by (apply HC; discriminate).
    assert (Hc' : envs vm' c = envs vm1 c) by (apply HB; auto).
    split; [eapply promoted_trans; eauto |].
    split; [| split; [| split]].
    + intros p [<- | Hin].
      * exists (next_block vm). fold size. fold saved.
        split; [rewrite Hc'; exact Hfw |].
        split; [destruct Hp'; lia |].
        split; [rewrite Hsv', Hsaved; reflexivity |].
        split; [rewrite Hsv', Hsaved; reflexivity |].
        split; [rewrite Hnext, Hsv'; reflexivity |].
        intros j Hj. rewrite <- Hwords by exact Hj.
        apply (pr_words _ _ Hp'). unfold saved. simpl. lia.
      * destruct (HA p Hin) as (b & H1 & H2 & H3 & H4 & H5 & H6).
        rewrite (Hsame p Hin) in *.
        exists b. split; [exact H1 |]. split; [lia |].
        split; [exact H3 |]. split; [exact H4 |]. split; [exact H5 |].
        intros j Hj. rewrite H6 by exact Hj.
        apply (pr_words _ _ Hp).
        destruct (IN_STACK_P_stack p (env_chain_In _ _ _ _ Htail p Hin)) as (o & -> & _).
        exact I.
    + intros q Hq Holdq Hqp.
      assert (Hqc : q <> c) by (intros E; apply Hq; left; auto).
      assert (Hqs : q <> saved).
      { intros E. subst q. unfold saved in Holdq. simpl in Holdq. lia. }
      rewrite HB; auto.
      * intros Hin. apply Hq. right. exact Hin.
      * eapply old_ptr_mono; [| exact Holdq]. lia.
    + intros Hn. rewrite HB.
      * rewrite Hpatch by exact Hn. rewrite Hc', Hfw. reflexivity.
      * intros Hin. pose proof (env_chain_In _ _ _ _ Htail prev Hin) as Hs.
        destruct Hprev as [-> | (b & o' & -> & _)]; discriminate.
      * destruct Hprev as [-> | (b & o' & -> & Hb')]; simpl; auto. lia.
      * intros _. exact Hps.
    + rewrite HD, Hc', Hfw. cbn [e_up].
      destruct (is_null head) eqn:Hh; [reflexivity | rewrite Hh; reflexivity].
  - (* the loop ends *)
    injection Hl as <- <-.
    assert (l = []) as ->.
    { inversion Htail; subst; [reflexivity | congruence]. }
    split; [exact Hp |].
    split; [| split; [| split]].
    + intros p [<- | []].
      exists (next_block vm). fold size. fold saved.
      split; [exact Hfw |]. split; [lia |].
      split; [rewrite Hsaved; reflexivity |]. split; [rewrite Hsaved; reflexivity |].
      split; [rewrite Hnext, Hsaved; reflexivity |].
      exact Hwords.
    + intros q Hq Holdq Hqp. apply Hother; auto.
      * intros E. apply Hq. left. auto.
      * intros E. subst q. unfold saved in Holdq. simpl in Holdq. lia.
    + intros Hn. rewrite Hpatch by exact Hn. rewrite Hfw. reflexivity.
    + rewrite Hfw. reflexivity.
Qed.

(** [save_env] along a chain of frames that leaves the stack. *)
Lemma save_env_chain (vm : ScmVM) (env_begin : ptr) (l : list ptr) (t : ptr)
  (Hch : env_chain vm env_begin l t) :
  exists vm',
    save_env vm env_begin =
      Some (vm', match l with [] => env_begin | _ :: _ => e_up (envs vm' env_begin) end)
    /\ (forall p, In p l -> env_moved vm vm' p)
    /\ (forall q, ~ In q l -> old_ptr vm q -> envs vm' q = envs vm q)
    /\ (forall q, old_ptr vm q -> words vm' q = words vm q)
    /\ conts vm' = conts vm
    /\ regs vm' = regs vm /\ env vm' = env vm /\ cont vm' = cont vm.
Proof.
  unfold save_env.
  destruct l as [| c l].
  - assert (Ht : IN_STACK_P env_begin = false) by (inversion Hch; subst; assumption).
    rewrite Ht. cbn [negb].
    exists vm. split; [reflexivity |]. split; [intros p [] |]. repeat split; reflexivity.
  - assert (Hc : IN_STACK_P env_begin = true) by (inversion Hch; subst; assumption).
    rewrite Hc. cbn [negb].
    destruct (save_env_loop_total stack_fuel vm env_begin NULL NULL Hc (or_introl eq_refl)
                (count_stack_bound _))
      as (vm' & h & Hl & Hp & Hconts & Henv).
    destruct (save_env_loop_moves (c :: l) stack_fuel vm env_begin NULL NULL t vm' h Hl Hch
                ltac:(discriminate) (env_chain_NoDup _ _ _ _ Hch) (or_introl eq_refl))
      as (_ & HA & HB & _ & HD).
    cbn [is_null] in HD. subst h.
    exists vm'. split; [exact Hl |]. split; [exact HA |].
    split; [intros q Hq Ho; apply HB; auto; congruence |].
    split; [apply (pr_words _ _ Hp) |]. split; [exact Hconts |].
    split; [apply (pr_regs _ _ Hp) |]. split; [exact Henv | apply (pr_cont _ _ Hp)].
Qed.

Lemma load_words_same (n : nat) :
  forall (p p' : ptr) (w w' : ptr -> word),
    (forall i, 0 <= i < Z.of_nat n -> w' (ptr_add p' i) = w (ptr_add p i)) ->
    load_words n p' w' = load_words n p w.
Proof.
  induction n as [| n IH]; intros p p' w w' H; cbn [load_words]; [reflexivity |].
  f_equal.
  - specialize (H 0 ltac:(lia)). rewrite !ptr_add_0 in H. exact H.
  - apply IH. intros i Hi. rewrite !ptr_add_add. apply H. lia.
Qed.

(** The first [n] frames of the chain of [e] as a reader of the
    environment finds them - of each frame the words below the header,
    the info and the size - and the pointer that follows them. *)
Fixpoint env_frames (n : nat) (vm : ScmVM) (e : ptr) : list (list word * ScmObj * Z) * ptr :=
  match n with
  | O => ([], e)
  | S n' =>
      let f := envs vm e in
      let (fs, t) := env_frames n' vm (e_up f) in
      ((load_words (Z.to_nat (e_size f)) (ptr_add e (- e_size f)) (words vm),
        e_info f, e_size f) :: fs, t)
  end.

Lemma env_frames_chain (vm : ScmVM) (e : ptr) (l : list ptr) (t : ptr) :
  env_chain vm e l t -> snd (env_frames (List.length l) vm e) = t.
Proof.
  induction 1 as [t Ht | e l t He Hs Hch IH]; cbn [env_frames List.length]; [reflexivity |].
  destruct (env_frames (List.length l) vm (e_up (envs vm e))). exact IH.
Qed.

Lemma env_frames_moved (vm vm' : ScmVM) (e : ptr) (l : list ptr) (t : ptr) :
  env_chain vm e l t ->
  (forall p, In p l -> env_moved vm vm' p) ->
  env_frames (List.length l) vm' (match l with [] => e | _ :: _ => e_up (envs vm' e) end)
  = env_frames (List.length l) vm e.
Proof.
  induction 1 as [t Ht | e l t He Hs Hch IH]; intros Hmoved; [reflexivity |].
  cbn [List.length env_frames].
  destruct (Hmoved e (or_introl eq_refl)) as (b & H1 & _ & H3 & H4 & H5 & H6).
  rewrite H1. cbn [e_up]. rewrite H3, H4, H5.
  assert (Hnext : (if IN_STACK_P (e_up (envs vm e))
                   then e_up (envs vm' (e_up (envs vm e))) else e_up (envs vm e))
                  = match l with
                    | [] => e_up (envs vm e)
                    | _ :: _ => e_up (envs vm' (e_up (envs vm e)))
                    end).
  { inversion Hch as [t' Ht' | e' l' t' He' Hs' Hch']; subst.
    - rewrite Ht'. reflexivity.
    - rewrite He'. reflexivity. }
  rewrite Hnext, IH by (intros p Hp; apply Hmoved; right; exact Hp).
  destruct (env_frames (List.length l) vm (e_up (envs vm e))) as [fs t'].
  do 4 f_equal.
  apply load_words_same. intros i Hi. rewrite !ptr_add_add.
  replace (- e_size (envs vm e) + i) with (i - e_size (envs vm e)) by lia.
  apply H6. lia.
Qed.

(** [save_env] on a chain of environment frames that leaves the stack
    returns, and it returns the copy of the first frame ([env_begin]
    itself when that is not in the stack).  Every frame of the chain
    has been moved: it is left as a forwarding frame to a copy in a new
    block, which has its size and info and the same words below it, and
    the copies are linked in the order of the chain and end at the
    frame out of the stack where the chain ended.  So the chain read
    from the pointer returned is, frame by frame, the chain that was
    read from [env_begin].  No other frame that existed, no word that
    existed, no continuation frame and no register is changed. *)
Theorem save_env_moves (vm : ScmVM) (env_begin : ptr) (l : list ptr) (t : ptr)
  (Hch : env_chain vm env_begin l t) :
  exists vm' e',
    save_env vm env_begin = Some (vm', e')
    /\ e' = match l with [] => env_begin | _ :: _ => e_up (envs vm' env_begin) end
    /\ IN_STACK_P e' = false
    /\ env_frames (List.length l) vm' e' = env_frames (List.length l) vm env_begin
    /\ snd (env_frames (List.length l) vm env_begin) = t
    /\ (forall p, In p l -> env_moved vm vm' p)
    /\ (forall q, ~ In q l -> old_ptr vm q -> envs vm' q = envs vm q)
    /\ (forall q, old_ptr vm q -> words vm' q = words vm q)
    /\ conts vm' = conts vm
    /\ regs vm' = regs vm /\ env vm' = env vm /\ cont vm' = cont vm.
Proof.
  destruct (save_env_chain vm env_begin l t Hch)
    as (vm' & Hs & Hmoved & Hothers & Hwords & Hconts & Hregs & Hev & Hk).
  exists vm', (match l with [] => env_begin | _ :: _ => e_up (envs vm' env_begin) end).
  split; [exact Hs |]. split; [reflexivity |].
  split.
  { destruct l as [| e0 l].
    - inversion Hch; subst. assumption.
    - assert (He0 : env_begin = e0) by (inversion Hch; subst; reflexivity).
      destruct (Hmoved env_begin) as (b & H1 & _); [left; auto |].
      rewrite H1. reflexivity. }
  split; [apply (env_frames_moved vm vm' env_begin l t Hch Hmoved) |].
  split; [apply (env_frames_chain vm env_begin l t Hch) |].
  split; [exact Hmoved |]. split; [exact Hothers |]. split; [exact Hwords |].
  split; [exact Hconts |]. split; [exact Hregs |]. split; [exact Hev | exact Hk].
Qed.

(* ----------------------------------------------------------------- *)
(** *** [get_env] *)

(** The loop of [get_env] over the continuation frames of the stack,
    from [vm->cont] along [prev] while the frame is in the stack. *)
Fixpoint get_env_loop (fuel : nat) (vm : ScmVM) (c : ptr) : option ScmVM :=
  match fuel with
  | O => None
  | S fuel' =>
      if IN_STACK_P c then
        let cenv := c_env (conts vm c) in
        let vm1 :=
          if FORWARDED_ENV_P vm cenv
          then set_conts (upd (conts vm) c (set_c_env (FORWARDED_ENV vm cenv) (conts vm c))) vm
          else vm in
        get_env_loop fuel' vm1 (c_prev (conts vm1 c))
      else Some vm
  end.

(** [get_env(vm)] *)
Definition get_env (vm : ScmVM) : option (ScmVM * ptr) :=
  match save_env vm (env vm) with
  | None => None
  | Some (vm1, e) =>
      if negb (ptr_eqb e (env vm1)) then
        match get_env_loop stack_fuel (set_env e vm1) (cont vm1) with
        | None => None
        | Some vm2 => Some (vm2, e)
        end
      else Some (vm1, e)
  end.

Lemma set_conts_eta (vm : ScmVM) : set_conts (conts vm) vm = vm.
Proof. destruct vm; reflexivity. Qed.

Lemma set_conts_twice (a b : ptr -> ScmContFrame) (vm : ScmVM) :
  set_conts a (set_conts b vm) = set_conts a vm.
Proof. destruct vm; reflexivity. Qed.

Lemma env_chain_size (vm : ScmVM) (e : ptr) (l : list ptr) (t : ptr) :
  env_chain vm e l t -> forall p, In p l -> 0 <= e_size (envs vm p).
Proof.
  induction 1 as [| e l t He Hs Hch IH]; intros p Hp; [contradiction |].
  destruct Hp as [<- | Hp]; auto.
Qed.

(** A chain of frames of the stack is not longer than the stack. *)
Lemma stack_chain_length (vm : ScmVM) (c : ptr) (l : list ptr) (t : ptr) :
  stack_chain vm c l t -> (List.length l < stack_fuel)%nat.
Proof.
  intros Hch.
  assert (Hincl : incl l (map STACK stack_offsets)).
  { intros p Hp. destruct (IN_STACK_P_stack p (stack_chain_In _ _ _ _ Hch p Hp))
      as (o & -> & Ho).
    apply in_map. apply stack_offsets_In. exact Ho. }
  pose proof (NoDup_incl_length (stack_chain_NoDup _ _ _ _ Hch) Hincl) as Hlen.
  unfold stack_fuel, stack_offsets in *. rewrite !length_map, length_seq in Hlen. lia.
Qed.

Lemma get_env_loop_spec (vm0 : ScmVM) (c : ptr) (cl : list ptr) (ct : ptr) :
  stack_chain vm0 c cl ct ->
  forall (fuel : nat) (vm : ScmVM),
    (List.length cl < fuel)%nat -> NoDup cl ->
    envs vm = envs vm0 ->
    (forall p, In p cl -> conts vm p = conts vm0 p) ->
    exists vm',
      get_env_loop fuel vm c = Some vm'
      /\ vm' = set_conts (conts vm') vm
      /\ (forall p, In p cl ->
            conts vm' p =
            if FORWARDED_ENV_P vm0 (c_env (conts vm0 p))
            then set_c_env (FORWARDED_ENV vm0 (c_env (conts vm0 p))) (conts vm0 p)
            else conts vm0 p)
      /\ (forall q, ~ In q cl -> conts vm' q = conts vm q).
Proof.
  induction 1 as [t Ht | c l t Hc Hch IH]; intros fuel vm Hfuel Hnd Henvs Hconts;
    (destruct fuel as [| fuel]; [simpl in Hfuel; lia |]); cbn [get_env_loop].
  - rewrite Ht. exists vm. split; [reflexivity |].
    split; [symmetry; apply set_conts_eta |]. split; [intros p [] | reflexivity].
  - rewrite Hc. inversion Hnd as [| x xs Hnotin Hnd']; subst.
    rewrite (Hconts c (or_introl eq_refl)).
    assert (Hf : FORWARDED_ENV_P vm (c_env (conts vm0 c))
                 = FORWARDED_ENV_P vm0 (c_env (conts vm0 c)))
      by (unfold FORWARDED_ENV_P; rewrite Henvs; reflexivity).
    assert (Hfe : FORWARDED_ENV vm (c_env (conts vm0 c))
                  = FORWARDED_ENV vm0 (c_env (conts vm0 c)))
      by (unfold FORWARDED_ENV; rewrite Henvs; reflexivity).
    rewrite Hf, Hfe.
    set (f' := if FORWARDED_ENV_P vm0 (c_env (conts vm0 c))
               then set_c_env (FORWARDED_ENV vm0 (c_env (conts vm0 c))) (conts vm0 c)
               else conts vm0 c).
    set (vm1 := if FORWARDED_ENV_P vm0 (c_env (conts vm0 c))
                then set_conts (upd (conts vm) c
                                  (set_c_env (FORWARDED_ENV vm0 (c_env (conts vm0 c)))
                                     (conts vm0 c))) vm
                else vm).
    assert (H1c : conts vm1 c = f').
    { unfold vm1, f'. destruct (FORWARDED_ENV_P vm0 (c_env (conts vm0 c))).
      - vm_simpl. apply upd_same.
      - apply Hconts. left. reflexivity. }
    assert (H1o : forall q, q <> c -> conts vm1 q = conts vm q).
    { intros q Hq. unfold vm1. destruct (FORWARDED_ENV_P vm0 (c_env (conts vm0 c))).
      - vm_simpl. apply upd_other. exact Hq.
      - reflexivity. }
    assert (H1e : envs vm1 = envs vm0).
    { unfold vm1. destruct (FORWARDED_ENV_P vm0 (c_env (conts vm0 c))); exact Henvs. }
    assert (H1v : vm1 = set_conts (conts vm1) vm).
    { unfold vm1. destruct (FORWARDED_ENV_P vm0 (c_env (conts vm0 c))).
      - reflexivity.
      - symmetry. apply set_conts_eta. }
    assert (Hprev : c_prev (conts vm1 c) = c_prev (conts vm0 c)).
    { rewrite H1c. unfold f'. destruct (FORWARDED_ENV_P vm0 (c_env (conts vm0 c)));
        [destruct (conts vm0 c) |]; reflexivity. }
    rewrite Hprev.
    destruct (IH fuel vm1) as (vm' & Hl & Hvm' & HA & HB).
    + simpl in Hfuel. lia.
    + exact Hnd'.
    + exact H1e.
    + intros p Hp. rewrite H1o by (intros E; subst p; contradiction).
      apply Hconts. right. exact Hp.
    + exists vm'. split; [exact Hl |].
      split; [rewrite Hvm' at 1; rewrite H1v; apply set_conts_twice |].
      split.
      * intros p [<- | Hp]; [| apply HA; exact Hp].
        rewrite HB by exact Hnotin. exact H1c.
      * intros q Hq. rewrite HB by (intros Hin; apply Hq; right; exact Hin).
        apply H1o. intros E. apply Hq. left. auto.
Qed.

(** [get_env] along the chain of [vm->env] and the frames of
    [vm->cont] that are in the stack. *)
Lemma get_env_spec (vm : ScmVM) (l : list ptr) (t : ptr) (cl : list ptr) (ct : ptr)
  (Henv : env_chain vm (env vm) l t)
  (Hcont : stack_chain vm (cont vm) cl ct)
  (Hframes : forall c, In c cl ->
               old_ptr vm (c_env (conts vm c))
               /\ (In (c_env (conts vm c)) l
                   \/ FORWARDED_ENV_P vm (c_env (conts vm c)) = false)) :
  exists vm',
    get_env vm = Some (vm', env vm')
    /\ IN_STACK_P (env vm') = false
    /\ env vm' = match l with [] => env vm | _ :: _ => e_up (envs vm' (env vm)) end
    /\ (forall p, In p l -> env_moved vm vm' p)
    /\ (forall c, In c cl ->
          FORWARDED_ENV_P vm' (c_env (conts vm' c)) = false
          /\ (In (c_env (conts vm c)) l ->
                conts vm' c = set_c_env (e_up (envs vm' (c_env (conts vm c)))) (conts vm c))
          /\ (~ In (c_env (conts vm c)) l -> conts vm' c = conts vm c))
    /\ (forall q, ~ In q cl -> conts vm' q = conts vm q)
    /\ regs vm' = regs vm /\ cont vm' = cont vm.
Proof.
  destruct (save_env_chain vm (env vm) l t Henv)
    as (vm1 & Hs & Hmoved & Hothers & Hwords & Hconts & Hregs & Hev & Hk).
  unfold get_env. rewrite Hs. rewrite Hev.
  destruct l as [| e0 l].
  - (* the environment is not in the stack: nothing to do *)
    unfold ptr_eqb. destruct (ptr_eq_dec (env vm) (env vm)) as [_ | N]; [| congruence].
    cbn [negb]. exists vm1. rewrite Hev.
    split; [reflexivity |].
    split; [inversion Henv; subst; assumption |].
    split; [reflexivity |].
    split; [intros p [] |].
    split.
    { intros c Hc. destruct (Hframes c Hc) as (Hold & [[] | Hf]).
      rewrite Hconts. split; [| split; [intros [] | reflexivity]].
      unfold FORWARDED_ENV_P in *. rewrite Hothers; auto. }
    split; [intros q _; rewrite Hconts; reflexivity |].
    split; [exact Hregs | exact Hk].
  - (* the frames of the chain are moved, the continuation frames follow *)
    assert (He0 : env vm = e0) by (inversion Henv; subst; reflexivity).
    assert (Hin : IN_STACK_P (env vm) = true) by (inversion Henv; subst; assumption).
    destruct (Hmoved (env vm)) as (b0 & Hfw0 & _); [left; auto |].
    rewrite Hfw0. cbn [e_up].
    unfold ptr_eqb.
    destruct (ptr_eq_dec (HEAP b0 (e_size (envs vm (env vm)))) (env vm)) as [E | _].
    { rewrite <- E in Hin. discriminate. }
    cbn [negb].
    set (e := HEAP b0 (e_size (envs vm (env vm)))).
    assert (Hch1 : stack_chain (set_env e vm1) (cont vm1) cl ct).
    { rewrite Hk. eapply stack_chain_ext; [exact Hcont |]. intros p _.
      cbn [conts set_env]. rewrite Hconts. reflexivity. }
    destruct (get_env_loop_spec (set_env e vm1) (cont vm1) cl ct Hch1 stack_fuel
                (set_env e vm1))
      as (vm' & Hl & Hvm' & HA & HB).
    { eapply stack_chain_length. exact Hcont. }
    { eapply stack_chain_NoDup. exact Hcont. }
    { reflexivity. }
    { reflexivity. }
    rewrite Hl.
    assert (Hev' : env vm' = e) by (rewrite Hvm'; reflexivity).
    assert (Hen' : envs vm' = envs vm1) by (rewrite Hvm'; reflexivity).
    assert (Hw' : words vm' = words vm1) by (rewrite Hvm'; reflexivity).
    assert (Hb' : next_block vm' = next_block vm1) by (rewrite Hvm'; reflexivity).
    exists vm'. rewrite Hev'.
    split; [reflexivity |]. split; [reflexivity |].
    split; [rewrite Hen', Hfw0; reflexivity |].
    split.
    { intros p Hp. destruct (Hmoved p Hp) as (b & H1 & H2 & H3 & H4 & H5 & H6).
      exists b. rewrite Hen', Hw', Hb'. repeat split; try assumption; lia. }
    split.
    { intros c Hc. rewrite (HA c Hc). cbn [conts set_env]. rewrite Hconts.
      destruct (Hframes c Hc) as (Hold & Hcase).
      assert (Hdec : In (c_env (conts vm c)) (e0 :: l)
                     -> FORWARDED_ENV_P (set_env e vm1) (c_env (conts vm c)) = true
                        /\ exists b, envs vm1 (c_env (conts vm c))
                                     = mkEnv (HEAP b (e_size (envs vm (c_env (conts vm c)))))
                                         SCM_FALSE (-1)
                           /\ e_size (envs vm1 (HEAP b (e_size (envs vm (c_env (conts vm c))))))
                              = e_size (envs vm (c_env (conts vm c)))).
      { intros Hi. destruct (Hmoved _ Hi) as (b & H1 & _ & H3 & _).
        split; [| exists b; split; assumption].
        unfold FORWARDED_ENV_P. cbn [envs set_env]. rewrite H1. cbn [e_size].
        destruct (IN_STACK_P_stack _ (env_chain_In _ _ _ _ Henv _ Hi)) as (o & -> & _).
        reflexivity. }
      assert (Hout : ~ In (c_env (conts vm c)) (e0 :: l)
                     -> FORWARDED_ENV_P (set_env e vm1) (c_env (conts vm c)) = false).
      { intros Hni. destruct Hcase as [Hi | Hf]; [contradiction |].
        unfold FORWARDED_ENV_P in *. cbn [envs set_env]. rewrite Hothers; auto. }
      split; [| split].
      - destruct (in_dec ptr_eq_dec (c_env (conts vm c)) (e0 :: l)) as [Hi | Hni].
        + destruct (Hdec Hi) as (-> & b & H1 & H3).
          unfold FORWARDED_ENV. cbn [envs set_env]. rewrite H1. cbn [e_up].
          unfold FORWARDED_ENV_P. rewrite Hen'.
          replace (c_env (set_c_env (HEAP b (e_size (envs vm (c_env (conts vm c)))))
                            (conts vm c)))
            with (HEAP b (e_size (envs vm (c_env (conts vm c)))))
            by (destruct (conts vm c); reflexivity).
          rewrite H3. cbn [is_null negb andb].
          pose proof (env_chain_size _ _ _ _ Henv _ Hi).
          destruct (Z.eqb_spec (e_size (envs vm (c_env (conts vm c)))) (-1)); [lia | reflexivity].
        + rewrite (Hout Hni). unfold FORWARDED_ENV_P. rewrite Hen'.
          specialize (Hout Hni). unfold FORWARDED_ENV_P in Hout. cbn [envs set_env] in Hout.
          exact Hout.
      - intros Hi. destruct (Hdec Hi) as (-> & _). unfold FORWARDED_ENV.
        cbn [envs set_env]. rewrite Hen'. reflexivity.
      - intros Hni. rewrite (Hout Hni). reflexivity. }
    split.
    { intros q Hq. rewrite (HB q Hq). cbn [conts set_env]. rewrite Hconts. reflexivity. }
    split; [rewrite Hvm'; exact Hregs | rewrite Hvm'; exact Hk].
Qed.

(** [get_env] moves the environment of the VM to the heap and leaves
    no continuation frame of the stack behind.  When the chain of
    [vm->env] leaves the stack and the frames of the chain of
    [vm->cont] refer to frames of that chain or to frames that are not
    forwarded, [get_env] returns the new [vm->env], which is not in the
    stack; the frames of the chain are moved as [save_env] moves them;
    and every continuation frame of the stack that referred to one of
    them now refers to its copy, so that none is left with a forwarded
    environment.  The environment read from the new [vm->env] is,
    frame by frame, the one that was read from the old.  Nothing else
    of the continuation frames changes. *)
Theorem get_env_forwards (vm : ScmVM) (l : list ptr) (t : ptr) (cl : list ptr) (ct : ptr)
  (Henv : env_chain vm (env vm) l t)
  (Hcont : stack_chain vm (cont vm) cl ct)
  (Hframes : forall c, In c cl ->
               old_ptr vm (c_env (conts vm c))
               /\ (In (c_env (conts vm c)) l
                   \/ FORWARDED_ENV_P vm (c_env (conts vm c)) = false)) :
  exists vm',
    get_env vm = Some (vm', env vm')
    /\ IN_STACK_P (env vm') = false
    /\ env_frames (List.length l) vm' (env vm') = env_frames (List.length l) vm (env vm)
    /\ env vm' = match l with [] => env vm | _ :: _ => e_up (envs vm' (env vm)) end
    /\ (forall p, In p l -> env_moved vm vm' p)
    /\ (forall c, In c cl ->
          FORWARDED_ENV_P vm' (c_env (conts vm' c)) = false
          /\ (In (c_env (conts vm c)) l ->
                conts vm' c = set_c_env (e_up (envs vm' (c_env (conts vm c)))) (conts vm c))
          /\ (~ In (c_env (conts vm c)) l -> conts vm' c = conts vm c))
    /\ (forall q, ~ In q cl -> conts vm' q = conts vm q)
    /\ regs vm' = regs vm /\ cont vm' = cont vm.
Proof.
  destruct (get_env_spec vm l t cl ct Henv Hcont Hframes)
    as (vm' & Hg & Hout & Hev & Hmoved & Hrest).
  exists vm'. split; [exact Hg |]. split; [exact Hout |].
  split.
  { rewrite Hev. apply (env_frames_moved vm vm' (env vm) l t Henv Hmoved). }
  split; [exact Hev |]. split; [exact Hmoved | exact Hrest].
Qed.


(* ----------------------------------------------------------------- *)
(** *** Partial continuations: [Scm_VMCallPC] *)

(** The loop of [Scm_VMCallPC] that finds the latest boundary frame:
    from [c] along [prev] while the frame is there and is not a
    boundary frame, [cp] following one frame behind. *)
Fixpoint find_boundary (fuel : nat) (vm : ScmVM) (c cp : ptr) : option (ptr * ptr) :=
  match fuel with
  | O => None
  | S fuel' =>
      if negb (is_null c) && negb (BOUNDARY_FRAME_P vm c)
      then find_boundary fuel' vm (c_prev (conts vm c)) c
      else Some (c, cp)
  end.

(** [Scm_VMCallPC(proc)]; [fuel] bounds the search of the boundary
    frame.  The slots of the new escape point that the function does
    not assign are as the allocator leaves them. *)
Definition Scm_VMCallPC (fuel : nat) (proc : ScmObj) (vm : ScmVM) : outcome ScmObj :=
  bind (lift tt (save_cont vm))
    (fun _ vm1 =>
       (* find the latest boundary frame *)
       match find_boundary fuel vm1 (cont vm1) NULL with
       | None => Spins
       | Some (c, cp) =>
           (* cut the dynamic chain *)
           let vm2 :=
             if negb (is_null cp)
             then set_conts (upd (conts vm1) cp (set_c_prev NULL (conts vm1 cp))) vm1
             else vm1 in
           let r := mkEP None None SCM_FALSE SCM_UNBOUND (handlers vm2) (cont vm2)
                      None false false in
           let (ep, vm3) := new_ep r vm2 in
           let contproc :=
             SCM_SUBR throw_continuation_body (Some ep) "partial continuation" in
           (* Remove the saved continuation chain. *)
           Scm_VMApply1 proc contproc (set_cont c vm3)
       end).

(** [cont_segment vm c fs b]: from [c], following [prev], the frames
    [fs] are met, none of them a boundary frame, and then [b], which
    is the null pointer or a boundary frame. *)
Inductive cont_segment (vm : ScmVM) : ptr -> list ptr -> ptr -> Prop :=
| cont_segment_end (b : ptr) :
    is_null b = true \/ BOUNDARY_FRAME_P vm b = true -> cont_segment vm b [] b
| cont_segment_cons (c : ptr) (fs : list ptr) (b : ptr) :
    is_null c = false -> BOUNDARY_FRAME_P vm c = false ->
    cont_segment vm (c_prev (conts vm c)) fs b ->
    cont_segment vm c (c :: fs) b.

Lemma cont_segment_In (vm : ScmVM) (c : ptr) (fs : list ptr) (b : ptr) :
  cont_segment vm c fs b -> forall p, In p fs -> is_null p = false.
Proof.
  induction 1 as [| c fs b Hc Hb Hseg IH]; intros p Hp; [contradiction |].
  destruct Hp as [<- | Hp]; auto.
Qed.

Lemma cont_segment_det (vm : ScmVM) (c : ptr) (l1 : list ptr) (b1 : ptr) :
  cont_segment vm c l1 b1 -> forall l2 b2, cont_segment vm c l2 b2 -> l1 = l2.
Proof.
  induction 1 as [b Hb | c fs b Hc Hb Hseg IH]; intros l2 b2 H2; inversion H2; subst.
  - reflexivity.
  - destruct Hb as [Hb | Hb]; congruence.
  - match goal with H : _ \/ _ |- _ => destruct H; congruence end.
  - f_equal. eapply IH. eassumption.
Qed.

Lemma cont_segment_suffix (vm : ScmVM) (c : ptr) (l : list ptr) (b : ptr) :
  cont_segment vm c l b -> forall p, In p l ->
  exists l', cont_segment vm p (p :: l') b /\ (List.length (p :: l') <= List.length l)%nat.
Proof.
  induction 1 as [b Hb | c fs b Hc Hb Hseg IH]; intros p Hin; [contradiction |].
  destruct Hin as [-> | Hin].
  - exists fs. split; [constructor; auto | simpl; lia].
  - destruct (IH p Hin) as (l' & H1 & H2). exists l'. split; [exact H1 | simpl in *; lia].
Qed.

(** A segment that ends meets no frame twice. *)
Lemma cont_segment_NoDup (vm : ScmVM) (c : ptr) (l : list ptr) (b : ptr) :
  cont_segment vm c l b -> NoDup l.
Proof.
  induction 1 as [b Hb | c fs b Hc Hb Hseg IH]; constructor; [| exact IH].
  intros Hin.
  destruct (cont_segment_suffix _ _ _ _ Hseg c Hin) as (l' & H1 & H2).
  assert (H3 : cont_segment vm c (c :: fs) b) by (constructor; auto).
  pose proof (cont_segment_det _ _ _ _ H1 _ _ H3) as E.
  injection E as ->. simpl in H2. lia.
Qed.

Lemma cont_segment_ext (vm vm' : ScmVM) (c : ptr) (fs : list ptr) (b : ptr) :
  conts vm' = conts vm -> cont_segment vm c fs b -> cont_segment vm' c fs b.
Proof.
  intros E. induction 1 as [b Hb | c fs b Hc Hb Hseg IH].
  - constructor. unfold BOUNDARY_FRAME_P in *. rewrite E. exact Hb.
  - constructor; auto.
    + unfold BOUNDARY_FRAME_P in *. rewrite E. exact Hb.
    + rewrite E. exact IH.
Qed.

Lemma last_default {A : Type} (l : list A) (d d' : A) : l <> [] -> last l d = last l d'.
Proof.
  induction l as [| a l IH]; intros Hne; [congruence |].
  destruct l as [| a' l]; [reflexivity |].
  change (last (a' :: l) d = last (a' :: l) d'). apply IH. discriminate.
Qed.

Lemma last_In {A : Type} (l : list A) (d : A) : l <> [] -> In (last l d) l.
Proof.
  induction l as [| a l IH]; intros Hne; [congruence |].
  destruct l as [| a' l]; [left; reflexivity |].
  right. apply IH. discriminate.
Qed.

Lemma find_boundary_spec (vm : ScmVM) (c : ptr) (fs : list ptr) (b : ptr) :
  cont_segment vm c fs b ->
  forall (fuel : nat) (cp : ptr),
    (List.length fs < fuel)%nat ->
    find_boundary fuel vm c cp = Some (b, last fs cp).
Proof.
  induction 1 as [b Hb | c fs b Hc Hb Hseg IH]; intros fuel cp Hfuel;
    (destruct fuel as [| fuel]; [simpl in Hfuel; lia |]); cbn [find_boundary].
  - destruct Hb as [-> | ->]; [reflexivity |]. rewrite andb_false_r. reflexivity.
  - rewrite Hc, Hb. cbn [negb andb]. rewrite IH by (simpl in Hfuel; lia).
    destruct fs as [| f fs]; [reflexivity |].
    do 2 f_equal. change (last (f :: fs) c = last (f :: fs) cp).
    apply last_default. discriminate.
Qed.

(** The chain once its last frame is cut from what follows. *)
Lemma cont_segment_cut (vm vm' : ScmVM) (c : ptr) (fs : list ptr) (b : ptr) :
  cont_segment vm c fs b -> fs <> [] -> NoDup fs ->
  conts vm' = upd (conts vm) (last fs NULL) (set_c_prev NULL (conts vm (last fs NULL))) ->
  cont_segment vm' c fs NULL.
Proof.
  intros Hseg. revert vm'.
  induction Hseg as [b Hb | c fs b Hc Hb Hseg IH]; intros vm' Hne Hnd E; [congruence |].
  inversion Hnd as [| x xs Hnotin Hnd']; subst.
  assert (Hpc : forall q, c_pc (conts vm' q) = c_pc (conts vm q)).
  { intros q. rewrite E. unfold upd. destruct (ptr_eq_dec q _) as [-> |]; reflexivity. }
  constructor; [exact Hc | unfold BOUNDARY_FRAME_P in *; rewrite Hpc; exact Hb |].
  destruct fs as [| f fs].
  - cbn [last] in E. rewrite E, upd_same. cbn [c_prev set_c_prev].
    constructor. left. reflexivity.
  - assert (Hl : last (c :: f :: fs) NULL = last (f :: fs) NULL) by reflexivity.
    rewrite Hl in E.
    assert (Hcl : c <> last (f :: fs) NULL).
    { intros Heq. apply Hnotin. rewrite Heq. apply last_In. discriminate. }
    assert (Hcc : conts vm' c = conts vm c) by (rewrite E; apply upd_other; exact Hcl).
    rewrite Hcc.
    apply IH; [discriminate | exact Hnd' | exact E].
Qed.

(** [Scm_VMCallPC] captures the frames above the latest boundary frame
    and nothing below.  Let the chain of [vm->cont], once [save_cont]
    has run, lead through the frames [fs] to [b], the first boundary
    frame or the null pointer, [b] not in the stack.  Then
    [Scm_VMCallPC] returns with [proc] about to be applied to the
    partial continuation: a new escape point with no host-stack record,
    the handler list of the moment and the saved continuation, whose
    chain now is [fs] and ends there, its last frame cut from [b];
    [vm->cont] is [b]; and no other frame is changed. *)
Theorem Scm_VMCallPC_cuts (fuel : nat) (proc : ScmObj) (vm vm1 : ScmVM)
  (fs : list ptr) (b : ptr)
  (Hsave : save_cont vm = Some vm1)
  (Hseg : cont_segment vm1 (cont vm1) fs b)
  (Hb : IN_STACK_P b = false)
  (Hfuel : (List.length fs < fuel)%nat) :
  exists vm' r,
    Scm_VMCallPC fuel proc vm = Returns proc vm'
    /\ pc vm' = apply_calls 1
    /\ words vm' (ptr_add (sp vm') (-1)) =
       W_OBJ (SCM_SUBR throw_continuation_body (Some (List.length (eps vm1)))
                "partial continuation")
    /\ nth_error (eps vm') (List.length (eps vm1)) = Some r
    /\ ep_cont r = cont vm1 /\ ep_cstack r = None /\ ep_handlers r = handlers vm1
    /\ ep_prev r = None /\ ep_ehandler r = SCM_FALSE
    /\ cont vm' = b
    /\ handlers vm' = handlers vm1
    /\ (fs <> [] ->
        cont_segment vm' (cont vm1) fs NULL
        /\ conts vm' (last fs NULL) = set_c_prev NULL (conts vm1 (last fs NULL)))
    /\ (forall q, (fs <> [] -> q <> last fs NULL) -> conts vm' q = conts vm1 q).
Proof.
  unfold Scm_VMCallPC. rewrite Hsave. cbn [lift bind].
  rewrite (find_boundary_spec vm1 (cont vm1) fs b Hseg fuel NULL Hfuel).
  set (cp := last fs NULL).
  set (vm2 := if negb (is_null cp)
              then set_conts (upd (conts vm1) cp (set_c_prev NULL (conts vm1 cp))) vm1
              else vm1).
  assert (H2 : cont vm2 = cont vm1 /\ handlers vm2 = handlers vm1 /\ eps vm2 = eps vm1).
  { unfold vm2. destruct (negb (is_null cp)); repeat split; reflexivity. }
  destruct H2 as (H2c & H2h & H2e).
  set (r := mkEP None None SCM_FALSE SCM_UNBOUND (handlers vm2) (cont vm2) None false false).
  unfold new_ep. rewrite H2e.
  set (vm3 := set_cont b (set_eps (eps vm1 ++ [r]) vm2)).
  destruct (CHECK_STACK_out 1 vm3 Hb) as (vm4 & Hc & Hconts & Heps & Hcont & Hh).
  unfold Scm_VMApply1. rewrite Hc. cbn [lift bind].
  eexists _, r. split; [reflexivity |].
  unfold PUSH_ARG. vm_simpl.
  split; [reflexivity |].
  split; [rewrite ptr_add_add, ptr_add_0; apply upd_same |].
  split; [rewrite Heps; unfold vm3; vm_simpl; rewrite nth_error_app2 by lia;
          rewrite Nat.sub_diag; reflexivity |].
  split; [exact H2c |]. split; [reflexivity |]. split; [exact H2h |].
  split; [reflexivity |]. split; [reflexivity |].
  split; [rewrite Hcont; reflexivity |].
  split; [rewrite Hh; unfold vm3; vm_simpl; exact H2h |].
  assert (Hconts' : conts vm3 = conts vm2) by reflexivity.
  split.
  - intros Hne.
    assert (Hcp : is_null cp = false).
    { apply (cont_segment_In _ _ _ _ Hseg). apply last_In. exact Hne. }
    assert (Hcut : conts vm4 = upd (conts vm1) cp (set_c_prev NULL (conts vm1 cp))).
    { rewrite Hconts, Hconts'. unfold vm2. rewrite Hcp. reflexivity. }
    split.
    + apply (cont_segment_cut vm1 _ (cont vm1) fs b Hseg Hne
               (cont_segment_NoDup _ _ _ _ Hseg)).
      exact Hcut.
    + cbn [conts set_sp set_pc set_words]. rewrite Hcut. apply upd_same.
  - intros q Hq. cbn [conts set_sp set_pc set_words]. rewrite Hconts, Hconts'. unfold vm2.
    destruct fs as [| f fs'].
    + reflexivity.
    + assert (Hcp : is_null cp = false).
      { apply (cont_segment_In _ _ _ _ Hseg). apply last_In. discriminate. }
      rewrite Hcp. cbn [negb]. vm_simpl. apply upd_other. apply Hq. discriminate.
Qed.

(* ----------------------------------------------------------------- *)
(** *** An error that crosses the border *)

(** An error that arrives at the record of [user_eval_inner], the
    stack having had room at the call: [sp] in the stack with more
    than [CONT_FRAME_SIZE] words free above it and, when the code of
    the program itself is run ([codevec] null), more than
    [CONT_FRAME_SIZE] plus its [maxstack].  When the loop leaves by
    [siglongjmp] with the reason [SCM_VM_ESCAPE_ERROR], the boundary
    frame and the record chain being as entered: if the escape data
    name an escape point of this record, the loop is entered again at
    the continuation of that escape point with [pc] forcing a return;
    if they name no escape point and there is an outer record,
    [user_eval_inner] pops its boundary frame and jumps on to that
    record, with [sp], [argp], [env], [base], [cont] and the record
    chain as before the call and the escape data untouched; and if
    there is no outer record, it leaves by [exit(EX_SOFTWARE)]. *)
Theorem user_eval_inner_error_escape (fuel : nat) (program : ScmCompiledCode)
  (codevec : option ScmPC) (vm : ScmVM) (s a : Z)
  (Hsp : sp vm = STACK s) (Hargp : argp vm = STACK a)
  (Hroom : 0 <= s /\ s + CONT_FRAME_SIZE < SCM_VM_STACK_SIZE)
  (Hmax : codevec = None -> s + CONT_FRAME_SIZE + maxstack program < SCM_VM_STACK_SIZE) :
  exists addr vin,
    user_eval_inner_enter program codevec vm = Returns (addr, pc vm) vin
    /\ cstack vin = mkCStack addr (sp vm) :: cstack vm
    /\ forall vout,
         run_loop (set_escapeReason SCM_VM_ESCAPE_NONE vin) = LongJmp vout ->
         escapeReason vout = SCM_VM_ESCAPE_ERROR ->
         conts vout (cont vin) = conts vin (cont vin) ->
         cstack vout = cstack vin ->
         (forall ep r,
            escapeData0 vout = Some ep -> nth_error (eps vout) ep = Some r ->
            ep_cstack r = Some addr ->
            user_eval_inner (S fuel) program codevec vm =
            user_eval_inner_restart fuel addr (pc vm)
              (set_pc PC_TO_RETURN (set_cont (ep_cont r) vout)))
         /\ (escapeData0 vout = None -> cstack vm = [] ->
             user_eval_inner (S fuel) program codevec vm = Exits EX_SOFTWARE)
         /\ (escapeData0 vout = None -> cstack vm <> [] ->
             exists vF,
               user_eval_inner (S fuel) program codevec vm = LongJmp vF
               /\ sp vF = sp vm /\ argp vF = argp vm /\ env vF = env vm
               /\ base vF = base vm /\ cont vF = cont vm /\ cstack vF = cstack vm
               /\ escapeReason vF = SCM_VM_ESCAPE_ERROR /\ escapeData0 vF = None
               /\ escapeData1 vF = escapeData1 vout
               /\ val0 vF = val0 vout /\ words vF = words vout).
Proof.
  destruct (user_eval_inner_enter_room program codevec vm s a Hsp Hargp Hroom Hmax)
    as (vin & Hent & Hcs & Hcont & Hframe & _).
  destruct Hroom as (Hs0 & Hs1). unfold CONT_FRAME_SIZE in Hs1.
  exists (next_cstack vm), vin. split; [exact Hent |]. split; [exact Hcs |].
  intros vout Hrun Hreason Hfo Hcso.
  assert (Hhead : negb (opt_nat_eqb (cstack_ptr vout) (Some (next_cstack vm))) = false).
  { unfold cstack_ptr. rewrite Hcso, Hcs. cbn [cs_addr opt_nat_eqb].
    rewrite Nat.eqb_refl. reflexivity. }
  split; [| split].
  - intros ep r Hdata Hep Hown.
    unfold user_eval_inner. rewrite Hent. cbn [bind user_eval_inner_restart].
    rewrite Hrun, Hhead, Hreason, Hdata, Hep, Hown.
    unfold cstack_ptr. rewrite Hcso, Hcs. cbn [cs_addr opt_nat_eqb].
    rewrite Nat.eqb_refl. reflexivity.
  - intros Hdata Hnil.
    unfold user_eval_inner. rewrite Hent. cbn [bind user_eval_inner_restart].
    rewrite Hrun, Hhead, Hreason, Hdata, Hcso, Hcs, Hnil. reflexivity.
  - intros Hdata Hne. destruct (cstack vm) as [| c0 rest] eqn:Hcsvm; [congruence |].
    unfold user_eval_inner. rewrite Hent. cbn [bind user_eval_inner_restart].
    rewrite Hrun, Hhead, Hreason, Hdata, Hcso, Hcs.
    unfold user_eval_inner_rethrow, local_cstack. rewrite Hcso, Hcs. cbn [find cs_addr].
    rewrite Nat.eqb_refl. cbn [cs_cont].
    unfold POP_CONT. vm_simpl. rewrite <- Hcont, Hfo, Hframe, Hargp, Hcont, Hsp.
    cbn [c_argp is_null IN_STACK_P].
    destruct (Z.leb_spec 0 s); [| lia]. destruct (Z.ltb_spec s SCM_VM_STACK_SIZE); [| lia].
    cbn [andb bind]. eexists. split; [reflexivity |].
    unfold pop_cstack. vm_simpl. rewrite Hcso, Hcs.
    cbn [tl c_size c_env c_base c_prev ptr_add].
    repeat split; try reflexivity; try assumption.
    f_equal. lia.
Qed.

(* ----------------------------------------------------------------- *)
(** *** The local frame discarded before a tail call *)

(** [CONT_FRAME_END(cont)] *)
Definition CONT_FRAME_END (vm : ScmVM) (c : ptr) : ptr :=
  if negb (is_null (c_argp (conts vm c)))
  then ptr_add c CONT_FRAME_SIZE                         (* Scheme continuation *)
  else ptr_add c (CONT_FRAME_SIZE + c_size (conts vm c)). (* C continuation *)

(** [DISCARD_ENV()] *)
Definition DISCARD_ENV (vm : ScmVM) : ScmVM :=
  let argc := ptr_diff (sp vm) (argp vm) in
  let to := if IN_STACK_P (cont vm) then CONT_FRAME_END vm (cont vm) else stackBase in
  let vm1 :=
    if negb (argc =? 0)
    then set_words (copy_words (Z.to_nat argc) (argp vm) to (words vm)) vm
    else vm in
  set_env NULL (set_sp (ptr_add to argc) (set_argp to vm1)).

(** A forward copy inside the stack towards lower addresses: every
    word is read before it is overwritten. *)
Lemma copy_words_down (n : nat) :
  forall (a t : Z) (w : ptr -> word),
    t <= a ->
    forall i, 0 <= i < Z.of_nat n ->
      copy_words n (STACK a) (STACK t) w (STACK (t + i)) = w (STACK (a + i)).
Proof.
  induction n as [| n IH]; intros a t w Hta i Hi; [lia |].
  cbn [copy_words ptr_add].
  destruct (Z.eq_dec i 0) as [-> | Hne].
  - rewrite !Z.add_0_r, copy_words_stack_below by lia. apply upd_same.
  - replace (t + i) with ((t + 1) + (i - 1)) by lia.
    rewrite IH by lia. replace (a + 1 + (i - 1)) with (a + i) by lia.
    apply upd_other. intros E. injection E. lia.
Qed.

Lemma copy_words_stack_above (n : nat) :
  forall (s : ptr) (t o : Z) (w : ptr -> word),
    t + Z.of_nat n <= o -> copy_words n s (STACK t) w (STACK o) = w (STACK o).
Proof.
  induction n as [| n IH]; intros s t o w Ho; cbn [copy_words ptr_add]; [reflexivity |].
  rewrite IH by lia. apply upd_other. intros E. injection E. lia.
Qed.

Lemma copy_words_stack_heap (n : nat) :
  forall (s : ptr) (t : Z) (w : ptr -> word) (b : nat) (o : Z),
    copy_words n s (STACK t) w (HEAP b o) = w (HEAP b o).
Proof.
  induction n as [| n IH]; intros s t w b o; cbn [copy_words ptr_add]; [reflexivity |].
  rewrite IH. apply upd_other. discriminate.
Qed.

(** [DISCARD_ENV] keeps the arguments of the tail call.  With the
    argument block between [argp] and [sp], and the place it is moved
    to - the end of the continuation frame when [cont] is in the
    stack, the base of the stack otherwise - not above [argp], the
    block is found after [DISCARD_ENV] at that place, word for word,
    with [argp] there and [sp] at its end, and [env] is null; the words
    of the stack below that place and above the old [sp], the words of
    the heap and the continuation are untouched. *)
Theorem DISCARD_ENV_keeps_arguments (vm : ScmVM) (s a t : Z)
  (Hsp : sp vm = STACK s) (Hargp : argp vm = STACK a) (Hblock : a <= s)
  (Hto : (if IN_STACK_P (cont vm) then CONT_FRAME_END vm (cont vm) else stackBase) = STACK t)
  (Hbelow : t <= a) :
  let vm' := DISCARD_ENV vm in
  arg_block vm' = arg_block vm
  /\ argp vm' = STACK t /\ sp vm' = STACK (t + (s - a)) /\ env vm' = NULL
  /\ (forall o, o < t \/ s <= o -> words vm' (STACK o) = words vm (STACK o))
  /\ (forall b o, words vm' (HEAP b o) = words vm (HEAP b o))
  /\ cont vm' = cont vm /\ conts vm' = conts vm /\ pc vm' = pc vm /\ val0 vm' = val0 vm.
Proof.
  intros vm'. unfold vm', DISCARD_ENV. rewrite Hto, Hsp, Hargp. cbn [ptr_diff ptr_add].
  set (w' := copy_words (Z.to_nat (s - a)) (STACK a) (STACK t) (words vm)).
  assert (Hw : words (if negb (s - a =? 0) then set_words w' vm else vm) = w').
  { destruct (Z.eqb_spec (s - a) 0) as [E | _]; cbn [negb]; [| reflexivity].
    unfold w'. rewrite E. reflexivity. }
  assert (Hregs : forall vmx, vmx = (if negb (s - a =? 0) then set_words w' vm else vm) ->
                   cont vmx = cont vm /\ conts vmx = conts vm /\ pc vmx = pc vm
                   /\ val0 vmx = val0 vm).
  { intros vmx ->. destruct (negb (s - a =? 0)); repeat split; reflexivity. }
  destruct (Hregs _ eq_refl) as (R1 & R2 & R3 & R4).
  unfold arg_block. vm_simpl. rewrite Hw, Hsp, Hargp. cbn [ptr_diff].
  replace (t + (s - a) - t) with (s - a) by lia.
  split.
  { apply load_words_moved. intros i Hi. unfold w'. apply copy_words_down; lia. }
  split; [reflexivity |]. split; [reflexivity |]. split; [reflexivity |].
  split.
  { intros o [Ho | Ho]; unfold w'.
    - apply copy_words_stack_below. exact Ho.
    - apply copy_words_stack_above. lia. }
  split; [intros b o; unfold w'; apply copy_words_stack_heap |].
  split; [exact R1 |]. split; [exact R2 |]. split; [exact R3 | exact R4].
Qed.

(* ----------------------------------------------------------------- *)
(** *** From arguments to an environment in the heap *)

(** [FINISH_ENV(info_, up_)] *)
Definition FINISH_ENV (info_ : ScmObj) (up_ : ptr) (vm : ScmVM) : ScmVM :=
  let e__ := sp vm in
  let vm1 :=
    set_envs (upd (envs vm) e__ (mkEnv up_ info_ (ptr_diff (sp vm) (argp vm)))) vm in
  let vm2 := set_sp (ptr_add (sp vm1) ENV_HDR_SIZE) vm1 in
  let vm3 := set_argp (sp vm2) vm2 in
  set_env e__ vm3.

(** The arguments of a call end up in the heap as they were pushed.
    [FINISH_ENV] makes the argument block between [argp] and [sp] the
    frame of a new environment on top of [up_]; when [get_env] then
    moves the environment to the heap, the first frame read from
    [vm->env] holds the words of the argument block, in order, with
    the info and the size given, and the frames that follow are those
    that were read from [up_]. *)
Theorem FINISH_ENV_get_env (info_ : ScmObj) (up_ : ptr) (vm : ScmVM) (s a : Z)
  (l : list ptr) (t : ptr) (cl : list ptr) (ct : ptr)
  (Hsp : sp vm = STACK s) (Hargp : argp vm = STACK a)
  (Hblock : 0 <= a <= s /\ s < SCM_VM_STACK_SIZE)
  (Hup : env_chain vm up_ l t)
  (Hnew : ~ In (STACK s) l)
  (Hcont : stack_chain vm (cont vm) cl ct)
  (Hframes : forall c, In c cl ->
               old_ptr vm (c_env (conts vm c))
               /\ (In (c_env (conts vm c)) (STACK s :: l)
                   \/ FORWARDED_ENV_P vm (c_env (conts vm c)) = false)) :
  exists vm',
    get_env (FINISH_ENV info_ up_ vm) = Some (vm', env vm')
    /\ IN_STACK_P (env vm') = false
    /\ env_frames (S (List.length l)) vm' (env vm') =
       ((arg_block vm, info_, s - a) :: fst (env_frames (List.length l) vm up_), t)
    /\ sp vm' = STACK (s + ENV_HDR_SIZE) /\ argp vm' = STACK (s + ENV_HDR_SIZE)
    /\ cont vm' = cont vm.
Proof.
  destruct Hblock as ((Ha0 & Has) & Hs).
  set (vmF := FINISH_ENV info_ up_ vm).
  assert (HenvF : env vmF = STACK s) by (unfold vmF, FINISH_ENV; rewrite Hsp; reflexivity).
  assert (HnewF : envs vmF (STACK s) = mkEnv up_ info_ (s - a)).
  { unfold vmF, FINISH_ENV. vm_simpl. rewrite Hsp, Hargp. apply upd_same. }
  assert (HoldF : forall q, q <> STACK s -> envs vmF q = envs vm q).
  { intros q Hq. unfold vmF, FINISH_ENV. vm_simpl. rewrite Hsp. apply upd_other. exact Hq. }
  assert (HwF : words vmF = words vm) by reflexivity.
  assert (HcF : conts vmF = conts vm) by reflexivity.
  assert (HkF : cont vmF = cont vm) by reflexivity.
  assert (Hin : IN_STACK_P (STACK s) = true).
  { cbn [IN_STACK_P]. destruct (Z.leb_spec 0 s); [| lia].
    destruct (Z.ltb_spec s SCM_VM_STACK_SIZE); [reflexivity | lia]. }
  assert (HchF : env_chain vmF (env vmF) (STACK s :: l) t).
  { rewrite HenvF. constructor; [exact Hin | rewrite HnewF; cbn [e_size]; lia |].
    rewrite HnewF. cbn [e_up].
    eapply env_chain_ext; [exact Hup |].
    intros p Hp. apply HoldF. intros E. subst p. contradiction. }
  assert (HcontF : stack_chain vmF (cont vmF) cl ct).
  { rewrite HkF. eapply stack_chain_ext; [exact Hcont |]. intros p _. rewrite HcF. reflexivity. }
  destruct (get_env_spec vmF (STACK s :: l) t cl ct HchF HcontF)
    as (vm' & Hg & Hout & Hev & Hmoved & _ & _ & Hregs & Hk).
  { intros c Hc. rewrite HcF. destruct (Hframes c Hc) as (Hold & Hcase).
    split; [exact Hold |].
    destruct (in_dec ptr_eq_dec (c_env (conts vm c)) (STACK s :: l)) as [Hi | Hni];
      [left; exact Hi |].
    right. destruct Hcase as [Hi | Hf]; [contradiction |].
    unfold FORWARDED_ENV_P in *. rewrite HoldF; [exact Hf |].
    intros E. apply Hni. left. symmetry. exact E. }
  exists vm'. split; [exact Hg |]. split; [exact Hout |].
  destruct (regs_inv _ _ Hregs) as (_ & Esp & _ & _ & _ & Eargp & _).
  split; [| split; [rewrite Esp; unfold vmF, FINISH_ENV; vm_simpl; rewrite Hsp; reflexivity
                   | split; [rewrite Eargp; unfold vmF, FINISH_ENV; vm_simpl;
                             rewrite Hsp; reflexivity
                            | rewrite Hk; exact HkF]]].
  pose proof (env_frames_moved vmF vm' (env vmF) (STACK s :: l) t HchF Hmoved) as Hfr.
  cbn [List.length] in Hfr. cbv iota in Hfr.
  rewrite Hev, Hfr.
  rewrite HenvF. cbn [env_frames]. rewrite HnewF. cbn [e_up e_info e_size].
  clearbody vmF.
  assert (Hrest : forall e l' t',
             env_chain vm e l' t' -> ~ In (STACK s) l' ->
             env_frames (List.length l') vmF e = env_frames (List.length l') vm e).
  { intros e l' t' Hch'.
    induction Hch' as [t' Ht' | e l' t' He Hsz Hch' IH]; intros Hni; [reflexivity |].
    cbn [List.length env_frames].
    assert (Hne : e <> STACK s) by (intros E; apply Hni; left; exact E).
    rewrite (HoldF e Hne), HwF.
    rewrite IH by (intros Hi; apply Hni; right; exact Hi). reflexivity. }
  specialize (Hrest up_ l t Hup Hnew).
  rewrite Hrest.
  pose proof (env_frames_chain vm up_ l t Hup) as Hend.
  destruct (env_frames (List.length l) vm up_) as [fs t']. cbn [snd fst] in *. subst t'.
  do 4 f_equal.
  unfold arg_block. rewrite HwF, Hsp, Hargp. cbn [ptr_diff ptr_add].
  replace (s + - (s - a)) with a by lia. reflexivity.
Qed.

(* ----------------------------------------------------------------- *)
(** *** The fixed-arity entries of [Scm_ApplyRec] *)

(** [Scm_ApplyRec0(proc)] *)
Definition Scm_ApplyRec0 (fuel : nat) (proc : ScmObj) (vm : ScmVM) : outcome ScmObj :=
  apply_rec fuel proc 0 vm.

(** [Scm_ApplyRec1(proc, arg0)] *)
Definition Scm_ApplyRec1 (fuel : nat) (proc arg0 : ScmObj) (vm : ScmVM) : outcome ScmObj :=
  let vm1 := set_vals (upd_nat (vals vm) 0 arg0) vm in
  apply_rec fuel proc 1 vm1.

(** [Scm_ApplyRec2(proc, arg0, arg1)] *)
Definition Scm_ApplyRec2 (fuel : nat) (proc arg0 arg1 : ScmObj) (vm : ScmVM)
  : outcome ScmObj :=
  let vm1 := set_vals (upd_nat (vals vm) 0 arg0) vm in
  let vm2 := set_vals (upd_nat (vals vm1) 1 arg1) vm1 in
  apply_rec fuel proc 2 vm2.

(** [Scm_ApplyRec3(proc, arg0, arg1, arg2)] *)
Definition Scm_ApplyRec3 (fuel : nat) (proc arg0 arg1 arg2 : ScmObj) (vm : ScmVM)
  : outcome ScmObj :=
  let vm1 := set_vals (upd_nat (vals vm) 0 arg0) vm in
  let vm2 := set_vals (upd_nat (vals vm1) 1 arg1) vm1 in
  let vm3 := set_vals (upd_nat (vals vm2) 2 arg2) vm2 in
  apply_rec fuel proc 3 vm3.

(** [Scm_ApplyRec4(proc, arg0, arg1, arg2, arg3)] *)
Definition Scm_ApplyRec4 (fuel : nat) (proc arg0 arg1 arg2 arg3 : ScmObj) (vm : ScmVM)
  : outcome ScmObj :=
  let vm1 := set_vals (upd_nat (vals vm) 0 arg0) vm in
  let vm2 := set_vals (upd_nat (vals vm1) 1 arg1) vm1 in
  let vm3 := set_vals (upd_nat (vals vm2) 2 arg2) vm2 in
  let vm4 := set_vals (upd_nat (vals vm3) 3 arg3) vm3 in
  apply_rec fuel proc 4 vm4.

(** [Scm_ApplyRec5(proc, arg0, arg1, arg2, arg3, arg4)] *)
Definition Scm_ApplyRec5 (fuel : nat) (proc arg0 arg1 arg2 arg3 arg4 : ScmObj) (vm : ScmVM)
  : outcome ScmObj :=
  let vm1 := set_vals (upd_nat (vals vm) 0 arg0) vm in
  let vm2 := set_vals (upd_nat (vals vm1) 1 arg1) vm1 in
  let vm3 := set_vals (upd_nat (vals vm2) 2 arg2) vm2 in
  let vm4 := set_vals (upd_nat (vals vm3) 3 arg3) vm3 in
  let vm5 := set_vals (upd_nat (vals vm4) 4 arg4) vm4 in
  apply_rec fuel proc 5 vm5.

Lemma set_vals_twice (a b : nat -> ScmObj) (vm : ScmVM) :
  set_vals a (set_vals b vm) = set_vals a vm.
Proof. destruct vm; reflexivity. Qed.

Lemma set_vals_eta (vm : ScmVM) : set_vals (vals vm) vm = vm.
Proof. destruct vm; reflexivity. Qed.

(** The fixed-arity entries enter the VM as [Scm_ApplyRec] does on the
    list of their arguments, wherever the last slot of [vals], which
    [Scm_ApplyRec] keeps for the rest of a long list, lies beyond the
    fifth argument. *)
Theorem Scm_ApplyRecN_agree (fuel : nat) (proc a0 a1 a2 a3 a4 : ScmObj) (c : nat)
  (vm : ScmVM) (Hcap : 6 <= SCM_VM_MAX_VALUES) :
  Scm_ApplyRec fuel proc (list_in_cells [] c) vm = Scm_ApplyRec0 fuel proc vm
  /\ Scm_ApplyRec fuel proc (list_in_cells [a0] c) vm = Scm_ApplyRec1 fuel proc a0 vm
  /\ Scm_ApplyRec fuel proc (list_in_cells [a0; a1] c) vm = Scm_ApplyRec2 fuel proc a0 a1 vm
  /\ Scm_ApplyRec fuel proc (list_in_cells [a0; a1; a2] c) vm
     = Scm_ApplyRec3 fuel proc a0 a1 a2 vm
  /\ Scm_ApplyRec fuel proc (list_in_cells [a0; a1; a2; a3] c) vm
     = Scm_ApplyRec4 fuel proc a0 a1 a2 a3 vm
  /\ Scm_ApplyRec fuel proc (list_in_cells [a0; a1; a2; a3; a4] c) vm
     = Scm_ApplyRec5 fuel proc a0 a1 a2 a3 a4 vm.
Proof.
  assert (Hslot : forall i, 0 <= i <= 4 -> (i =? SCM_VM_MAX_VALUES - 1) = false)
    by (intros i Hi; apply Z.eqb_neq; lia).
  assert (Hargs : forall (n : nat) (i : Z) (args : ScmObj) (v : nat -> ScmObj),
             0 <= i <= 4 ->
             apply_rec_args (S n) i args v =
             apply_rec_args n (i + 1) (SCM_CDR args) (upd_nat v (Z.to_nat i) (SCM_CAR args))).
  { intros n i args v Hi. cbn [apply_rec_args]. rewrite Hslot by exact Hi. reflexivity. }
  unfold Scm_ApplyRec, Scm_ApplyRec0, Scm_ApplyRec1, Scm_ApplyRec2, Scm_ApplyRec3,
    Scm_ApplyRec4, Scm_ApplyRec5.
  cbn [list_in_cells].
  repeat split;
    match goal with
    | |- context [Scm_Length ?l] =>
        let n := eval vm_compute in (Scm_Length l) in
        change (Scm_Length l) with n
    end;
    match goal with
    | |- context [Z.to_nat ?z] =>
        let n := eval vm_compute in (Z.to_nat z) in
        change (Z.to_nat z) with n
    end;
    cbn [Z.ltb Z.compare];
    rewrite ?Hargs by lia;
    cbn [apply_rec_args SCM_CAR SCM_CDR Z.add Pos.add Pos.succ];
    repeat match goal with
    | |- context [Z.to_nat ?z] =>
        let n := eval vm_compute in (Z.to_nat z) in
        change (Z.to_nat z) with n
    end;
    cbn [vals set_vals]; rewrite ?set_vals_twice, ?set_vals_eta; reflexivity.
Qed.
End VM.

(* ================================================================= *)
(** ** Instances *)

(** A new VM with a stack of sixteen words, two words in the argument
    block under construction. *)
Definition vm_with_args : ScmVM :=
  set_words (upd (upd (fun _ => W_NULL) (STACK 3) (W_INT 10)) (STACK 4) (W_INT 20))
    (set_sp (STACK 5) (set_argp (STACK 3) (Scm_NewVM None))).

Lemma eps_wf_no_escape_point (vm : ScmVM) :
  escapePoint vm = None -> escapePointFloating vm = None -> eps_wf vm.
Proof.
  intros H1 H2. unfold eps_wf, SCM_VM_FLOATING_EP. rewrite H1, H2.
  split; exists []; constructor.
Qed.

(** The two words move to the base of the stack. *)
Lemma save_stack_compacts_witness :
  exists vm',
    save_stack 16 vm_with_args = Some vm'
    /\ words vm' (STACK 0) = W_INT 10 /\ words vm' (STACK 1) = W_INT 20
    /\ argp vm' = STACK 0 /\ sp vm' = STACK 2
    /\ words vm' (STACK 2) = W_NULL /\ words vm' (STACK 15) = W_NULL.
Proof.
  destruct (save_stack_compacts 16 vm_with_args 5 3)
    as (vm' & Hs & Hmove & Hargp & Hsp & Hclear & _).
  - apply eps_wf_no_escape_point; reflexivity.
  - reflexivity.
  - reflexivity.
  - lia.
  - exists vm'. split; [exact Hs |].
    split; [exact (Hmove 0 ltac:(lia)) |].
    split; [exact (Hmove 1 ltac:(lia)) |].
    split; [exact Hargp |]. split; [exact Hsp |].
    split; [exact (Hclear 2 ltac:(lia)) | exact (Hclear 15 ltac:(lia))].
Defined.

(** A VM whose continuation register leads through two frames of the
    stack - a host continuation with one opaque word on top of a
    Scheme frame - to the null pointer.  The host-stack record holds
    the lower frame and the escape point the upper one. *)
Definition frame_below : ScmContFrame :=
  mkCont NULL NULL (STACK 0) 0 (PC_CODE 100) None.
Definition frame_above : ScmContFrame :=
  mkCont (STACK 0) NULL NULL 1 (PC_CCONT CC_dynwind_after) None.
Definition vm_with_frames : ScmVM :=
  set_conts (upd (upd (fun _ => zero_cont) (STACK 0) frame_below) (STACK 6) frame_above)
    (set_words (upd (fun _ => W_NULL) (STACK 12) (W_INT 7))
       (set_cont (STACK 6)
          (set_sp (STACK 13) (set_argp (STACK 13)
             (set_cstack [mkCStack 0 (STACK 0)]
                (set_escapePoint (Some 0%nat)
                   (set_eps [mkEP None None SCM_FALSE DEFAULT_EXCEPTION_HANDLER SCM_NIL
                               (STACK 6) (Some 0%nat) false false]
                      (Scm_NewVM None)))))))).

(** Both frames are promoted; the register, the record and the escape
    point follow. *)
Lemma save_stack_forwards_witness :
  exists (vm' : ScmVM) (copy : ptr -> ptr),
    save_stack 16 vm_with_frames = Some vm'
    /\ (forall q, cont_reach vm' (cont vm') q -> IN_STACK_P 16 q = false)
    /\ cont vm' = copy (STACK 6)
    /\ c_pc (conts vm' (copy (STACK 6))) = PC_CCONT CC_dynwind_after
    /\ c_prev (conts vm' (copy (STACK 6))) = copy (STACK 0)
    /\ c_pc (conts vm' (copy (STACK 0))) = PC_CODE 100
    /\ nth_error (cstack vm') 0 = Some (mkCStack 0 (copy (STACK 0)))
    /\ option_map ep_cont (nth_error (eps vm') 0) = Some (copy (STACK 6)).
Proof.
  destruct (save_stack_forwards 16 vm_with_frames [STACK 6; STACK 0] NULL [0%nat] [])
    as (vm' & copy & Hs & Hreach & Hcopy & Hcont & Hcs & Hep).
  - repeat constructor.
  - intros p [<- | [<- | []]]; split; simpl; auto; lia.
  - intros q (Hn & Hq). unfold vm_with_frames. cbn [conts set_conts]. unfold upd.
    destruct (ptr_eq_dec q (STACK 6)) as [-> | _]; [discriminate |].
    destruct (ptr_eq_dec q (STACK 0)) as [-> | _]; [discriminate | reflexivity].
  - eapply (ep_chain_cons ep_prev _ 0%nat); [reflexivity | constructor].
  - constructor.
  - exists vm', copy. split; [exact Hs |]. split; [exact Hreach |].
    destruct (Hcopy (STACK 6) ltac:(simpl; auto)) as (_ & (_ & Hpc6 & _) & Hprev6).
    destruct (Hcopy (STACK 0) ltac:(simpl; auto)) as (_ & (_ & Hpc0 & _) & _).
    split; [apply Hcont; simpl; auto |].
    split; [exact Hpc6 |]. split; [exact Hprev6 |]. split; [exact Hpc0 |].
    split; [exact (Hcs 0%nat _ eq_refl ltac:(simpl; auto)) |].
    rewrite (Hep 0%nat _ ltac:(simpl; auto) eq_refl ltac:(simpl; auto)). reflexivity.
Defined.

(* ----------------------------------------------------------------- *)
(** *** The parts of the interpreter taken as given *)

Definition no_foreign_cc (f : nat) (v : ScmObj) (d : list word) (vm : ScmVM)
  : outcome ScmObj := Panics "no foreign continuation".

(** A loop that finds nothing left to run. *)
Definition idle_loop (vm : ScmVM) : outcome unit := Returns tt vm.

Definition quiet_report (e : ScmObj) (vm : ScmVM) : outcome unit := Returns tt vm.

(** A thunk that returns itself and one more value. *)
Definition two_values (proc : ScmObj) (vm : ScmVM) : ScmVM :=
  set_numVals 2 (set_vals (upd_nat (vals vm) 0 (SCM_MAKE_INT 42)) (set_val0 proc vm)).

Lemma sp_in_block_new : sp_in_block (Scm_NewVM None).
Proof. exists 0. reflexivity. Qed.

(** The thunks of the instances.  Procedure 2 leaves the two values 7
    and 8 and an empty handler list; procedure 3 leaves the three
    values 9, 10 and 11; any other procedure leaves itself as its one
    value.  Each returns to the frame it was called on. *)
Definition run_thunk (proc : ScmObj) (vm : ScmVM) : ScmVM :=
  match proc with
  | SCM_PROCEDURE 2 =>
      set_handlers SCM_NIL
        (set_numVals 2
           (set_vals (upd_nat (vals vm) 0 (SCM_MAKE_INT 8)) (set_val0 (SCM_MAKE_INT 7) vm)))
  | SCM_PROCEDURE 3 =>
      set_numVals 3
        (set_vals (upd_nat (upd_nat (vals vm) 0 (SCM_MAKE_INT 10)) 1 (SCM_MAKE_INT 11))
           (set_val0 (SCM_MAKE_INT 9) vm))
  | _ => set_numVals 1 (set_val0 proc vm)
  end.

Lemma run_thunk_kept (proc : ScmObj) (vm : ScmVM) :
  cont (run_thunk proc vm) = cont vm /\ conts (run_thunk proc vm) = conts vm
  /\ words (run_thunk proc vm) = words vm /\ eps (run_thunk proc vm) = eps vm
  /\ escapePoint (run_thunk proc vm) = escapePoint vm
  /\ escapePointFloating (run_thunk proc vm) = escapePointFloating vm
  /\ sp (run_thunk proc vm) = sp vm
  /\ numVals (run_thunk proc vm) <= 3.
Proof.
  unfold run_thunk.
  destruct proc; try (cbn; repeat split; lia).
  match goal with
  | p : nat |- _ => do 4 (destruct p; try (cbn; repeat split; lia))
  end.
Qed.

Lemma run_thunk_returns (proc : ScmObj) (vm : ScmVM) :
  eps_wf vm -> sp_in_block vm -> returns_to_frame 20 run_thunk proc vm.
Proof.
  intros Hwf Hsp.
  destruct (run_thunk_kept proc vm) as (Hc & Hcs & Hw & He & Hep & Hef & Hs & Hn).
  constructor.
  - intros after data H. unfold pushed in *. rewrite Hc, Hcs, Hw. exact H.
  - intros after data b _ _ o. rewrite Hw. reflexivity.
  - intros after data ep r _ _ H. exists (ep_cont r). rewrite He, set_ep_cont_eta. exact H.
  - apply (eps_wf_regs vm); auto.
  - destruct Hsp as (s & E). exists s. rewrite Hs. exact E.
  - lia.
Qed.

(* ----------------------------------------------------------------- *)
(** *** Handler lists of the instances *)

(** The extents [(before_here . after_here)] and
    [(before_there . after_there)], each alone and each inside the
    extent [(before_outer . after_outer)]. *)
Definition before_here : ScmObj := SCM_PROCEDURE 11.
Definition after_here : ScmObj := SCM_PROCEDURE 12.
Definition before_there : ScmObj := SCM_PROCEDURE 21.
Definition after_there : ScmObj := SCM_PROCEDURE 22.
Definition before_outer : ScmObj := SCM_PROCEDURE 31.
Definition after_outer : ScmObj := SCM_PROCEDURE 32.
Definition handlers_here : ScmObj :=
  SCM_PAIR 1 (SCM_PAIR 0 before_here after_here) SCM_NIL.
Definition handlers_there : ScmObj :=
  SCM_PAIR 3 (SCM_PAIR 2 before_there after_there) SCM_NIL.
Definition handlers_outer : ScmObj :=
  SCM_PAIR 11 (SCM_PAIR 10 before_outer after_outer) SCM_NIL.
Definition handlers_from : ScmObj :=
  SCM_PAIR 13 (SCM_PAIR 12 before_here after_here) handlers_outer.
Definition handlers_to : ScmObj :=
  SCM_PAIR 15 (SCM_PAIR 14 before_there after_there) handlers_outer.

Definition escape_there : ScmEscapePoint :=
  mkEP None None SCM_FALSE SCM_UNBOUND handlers_there NULL (Some 0%nat) false false.
Definition vm_here : ScmVM :=
  set_next_cell 4
    (set_handlers handlers_here
       (set_cstack [mkCStack 0 NULL] (set_eps [escape_there] (Scm_NewVM None)))).

(** The VM is inside [here] inside [outer]; the escape point was
    captured inside [there] inside [outer]. *)
Definition escape_to : ScmEscapePoint :=
  mkEP None None SCM_FALSE SCM_UNBOUND handlers_to NULL (Some 0%nat) false false.
Definition vm_from : ScmVM :=
  set_next_cell 16
    (set_handlers handlers_from
       (set_cstack [mkCStack 0 NULL] (set_eps [escape_to] (Scm_NewVM None)))).

(* ----------------------------------------------------------------- *)
(** *** Dynamic wind inside an extent *)

Definition thunk_before : ScmObj := SCM_PROCEDURE 1.
Definition thunk_body : ScmObj := SCM_PROCEDURE 2.
Definition thunk_after : ScmObj := SCM_PROCEDURE 3.

(** The three thunks are called in turn.  The body runs on the list
    with the new pair in front and leaves the list empty; the after
    thunk runs on the list as it was and leaves three values; the two
    values of the body come out. *)
Lemma dynamic_wind_order_witness :
  exists vmB vmC vmF : ScmVM,
    (exists c1 c2,
       handlers vmB = SCM_PAIR c2 (SCM_PAIR c1 thunk_before thunk_after) handlers_here)
    /\ val0 vmB = thunk_body
    /\ handlers (run_thunk thunk_body vmB) = SCM_NIL
    /\ handlers vmC = handlers_here /\ val0 vmC = thunk_after
    /\ val0 (run_thunk thunk_after vmC) = SCM_MAKE_INT 9
    /\ numVals (run_thunk thunk_after vmC) = 3
    /\ vals (run_thunk thunk_after vmC) 0%nat = SCM_MAKE_INT 10
    /\ dynamic_wind_run 16 20 no_foreign_cc run_thunk thunk_before thunk_body thunk_after
         vm_here = Returns false vmF
    /\ val0 vmF = SCM_MAKE_INT 7 /\ numVals vmF = 2 /\ vals vmF 0%nat = SCM_MAKE_INT 8
    /\ handlers vmF = handlers_here.
Proof.
  destruct (dynamic_wind_order 16 20 no_foreign_cc run_thunk thunk_before thunk_body
              thunk_after vm_here)
    as (vmA & _ & _ & _ & HhA & HwfA & HspA & HstepA).
  - apply eps_wf_no_escape_point; reflexivity.
  - exists 0. reflexivity.
  - destruct (HstepA (run_thunk_returns _ _ HwfA HspA))
      as (vmB & c1 & c2 & _ & _ & HvB & HhB & HwfB & HspB & HstepB).
    destruct (HstepB (run_thunk_returns _ _ HwfB HspB))
      as (vmC & _ & _ & HvC & HhC & HwfC & HspC & HstepC).
    destruct (HstepC (run_thunk_returns _ _ HwfC HspC))
      as (vmF & _ & Hv & Hn & Hvals & HhF & Hrun).
    assert (Hb : handlers (run_thunk thunk_before vmA) = handlers_here) by exact HhA.
    rewrite Hb in HhB, HhC.
    exists vmB, vmC, vmF.
    split; [exists c1, c2; exact HhB |]. split; [exact HvB |].
    split; [reflexivity |]. split; [exact HhC |]. split; [exact HvC |].
    split; [reflexivity |]. split; [reflexivity |]. split; [reflexivity |].
    split; [exact Hrun |]. split; [exact Hv |]. split; [exact Hn |].
    split; [exact (Hvals 0%nat ltac:(cbn; lia)) |].
    rewrite HhF. exact HhC.
Defined.

(* ----------------------------------------------------------------- *)
(** *** A throw between two dynamic extents *)

Lemma handler_list_from : handler_list handlers_from.
Proof. repeat constructor. Qed.

Lemma handler_list_to : handler_list handlers_to.
Proof. repeat constructor. Qed.

(** The two lists share the cell of the outer extent and nothing
    above it, and no entry of the target list repeats. *)
Lemma shared_below_from_to : shared_below handlers_from handlers_to.
Proof.
  intros p [<- | [<- | []]] Hp q Hq.
  - vm_compute in Hp. discriminate.
  - destruct Hq.
Qed.

Lemma NoDup_to : NoDup (elements handlers_to).
Proof.
  repeat constructor; cbn; intros H; repeat (destruct H as [H | H]; try discriminate); exact H.
Qed.

(** [after_here] is called on the list of the outer extent; when it
    has returned, [before_there] is called on that same list, the one
    below its cell; when it has returned, the end of the list is
    reached. *)
Lemma throw_cont_handlers_witness :
  exists (h : ScmObj) (cell : nat) (vmX vmY : ScmVM),
    throw_cont_calculate_handlers 0 vm_from = Returns h (set_next_cell cell vm_from)
    /\ entries h = [(after_here, handlers_outer); (before_there, handlers_outer)]
    /\ resume (throw_cont_body 16 20 h 0 (SCM_PAIR 9 (SCM_MAKE_INT 7) SCM_NIL)
                 (set_next_cell cell vm_from)) = Returns false vmX
    /\ val0 vmX = after_here /\ handlers vmX = handlers_outer
    /\ loop_step 16 20 no_foreign_cc run_thunk vmX = Returns false vmY
    /\ val0 vmY = before_there /\ handlers vmY = handlers_outer
    /\ reaches_target 16 20 0 escape_to (SCM_PAIR 9 (SCM_MAKE_INT 7) SCM_NIL)
         (loop_step 16 20 no_foreign_cc run_thunk vmY)
    /\ after_calls_all handlers_from handlers_to = [(after_here, handlers_outer)]
    /\ before_calls_cells handlers_from handlers_to = [(before_there, handlers_outer)].
Proof.
  destruct (throw_cont_handlers 16 20 no_foreign_cc run_thunk vm_from 0 escape_to
              (SCM_PAIR 9 (SCM_MAKE_INT 7) SCM_NIL))
    as (h & cell & Hh & Hent & Hall & Hcells & Hrun).
  - apply eps_wf_no_escape_point; reflexivity.
  - exists 0. reflexivity.
  - reflexivity.
  - exact handler_list_from.
  - exact handler_list_to.
  - assert (E : after_calls (handlers vm_from) (ep_handlers escape_to)
                ++ before_calls (handlers vm_from) (ep_handlers escape_to)
                = [(after_here, handlers_outer); (before_there, handlers_outer)])
      by reflexivity.
    rewrite E in Hent. rewrite Hent in Hrun. cbn [handler_run] in Hrun.
    destruct Hrun as (vmX & HX & _ & HvX & HhX & HwfX & HspX & HnextX).
    destruct (HnextX (run_thunk_returns _ _ HwfX HspX))
      as (vmY & HY & _ & HvY & HhY & HwfY & HspY & HnextY).
    specialize (HnextY (run_thunk_returns _ _ HwfY HspY)).
    exists h, cell, vmX, vmY.
    split; [exact Hh |]. split; [exact Hent |]. split; [exact HX |].
    split; [exact HvX |]. split; [exact HhX |]. split; [exact HY |].
    split; [exact HvY |]. split; [exact HhY |]. split; [exact HnextY |].
    split.
    + change (after_calls_all (handlers vm_from) (ep_handlers escape_to)
              = [(after_here, handlers_outer)]).
      rewrite <- (Hall shared_below_from_to). reflexivity.
    + change (before_calls_cells (handlers vm_from) (ep_handlers escape_to)
              = [(before_there, handlers_outer)]).
      rewrite <- (Hcells NoDup_to). reflexivity.
Defined.

(** The before calls as the specification words them: each with the
    target list from its own cell on, the list already extended. *)
Definition before_calls_extended (current target : ScmObj) : list (ScmObj * ScmObj) :=
  map (fun a => (SCM_CAR a, Scm_Memq a target))
      (filter (fun a => negb (present a current)) (rev (elements target))).

(** The adjustment as the specification words it: an after call for
    every cell of the current list that the target list lacks, then a
    before call for every cell of the reversed target list that the
    current list lacks. *)
Definition adjustment_as_worded (current target : ScmObj) : list (ScmObj * ScmObj) :=
  after_calls_all current target ++ before_calls_extended current target.

(** A target list that holds the entry of [here] and nothing below. *)
Definition handlers_apart : ScmObj :=
  SCM_PAIR 17 (SCM_PAIR 12 before_here after_here) SCM_NIL.
Definition escape_apart : ScmEscapePoint :=
  mkEP None None SCM_FALSE SCM_UNBOUND handlers_apart NULL (Some 0%nat) false false.

(** Out of every extent, thrown into one: the before thunk comes with
    the empty list, not with the list that holds its cell.  And from a
    list whose first entry the target holds while the entry below it is
    not in the target: the loop over the current list stops at the
    first entry, and no after call is made for the second. *)
Lemma throw_cont_handlers_counterexample :
  (exists (h : ScmObj) (vm' : ScmVM),
     throw_cont_calculate_handlers 0 (set_handlers SCM_NIL vm_here) = Returns h vm'
     /\ entries h = [(before_there, SCM_NIL)]
     /\ adjustment_as_worded SCM_NIL handlers_there = [(before_there, handlers_there)]
     /\ entries h <> adjustment_as_worded SCM_NIL handlers_there)
  /\ (exists (h : ScmObj) (vm' : ScmVM),
        throw_cont_calculate_handlers 0 (set_eps [escape_apart] vm_from) = Returns h vm'
        /\ entries h = []
        /\ adjustment_as_worded handlers_from handlers_apart = [(after_outer, SCM_NIL)]
        /\ entries h <> adjustment_as_worded handlers_from handlers_apart).
Proof.
  split; eexists _, _; (split; [reflexivity |]); (split; [reflexivity |]);
    (split; [reflexivity |]); discriminate.
Qed.

(* ----------------------------------------------------------------- *)
(** *** Capture and throw inside an extent, two frames in the stack *)

(** The VM of the two frames, inside the extent of
    [(before_here . after_here)]. *)
Definition vm_capturing : ScmVM := set_handlers handlers_here vm_with_frames.

(** The capture moves the host continuation on top to the heap; the
    throw that follows at once returns 7 and leaves the copy in
    [cont], the handler list and the one value as they were. *)
Lemma callcc_immediate_throw_witness :
  exists (vmS vm1 vm2 : ScmVM) (ep : nat),
    save_cont 16 vm_capturing = Some vmS
    /\ IN_STACK_P 16 (cont vmS) = false
    /\ c_pc (conts vmS (cont vmS)) = PC_CCONT CC_dynwind_after
    /\ words vmS (ptr_add (cont vmS) CONT_FRAME_SIZE) = W_INT 7
    /\ Scm_VMCallCC 16 (SCM_PROCEDURE 1) vm_capturing = Returns (SCM_PROCEDURE 1) vm1
    /\ throw_continuation 16 20 (SCM_PAIR 0 (SCM_MAKE_INT 7) SCM_NIL) ep vm1
       = Returns (SCM_MAKE_INT 7) vm2
    /\ cont vm2 = cont vmS
    /\ c_pc (conts vm2 (cont vm2)) = PC_CCONT CC_dynwind_after
    /\ handlers vm2 = handlers_here
    /\ numVals vm2 = 1
    /\ pc vm2 = PC_TO_RETURN.
Proof.
  destruct (callcc_immediate_throw 16 20 vm_capturing (SCM_PROCEDURE 1) (SCM_MAKE_INT 7) 0
              [STACK 6; STACK 0] NULL)
    as (vmS & vm1 & ep & r & Hs & Hout & _ & Hcopy & Hcall & _ & _ & _ & _ & _ & _ & _ & _
        & _ & _ & vm2 & Hthrow & _ & Hk & Hconts & Hh & Hpc & Hn & _).
  - split; [exists [0%nat]; eapply (ep_chain_cons ep_prev _ 0%nat); [reflexivity | constructor]
           | exists []; constructor].
  - repeat constructor.
  - repeat constructor.
  - intros p [<- | [<- | []]]; split; simpl; auto; lia.
  - intros q (Hn & Hq). unfold vm_capturing, vm_with_frames. cbn [conts set_conts set_handlers].
    unfold upd.
    destruct (ptr_eq_dec q (STACK 6)) as [-> | _]; [discriminate |].
    destruct (ptr_eq_dec q (STACK 0)) as [-> | _]; [discriminate | reflexivity].
  - destruct (Hcopy ltac:(discriminate)) as (_ & Hfpc & _ & _ & Hw).
    exists vmS, vm1, vm2, ep.
    split; [exact Hs |]. split; [exact Hout |]. split; [exact Hfpc |].
    split; [exact (Hw 0 ltac:(cbn; lia)) |].
    split; [exact Hcall |]. split; [exact Hthrow |]. split; [exact Hk |].
    split; [rewrite Hk, Hconts; exact Hfpc |].
    split; [exact Hh |]. split; [exact Hn | exact Hpc].
Defined.

(* ----------------------------------------------------------------- *)
(** *** A ghost *)






(* ----------------------------------------------------------------- *)
(** *** Raising a serious condition *)

(** A user handler is installed, and returns. *)
Definition user_handler : ScmObj := SCM_PROCEDURE 5.
Definition serious : ScmObj := SCM_CONDITION true 0.



(* ----------------------------------------------------------------- *)
(** *** As many values as [vm->vals] and [val0] hold *)

(** The integers [i], [i+1], ... in the cells [c], [c+1], ... *)
Fixpoint int_list (n : nat) (i : Z) (c : nat) : ScmObj :=
  match n with
  | O => SCM_NIL
  | S n' => SCM_PAIR c (SCM_MAKE_INT i) (int_list n' (i + 1) (S c))
  end.

(** The escape point and the VM share the host-stack record 0. *)
Definition escape_same : ScmEscapePoint :=
  mkEP None None SCM_FALSE SCM_UNBOUND SCM_NIL NULL (Some 0%nat) false false.
Definition vm_same : ScmVM :=
  set_numVals 3 (set_cstack [mkCStack 0 NULL] (set_eps [escape_same] (Scm_NewVM None))).

(** C8. With [SCM_VM_MAX_VALUES] at 20 and nothing to adjust:
    [throw_cont_body] on a list of 20 values raises "too many values
    passed to the continuation", whereas [Scm_VMValues] takes the same
    list and sets [numVals] to 20; on 19 values [throw_cont_body]
    delivers them with [numVals] at 19; and on one value it returns
    the value and leaves [numVals] at the 3 it found, whereas
    [Scm_VMValues] sets it to 1. *)
Theorem throw_cont_body_at_cap :
  Scm_Length (int_list 20 1 0) = 20
  /\ throw_cont_body 16 20 SCM_NIL 0 (int_list 20 1 0) vm_same
     = Raises "too many values passed to the continuation" [] (installed escape_same vm_same)
  /\ (exists vm', Scm_VMValues 20 vm_same (int_list 20 1 0) = Returns (SCM_MAKE_INT 1) vm'
                  /\ numVals vm' = 20 /\ vals vm' 18%nat = SCM_MAKE_INT 20)
  /\ (exists vm', throw_cont_body 16 20 SCM_NIL 0 (int_list 19 1 0) vm_same
                  = Returns (SCM_MAKE_INT 1) vm'
                  /\ numVals vm' = 19 /\ vals vm' 17%nat = SCM_MAKE_INT 19)
  /\ (exists vm', throw_cont_body 16 20 SCM_NIL 0 (int_list 1 1 0) vm_same
                  = Returns (SCM_MAKE_INT 1) vm'
                  /\ numVals vm' = 3)
  /\ (exists vm', Scm_VMValues 20 vm_same (int_list 1 1 0) = Returns (SCM_MAKE_INT 1) vm'
                  /\ numVals vm' = 1).
Proof.
  split; [vm_compute; reflexivity |]. split; [vm_compute; reflexivity |].
  split.
  { exists (match Scm_VMValues 20 vm_same (int_list 20 1 0) with
            | Returns _ vm' => vm'
            | _ => vm_same
            end).
    split; [vm_compute; reflexivity | split; vm_compute; reflexivity]. }
  split.
  { exists (match throw_cont_body 16 20 SCM_NIL 0 (int_list 19 1 0) vm_same with
            | Returns _ vm' => vm'
            | _ => vm_same
            end).
    split; [vm_compute; reflexivity | split; vm_compute; reflexivity]. }
  split; eexists; split; reflexivity.
Qed.

(* ================================================================= *)
(** ** Further properties of the port lock *)

(** The port as [PORT_LOCK] leaves it after one turn of its loop that
    found it free: owned once by [vm], the fast lock taken and given
    back. *)
Definition port_taken (p : Port.ScmPort) (vm : Port.vmref) : Port.ScmPort :=
  Port.mkPort (Some vm) 1 (Port.lock p ++ [Port.FASTLOCK_LOCK; Port.FASTLOCK_UNLOCK]).

(** The port is owned by a thread other than [vm] that has not
    terminated. *)
Definition port_held (terminated : Port.vmref -> bool) (vm : Port.vmref) (p : Port.ScmPort)
  : Prop :=
  exists o, Port.lockOwner p = Some o /\ o <> vm /\ terminated o = false.

Lemma port_lock_spin_free
  (terminated : Port.vmref -> bool) (yield : Port.ScmPort -> Port.ScmPort)
  (fuel : nat) (q : Port.ScmPort) (vm : Port.vmref) :
  Port.lockOwner q = None ->
  Port.PORT_LOCK_spin terminated yield (S fuel) q vm = Some (port_taken q vm).
Proof.
  intros Hnone. unfold Port.PORT_LOCK_spin, Port.PORT_LOCK_turn, port_taken.
  rewrite Hnone. cbn. rewrite Nat.eqb_refl, <- app_assoc. reflexivity.
Qed.

(** A free port, and a port whose owner has terminated, are taken at
    the first turn: [PORT_LOCK] returns without yielding, the caller
    owns the port with a count of 1, and the fast lock has been taken
    and released once. *)
Theorem port_lock_takes_free_port
  (terminated : Port.vmref -> bool) (yield : Port.ScmPort -> Port.ScmPort)
  (fuel : nat) (p : Port.ScmPort) (vm : Port.vmref)
  (Hfree : Port.lockOwner p = None
           \/ exists o, Port.lockOwner p = Some o /\ o <> vm /\ terminated o = true) :
  Port.PORT_LOCK terminated yield (S fuel) p vm = Some (port_taken p vm)
  /\ Port.PORT_LOCKED (port_taken p vm) vm = true.
Proof.
  split; [| apply Port.owner_eqb_refl].
  unfold Port.PORT_LOCK, Port.PORT_LOCK_spin, Port.PORT_LOCK_turn, port_taken.
  destruct Hfree as [Hnone | (o & Ho & Hne & Hdead)].
  - rewrite Hnone. cbn. rewrite Nat.eqb_refl, <- app_assoc. reflexivity.
  - rewrite Ho. cbn. apply Nat.eqb_neq in Hne. rewrite Hne. cbn.
    rewrite Hdead. cbn. rewrite Nat.eqb_refl, <- app_assoc. reflexivity.
Qed.

Lemma port_lock_turn_held
  (terminated : Port.vmref -> bool) (yield : Port.ScmPort -> Port.ScmPort)
  (p : Port.ScmPort) (vm : Port.vmref) :
  port_held terminated vm p ->
  Port.PORT_LOCK_turn terminated yield p vm =
  inl (yield (Port.mkPort (Port.lockOwner p) (Port.lockCount p)
                (Port.lock p ++ [Port.FASTLOCK_LOCK; Port.FASTLOCK_UNLOCK]))).
Proof.
  intros (o & Ho & Hne & Hlive). unfold Port.PORT_LOCK_turn. rewrite Ho. cbn.
  rewrite Hlive. cbn. apply Nat.eqb_neq in Hne. rewrite Hne, <- app_assoc. reflexivity.
Qed.

(** [PORT_LOCK] never takes a port from a live owner.  Each turn of
    its loop on a port held by another live thread leaves the owner
    and the count alone and yields; as long as the port is held when
    the caller is scheduled again the loop goes on, and when it is
    found free the caller takes it. *)
Theorem port_lock_waits_for_owner
  (terminated : Port.vmref -> bool) (yield : Port.ScmPort -> Port.ScmPort)
  (p : Port.ScmPort) (vm : Port.vmref)
  (Hheld : port_held terminated vm p) :
  let after_turn :=
    yield (Port.mkPort (Port.lockOwner p) (Port.lockCount p)
             (Port.lock p ++ [Port.FASTLOCK_LOCK; Port.FASTLOCK_UNLOCK])) in
  Port.PORT_LOCK_turn terminated yield p vm = inl after_turn
  /\ ((forall q, port_held terminated vm q -> port_held terminated vm (yield q)) ->
      forall fuel, Port.PORT_LOCK terminated yield fuel p vm = None)
  /\ (Port.lockOwner after_turn = None ->
      forall fuel,
        Port.PORT_LOCK terminated yield (S (S fuel)) p vm = Some (port_taken after_turn vm)).
Proof.
  cbv zeta. split; [apply port_lock_turn_held; exact Hheld |]. split.
  - intros Hkeep fuel.
    assert (Hspin : forall n q, port_held terminated vm q ->
                      Port.PORT_LOCK_spin terminated yield n q vm = None).
    { induction n as [| n IH]; intros q Hq; [reflexivity |].
      cbn [Port.PORT_LOCK_spin]. rewrite (port_lock_turn_held _ _ _ _ Hq).
      apply IH. apply Hkeep.
      destruct Hq as (o & Ho & Hne & Hlive). exists o. cbn. auto. }
    unfold Port.PORT_LOCK. destruct Hheld as (o & Ho & Hne & Hlive).
    rewrite Ho. cbn. apply Nat.eqb_neq in Hne. rewrite Hne. cbn.
    apply Hspin. exists o. apply Nat.eqb_neq in Hne. auto.
  - intros Hfree fuel.
    pose proof (port_lock_turn_held terminated yield p vm Hheld) as Hturn.
    destruct Hheld as (o & Ho & Hne & Hlive).
    assert (Hnot : negb (Port.owner_eqb (Port.lockOwner p) vm) = true).
    { rewrite Ho. cbn. apply Nat.eqb_neq in Hne. rewrite Hne. reflexivity. }
    unfold Port.PORT_LOCK. rewrite Hnot. cbn [Port.PORT_LOCK_spin].
    rewrite Hturn.
    apply port_lock_spin_free. exact Hfree.
Qed.

(** [n] nested [PORT_LOCK]s by the owner. *)
Fixpoint lock_times (terminated : Port.vmref -> bool) (yield : Port.ScmPort -> Port.ScmPort)
  (n : nat) (p : Port.ScmPort) (vm : Port.vmref) : option Port.ScmPort :=
  match n with
  | O => Some p
  | S n' =>
      match Port.PORT_LOCK terminated yield 0 p vm with
      | Some p' => lock_times terminated yield n' p' vm
      | None => None
      end
  end.

Fixpoint unlock_times (n : nat) (p : Port.ScmPort) : Port.ScmPort :=
  match n with
  | O => p
  | S n' => unlock_times n' (Port.PORT_UNLOCK p)
  end.

Lemma port_eta (p : Port.ScmPort) :
  Port.mkPort (Port.lockOwner p) (Port.lockCount p) (Port.lock p) = p.
Proof. destruct p; reflexivity. Qed.

Lemma unlock_times_owner (n : nat) :
  forall (p : Port.ScmPort),
    1 <= Port.lockCount p - Z.of_nat n -> Port.lockCount p <= Port.INT_MAX ->
    unlock_times n p =
    Port.mkPort (Port.lockOwner p) (Port.lockCount p - Z.of_nat n) (Port.lock p).
Proof.
  induction n as [| n IH]; intros p Hlow Hhigh.
  - cbn [unlock_times]. rewrite Z.sub_0_r. symmetry. apply port_eta.
  - cbn [unlock_times]. unfold Port.PORT_UNLOCK.
    rewrite Port.wrap_int_id by (unfold Port.INT_MIN, Port.INT_MAX in *; lia).
    destruct (Z.leb_spec (Port.lockCount p - 1) 0); [lia |].
    rewrite IH by (cbn; lia). cbn. f_equal. lia.
Qed.

(** Nested locks balance.  A thread that owns a port can lock it [n]
    more times - without waiting, whatever the fuel - and the count
    goes up by [n]; [n] unlocks then give back the port exactly as it
    was, still owned; and unlocking as many times as the port was
    locked in all frees it, with a count of zero. *)
Theorem port_lock_unlock_balance
  (terminated : Port.vmref -> bool) (yield : Port.ScmPort -> Port.ScmPort)
  (n : nat) (p : Port.ScmPort) (vm : Port.vmref)
  (Hown : Port.lockOwner p = Some vm)
  (Hcnt : 1 <= Port.lockCount p)
  (Hmax : Port.lockCount p + Z.of_nat n <= Port.INT_MAX) :
  exists p',
    lock_times terminated yield n p vm = Some p'
    /\ Port.lockCount p' = Port.lockCount p + Z.of_nat n
    /\ Port.lockOwner p' = Some vm
    /\ unlock_times n p' = p
    /\ Port.lockOwner (unlock_times (n + Z.to_nat (Port.lockCount p)) p') = None
    /\ Port.lockCount (unlock_times (n + Z.to_nat (Port.lockCount p)) p') = 0.
Proof.
  assert (Hlock : forall m q,
             Port.lockOwner q = Some vm -> 1 <= Port.lockCount q ->
             Port.lockCount q + Z.of_nat m <= Port.INT_MAX ->
             lock_times terminated yield m q vm =
             Some (Port.mkPort (Some vm) (Port.lockCount q + Z.of_nat m) (Port.lock q))).
  { induction m as [| m IH]; intros q Ho Hc Hm.
    - cbn [lock_times]. rewrite Z.add_0_r, <- Ho, port_eta. reflexivity.
    - cbn [lock_times]. unfold Port.PORT_LOCK. rewrite Ho, Port.owner_eqb_refl.
      cbn [negb].
      rewrite Port.wrap_int_id by (unfold Port.INT_MIN, Port.INT_MAX in *; lia).
      rewrite IH by (cbn [Port.lockOwner Port.lockCount]; first [reflexivity | lia]).
      cbn [Port.lockCount Port.lock]. do 2 f_equal. lia. }
  eexists. split; [apply Hlock; assumption |]. cbn.
  split; [reflexivity |]. split; [reflexivity |].
  split.
  - rewrite unlock_times_owner by (cbn; lia). cbn.
    replace (Port.lockCount p + Z.of_nat n - Z.of_nat n) with (Port.lockCount p) by lia.
    rewrite <- Hown. apply port_eta.
  - replace (n + Z.to_nat (Port.lockCount p))%nat
      with (S (n + Z.to_nat (Port.lockCount p - 1)))%nat by lia.
    cbn [unlock_times].
    assert (Hlast : forall m q, unlock_times (S m) q = Port.PORT_UNLOCK (unlock_times m q)).
    { induction m as [| m IHm]; intros q; [reflexivity |].
      change (unlock_times (S (S m)) q) with (unlock_times (S m) (Port.PORT_UNLOCK q)).
      rewrite IHm. reflexivity. }
    change (unlock_times (n + Z.to_nat (Port.lockCount p - 1)) (Port.PORT_UNLOCK ?q))
      with (unlock_times (S (n + Z.to_nat (Port.lockCount p - 1))) q).
    rewrite Hlast, unlock_times_owner by (cbn; lia). cbn.
    unfold Port.PORT_UNLOCK. cbn.
    replace (Port.lockCount p + Z.of_nat n
             - Z.of_nat (n + Z.to_nat (Port.lockCount p - 1)) - 1) with 0 by lia.
    cbn. split; reflexivity.
Qed.

(* ================================================================= *)
(** ** Instances of the further properties *)

(** Three values go in and come out; a fourth is one too many for a
    cap of three. *)
Lemma Scm_VMValues_bound_witness :
  (exists vm', Scm_VMValues 20 vm_same (int_list 3 1 0) = Returns (SCM_MAKE_INT 1) vm'
               /\ numVals vm' = 3
               /\ vals vm' 0%nat = SCM_MAKE_INT 2 /\ vals vm' 1%nat = SCM_MAKE_INT 3)
  /\ (exists vm', Scm_VMValues 3 vm_same (int_list 4 1 0)
                  = Raises "too many values: %S" [int_list 4 1 0] vm'
                  /\ numVals vm' = 3).
Proof.
  split.
  - destruct (Scm_VMValues_bound 20 vm_same (int_list 3 1 0) eq_refl ltac:(lia)) as (H & _).
    destruct H as (vm' & E & Hn & Hv & _); [unfold elements_count; cbn; lia |].
    exists vm'. split; [exact E |]. split; [exact Hn |].
    split; [exact (Hv 0%nat ltac:(unfold elements_count; cbn; lia))
           | exact (Hv 1%nat ltac:(unfold elements_count; cbn; lia))].
  - destruct (Scm_VMValues_bound 3 vm_same (int_list 4 1 0) eq_refl ltac:(lia)) as (_ & H).
    apply H. unfold elements_count. cbn. lia.
Defined.

Lemma Scm_VMGetResult_Scm_VMValues_witness :
  exists v vm',
    Scm_VMValues 20 vm_same (int_list 3 1 0) = Returns v vm'
    /\ elements (fst (Scm_VMGetResult (set_val0 v vm')))
       = [SCM_MAKE_INT 1; SCM_MAKE_INT 2; SCM_MAKE_INT 3].
Proof.
  destruct (Scm_VMGetResult_Scm_VMValues 20 vm_same (int_list 3 1 0) eq_refl)
    as (v & vm' & E & Hel & _).
  - unfold elements_count. cbn. lia.
  - exists v, vm'. split; [exact E | exact Hel].
Defined.

Lemma Scm_VMValuesN_agree_witness :
  Scm_VMValues 20 vm_same (list_in_cells [SCM_MAKE_INT 1; SCM_MAKE_INT 2] 0)
  = returned (Scm_VMValues2 vm_same (SCM_MAKE_INT 1) (SCM_MAKE_INT 2))
  /\ numVals (snd (Scm_VMValues2 vm_same (SCM_MAKE_INT 1) (SCM_MAKE_INT 2))) = 2.
Proof.
  split; [| reflexivity].
  apply (Scm_VMValuesN_agree 20 vm_same (SCM_MAKE_INT 1) (SCM_MAKE_INT 2) SCM_FALSE SCM_FALSE
           SCM_FALSE 0). lia.
Defined.

(** Twelve words are wanted with the stack pointer at 5 of 16: the
    two words of the block move to the base and the twelve fit. *)
Lemma CHECK_STACK_room_witness :
  exists vm' s' a',
    CHECK_STACK 16 12 vm_with_args = Some vm'
    /\ sp vm' = STACK s' /\ argp vm' = STACK a' /\ s' - a' = 2 /\ s' + 12 < 16
    /\ words vm' (STACK a') = W_INT 10 /\ words vm' (STACK (a' + 1)) = W_INT 20.
Proof.
  destruct (CHECK_STACK_room 16 12 vm_with_args 5 3)
    as (vm' & s' & a' & Hc & Hs & Ha & _ & Hlen & Hroom & Hw & _).
  - apply eps_wf_no_escape_point; reflexivity.
  - reflexivity.
  - reflexivity.
  - lia.
  - lia.
  - exists vm', s', a'. split; [exact Hc |]. split; [exact Hs |]. split; [exact Ha |].
    split; [lia |]. split; [exact Hroom |].
    split.
    + rewrite <- (Z.add_0_r a'). exact (Hw 0 ltac:(lia)).
    + exact (Hw 1 ltac:(lia)).
Defined.

(** The frame of [dynwind_after_cc] pushed on a new VM and popped: the
    value kept in its data comes back. *)
Lemma Scm_VMPushCC_RETURN_OP_witness :
  exists vm' vmF,
    Scm_VMPushCC 16 CC_dynwind_after [W_OBJ (SCM_MAKE_INT 5); W_INT 1; W_UNINIT]
      (Scm_NewVM None) = Returns tt vm'
    /\ RETURN_OP 16 20 no_foreign_cc (set_val0 (SCM_MAKE_INT 9) vm') = Returns false vmF
    /\ val0 vmF = SCM_MAKE_INT 5 /\ cont vmF = NULL.
Proof.
  destruct (Scm_VMPushCC_RETURN_OP 16 20 no_foreign_cc CC_dynwind_after
              [W_OBJ (SCM_MAKE_INT 5); W_INT 1; W_UNINIT] (Scm_NewVM None))
    as (vm1 & vm' & Hc & Hpush & _ & _ & _ & Hret).
  - apply eps_wf_no_escape_point; reflexivity.
  - exact sp_in_block_new.
  - destruct (Hret (set_val0 (SCM_MAKE_INT 9) vm') eq_refl eq_refl (fun _ _ => eq_refl))
      as (vmP & E & Hcont & _).
    exists vm'. eexists. split; [exact Hpush |].
    split; [rewrite E; reflexivity |]. split; [reflexivity |].
    cbn. rewrite Hcont. vm_compute in Hc. injection Hc as <-. reflexivity.
Defined.

(** A frame pushed with the stack pointer at 5 and popped after the
    callee has left a value. *)
Lemma PUSH_CONT_POP_CONT_witness :
  exists vm3,
    POP_CONT 16 20 no_foreign_cc
      (set_val0 (SCM_MAKE_INT 1) (PUSH_CONT (PC_CODE 7) vm_with_args)) = Returns tt vm3
    /\ sp vm3 = STACK 5 /\ argp vm3 = STACK 3 /\ pc vm3 = PC_CODE 7
    /\ cont vm3 = NULL /\ val0 vm3 = SCM_MAKE_INT 1.
Proof.
  destruct (PUSH_CONT_POP_CONT 16 20 no_foreign_cc (PC_CODE 7) vm_with_args
              (set_val0 (SCM_MAKE_INT 1) (PUSH_CONT (PC_CODE 7) vm_with_args)) 5 3)
    as (_ & _ & _ & vm3 & E & Hs & Ha & _ & _ & Hc & Hpc & Hv & _).
  - reflexivity.
  - reflexivity.
  - lia.
  - reflexivity.
  - reflexivity.
  - exists vm3. split; [exact E |]. split; [exact Hs |]. split; [exact Ha |].
    split; [exact Hpc |]. split; [exact Hc | exact Hv].
Defined.

(** A Scheme frame at [STACK 2] that keeps the two words below it as
    its arguments. *)
Definition frame_scheme : ScmContFrame :=
  mkCont NULL NULL (STACK 0) 2 (PC_CODE 100) None.
Definition vm_with_scheme_frame : ScmVM :=
  set_conts (upd (fun _ => zero_cont) (STACK 2) frame_scheme)
    (set_words (upd (upd (fun _ => W_NULL) (STACK 0) (W_INT 10)) (STACK 1) (W_INT 20))
       (set_cont (STACK 2) (set_sp (STACK 8) (set_argp (STACK 8) (Scm_NewVM None))))).

Lemma save_stack_POP_CONT_witness :
  exists vm' vmP,
    save_stack 16 vm_with_scheme_frame = Some vm'
    /\ POP_CONT 16 20 no_foreign_cc vm' = Returns tt vmP
    /\ pc vmP = PC_CODE 100 /\ argp vmP = STACK 0 /\ sp vmP = STACK 2
    /\ words vmP (STACK 0) = W_INT 10 /\ words vmP (STACK 1) = W_INT 20.
Proof.
  destruct (save_stack_POP_CONT 16 20 no_foreign_cc vm_with_scheme_frame [STACK 2] NULL [] [])
    as (vm' & vmP & Hs & Hpop & Hpc & _ & Hargp & Hsp & Hw & _).
  - repeat constructor.
  - left. reflexivity.
  - intros p [<- | []]. split; cbn; [lia | exact I].
  - intros q (Hn & Hq). unfold vm_with_scheme_frame. cbn [conts set_conts]. unfold upd.
    destruct (ptr_eq_dec q (STACK 2)) as [-> | _]; [discriminate | reflexivity].
  - constructor.
  - constructor.
  - reflexivity.
  - exists vm', vmP. split; [exact Hs |]. split; [exact Hpop |].
    split; [exact Hpc |]. split; [exact Hargp |]. split; [exact Hsp |].
    split; [exact (Hw 0 ltac:(cbn; lia)) | exact (Hw 1 ltac:(cbn; lia))].
Defined.

(** Four arguments under a cap of three: two slots and the list of
    the rest. *)
Lemma Scm_ApplyRec_arguments_witness :
  exists v,
    Scm_ApplyRec 16 3 no_foreign_cc idle_loop 1 (SCM_PROCEDURE 1) (int_list 4 1 0)
      (Scm_NewVM None)
    = apply_rec 16 3 no_foreign_cc idle_loop 1 (SCM_PROCEDURE 1) 4
        (set_vals v (Scm_NewVM None))
    /\ v 0%nat = SCM_MAKE_INT 1 /\ v 1%nat = SCM_MAKE_INT 2
    /\ v 2%nat = int_list 2 3 2.
Proof.
  destruct (Scm_ApplyRec_arguments 16 3 no_foreign_cc idle_loop 1 (SCM_PROCEDURE 1)
              (int_list 4 1 0) (Scm_NewVM None) ltac:(lia)) as (_ & H).
  destruct (H ltac:(cbn; lia)) as (v & E & Hv & Hrest & _).
  exists v. split; [exact E |].
  split; [exact (Hv 0%nat ltac:(cbn; lia) ltac:(lia)) |].
  split; [exact (Hv 1%nat ltac:(cbn; lia) ltac:(lia)) |].
  exact (Hrest ltac:(cbn; lia)).
Defined.

(** A program that needs four words of stack. *)
Definition program_four : ScmCompiledCode := mkCode 100 4.

(** A call that runs the code of the program itself in an idle loop,
    from a VM with two words of arguments under construction and
    eleven words free. *)
Lemma user_eval_inner_restores_witness :
  exists v vF,
    user_eval_inner 16 20 no_foreign_cc idle_loop 1 program_four None vm_with_args
    = Returns v vF
    /\ val0 vF = v
    /\ sp vF = STACK 5 /\ argp vF = STACK 3 /\ cont vF = NULL
    /\ pc vF = PC_TO_RETURN /\ cstack vF = [].
Proof.
  destruct (user_eval_inner_restores 16 20 no_foreign_cc idle_loop 0
              program_four None vm_with_args 5 3)
    as (addr & vin & _ & _ & _ & _ & _ & Hret).
  - reflexivity.
  - reflexivity.
  - unfold CONT_FRAME_SIZE. lia.
  - intros _. unfold CONT_FRAME_SIZE. cbn. lia.
  - destruct (Hret (set_escapeReason SCM_VM_ESCAPE_NONE vin) eq_refl eq_refl eq_refl eq_refl)
      as (vF & E & Hs & Ha & _ & _ & Hc & Hpc & Hcs & Hv & _).
    eexists _, vF. split; [exact E |]. repeat split; assumption.
Defined.

(** The error-being-reported flag is the bit 1, and it is set when the
    form is entered. *)
Lemma with_error_handler_brackets_witness :
  exists vm3,
    discard_ehandler 2 0
      (snd (install_ehandler 2 0
              (snd (with_error_handler_enter 2 (SCM_PROCEDURE 1) false
                      (set_runtimeFlags 3 (Scm_NewVM None))))))
    = Returns SCM_UNDEFINED vm3
    /\ escapePoint vm3 = None
    /\ exceptionHandler vm3 = DEFAULT_EXCEPTION_HANDLER
    /\ runtimeFlags vm3 = 3.
Proof.
  destruct (with_error_handler_brackets 2 (SCM_PROCEDURE 1) false
              (set_runtimeFlags 3 (Scm_NewVM None)) 1 ltac:(lia) eq_refl)
    as ((r & Hr & _ & Hprev & _ & _ & _ & Hx & _) & _ & _ & _ & _ & Hdis).
  destruct (Hdis (snd (install_ehandler 2 0
                         (snd (with_error_handler_enter 2 (SCM_PROCEDURE 1) false
                                 (set_runtimeFlags 3 (Scm_NewVM None))))))
              r Hr Hprev Hx) as (vm3 & E & Hep & Hxh & Hfl).
  - cbn in Hr. injection Hr as <-. reflexivity.
  - exists vm3. split; [exact E |]. split; [exact Hep |]. split; [exact Hxh |].
    apply Hfl. reflexivity.
Defined.

(** Three values are in force; the handlers leave two others. *)
Definition vm_three : ScmVM :=
  set_val0 (SCM_MAKE_INT 1)
    (set_vals (upd_nat (upd_nat (fun _ => SCM_UNDEFINED) 0 (SCM_MAKE_INT 2)) 1 (SCM_MAKE_INT 3))
       (set_numVals 3 (Scm_NewVM None))).

Lemma process_queued_requests_keeps_values_witness :
  exists vm1 vmF,
    process_queued_requests_push 16 vm_three = Returns tt vm1
    /\ RETURN_OP 16 20 no_foreign_cc (two_values (SCM_MAKE_INT 0) vm1) = Returns false vmF
    /\ val0 vmF = SCM_MAKE_INT 1 /\ numVals vmF = 3
    /\ vals vmF 0%nat = SCM_MAKE_INT 2 /\ vals vmF 1%nat = SCM_MAKE_INT 3.
Proof.
  destruct (process_queued_requests_keeps_values 16 20 no_foreign_cc vm_three)
    as (data & vm1 & Hpush & Hp & _ & _ & _ & Hret).
  - apply eps_wf_no_escape_point; reflexivity.
  - exists 0. reflexivity.
  - destruct (Hret (two_values (SCM_MAKE_INT 0) vm1) Hp) as (vmF & E & Hv & Hn & Hvs).
    exists vm1, vmF. split; [exact Hpush |]. split; [exact E |].
    split; [exact Hv |]. split; [exact Hn |].
    split; [exact (Hvs 0%nat ltac:(cbn; lia)) | exact (Hvs 1%nat ltac:(cbn; lia))].
Defined.

Lemma throw_cont_body_delivers_witness :
  throw_cont_body 16 20 SCM_NIL 0 (int_list 3 1 0) vm_same
  = Scm_VMValues 20 (installed escape_same vm_same) (int_list 3 1 0)
  /\ exists vm',
       Scm_VMValues 20 (installed escape_same vm_same) (int_list 3 1 0)
       = Returns (SCM_MAKE_INT 1) vm'
       /\ numVals vm' = 3
       /\ vals vm' 0%nat = SCM_MAKE_INT 2 /\ vals vm' 1%nat = SCM_MAKE_INT 3.
Proof.
  split.
  - destruct (throw_cont_body_delivers 16 20 vm_same 0 escape_same 0 SCM_NIL (int_list 3 1 0)
                eq_refl eq_refl eq_refl) as (H & _).
    apply H. cbn. lia.
  - eexists. split; [reflexivity |]. repeat split.
Defined.

(** The continuation was captured under the record 0, and the VM has
    entered the record 1 since. *)
Definition vm_nested : ScmVM :=
  set_cstack [mkCStack 1 NULL; mkCStack 0 NULL] (set_eps [escape_same] (Scm_NewVM None)).

Lemma throw_continuation_jumps_witness :
  throw_continuation 16 20 (int_list 1 1 0) 0 vm_nested
  = LongJmp (set_escapeData1 (int_list 1 1 0)
               (set_escapeData0 (Some 0%nat) (set_escapeReason SCM_VM_ESCAPE_CONT vm_nested)))
  /\ cstack_ptr vm_nested = Some 1%nat.
Proof.
  split; [| reflexivity].
  apply (throw_continuation_jumps 16 20 vm_nested 0 escape_same (int_list 1 1 0) eq_refl).
  exists 0%nat. split; [reflexivity |]. split; [discriminate |]. right. left. reflexivity.
Defined.

(** The extent of [(before_there . after_there)] inside that of
    [(before_here . after_here)]. *)
Definition handlers_inner : ScmObj :=
  SCM_PAIR 3 (SCM_PAIR 2 before_there after_there) handlers_here.
Definition escape_here : ScmEscapePoint :=
  mkEP None None SCM_FALSE SCM_UNBOUND handlers_here NULL (Some 0%nat) false false.
Definition escape_inner : ScmEscapePoint :=
  mkEP None None SCM_FALSE SCM_UNBOUND handlers_inner NULL (Some 0%nat) false false.

Lemma handler_list_inner : handler_list handlers_inner.
Proof. repeat constructor. Qed.

(** From the inner extent to the outer one: one after thunk. *)
Lemma throw_outward_witness :
  exists h cell,
    throw_cont_calculate_handlers 0
      (set_handlers handlers_inner (set_eps [escape_here] (Scm_NewVM None)))
    = Returns h (set_next_cell cell
                   (set_handlers handlers_inner (set_eps [escape_here] (Scm_NewVM None))))
    /\ entries h = [(after_there, handlers_here)].
Proof.
  apply (throw_outward (set_handlers handlers_inner (set_eps [escape_here] (Scm_NewVM None)))
           0 escape_here 1).
  - reflexivity.
  - exact handler_list_inner.
  - reflexivity.
  - cbn. lia.
  - intros a Ha Hin. cbn in Ha, Hin. destruct Ha as [<- | []].
    destruct Hin as [E | []]. discriminate.
Defined.

(** From the outer extent back into the inner one: one before thunk. *)
Lemma throw_inward_witness :
  exists h cell,
    throw_cont_calculate_handlers 0
      (set_handlers handlers_here (set_eps [escape_inner] (Scm_NewVM None)))
    = Returns h (set_next_cell cell
                   (set_handlers handlers_here (set_eps [escape_inner] (Scm_NewVM None))))
    /\ entries h = [(before_there, handlers_here)].
Proof.
  apply (throw_inward (set_handlers handlers_here (set_eps [escape_inner] (Scm_NewVM None)))
           0 escape_inner 1).
  - reflexivity.
  - exact handler_list_inner.
  - reflexivity.
  - intros a Ha Hin. cbn in Ha, Hin. destruct Ha as [<- | []].
    destruct Hin as [E | []]. discriminate.
Defined.

Lemma Scm_VMApplyN_pushes_witness :
  exists vm',
    Scm_VMApply2 16 (SCM_PROCEDURE 1) (SCM_MAKE_INT 7) (SCM_MAKE_INT 8) vm_with_args
    = Returns (SCM_PROCEDURE 1) vm'
    /\ pc vm' = apply_calls 2
    /\ arg_block vm'
       = [W_INT 10; W_INT 20; W_OBJ (SCM_MAKE_INT 7); W_OBJ (SCM_MAKE_INT 8)].
Proof.
  destruct (Scm_VMApplyN_pushes 16 (SCM_PROCEDURE 1) (SCM_MAKE_INT 7) (SCM_MAKE_INT 8)
              SCM_FALSE SCM_FALSE vm_with_args 5 3)
    as (_ & (vm' & E & Hpc & Hb & _) & _).
  - apply eps_wf_no_escape_point; reflexivity.
  - reflexivity.
  - reflexivity.
  - lia.
  - lia.
  - exists vm'. split; [exact E |]. split; [exact Hpc | exact Hb].
Defined.

(** A free port is taken by the thread 7. *)
Lemma port_lock_takes_free_port_witness :
  Port.PORT_LOCK (fun _ => false) (fun q => q) 1 (Port.mkPort None 0 []) 7%nat
  = Some (Port.mkPort (Some 7%nat) 1 [Port.FASTLOCK_LOCK; Port.FASTLOCK_UNLOCK])
  /\ Port.PORT_LOCKED
       (Port.mkPort (Some 7%nat) 1 [Port.FASTLOCK_LOCK; Port.FASTLOCK_UNLOCK]) 7%nat = true.
Proof.
  apply (port_lock_takes_free_port (fun _ => false) (fun q => q) 0
           (Port.mkPort None 0 []) 7%nat).
  left. reflexivity.
Defined.

(** The thread 3 holds the port and lets go of it while the thread 7
    waits. *)
Definition releasing (q : Port.ScmPort) : Port.ScmPort :=
  Port.mkPort None 0 (Port.lock q).

Lemma port_lock_waits_for_owner_witness :
  Port.PORT_LOCK (fun _ => false) (fun q => q) 5 (Port.mkPort (Some 3%nat) 1 []) 7%nat = None
  /\ exists p',
       Port.PORT_LOCK (fun _ => false) releasing 2 (Port.mkPort (Some 3%nat) 1 []) 7%nat
       = Some p'
       /\ Port.lockOwner p' = Some 7%nat /\ Port.lockCount p' = 1.
Proof.
  split.
  - destruct (port_lock_waits_for_owner (fun _ => false) (fun q => q)
                (Port.mkPort (Some 3%nat) 1 []) 7%nat) as (_ & Hspin & _).
    + exists 3%nat. split; [reflexivity |]. split; [discriminate | reflexivity].
    + apply Hspin. intros q Hq. exact Hq.
  - destruct (port_lock_waits_for_owner (fun _ => false) releasing
                (Port.mkPort (Some 3%nat) 1 []) 7%nat) as (_ & _ & Htake).
    + exists 3%nat. split; [reflexivity |]. split; [discriminate | reflexivity].
    + eexists. split; [apply (Htake eq_refl 0%nat) |]. split; reflexivity.
Defined.

(** Held twice, locked three more times, unlocked three times, and
    then twice more. *)
Lemma port_lock_unlock_balance_witness :
  exists p',
    lock_times (fun _ => false) (fun q => q) 3 (Port.mkPort (Some 7%nat) 2 []) 7%nat = Some p'
    /\ Port.lockCount p' = 5
    /\ unlock_times 3 p' = Port.mkPort (Some 7%nat) 2 []
    /\ Port.lockOwner (unlock_times 5 p') = None.
Proof.
  destruct (port_lock_unlock_balance (fun _ => false) (fun q => q) 3
              (Port.mkPort (Some 7%nat) 2 []) 7%nat)
    as (p' & E & Hc & _ & Hback & Hfree & _).
  - reflexivity.
  - cbn. lia.
  - unfold Port.INT_MAX. cbn. lia.
  - exists p'. split; [exact E |]. split; [exact Hc |]. split; [exact Hback | exact Hfree].
Defined.

(** An escape point of [with-error-handler] with the handler
    [user_handler], taken under the host-stack record 0. *)
Definition escape_guard : ScmEscapePoint :=
  mkEP None None user_handler SCM_UNBOUND SCM_NIL NULL (Some 0%nat) false false.
Definition vm_guarded : ScmVM :=
  set_escapePoint (Some 0%nat)
    (set_eps [escape_guard]
       (set_next_cstack 1 (set_cstack [mkCStack 0 NULL] (Scm_NewVM None)))).

Lemma Scm_VMDefaultExceptionHandler_escape_point_witness :
  exists vmF,
    Scm_VMDefaultExceptionHandler 16 20 no_foreign_cc idle_loop quiet_report 2 1 serious
      vm_guarded = LongJmp vmF
    /\ val0 vmF = user_handler
    /\ numVals vmF = 1
    /\ cont vmF = NULL
    /\ cstack vmF = [mkCStack 0 NULL]
    /\ escapePoint vmF = None
    /\ escapeData0 vmF = Some 0%nat
    /\ escapeData1 vmF = serious.
Proof.
  pose (vm4 := error_handler_entry 0 escape_guard vm_guarded).
  pose (run := Scm_ApplyRec 16 20 no_foreign_cc idle_loop 1 user_handler
                 (SCM_PAIR (next_cell vm4) serious SCM_NIL)
                 (set_next_cell (S (next_cell vm4)) vm4)).
  pose (vm5 := match run with Returns _ v => v | _ => vm_guarded end).
  destruct (Scm_VMDefaultExceptionHandler_escape_point 16 20 no_foreign_cc idle_loop
              quiet_report 2 1 serious vm_guarded 0 escape_guard escape_guard
              user_handler vm5 (mkCStack 1 NULL) [mkCStack 0 NULL])
    as (_ & vmF & E & H0 & Hn & _ & Hc & Hcs & Hp & _ & _ & Hd0 & Hd1);
    try (vm_compute; reflexivity).
  exists vmF. split; [exact E |]. split; [exact H0 |]. split; [exact Hn |].
  split; [exact Hc |]. split; [exact Hcs |]. split; [exact Hp |].
  split; [exact Hd0 | exact Hd1].
Defined.

(** A VM with two environment frames in the stack.  The first has
    its header in the words 1 to 3 and holds the word at 0; it is the
    last of the chain.  The second has its header in the words 6 to 8,
    holds the two words at 4 and 5 and is linked to the first. *)
Definition vm_with_envs : ScmVM :=
  set_envs (upd (upd (fun _ => zero_env) (STACK 1) (mkEnv NULL (SCM_MAKE_INT 8) 1))
              (STACK 6) (mkEnv (STACK 1) (SCM_MAKE_INT 9) 2))
    (set_words (upd (upd (upd (fun _ => W_NULL) (STACK 0) (W_INT 10))
                       (STACK 4) (W_INT 30)) (STACK 5) (W_INT 40))
       (set_env (STACK 6) (set_sp (STACK 9) (set_argp (STACK 9) (Scm_NewVM None))))).

Lemma save_env_moves_witness :
  exists (vm' : ScmVM) (e' : ptr),
    save_env 16 vm_with_envs (STACK 6) = Some (vm', e')
    /\ IN_STACK_P 16 e' = false
    /\ env_frames 2 vm' e' =
       ([([W_INT 30; W_INT 40], SCM_MAKE_INT 9, 2); ([W_INT 10], SCM_MAKE_INT 8, 1)], NULL)
    /\ envs vm' (STACK 6) = mkEnv e' SCM_FALSE (-1)
    /\ e_size (envs vm' (STACK 1)) = -1.
Proof.
  destruct (save_env_moves 16 vm_with_envs (STACK 6) [STACK 6; STACK 1] NULL)
    as (vm' & e' & Hs & He' & Hout & Hfr & _ & Hmoved & _).
  - repeat constructor; cbn; lia.
  - destruct (Hmoved (STACK 6) ltac:(simpl; auto)) as (b & H5 & _).
    destruct (Hmoved (STACK 1) ltac:(simpl; auto)) as (b' & H2 & _).
    exists vm', e'.
    split; [exact Hs |]. split; [exact Hout |]. split; [exact Hfr |].
    split; [rewrite He', H5; reflexivity | rewrite H2; reflexivity].
Defined.

(** The same VM with a continuation frame on top of the stack, in the
    words 9 to 14, that refers to the environment. *)
Definition vm_with_env_cont : ScmVM :=
  set_conts (upd (fun _ => zero_cont) (STACK 9)
               (mkCont NULL (STACK 6) (STACK 9) 0 (PC_CODE 100) None))
    (set_cont (STACK 9) (set_sp (STACK 15) (set_argp (STACK 15) vm_with_envs))).

Lemma get_env_forwards_witness :
  exists (vm' : ScmVM),
    get_env 16 vm_with_env_cont = Some (vm', env vm')
    /\ IN_STACK_P 16 (env vm') = false
    /\ c_env (conts vm' (STACK 9)) = env vm'
    /\ FORWARDED_ENV_P vm' (c_env (conts vm' (STACK 9))) = false
    /\ c_pc (conts vm' (STACK 9)) = PC_CODE 100.
Proof.
  destruct (get_env_forwards 16 vm_with_env_cont [STACK 6; STACK 1] NULL [STACK 9] NULL)
    as (vm' & Hg & Hout & _ & Hev & _ & Hc & _).
  - repeat constructor; cbn; lia.
  - repeat constructor.
  - intros c [<- | []]. split; [exact I | left; left; reflexivity].
  - destruct (Hc (STACK 9) ltac:(simpl; auto)) as (Hf & Hin & _).
    specialize (Hin ltac:(left; reflexivity)).
    exists vm'. split; [exact Hg |]. split; [exact Hout |].
    split; [rewrite Hin, Hev; reflexivity |].
    split; [exact Hf | rewrite Hin; reflexivity].
Defined.

(** A host continuation frame on top of a boundary frame, both in the
    stack, the boundary frame held by the host-stack record. *)
Definition frame_boundary : ScmContFrame :=
  mkCont NULL NULL (STACK 0) 0 boundaryFrameMark None.
Definition vm_above_boundary : ScmVM :=
  set_conts (upd (upd (fun _ => zero_cont) (STACK 0) frame_boundary) (STACK 6) frame_above)
    (set_words (upd (fun _ => W_NULL) (STACK 12) (W_INT 7))
       (set_cont (STACK 6)
          (set_sp (STACK 13) (set_argp (STACK 13)
             (set_cstack [mkCStack 0 (STACK 0)] (Scm_NewVM None)))))).
Definition vm_above_boundary_saved : ScmVM :=
  match save_cont 16 vm_above_boundary with Some v => v | None => vm_above_boundary end.

Lemma Scm_VMCallPC_cuts_witness :
  exists (vm' : ScmVM) (r : ScmEscapePoint),
    Scm_VMCallPC 16 5 user_handler vm_above_boundary = Returns user_handler vm'
    /\ nth_error (eps vm') 0 = Some r
    /\ ep_cont r = HEAP 0 0 /\ ep_cstack r = None
    /\ c_prev (conts vm' (HEAP 0 0)) = NULL
    /\ c_pc (conts vm' (HEAP 0 0)) = PC_CCONT CC_dynwind_after
    /\ cont vm' = HEAP 1 0
    /\ BOUNDARY_FRAME_P vm' (HEAP 1 0) = true.
Proof.
  destruct (Scm_VMCallPC_cuts 16 5 user_handler vm_above_boundary vm_above_boundary_saved
              [HEAP 0 0] (HEAP 1 0))
    as (vm' & r & E & _ & _ & Hr & Hc & Hcs & _ & _ & _ & Hk & _ & Hcut & Hq).
  - vm_compute. reflexivity.
  - constructor; [reflexivity | vm_compute; reflexivity |].
    constructor. right. vm_compute. reflexivity.
  - reflexivity.
  - cbn. lia.
  - destruct (Hcut ltac:(discriminate)) as (_ & Hlast). cbn [last] in Hlast.
    assert (Hb : conts vm' (HEAP 1 0) = conts vm_above_boundary_saved (HEAP 1 0))
      by (apply Hq; intros _; discriminate).
    exists vm', r.
    split; [exact E |]. split; [exact Hr |]. split; [exact Hc |]. split; [exact Hcs |].
    split; [rewrite Hlast; reflexivity |].
    split; [rewrite Hlast; vm_compute; reflexivity |].
    split; [exact Hk |].
    unfold BOUNDARY_FRAME_P. rewrite Hb. vm_compute. reflexivity.
Defined.

(** A loop that fails at once with an error nobody of this level
    handles, in a VM entered from an outer host-stack record. *)
Definition failing_loop (vm : ScmVM) : outcome unit :=
  LongJmp (set_escapeData1 serious
             (set_escapeData0 None (set_escapeReason SCM_VM_ESCAPE_ERROR vm))).
Definition vm_called : ScmVM :=
  set_next_cstack 1 (set_cstack [mkCStack 0 NULL] vm_with_args).

Lemma user_eval_inner_error_escape_witness :
  exists vF,
    user_eval_inner 16 20 no_foreign_cc failing_loop 1 internal_apply_compiled_code
      (Some (apply_calls 0)) vm_called = LongJmp vF
    /\ sp vF = STACK 5 /\ argp vF = STACK 3 /\ cont vF = NULL
    /\ cstack vF = [mkCStack 0 NULL]
    /\ escapeReason vF = SCM_VM_ESCAPE_ERROR /\ escapeData1 vF = serious.
Proof.
  destruct (user_eval_inner_error_escape 16 20 no_foreign_cc failing_loop 0
              internal_apply_compiled_code (Some (apply_calls 0)) vm_called 5 3)
    as (addr & vin & _ & _ & Hesc).
  - reflexivity.
  - reflexivity.
  - unfold CONT_FRAME_SIZE. lia.
  - discriminate.
  - destruct (Hesc _ eq_refl eq_refl eq_refl eq_refl) as (_ & _ & Hpass).
    destruct (Hpass eq_refl ltac:(discriminate))
      as (vF & E & Hs & Ha & _ & _ & Hc & Hcs & Hr & _ & Hd & _).
    exists vF. split; [exact E |]. repeat split; assumption.
Defined.

(** Three arguments one word above the base of the stack, no
    continuation in the stack: the block moves down by one word, over
    itself. *)
Definition vm_tail_call : ScmVM :=
  set_words (upd (upd (upd (fun _ => W_NULL) (STACK 1) (W_INT 10)) (STACK 2) (W_INT 20))
               (STACK 3) (W_INT 30))
    (set_env (STACK 7) (set_sp (STACK 4) (set_argp (STACK 1) (Scm_NewVM None)))).

Lemma DISCARD_ENV_keeps_arguments_witness :
  arg_block (DISCARD_ENV 16 vm_tail_call) = [W_INT 10; W_INT 20; W_INT 30]
  /\ argp (DISCARD_ENV 16 vm_tail_call) = STACK 0
  /\ sp (DISCARD_ENV 16 vm_tail_call) = STACK 3
  /\ env (DISCARD_ENV 16 vm_tail_call) = NULL.
Proof.
  destruct (DISCARD_ENV_keeps_arguments 16 vm_tail_call 4 1 0 eq_refl eq_refl
              ltac:(lia) eq_refl ltac:(lia))
    as (Hb & Ha & Hs & He & _).
  split; [rewrite Hb; reflexivity |]. split; [exact Ha |]. split; [exact Hs | exact He].
Defined.

Lemma FINISH_ENV_get_env_witness :
  exists vm',
    get_env 16 (FINISH_ENV (SCM_MAKE_INT 9) NULL vm_with_args) = Some (vm', env vm')
    /\ IN_STACK_P 16 (env vm') = false
    /\ env_frames 1 vm' (env vm') = ([([W_INT 10; W_INT 20], SCM_MAKE_INT 9, 2)], NULL)
    /\ sp vm' = STACK 8.
Proof.
  destruct (FINISH_ENV_get_env 16 (SCM_MAKE_INT 9) NULL vm_with_args 5 3 [] NULL [] NULL)
    as (vm' & Hg & Hout & Hfr & Hs & _).
  - reflexivity.
  - reflexivity.
  - lia.
  - constructor. reflexivity.
  - intros [].
  - constructor. reflexivity.
  - intros c [].
  - exists vm'. split; [exact Hg |]. split; [exact Hout |].
    split; [exact Hfr | exact Hs].
Defined.

Lemma Scm_ApplyRecN_agree_witness :
  Scm_ApplyRec 16 20 no_foreign_cc idle_loop 1 user_handler
    (list_in_cells [SCM_MAKE_INT 1; SCM_MAKE_INT 2] 0) (Scm_NewVM None)
  = Scm_ApplyRec2 16 20 no_foreign_cc idle_loop 1 user_handler (SCM_MAKE_INT 1) (SCM_MAKE_INT 2)
      (Scm_NewVM None)
  /\ exists vm',
       Scm_ApplyRec2 16 20 no_foreign_cc idle_loop 1 user_handler (SCM_MAKE_INT 1)
         (SCM_MAKE_INT 2) (Scm_NewVM None) = Returns user_handler vm'
       /\ vals vm' 0%nat = SCM_MAKE_INT 1 /\ vals vm' 1%nat = SCM_MAKE_INT 2.
Proof.
  split.
  - apply (Scm_ApplyRecN_agree 16 20 no_foreign_cc idle_loop 1 user_handler
             (SCM_MAKE_INT 1) (SCM_MAKE_INT 2) SCM_FALSE SCM_FALSE SCM_FALSE 0
             (Scm_NewVM None)). lia.
  - eexists. split; [vm_compute; reflexivity |]. split; reflexivity.
Defined.
